(* ===== verification/_CoqProject ===== *)
-Q . S2P
Prelude.v
Proto.v
External.v
State.v
Io.v
Packing.v
Concrete.v
Utils.v
Substream.v
Connection.v
Account.v
Node.v
Host.v
RelayEvents.v
Typing.v
Proxy.v
Registry.v
Publish.v
Commands.v
RelayBehaviour.v
Behaviour.v
Requests.v
Codecs.v
Client.v
Exchange.v
Delivery.v
Chat.v
CommandLine.v
Handshake.v
System.v
Network.v
Authenticity.v
Scheduler.v
Simulation.v
Opening.v
Circuit.v
Construction.v
Negotiation.v
Signals.v
