(* ===== verification/Prelude.v ===== *)
(** * WhiteNoise.rs: a verification development

    WhiteNoise is a peer-to-peer privacy network on libp2p.  Two clients talk
    through a _circuit_

      caller - entry - sink - relay - access - answerer

    of nodes, each of which only knows its neighbours (nodes may coincide: the
    sink may be the access node, the relay may be the entry).  Every node on the
    way keeps a _session_ with up to two streams and relays between them; the two
    clients run a Noise handshake over the circuit and exchange encrypted
    messages.  This library models the Rust program under src/src/ and its chat
    client, src/whitenoise-client/, as executable definitions and proves what
    makes its parts, and their composition, correct.

    ** Files, in order, and the sources they model

    - Prelude: notations, tactics, hint databases, generic lemmas; no program.
    - Proto: the messages of src/*.proto as records, enumerations with their i32
      values, the codec class [PbCodec] and its law [PbRoundtrip].
    - External: everything third-party (libp2p ids and keys, bs58, multihash,
      ECIES crates, snow, multiaddr, prost) as operations of the class [Ext],
      their documented laws as separate classes ([Base58Laws], [CodecLaws],
      [EciesLaws], [KeyLaws], [NoiseTransportLaws], [NoiseXXLaws],
      [NoiseIdentityLaws], [MultiaddrLaws], [BytesLaws], [SizeLaws], ...).
    - State: network/session.rs, models/client_info.rs, and the state of a node
      ([Shared]: the maps and queues behind the [Arc<RwLock<..>>] fields of
      [Node] in network/node.rs, the transports behind [CircuitConn], the next
      fresh channel or [Arc]); the requests of the channels; the tasks.
    - Io: programs ([io]), their execution, weakest preconditions.
    - Packing, Concrete: a computable instance [toy] of [Ext] with all the laws
      (Packing is its codec of messages), and a calm environment, for evaluation
      and witnesses.
    - Utils: network/utils.rs (framing, confusion padding, relay messages,
      forwarding) and network/const_vb.rs.
    - Substream: the functions of network/utils.rs on raw substreams.
    - Connection: network/connection.rs (encrypted reads and writes).
    - Account: account/key_types.rs, account/account_service.rs.
    - Node: network/node.rs.  [new_session_to_peer], [dial], [register_proxy],
      [handle_close_session] and the others have the names of the methods.
    - Host: sdk/host.rs (start-up of a server or a client: identity, swarm,
      gossipsub, bootstrap, listening, the tasks that are spawned) and the main
      function of src/main.rs.
    - RelayEvents: network/relay_event_handler.rs, one definition per handler;
      [relay_event_step] is one iteration of the loop of [relay_event_handler].
    - Proxy, Publish, Commands: network/proxy_event_handler.rs,
      publish_event_handler.rs, cmd_event_handler.rs.
    - RelayBehaviour: network/protocols/relay_behaviour.rs and
      relay_protocol.rs (event queues, protocol upgrades, the poll task of a
      stream).
    - Behaviour: network/whitenoise_behaviour.rs (event injection, the server's
      and the client's event loop, the peer list of the routing table).
    - Codecs: network/protocols/{proxy,cmd,ack}_protocol.rs, three instances of
      one interface [RrCodec].
    - Client: sdk/client.rs; the trait [Client] is a class.
    - Chat: whitenoise-client/src/main.rs, against the class [Client].
    - CommandLine: the command lines of src/main.rs and of
      whitenoise-client/src/main.rs, and what the two [main] functions do with
      them, against the class [Clap].
    - Typing, Registry, Requests, Exchange, Delivery, Handshake, System, Opening,
      Circuit, Construction, Negotiation, Signals: no new code; theorems about
      the composition of the parts above.
    - Network, Authenticity, Scheduler, Simulation: no new code; the semantics of
      several nodes that run together, what holds in all its reachable states, an
      executable scheduler for it, and a run of five nodes.

    ** How the code is modelled

    An [async fn] is a program of [io]: a tree of _atomic actions_ on [Shared]
    (one per acquisition of a lock: two [read().unwrap()] in the source are two
    actions, between which other tasks may run), of _commands_ to the outside
    (sends and receives on channels, sleeping, randomness, the clock, spawning a
    task, calls of the swarm), and of panics ([unwrap], index and slice errors).
    [run] executes a program against an environment that answers the commands
    and may interfere with the state before each action.  [ensures R s p Q] says
    that in every environment allowed by [R], the run of [p] from [s] has a
    trace of commands, an outcome (returned, panicked, blocked on a channel,
    still running) and a final state in [Q].  Four assumptions [R] are used most:
    [calm] (nobody interferes, sends succeed, random numbers are in their range;
    a wait for a channel may get any reply or none), [calm_with f] (calm, with
    the replies of the script [f]), [noise_env] (calm, with a Noise library that
    makes keys for the identity and states for the key and the role it is asked
    for), and [any_env] (anything).  The functional
    specifications are stated under the first three and cover every outcome;
    [System], [Registry] and [Client.process_new_session_spec] quantify over
    interference.

    Channels are numbers.  A oneshot receiver is awaited by its number and the
    event bus maps a command id to the number of its sender.  A stream is its
    [WrappedStream]: its peer and its id; what is sent on it is a command of the
    trace.  Hash maps are [gmap]s; an iteration order is a parameter.  Machine
    integers keep their width where the program's results depend on it
    ([usize_add] wraps, as in a release build; lengths are truncated to 16 and 32
    bits as [as u16] and [as u32] do); strings are byte strings.

    ** The theorems

    - System: [reachable_wf], the invariant of the shared state, and
      [reachable_typed], the typing of every message sent, under every
      interleaving of all the tasks, events and SDK calls of a node, from the
      start-up of a server, a client or the chat program; [frames_may_reorder].
      The invariant [wf K] says, next to the shape of the state, where what it
      holds comes from: [K] (a [news]) is what the node has been given so far.
    - Authenticity: the network, each of whose nodes is a node of [System].
      [frames_authentic], [requests_authentic], [clients_registered]: a node is
      given no frame, request or acknowledgement that another has not sent it, and
      serves nobody who has not asked.  [frames_handled]: every frame decodes, and
      the handler of a stream, run alone, panics on exactly two messages that come
      before what they should follow, and deals with the others.
      [requests_served]: what panics of the event loops are left (Typing and
      Requests have the lemmas of type safety).
    - Simulation: an example, [chat_network_talks]: one run of a network of three
      servers and two chat clients, on the concrete instance, from start-up to the
      text on both terminals.
    - Delivery: [path_delivers], [end_to_end]: from a write at one client, over the
      poll tasks of the streams and through any number of relaying nodes, to the
      read at the other; and what the poll tasks' limit of 4096 bytes ([READ_MAX])
      lets through: messages of up to some 3550 bytes always, those above 4096
      never, as [SizeLaws] has the lengths of encodings.  Chat:
      [chat_line_delivered], the same from terminal to terminal.
    - Opening: [session_opens], both sides of the opening of a session and its
      acknowledgement; [ack_can_be_lost], how it can come too early.
      Construction: what the entry and the access node do to build a circuit, on
      every outcome.  Circuit and Signals:
      [circuit_established], from the two probes, over any paths of nodes, to the
      handshakes of the two ends; [probe_race], how the probes can miss each
      other.  Handshake: [handshake_agrees], both ends of the Noise handshake,
      each cut at its receives ([pause]), exchanging their frames.
    - Exchange: [registration_agrees], [peers_exchange]: a client and its node
      on the two sides of a request.  Negotiation: [negotiation_agrees], the
      entry node, the caller, the answerer and the access node come to one
      session and sink; [extension_agrees], the access node and its relay.
    - RelayEvents, Node, Commands, Proxy: every branch of the handlers, what a
      completed handshake and a completed dial leave behind, the negotiation's
      encryption round trip, the choice of the next node.
    - Host, Account, CommandLine: what start-up does ([commands_start], from the
      command line); a node keeps its identity over restarts; key handling.
    - Registry: the clients of a proxy under interference.
    - Utils, Substream, Codecs: framing, padding bounds, the equivalence of the
      two families of readers and writers (by setoid rewriting up to [io_eq]),
      codecs.
    - RelayBehaviour, Behaviour, Client: queues, how a stream comes about at its
      two ends, acknowledgements, the routing table's prefix, the announcement
      of sessions.

    ** Fuel

    [loop] runs its body at most [fuel] times and is [Diverge] (outcome
    [Running]) after that.  The wait for a stream has the 101 rounds its 5000 ms
    in steps of 50 ms allow, and [wait_for_out_terminates] shows they are enough
    in every environment.  The other loops are the endless loops of the program's
    tasks: their theorems hold for every fuel, or are about one iteration; the
    network of [Simulation] gives each task 3000 rounds, of which its run needs
    fewer, since it ends with both texts shown.

    ** What is not modelled

    Third-party code is a parameter throughout: libp2p's transport, swarm,
    Kademlia and gossipsub (their configuration and the calls made to them are
    commands of the trace), the cryptography, the database.  The id gossipsub
    gives a message (a hash of its data) is a flag of the configuration.  Not
    modelled: the poisoning of locks by a panic of another task, clap's parsing
    (the class [Clap], with its documented behaviour as a law), the log output,
    build scripts, module declarations and tests.

    [Network] runs nodes that all run this program: a node that does not is in
    [System], where the environment may send anything.  In it, a read of a frame
    takes the whole frame, if it is not too long, and the closing of a stream is not seen at its other
    end (a read may fail at any time instead).  Not proved: that every network
    builds every circuit.  [Opening], [Construction], [Negotiation] and [Signals]
    have the stages for any nodes and paths, [Simulation] the whole for one
    network. *)

From stdpp Require Export base tactics option list gmap strings countable numbers.
From Stdlib Require Export ZArith Lia.
From Stdlib Require Export Strings.Byte.

#[global] Open Scope Z_scope.
#[global] Open Scope list_scope.
#[global] Open Scope nat_scope.

(** ** Hint databases of the development *)

Create HintDb keeps discriminated.
Create Rewrite HintDb pb.

(** ** Tactics *)

(** [case_lookup] splits on the first map lookup of the goal. *)
Ltac case_lookup :=
  match goal with
  | |- context [match ?m !! ?k with _ => _ end] => destruct (m !! k) eqn:?
  end.

(** [case_goal] splits on the scrutinee of the first match of the goal. *)
Ltac case_goal :=
  match goal with
  | |- context [match ?x with _ => _ end] => destruct x eqn:?
  end.

(** [case_bool] decides the first boolean test of the goal, and the same
    proposition under [decide]. *)
Ltac case_bool :=
  case_bool_decide;
  repeat match goal with
         | H : ?P |- context [decide ?P] => destruct (decide P); [|contradiction]
         | H : ¬ ?P |- context [decide ?P] => destruct (decide P); [contradiction|]
         end.

(** [invert H] is inversion that cleans up after itself. *)
Ltac invert H := inversion H; clear H; simplify_eq.

(** ** Results, as Rust's [Result<T, E>] *)

Inductive result (A E : Type) : Type :=
| Ok (a : A)
| Err (e : E).
Arguments Ok {A E} a.
Arguments Err {A E} e.

(** ** Bytes: Rust's [u8], and [Vec<u8>] as a list *)

Abbreviation u8 := Byte.byte.
Abbreviation bytes := (list Byte.byte).

#[global] Instance u8_eq_dec : EqDecision u8 := Byte.byte_eq_dec.

#[global] Instance u8_countable : Countable u8.
Proof.
  refine (inj_countable Byte.to_N Byte.of_N _).
  intros x. apply Byte.of_to_N.
Defined.

(** [u8_Z b] is [b as usize]; [Z_u8 z] is [z as u8], which keeps the low
    eight bits. *)
Definition u8_Z (b : u8) : Z := Z.of_N (Byte.to_N b).

Definition Z_u8 (z : Z) : u8 := default x00 (Byte.of_N (Z.to_N (z mod 256))).

Lemma u8_Z_bound (b : u8) : (0 <= u8_Z b < 256)%Z.
Proof. unfold u8_Z. pose proof (Byte.to_N_bounded b). lia. Qed.

Lemma u8_Z_Z_u8 (z : Z) : u8_Z (Z_u8 z) = (z mod 256)%Z.
Proof.
  unfold u8_Z, Z_u8. pose proof (Z.mod_pos_bound z 256 ltac:(lia)) as Hb.
  destruct (Byte.of_N (Z.to_N (z mod 256))) as [b|] eqn:E; simpl.
  - apply Byte.to_of_N in E. lia.
  - apply Byte.of_N_None_iff in E. lia.
Qed.

Lemma Z_u8_u8_Z (b : u8) : Z_u8 (u8_Z b) = b.
Proof.
  unfold Z_u8, u8_Z. pose proof (Byte.to_N_bounded b) as Hb.
  rewrite Z.mod_small by lia. rewrite N2Z.id. by rewrite Byte.of_to_N.
Qed.

Lemma u8_Z_inj (a b : u8) : u8_Z a = u8_Z b → a = b.
Proof. intros H. by rewrite <- (Z_u8_u8_Z a), <- (Z_u8_u8_Z b), H. Qed.

(** Rust strings are modelled by their UTF-8 bytes, [as_bytes]. *)
Definition as_bytes (s : string) : bytes := String.list_byte_of_string s.
Definition of_bytes (b : bytes) : string := String.string_of_list_byte b.

Lemma of_as_bytes s : of_bytes (as_bytes s) = s.
Proof. apply String.string_of_list_byte_of_string. Qed.

Lemma as_of_bytes b : as_bytes (of_bytes b) = b.
Proof. apply String.list_byte_of_string_of_list_byte. Qed.

(** [is_char_boundary] of the standard library at a byte: a byte starts a
    character unless it is a UTF-8 continuation byte [0b10xxxxxx]. *)
Definition starts_char (b : u8) : bool := negb (Z.land (u8_Z b) 192 =? 128)%Z.

(** [str::split_at(1)]: panics ([None]) unless byte 1 is a character
    boundary of the string. *)
Definition split_at_1 (s : string) : option (bytes * string) :=
  match as_bytes s with
  | [] => None
  | [b] => Some ([b], of_bytes [])
  | b :: c :: rest => if starts_char c then Some ([b], of_bytes (c :: rest)) else None
  end.

(** Checked slicing, as [v[i]] and [v[i..j]]: [None] is the index panic. *)
Definition slice {A} (l : list A) (i j : nat) : option (list A) :=
  if decide (i <= j ∧ j <= length l) then Some (take (j - i) (drop i l)) else None.

Lemma slice_spec {A} (a b c : list A) :
  slice (a ++ b ++ c) (length a) (length a + length b) = Some b.
Proof.
  unfold slice. rewrite decide_True by (rewrite !length_app; lia).
  rewrite drop_app_length. replace (_ + _ - _) with (length b) by lia.
  by rewrite take_app_length.
Qed.

Lemma slice_spec' {A} (a b c : list A) (i j : nat) :
  i = length a → j = length a + length b → slice (a ++ b ++ c) i j = Some b.
Proof. intros -> ->. apply slice_spec. Qed.

Lemma slice_None {A} (l : list A) (i j : nat) :
  i <= j → slice l i j = None ↔ length l < j.
Proof. intros Hij. unfold slice. case_decide; split; intros; try done; lia. Qed.

Lemma slice_length {A} (l r : list A) (i j : nat) :
  slice l i j = Some r → length r = j - i.
Proof.
  unfold slice. case_decide; intros; simplify_eq.
  rewrite length_take, length_drop. lia.
Qed.

(** ** Big-endian integers *)

(** [bytes::BufMut::put_u16] and [put_u32] are documented to append the
    integer in big-endian order; [n as u16] keeps the low sixteen bits. *)
Definition be_bytes (w : nat) (z : Z) : bytes :=
  map (λ i, Z_u8 (Z.shiftr z (8 * Z.of_nat i))) (rev (seq 0 w)).

Definition from_be_bytes (l : bytes) : Z := fold_left (λ acc b, acc * 256 + u8_Z b)%Z l 0%Z.

Lemma be_bytes_length w z : length (be_bytes w z) = w.
Proof. unfold be_bytes. by rewrite length_map, length_rev, length_seq. Qed.

Lemma be_bytes_2 z : be_bytes 2 z = [Z_u8 (z / 256); Z_u8 z].
Proof.
  unfold be_bytes; simpl. rewrite Z.shiftr_0_r.
  do 2 f_equal. change 256%Z with (2 ^ 8)%Z. by rewrite Z.shiftr_div_pow2 by lia.
Qed.

Lemma be_bytes_4 z :
  be_bytes 4 z = [Z_u8 (z / 16777216); Z_u8 (z / 65536); Z_u8 (z / 256); Z_u8 z].
Proof.
  unfold be_bytes; simpl. rewrite !Z.shiftr_div_pow2 by lia. cbn. by rewrite Z.div_1_r.
Qed.

Lemma from_be_bytes_2 z :
  from_be_bytes (be_bytes 2 z) = (z mod 65536)%Z.
Proof.
  rewrite be_bytes_2. cbn [from_be_bytes fold_left]. rewrite !u8_Z_Z_u8.
  Z.div_mod_to_equations. lia.
Qed.

Lemma from_be_bytes_4 z :
  from_be_bytes (be_bytes 4 z) = (z mod 4294967296)%Z.
Proof.
  rewrite be_bytes_4. cbn [from_be_bytes fold_left]. rewrite !u8_Z_Z_u8.
  Z.div_mod_to_equations. lia.
Qed.

(** ** Fixed-width arithmetic: [usize] of a 64-bit target *)

Definition usize_max : Z := (2 ^ 64)%Z.
Definition usize_add (a b : Z) : Z := ((a + b) mod usize_max)%Z.

(** ** Generic lemmas *)

(** The suffix of a string contains a pattern somewhere: [str::find] is some,
    or [str::matches] is not empty. *)
Fixpoint str_contains (pat s : string) : bool :=
  String.prefix pat s ||
  match s with
  | EmptyString => false
  | String _ s' => str_contains pat s'
  end.
