(* ===== verification/Proto.v ===== *)
(** * Wire messages

    The protobuf messages of src/*.proto as records, their enumerations with
    the [i32] values prost gives them, and the codec interface [PbCodec]: the
    encoders and decoders themselves are generated by prost at build time, so
    they are operations of a type class with the documented round trip as a
    separate law class. *)

From S2P Require Import Prelude.

(** ** src/relay.proto *)

Record Relay := mkRelay {
  relay_id : string;
  relay_type : Z;
  relay_data : bytes;
  relay_confusion : bytes
}.

#[export] Instance Relay_eq_dec : EqDecision Relay.
Proof. solve_decision. Defined.

Record SetSessionIdMsg := mkSetSessionIdMsg {
  ssid_session_id : string;
  ssid_role : Z
}.

#[export] Instance SetSessionIdMsg_eq_dec : EqDecision SetSessionIdMsg.
Proof. solve_decision. Defined.

Record RelayMsg := mkRelayMsg {
  rmsg_session_id : string;
  rmsg_data : bytes
}.

#[export] Instance RelayMsg_eq_dec : EqDecision RelayMsg.
Proof. solve_decision. Defined.

(** No program sends the acknowledgement of a relay message. *)
Record AckMsg := mkAckMsg {
  ackmsg_id : bytes;
  ackmsg_res : bool
}.

#[export] Instance AckMsg_eq_dec : EqDecision AckMsg.
Proof. solve_decision. Defined.

Record ProbeSignal := mkProbeSignal {
  probe_session_id : string;
  probe_data : bytes
}.

#[export] Instance ProbeSignal_eq_dec : EqDecision ProbeSignal.
Proof. solve_decision. Defined.

Record Disconnect := mkDisconnect {
  disc_session_id : string;
  disc_err_code : Z
}.

#[export] Instance Disconnect_eq_dec : EqDecision Disconnect.
Proof. solve_decision. Defined.

Record CircuitSuccess := mkCircuitSuccess {
  csucc_session_id : string
}.

#[export] Instance CircuitSuccess_eq_dec : EqDecision CircuitSuccess.
Proof. solve_decision. Defined.

(** ** src/command.proto *)

Record Command := mkCommand {
  command_command_id : string;
  command_type : Z;
  command_from : string;
  command_data : bytes
}.

#[export] Instance Command_eq_dec : EqDecision Command.
Proof. solve_decision. Defined.

Record SessionExpend := mkSessionExpend {
  expend_session_id : string;
  expend_peer_id : string
}.

#[export] Instance SessionExpend_eq_dec : EqDecision SessionExpend.
Proof. solve_decision. Defined.

Record Ack := mkAck {
  ack_command_id : string;
  ack_result : bool;
  ack_data : bytes
}.

#[export] Instance Ack_eq_dec : EqDecision Ack.
Proof. solve_decision. Defined.

(** Nor the closing of a session by command. *)
Record DisconnectCmd := mkDisconnectCmd {
  dcmd_session_id : string
}.

#[export] Instance DisconnectCmd_eq_dec : EqDecision DisconnectCmd.
Proof. solve_decision. Defined.

(** ** src/request.proto *)

Record Request := mkRequest {
  req_req_id : string;
  req_from : string;
  req_reqtype : Z;
  req_data : bytes
}.

#[export] Instance Request_eq_dec : EqDecision Request.
Proof. solve_decision. Defined.

Record NewCircuit := mkNewCircuit {
  nc_from : string;
  nc_to : string;
  nc_session_id : string
}.

#[export] Instance NewCircuit_eq_dec : EqDecision NewCircuit.
Proof. solve_decision. Defined.

Record NewProxy := mkNewProxy {
  np_time : string;
  np_white_noise_id : string
}.

#[export] Instance NewProxy_eq_dec : EqDecision NewProxy.
Proof. solve_decision. Defined.

Record Decrypt := mkDecrypt {
  decr_destination : string;
  decr_cypher : bytes
}.

#[export] Instance Decrypt_eq_dec : EqDecision Decrypt.
Proof. solve_decision. Defined.

(** Nor the end of a registration. *)
Record UnRegister := mkUnRegister {
  unreg_session_id : list string
}.

#[export] Instance UnRegister_eq_dec : EqDecision UnRegister.
Proof. solve_decision. Defined.

Record NegPlaintext := mkNegPlaintext {
  negp_session_id : string;
  negp_neg : bytes
}.

#[export] Instance NegPlaintext_eq_dec : EqDecision NegPlaintext.
Proof. solve_decision. Defined.

Record MainNetPeers := mkMainNetPeers {
  mnp_max : Z
}.

#[export] Instance MainNetPeers_eq_dec : EqDecision MainNetPeers.
Proof. solve_decision. Defined.

Record NodeInfo := mkNodeInfo {
  ni_id : string;
  ni_addr : list string
}.

#[export] Instance NodeInfo_eq_dec : EqDecision NodeInfo.
Proof. solve_decision. Defined.

Record PeersList := mkPeersList {
  pl_peers : list NodeInfo
}.

#[export] Instance PeersList_eq_dec : EqDecision PeersList.
Proof. solve_decision. Defined.

(** ** src/gossip.proto *)

Record Negotiate := mkNegotiate {
  neg_join : string;
  neg_session_id : string;
  neg_destination : string;
  neg_sig : bytes
}.

#[export] Instance Negotiate_eq_dec : EqDecision Negotiate.
Proof. solve_decision. Defined.

Record EncryptedNeg := mkEncryptedNeg {
  eneg_des : string;
  eneg_cypher : bytes
}.

#[export] Instance EncryptedNeg_eq_dec : EqDecision EncryptedNeg.
Proof. solve_decision. Defined.

(** ** src/payload.proto *)

Record NoiseHandshakePayload := mkNoiseHandshakePayload {
  nhp_identity_key : bytes;
  nhp_identity_sig : bytes;
  nhp_data : bytes
}.

#[export] Instance NoiseHandshakePayload_eq_dec : EqDecision NoiseHandshakePayload.
Proof. solve_decision. Defined.

(** ** src/chat.proto *)

Record ChatMessage := mkChatMessage {
  chat_peer_id : string;
  chat_data : bytes
}.

#[export] Instance ChatMessage_eq_dec : EqDecision ChatMessage.
Proof. solve_decision. Defined.

(** ** Enumerations, with their [as i32] values *)

Inductive Relaytype := RtSetSessionId | RtAck | RtData | RtDisconnect | RtWake | RtProbe | RtSuccess.

#[export] Instance Relaytype_eq_dec : EqDecision Relaytype.
Proof. solve_decision. Defined.

Definition relaytype_i32 (t : Relaytype) : Z :=
  match t with
  | RtSetSessionId => 0
  | RtAck => 1
  | RtData => 2
  | RtDisconnect => 3
  | RtWake => 4
  | RtProbe => 5
  | RtSuccess => 6
  end.

Inductive Cmdtype := CtSessionExPend | CtDisconnect.

Definition cmdtype_i32 (t : Cmdtype) : Z :=
  match t with
  | CtSessionExPend => 0
  | CtDisconnect => 1
  end.

Inductive Reqtype :=
  RqGetOnlineNodes | RqNewProxy | RqNewCircuit | RqDecryptGossip | RqNegPlainText
| RqUnRegisterType | RqMainNetPeers.

Definition reqtype_i32 (t : Reqtype) : Z :=
  match t with
  | RqGetOnlineNodes => 0
  | RqNewProxy => 1
  | RqNewCircuit => 2
  | RqDecryptGossip => 3
  | RqNegPlainText => 4
  | RqUnRegisterType => 5
  | RqMainNetPeers => 6
  end.

#[export] Instance relaytype_i32_inj : Inj (=) (=) relaytype_i32.
Proof. intros [] []; by simpl. Qed.

#[export] Instance reqtype_i32_inj : Inj (=) (=) reqtype_i32.
Proof. intros [] []; by simpl. Qed.

(** ** Codecs *)

(** [Message::encode] into a [Vec] (which never fails) and
    [Message::decode], which fails on malformed input. *)
Class PbCodec (M : Type) := {
  pb_encode : M → bytes;
  pb_decode : bytes → option M
}.

(** Decoding what was encoded gives the message back. *)
Class PbRoundtrip (M : Type) `{!PbCodec M} : Prop :=
  pb_decode_encode : ∀ m : M, pb_decode (pb_encode m) = Some m.

#[export] Hint Rewrite @pb_decode_encode using apply _ : pb.
