(* ===== verification/External.v ===== *)
(** * Third-party interfaces

    What the program calls and this repository does not define: libp2p peer
    ids, multiaddresses and identity keys, bs58, multihash, the ECIES crates,
    snow, and the prost codecs of the messages of [Proto].  They are the
    operations of the type class [Ext]; the documented laws the proofs use are
    separate classes, so that each theorem names the ones it needs.  A
    concrete instance of all of them is in [Concrete]. *)

From S2P Require Import Prelude Proto.

(** [libp2p::identity::Keypair], by its constructors. *)
Inductive KeypairOf (Ed Secp Rsa : Type) : Type :=
| Ed25519 (k : Ed)
| Secp256k1 (k : Secp)
| RsaKey (k : Rsa).
Arguments Ed25519 {Ed Secp Rsa} k.
Arguments Secp256k1 {Ed Secp Rsa} k.
Arguments RsaKey {Ed Secp Rsa} k.

Class Ext := {
  (* libp2p::PeerId *)
  PeerId : Type;
  PeerId_eq_dec :: EqDecision PeerId;
  PeerId_countable :: Countable PeerId;
  to_base58 : PeerId → string;
  peer_id_from_bytes : bytes → option PeerId;

  (* bs58::encode(..).into_string(), bs58::decode(..).into_vec() *)
  bs58_encode : bytes → string;
  bs58_decode : string → option bytes;

  (* multihash: Code::Sha2_256.digest(buf).to_bytes() *)
  sha2_256_to_bytes : bytes → bytes;

  (* libp2p::Multiaddr *)
  Multiaddr : Type;
  multiaddr_parse : string → option Multiaddr;
  multiaddr_to_string : Multiaddr → string;

  (* libp2p::identity *)
  EdKeypair : Type;
  SecpKeypair : Type;
  RsaKeypair : Type;
  keypair_peer_id : KeypairOf EdKeypair SecpKeypair RsaKeypair → PeerId;
  ed_public_encode : EdKeypair → bytes;
  ed_secret : EdKeypair → bytes;
  ed_keypair_encode : EdKeypair → bytes;
  ed_keypair_decode : bytes → option EdKeypair;
  secp_public_encode : SecpKeypair → bytes;
  secp_secret_bytes : SecpKeypair → bytes;
  secp_keypair_from_secret : bytes → option SecpKeypair;
  secp_public_uncompressed : bytes → option bytes;
  sha512 : bytes → bytes;

  (* eth_ecies and ecies_ed25519: key, plaintext and the randomness used *)
  secp_ecies_encrypt : bytes → bytes → bytes → option bytes;
  secp_ecies_decrypt : bytes → bytes → option bytes;
  ed_ecies_encrypt : bytes → bytes → bytes → option bytes;
  ed_ecies_decrypt : bytes → bytes → option bytes;

  (* libp2p::noise::Keypair<X25519Spec>, authenticated by an identity key *)
  NoiseKeys : Type;
  noise_public : NoiseKeys → bytes;
  noise_secret : NoiseKeys → bytes;
  noise_identity_public : NoiseKeys → bytes;
  noise_identity_signature : NoiseKeys → option bytes;
  verify_protobuf_key : bytes → bytes → bytes → option bool;

  (* snow: the numbers are the lengths of the output buffers *)
  HandshakeState : Type;
  TransportState : Type;
  hs_write_message : HandshakeState → bytes → nat → option (HandshakeState * bytes);
  hs_read_message : HandshakeState → bytes → nat → option (HandshakeState * bytes);
  hs_get_remote_static : HandshakeState → option bytes;
  hs_into_transport_mode : HandshakeState → option TransportState;
  ts_write_message : TransportState → bytes → nat → option (TransportState * bytes);
  ts_read_message : TransportState → bytes → nat → option (TransportState * bytes);

  (* bytes: the length of chunk_mut() of a Vec<u8> made with_capacity(cap)
     that holds len bytes *)
  vec_chunk_len : nat → nat → nat;

  (* prost *)
  codec_Relay :: PbCodec Relay;
  codec_SetSessionIdMsg :: PbCodec SetSessionIdMsg;
  codec_RelayMsg :: PbCodec RelayMsg;
  codec_ProbeSignal :: PbCodec ProbeSignal;
  codec_Disconnect :: PbCodec Disconnect;
  codec_CircuitSuccess :: PbCodec CircuitSuccess;
  codec_Command :: PbCodec Command;
  codec_SessionExpend :: PbCodec SessionExpend;
  codec_Ack :: PbCodec Ack;
  codec_Request :: PbCodec Request;
  codec_NewCircuit :: PbCodec NewCircuit;
  codec_NewProxy :: PbCodec NewProxy;
  codec_Decrypt :: PbCodec Decrypt;
  codec_NegPlaintext :: PbCodec NegPlaintext;
  codec_MainNetPeers :: PbCodec MainNetPeers;
  codec_PeersList :: PbCodec PeersList;
  codec_Negotiate :: PbCodec Negotiate;
  codec_EncryptedNeg :: PbCodec EncryptedNeg;
  codec_NoiseHandshakePayload :: PbCodec NoiseHandshakePayload;
  codec_ChatMessage :: PbCodec ChatMessage
}.

Abbreviation Keypair := (KeypairOf EdKeypair SecpKeypair RsaKeypair).

(** ** Documented laws *)

(** prost: decoding inverts encoding, for every message type. *)
Class CodecLaws {EXT : Ext} : Prop := {
  law_Relay :: PbRoundtrip Relay;
  law_SetSessionIdMsg :: PbRoundtrip SetSessionIdMsg;
  law_RelayMsg :: PbRoundtrip RelayMsg;
  law_ProbeSignal :: PbRoundtrip ProbeSignal;
  law_Disconnect :: PbRoundtrip Disconnect;
  law_CircuitSuccess :: PbRoundtrip CircuitSuccess;
  law_Command :: PbRoundtrip Command;
  law_SessionExpend :: PbRoundtrip SessionExpend;
  law_Ack :: PbRoundtrip Ack;
  law_Request :: PbRoundtrip Request;
  law_NewCircuit :: PbRoundtrip NewCircuit;
  law_NewProxy :: PbRoundtrip NewProxy;
  law_Decrypt :: PbRoundtrip Decrypt;
  law_NegPlaintext :: PbRoundtrip NegPlaintext;
  law_MainNetPeers :: PbRoundtrip MainNetPeers;
  law_PeersList :: PbRoundtrip PeersList;
  law_Negotiate :: PbRoundtrip Negotiate;
  law_EncryptedNeg :: PbRoundtrip EncryptedNeg;
  law_NoiseHandshakePayload :: PbRoundtrip NoiseHandshakePayload;
  law_ChatMessage :: PbRoundtrip ChatMessage
}.

(** bs58 and libp2p: base58 strings are ASCII and decode to the bytes they
    encode, and the base58 form of a peer id parses back to it (so it determines
    it). *)
Class Base58Laws `{!Ext} : Prop := {
  bs58_decode_encode : ∀ b, bs58_decode (bs58_encode b) = Some b;
  bs58_ascii : ∀ b, Forall (λ x, (u8_Z x < 128)%Z) (as_bytes (bs58_encode b));
  peer_id_of_base58 : ∀ p, bs58_decode (to_base58 p) ≫= peer_id_from_bytes = Some p
}.

#[export] Instance to_base58_inj {EXT : Ext} `{!Base58Laws} : Inj (=) (=) to_base58.
Proof.
  intros p q Heq. pose proof (peer_id_of_base58 p) as Hp.
  rewrite Heq, peer_id_of_base58 in Hp. congruence.
Qed.

(** The ECIES crates: what is encrypted to the public key of a pair decrypts
    with its secret, whatever the randomness. *)
Class EciesLaws {EXT : Ext} : Prop := {
  secp_uncompressed_length : ∀ k, ∃ u,
    secp_public_uncompressed (secp_public_encode k) = Some u ∧ length u = 65;
  secp_ecies_roundtrip : ∀ k u plain seed,
    secp_public_uncompressed (secp_public_encode k) = Some u →
    ∃ c, secp_ecies_encrypt (take 64 (drop 1 u)) plain seed = Some c ∧
         secp_ecies_decrypt (secp_secret_bytes k) c = Some plain
}.

(** libp2p: a stored key pair decodes to itself. *)
Class KeyLaws {EXT : Ext} : Prop := {
  ed_keypair_roundtrip : ∀ k, ed_keypair_decode (ed_keypair_encode k) = Some k;
  secp_keypair_roundtrip : ∀ k, secp_keypair_from_secret (secp_secret_bytes k) = Some k
}.

(** bytes: the chunk of a [Vec] with room left is what is left of its capacity;
    a full one is grown by at least one byte. *)
Class BytesLaws {EXT : Ext} : Prop := {
  chunk_room : ∀ cap len, len < cap → vec_chunk_len cap len = cap - len;
  chunk_full : ∀ cap, 0 < vec_chunk_len cap cap
}.

(** multihash: two bytes of prefix come before the digest. *)
Class MultihashLaws {EXT : Ext} : Prop :=
  multihash_prefix : ∀ b, 2 ≤ length (sha2_256_to_bytes b).

(** The lengths of what goes into a frame.  multihash: a SHA2-256 multihash has 2 +
    32 bytes.  bs58: a character of base 58 has more than half of the bits of a
    byte.  The protobuf encoding: a field of bytes is in the encoding as it is, and a
    number that is not zero has its key and value there; each field of a message
    costs at most a byte for its key and ten for a varint on top of its contents,
    when the message is below the two gigabytes protobuf allows. *)
Definition encoded_between (fields : nat) (low content n : nat) : Prop :=
  low ≤ n ∧ ((Z.of_nat content < 2 ^ 31)%Z → n ≤ content + 11 * fields).

Class SizeLaws {EXT : Ext} : Prop := {
  multihash_length : ∀ b, length (sha2_256_to_bytes b) = 34;
  bs58_length : ∀ b, length (as_bytes (bs58_encode b)) ≤ 2 * length b;
  relay_length : ∀ r t, relay_type r = relaytype_i32 t →
    encoded_between 4 (length (relay_data r) + if decide (t = RtSetSessionId) then 0 else 2)
      (length (as_bytes (relay_id r)) + length (relay_data r) + length (relay_confusion r))
      (length (pb_encode r));
  relay_msg_length : ∀ m,
    encoded_between 2 (length (rmsg_data m))
      (length (as_bytes (rmsg_session_id m)) + length (rmsg_data m)) (length (pb_encode m));
  probe_length : ∀ m,
    encoded_between 2 (length (probe_data m))
      (length (as_bytes (probe_session_id m)) + length (probe_data m)) (length (pb_encode m));
  success_length : ∀ m,
    encoded_between 1 (length (as_bytes (csucc_session_id m)))
      (length (as_bytes (csucc_session_id m))) (length (pb_encode m));
  chat_message_length : ∀ m,
    encoded_between 2 (length (chat_data m))
      (length (as_bytes (chat_peer_id m)) + length (chat_data m)) (length (pb_encode m))
}.

(** snow's transport mode: a message fits its buffer when it is at most 65535
    bytes with its 16-byte tag, and the peer's state decrypts it. [ts_peer a
    b] relates a sending state to the receiving state in step with it. *)
Class NoiseTransportLaws {EXT : Ext} (ts_peer : TransportState → TransportState → Prop) : Prop := {
  ts_roundtrip : ∀ a b msg n m,
    ts_peer a b → (Z.of_nat (length msg) + 16 <= 65535)%Z →
    length msg + 16 ≤ n → length msg ≤ m →
    ∃ a' b' c, ts_write_message a msg n = Some (a', c) ∧ length c = length msg + 16 ∧
               ts_read_message b c m = Some (b', msg) ∧ ts_peer a' b';
  ts_too_long : ∀ a msg n,
    (65535 < Z.of_nat (length msg) + 16)%Z ∨ n < length msg + 16 →
    ts_write_message a msg n = None
}.

(** snow's handshake with the pattern XX: between a state built for an
    initiator and one built for a responder, each with its static key, the three
    messages are read as they are written, with their payloads when they leave
    room for the keys and tags; each side then knows the other's static key and
    the transport states are in step in both directions.  [built k i hs]: the
    builder with the private key of [k] may make [hs]. *)
Class NoiseXXLaws {EXT : Ext} (built : NoiseKeys → bool → HandshakeState → Prop)
    (ts_peer : TransportState → TransportState → Prop) : Prop :=
  xx_handshake : ∀ ka kb a b pa pb n,
    built ka true a → built kb false b → n = Z.to_nat 65535 →
    (Z.of_nat (length pa) + 96 <= 65535)%Z → (Z.of_nat (length pb) + 96 <= 65535)%Z →
    ∃ a1 a2 a3 b1 b2 b3 m1 m2 m3 ta tb,
      hs_write_message a [] n = Some (a1, m1) ∧ hs_read_message b m1 n = Some (b1, []) ∧
      hs_write_message b1 pb n = Some (b2, m2) ∧ hs_read_message a1 m2 n = Some (a2, pb) ∧
      hs_get_remote_static a2 = Some (noise_public kb) ∧
      hs_write_message a2 pa n = Some (a3, m3) ∧ hs_read_message b2 m3 n = Some (b3, pa) ∧
      hs_get_remote_static b3 = Some (noise_public ka) ∧
      hs_into_transport_mode a3 = Some ta ∧ hs_into_transport_mode b3 = Some tb ∧
      ts_peer ta tb ∧ ts_peer tb ta ∧
      Forall (λ m, 0 < length m ∧ (Z.of_nat (length m) <= 65535)%Z) [m1; m2; m3].

(** libp2p: an authentic key pair has a signature of its static key, under the
    domain prefix, by its identity. *)
Class NoiseIdentityLaws {EXT : Ext} : Prop :=
  noise_identity_verifies : ∀ k, ∃ sig,
    noise_identity_signature k = Some sig ∧
    verify_protobuf_key (noise_identity_public k)
      (as_bytes "noise-libp2p-static-key:" ++ noise_public k) sig = Some true.

(** libp2p: the text of a multiaddress parses back to it. *)
Class MultiaddrLaws {EXT : Ext} : Prop :=
  multiaddr_parse_to_string : ∀ a, multiaddr_parse (multiaddr_to_string a) = Some a.
