(* ===== verification/State.v ===== *)
(** * The state of a node

    The records of src/network/session.rs, connection.rs, node.rs,
    src/models/client_info.rs and the request types of whitenoise_behaviour.rs.
    A [Node] of the program is a bundle of [Arc]s and of plain fields that each
    clone owns; here the plain fields are the record [Node] and everything
    behind an [Arc] is the shared record [Shared], so that two clones of a node
    see the same maps and each its own [proxy_id]. *)

From S2P Require Import Prelude Proto External.

(** ** session.rs *)

Inductive SessionRole :=
  CallerRole | EntryRole | SinkRole | RelayRole | AccessRole | AnswerRole.

(** [role as i32]: the enumeration starts at 1. *)
Definition role_i32 (r : SessionRole) : Z :=
  match r with
  | CallerRole => 1
  | EntryRole => 2
  | SinkRole => 3
  | RelayRole => 4
  | AccessRole => 5
  | AnswerRole => 6
  end.

#[export] Instance role_i32_inj : Inj (=) (=) role_i32.
Proof. intros [] []; by simpl. Qed.

Section State.
Context {EXT : Ext}.

(** A [WrappedStream] is a handle: its clones share the substream and both
    pairs of channels, which are named by the fresh uuid [stream_id]. *)
Record WrappedStream := mkWrappedStream {
  remote_peer_id : PeerId;
  stream_id : string
}.

#[export] Instance WrappedStream_eq_dec : EqDecision WrappedStream.
Proof. solve_decision. Defined.

Inductive WrapedData := WdClose | WdData (data : bytes).

(** [libp2p::core::upgrade::ReadOneError]. *)
Inductive ReadOneError :=
| ReadIo (msg : string)
| RequestedTooLarge (requested max : nat).

Record PairStream := mkPairStream {
  early_stream : option WrappedStream;
  later_stream : option WrappedStream
}.

Record Session := mkSession {
  session_id : string;
  pair_stream : PairStream;
  session_role : Z
}.

Definition ready (self : Session) : bool :=
  bool_decide (is_Some (early_stream (pair_stream self))) &&
  bool_decide (is_Some (later_stream (pair_stream self))).

(** [session.pair_stream.later_stream = Some(stream)] on a clone. *)
Definition with_later_stream (self : Session) (w : WrappedStream) : Session :=
  mkSession (session_id self)
    (mkPairStream (early_stream (pair_stream self)) (Some w)) (session_role self).

(** ** connection.rs: the channel and the transport state are shared by the
    clones of a connection, so they are handles into [Shared]. *)

Record CircuitConn := mkCircuitConn {
  cc_id : string;
  out_stream : WrappedStream;
  in_channel : nat;
  transport_state : option nat
}.

(** ** client_info.rs and node.rs *)

Record ClientInfo := mkClientInfo {
  whitenoise_id : string;
  peer_id : PeerId;
  ci_state : Z;
  time_secs : Z
}.

Record Probe := mkProbe {
  probe_id : string;
  rand : bytes
}.

Record Node := mkNode {
  keypair : Keypair;
  proxy_id : option PeerId;
  boot_peer_id : option PeerId
}.

(** The maps and queues behind [Arc<RwLock<..>>].  [event_bus] maps a command
    id to the oneshot channel of its waiter; [next_handle] numbers the
    channels and transport states created so far. *)
Record Shared := mkShared {
  event_bus : gmap string nat;
  relay_in_streams : list WrappedStream;
  relay_out_streams : list WrappedStream;
  circuit_task : gmap string bytes;
  client_wn_map : gmap string ClientInfo;
  client_peer_map : gmap string string;
  session_map : gmap string Session;
  circuit_map : gmap string CircuitConn;
  probe_map : gmap string Probe;
  transports : gmap nat TransportState;
  next_handle : nat
}.

Definition empty_shared : Shared :=
  mkShared ∅ [] [] ∅ ∅ ∅ ∅ ∅ ∅ ∅ 0.

Definition set_event_bus (f : gmap string nat → gmap string nat) (s : Shared) : Shared :=
  mkShared (f (event_bus s)) (relay_in_streams s) (relay_out_streams s) (circuit_task s)
    (client_wn_map s) (client_peer_map s) (session_map s) (circuit_map s) (probe_map s)
    (transports s) (next_handle s).
Definition set_relay_in (f : list WrappedStream → list WrappedStream) (s : Shared) : Shared :=
  mkShared (event_bus s) (f (relay_in_streams s)) (relay_out_streams s) (circuit_task s)
    (client_wn_map s) (client_peer_map s) (session_map s) (circuit_map s) (probe_map s)
    (transports s) (next_handle s).
Definition set_relay_out (f : list WrappedStream → list WrappedStream) (s : Shared) : Shared :=
  mkShared (event_bus s) (relay_in_streams s) (f (relay_out_streams s)) (circuit_task s)
    (client_wn_map s) (client_peer_map s) (session_map s) (circuit_map s) (probe_map s)
    (transports s) (next_handle s).
Definition set_circuit_task (f : gmap string bytes → gmap string bytes) (s : Shared) : Shared :=
  mkShared (event_bus s) (relay_in_streams s) (relay_out_streams s) (f (circuit_task s))
    (client_wn_map s) (client_peer_map s) (session_map s) (circuit_map s) (probe_map s)
    (transports s) (next_handle s).
Definition set_client_wn (f : gmap string ClientInfo → gmap string ClientInfo) (s : Shared) : Shared :=
  mkShared (event_bus s) (relay_in_streams s) (relay_out_streams s) (circuit_task s)
    (f (client_wn_map s)) (client_peer_map s) (session_map s) (circuit_map s) (probe_map s)
    (transports s) (next_handle s).
Definition set_client_peer (f : gmap string string → gmap string string) (s : Shared) : Shared :=
  mkShared (event_bus s) (relay_in_streams s) (relay_out_streams s) (circuit_task s)
    (client_wn_map s) (f (client_peer_map s)) (session_map s) (circuit_map s) (probe_map s)
    (transports s) (next_handle s).
Definition set_session_map (f : gmap string Session → gmap string Session) (s : Shared) : Shared :=
  mkShared (event_bus s) (relay_in_streams s) (relay_out_streams s) (circuit_task s)
    (client_wn_map s) (client_peer_map s) (f (session_map s)) (circuit_map s) (probe_map s)
    (transports s) (next_handle s).
Definition set_circuit_map (f : gmap string CircuitConn → gmap string CircuitConn) (s : Shared) : Shared :=
  mkShared (event_bus s) (relay_in_streams s) (relay_out_streams s) (circuit_task s)
    (client_wn_map s) (client_peer_map s) (session_map s) (f (circuit_map s)) (probe_map s)
    (transports s) (next_handle s).
Definition set_probe_map (f : gmap string Probe → gmap string Probe) (s : Shared) : Shared :=
  mkShared (event_bus s) (relay_in_streams s) (relay_out_streams s) (circuit_task s)
    (client_wn_map s) (client_peer_map s) (session_map s) (circuit_map s) (f (probe_map s))
    (transports s) (next_handle s).
Definition set_transports (f : gmap nat TransportState → gmap nat TransportState) (s : Shared) : Shared :=
  mkShared (event_bus s) (relay_in_streams s) (relay_out_streams s) (circuit_task s)
    (client_wn_map s) (client_peer_map s) (session_map s) (circuit_map s) (probe_map s)
    (f (transports s)) (next_handle s).
Definition bump_handle (s : Shared) : Shared :=
  mkShared (event_bus s) (relay_in_streams s) (relay_out_streams s) (circuit_task s)
    (client_wn_map s) (client_peer_map s) (session_map s) (circuit_map s) (probe_map s)
    (transports s) (S (next_handle s)).

(** ** whitenoise_behaviour.rs: requests to the swarm *)

Inductive PeerOperation := PoDisconnect.

Record NodeProxyRequest := mkNodeProxyRequest {
  npr_peer : PeerId;
  proxy_request : option Request;
  peer_operation : option PeerOperation
}.

Record NodeCmdRequest := mkNodeCmdRequest {
  ncr_peer : PeerId;
  cmd_request : option Command
}.

Record NodeAckRequest := mkNodeAckRequest {
  nar_peer : PeerId;
  ack_request : option Ack
}.

(** A oneshot sender in a request is the number of its channel. *)
Inductive NodeRequest :=
| NrProxyRequest (r : NodeProxyRequest)
| NrCmdRequest (r : NodeCmdRequest)
| NrAckRequest (r : NodeAckRequest)
| NrNewStreamRequest (peer : PeerId)
| NrAddPeerAddressesRequest (peer : PeerId) (addrs : list Multiaddr)
| NrGetMainNetsRequest (command_id : string) (peer : PeerId) (num : Z) (sender : nat)
| NrPublishData (data : bytes) (sender : nat).

(** What the event loops ask of the libp2p behaviours of the swarm. *)
Inductive swarm_action :=
| ProxySendRequest (peer : PeerId) (r : Request)
| CmdSendRequest (peer : PeerId) (c : Command)
| AckSendRequest (peer : PeerId) (a : Ack)
| AckAddAddress (peer : PeerId) (addr : Multiaddr)
| ProxyAddAddress (peer : PeerId) (addr : Multiaddr)
| KadAddAddress (peer : PeerId) (addr : Multiaddr)
| GossipPublish (topic : string) (data : bytes)
| ReplyPeers (sender : nat) (peers : list NodeInfo)
| ReplyBool (sender : nat) (b : bool)
| KadGetClosestPeers (peer : PeerId)
| SwarmListenOn (addr : Multiaddr).

(** ** The configuration of a node's swarm (src/sdk/host.rs) *)

Inductive RunMode := RunClient | RunServer.

Record GossipsubConfig := mkGossipsubConfig {
  heartbeat_interval_secs : Z;
  validation_permissive : bool;
  message_anonymous : bool;
  subscribed_topic : string
}.

(** [kad]: only a server keeps its Kademlia behaviour. *)
Record SwarmConfig := mkSwarmConfig {
  swarm_mode : RunMode;
  local_peer : PeerId;
  noise_keys : NoiseKeys;
  tcp_nodelay : bool;
  transport_timeout_secs : Z;
  identify_protocol : string;
  identify_initial_delay_millis : Z;
  identify_interval_secs : Z;
  dht_protocol : bytes;
  dht_query_timeout_secs : Z;
  gossipsub_config : GossipsubConfig
}.

(** An entry of the Kademlia routing table, as [get_kad_peers] views it. *)
Record KadEntry := mkKadEntry {
  kad_peer : PeerId;
  kad_connected : bool;
  kad_addresses : list Multiaddr
}.

(** The asynchronous tasks the program spawns. *)
Inductive task :=
| TaskRelayHandler (w : WrappedStream) (node : Node) (sid : option string)
| TaskHandshake (cc : CircuitConn) (initiate : bool) (sid : string) (node : Node)
| TaskWriteRelay (w : WrappedStream) (r : Relay)
| TaskSendNodeRequest (r : NodeRequest)
| TaskInSend (w : WrappedStream) (res : result bytes ReadOneError)
| TaskStartPoll (w : WrappedStream)
| TaskProxyRequests (node : Node)
| TaskCmdRequests (node : Node)
| TaskPublishRequests (node : Node)
| TaskNewStreams (node : Node)
| TaskNewSessions (node : Node)
| TaskClientLoop
| TaskServerLoop.

End State.

Arguments empty_shared {_}.

(** [st_simpl] pushes the projections of [Shared] through its setters.  The
    equations are checked on variables, so that the values stored are never
    compared. *)
Ltac st_own P G f s :=
  let H := constr:((λ f0 s0, eq_refl) : ∀ f0 s0, P (G f0 s0) = f0 (P s0)) in
  rewrite (H f s).
Ltac st_other P G f s :=
  let H := constr:((λ f0 s0, eq_refl) : ∀ f0 s0, P (G f0 s0) = P s0) in
  rewrite (H f s).
Ltac st_bump P s :=
  let H := constr:((λ s0, eq_refl) : ∀ s0, P (bump_handle s0) = P s0) in
  rewrite (H s).

Ltac st_step :=
  match goal with
  | |- context [@next_handle ?E (bump_handle ?s)] =>
      change (@next_handle E (bump_handle s)) with (S (@next_handle E s))
  | |- context [@next_handle ?E (?G ?f ?s)] => st_other (@next_handle E) G f s
  | |- context [@event_bus ?E (@set_event_bus ?E ?f ?s)] => st_own (@event_bus E) (@set_event_bus E) f s
  | |- context [@event_bus ?E (bump_handle ?s)] => st_bump (@event_bus E) s
  | |- context [@event_bus ?E (?G ?f ?s)] => st_other (@event_bus E) G f s
  | |- context [@relay_in_streams ?E (@set_relay_in ?E ?f ?s)] => st_own (@relay_in_streams E) (@set_relay_in E) f s
  | |- context [@relay_in_streams ?E (bump_handle ?s)] => st_bump (@relay_in_streams E) s
  | |- context [@relay_in_streams ?E (?G ?f ?s)] => st_other (@relay_in_streams E) G f s
  | |- context [@relay_out_streams ?E (@set_relay_out ?E ?f ?s)] => st_own (@relay_out_streams E) (@set_relay_out E) f s
  | |- context [@relay_out_streams ?E (bump_handle ?s)] => st_bump (@relay_out_streams E) s
  | |- context [@relay_out_streams ?E (?G ?f ?s)] => st_other (@relay_out_streams E) G f s
  | |- context [@circuit_task ?E (@set_circuit_task ?E ?f ?s)] => st_own (@circuit_task E) (@set_circuit_task E) f s
  | |- context [@circuit_task ?E (bump_handle ?s)] => st_bump (@circuit_task E) s
  | |- context [@circuit_task ?E (?G ?f ?s)] => st_other (@circuit_task E) G f s
  | |- context [@client_wn_map ?E (@set_client_wn ?E ?f ?s)] => st_own (@client_wn_map E) (@set_client_wn E) f s
  | |- context [@client_wn_map ?E (bump_handle ?s)] => st_bump (@client_wn_map E) s
  | |- context [@client_wn_map ?E (?G ?f ?s)] => st_other (@client_wn_map E) G f s
  | |- context [@client_peer_map ?E (@set_client_peer ?E ?f ?s)] => st_own (@client_peer_map E) (@set_client_peer E) f s
  | |- context [@client_peer_map ?E (bump_handle ?s)] => st_bump (@client_peer_map E) s
  | |- context [@client_peer_map ?E (?G ?f ?s)] => st_other (@client_peer_map E) G f s
  | |- context [@session_map ?E (@set_session_map ?E ?f ?s)] => st_own (@session_map E) (@set_session_map E) f s
  | |- context [@session_map ?E (bump_handle ?s)] => st_bump (@session_map E) s
  | |- context [@session_map ?E (?G ?f ?s)] => st_other (@session_map E) G f s
  | |- context [@circuit_map ?E (@set_circuit_map ?E ?f ?s)] => st_own (@circuit_map E) (@set_circuit_map E) f s
  | |- context [@circuit_map ?E (bump_handle ?s)] => st_bump (@circuit_map E) s
  | |- context [@circuit_map ?E (?G ?f ?s)] => st_other (@circuit_map E) G f s
  | |- context [@probe_map ?E (@set_probe_map ?E ?f ?s)] => st_own (@probe_map E) (@set_probe_map E) f s
  | |- context [@probe_map ?E (bump_handle ?s)] => st_bump (@probe_map E) s
  | |- context [@probe_map ?E (?G ?f ?s)] => st_other (@probe_map E) G f s
  | |- context [@transports ?E (@set_transports ?E ?f ?s)] => st_own (@transports E) (@set_transports E) f s
  | |- context [@transports ?E (bump_handle ?s)] => st_bump (@transports E) s
  | |- context [@transports ?E (?G ?f ?s)] => st_other (@transports E) G f s
  end.

Ltac st_simpl := cbn beta; repeat st_step; cbn beta.
