(* ===== verification/Io.v ===== *)
(** * Asynchronous programs

    The handlers are [async fn]s that run as tasks on a thread pool.  [io] is
    their syntax: a tree of atomic actions on the shared state (one acquire,
    access and release of a lock of [Shared]), of commands to the outside (a
    channel, the clock, the random generator, the executor) whose reply decides
    the rest, and of the outcomes of a task: a value, a panic (an [unwrap] of
    [None] or [Err], an index out of bounds), or a loop still running when its
    fuel is used up.

    [run] executes a program against an environment, which answers the commands
    and may change the shared state before each action, as other tasks do; [wp]
    is the corresponding demonic weakest precondition, and [preserves] is the
    invariance condition that makes a state invariant hold under every
    interleaving (see [System]). *)

From S2P Require Import Prelude Proto External State.

Section Io.
Context {EXT : Ext}.

(** ** Commands *)

Inductive cmd : Type :=
| SendNodeRequest (r : NodeRequest)          (* node_request_sender.unbounded_send *)
| AwaitAck (rx : nat)                        (* oneshot Receiver<AckRequest> *)
| AwaitPeers (rx : nat)                      (* oneshot Receiver<Vec<NodeInfo>> *)
| AwaitBool (rx : nat)                       (* oneshot Receiver<bool> *)
| SendAckTo (tx : nat) (a : Ack)             (* oneshot Sender<AckRequest>::send *)
| OutSend (w : WrappedStream) (d : WrapedData) (* out_sender.unbounded_send *)
| InSend (w : WrappedStream) (res : result bytes ReadOneError) (* in_sender.unbounded_send *)
| InRecv (w : WrappedStream)                 (* in_receiver.lock().await.next().await *)
| CircuitSend (ch : nat) (data : bytes)      (* in_channel_sender.unbounded_send *)
| CircuitRecv (ch : nat)                     (* in_channel_receiver ... next().await *)
| RecvProxy                                  (* proxy_request_receiver.next().await *)
| RecvCmd                                    (* cmd_request_receiver.next().await *)
| RecvGossip                                 (* publish_receiver.next().await *)
| SendProxy (r : NodeProxyRequest)           (* proxy_request_channel.unbounded_send *)
| SendCmd (r : NodeCmdRequest)               (* cmd_request_channel.unbounded_send *)
| SendGossip (data : bytes)                  (* publish_channel.unbounded_send *)
| SendSession (sid : string)                 (* process_new_session's sender *)
| Sleep (micros : Z)
| Now                                        (* SystemTime::now since the epoch, in micros *)
| RandomUsize
| RandomPeerId
| GenRange (high : Z)                        (* rng.gen_range(0, high) *)
| FillBytes (len : nat)
| NewNoiseKeys (k : Keypair)                 (* noise::Keypair::new().into_authentic(k) *)
| BuildNoise (secret : bytes) (initiator : bool)
| Csprng                                     (* the randomness of one encryption *)
| NewUuid                                    (* Uuid::new_v4().to_string() *)
| SelectStream (w : WrappedStream) (max : nat) (* select! on out_receiver and read_one(.., max) *)
| SubWrite (w : WrappedStream) (data : bytes) (* write_with_len_prefix on the substream *)
| SubClose (w : WrappedStream)               (* close the substream *)
| RawWrite (sub : nat) (data : bytes)        (* write_with_len_prefix on a raw substream *)
| RawRead (sub : nat) (max : nat)            (* read_one on a raw substream *)
| SelectSwarm                                (* select! on the swarm and the node requests *)
| SwarmCall (a : swarm_action)
| KadBuckets                                 (* kad_dht.kbuckets() *)
| RecvSession                                (* new_connected_session.next().await *)
| SelectStdin (ch : option nat)              (* select! on stdin and a circuit's read *)
| PrintMessage (from : string) (data : bytes) (* println! of a chat message *)
| DbOpen (path : string)                     (* rusty_leveldb::DB::open *)
| DbGet (path : string) (key : bytes)
| DbPut (path : string) (key value : bytes)
| GenerateEd25519                            (* Keypair::generate_ed25519 *)
| GenerateSecp256k1                          (* Keypair::generate_secp256k1 *)
| NewGossipsub (c : GossipsubConfig)         (* Gossipsub::new and subscribe *)
| BuildSwarm (c : SwarmConfig)               (* SwarmBuilder::build *)
| Spawn (t : task).

(** What libp2p's [read_one] makes of a frame: one longer than the limit is not
    read but refused, with its length and the limit. *)
Definition read_frame (max : nat) (frame : bytes) : result bytes ReadOneError :=
  if decide (length frame ≤ max) then Ok frame else Err (RequestedTooLarge (length frame) max).

(** The reply type; [bool] is [is_ok] of a send, [None] is a closed channel. *)
Definition reply (c : cmd) : Type :=
  match c with
  | SendNodeRequest _ | SendAckTo _ _ | OutSend _ _ | InSend _ _ | CircuitSend _ _
  | SendProxy _ | SendCmd _ | SendGossip _ | SendSession _ | SubWrite _ _ | SwarmCall _
  | RawWrite _ _ | DbOpen _ | DbPut _ _ _ | NewGossipsub _ => bool
  | AwaitAck _ => option Ack
  | AwaitPeers _ => option (list NodeInfo)
  | AwaitBool _ => option bool
  | InRecv _ => option (result bytes ReadOneError)
  | CircuitRecv _ => option bytes
  | RecvProxy => option NodeProxyRequest
  | RecvCmd => option NodeCmdRequest
  | RecvGossip => option bytes
  | RawRead _ _ => result bytes ReadOneError
  | RecvSession => option string
  | SelectStdin _ => string + option bytes
  | Sleep _ | SubClose _ | Spawn _ | PrintMessage _ _ | BuildSwarm _ => unit
  | DbGet _ _ => option bytes
  | GenerateEd25519 => EdKeypair
  | GenerateSecp256k1 => SecpKeypair
  | NewUuid => string
  | SelectStream _ _ => option WrapedData + result bytes ReadOneError
  | SelectSwarm => unit + option NodeRequest
  | KadBuckets => list (list KadEntry)
  | Now => option Z
  | RandomUsize | GenRange _ => Z
  | RandomPeerId => PeerId
  | FillBytes _ | Csprng => bytes
  | NewNoiseKeys _ => option NoiseKeys
  | BuildNoise _ _ => option HandshakeState
  end.

(** ** Programs *)

Inductive io (A : Type) : Type :=
| Ret (a : A)
| Panic
| Diverge
| Atomic {X : Type} (f : Shared → Shared * X) (k : X → io A)
| Call (c : cmd) (k : reply c → io A).
Arguments Ret {A} a.
Arguments Panic {A}.
Arguments Diverge {A}.
Arguments Atomic {A X} f k.
Arguments Call {A} c k.

Fixpoint io_bind {A B} (k : A → io B) (p : io A) : io B :=
  match p with
  | Ret a => k a
  | Panic => Panic
  | Diverge => Diverge
  | Atomic f k' => Atomic f (λ x, io_bind k (k' x))
  | Call c k' => Call c (λ r, io_bind k (k' r))
  end.

#[export] Instance io_mret : MRet io := @Ret.
#[export] Instance io_mbind : MBind io := @io_bind.

Definition atomic {X} (f : Shared → Shared * X) : io X := Atomic f Ret.
Definition gets {X} (f : Shared → X) : io X := Atomic (λ s, (s, f s)) Ret.
Definition modify (f : Shared → Shared) : io unit := Atomic (λ s, (f s, tt)) Ret.
Definition call (c : cmd) : io (reply c) := Call c Ret.

(** [Option::unwrap] and [Result::unwrap] of a send. *)
Definition unwrap {A} (o : option A) : io A :=
  match o with Some a => Ret a | None => Panic end.
Definition unwrap_ok (b : bool) : io unit := if b then Ret tt else Panic.

Definition send_node_request (r : NodeRequest) : io unit :=
  call (SendNodeRequest r) ≫= unwrap_ok.
Definition spawn (t : task) : io unit := call (Spawn t).

(** [loop { .. }]: the body continues with a new loop state or breaks. *)
Fixpoint loop {S R} (body : S → io (S + R)) (fuel : nat) (st : S) : io R :=
  match fuel with
  | O => Diverge
  | Datatypes.S fuel' =>
      io_bind (λ r, match r with inl st' => loop body fuel' st' | inr r => Ret r end) (body st)
  end.

Lemma loop_S {S R} (body : S → io (S + R)) fuel st :
  loop body (Datatypes.S fuel) st =
    body st ≫= λ r, match r with inl st' => loop body fuel st' | inr r => mret r end.
Proof. done. Qed.

(** ** Execution *)

Inductive outcome (A : Type) : Type :=
| Returned (a : A)
| Panicked
| Running
| Blocked.
Arguments Returned {A} a.
Arguments Panicked {A}.
Arguments Running {A}.
Arguments Blocked {A}.

(** What the rest of the world does: [interfere] is the effect of the other
    tasks before the n-th action, [answer] the reply to a command ([None]: the
    task waits forever). *)
Record env := mkEnv {
  interfere : nat → Shared → Shared;
  answer : nat → Shared → ∀ c : cmd, option (reply c)
}.

(** A run: its outcome, the commands it issued in order, the final state and
    the number of actions. *)
Record res (A : Type) := mkRes {
  out : outcome A;
  trace : list cmd;
  final : Shared;
  steps : nat
}.
Arguments mkRes {A} _ _ _ _.
Arguments out {A} _.
Arguments trace {A} _.
Arguments final {A} _.
Arguments steps {A} _.

Fixpoint run {A} (e : env) (p : io A) (n : nat) (s : Shared) : res A :=
  match p with
  | Ret a => mkRes (Returned a) [] s n
  | Panic => mkRes Panicked [] s n
  | Diverge => mkRes Running [] s n
  | Atomic f k =>
      let '(s', x) := f (interfere e n s) in run e (k x) (S n) s'
  | Call c k =>
      let s' := interfere e n s in
      match answer e n s' c with
      | Some r => let q := run e (k r) (S n) s' in
                  mkRes (out q) (c :: trace q) (final q) (steps q)
      | None => mkRes Blocked [c] s' n
      end
  end.

(** ** Equations of [run] *)

Lemma run_atomic {A X} e (f : Shared → Shared * X) (k : X → io A) n s :
  run e (Atomic f k) n s = run e (k (f (interfere e n s)).2) (S n) (f (interfere e n s)).1.
Proof. simpl. by destruct (f (interfere e n s)). Qed.

Lemma run_call {A} e c (k : reply c → io A) n s :
  run e (Call c k) n s =
    match answer e n (interfere e n s) c with
    | Some r => let q := run e (k r) (S n) (interfere e n s) in
                mkRes (out q) (c :: trace q) (final q) (steps q)
    | None => mkRes Blocked [c] (interfere e n s) n
    end.
Proof. done. Qed.

Lemma run_bind {A B} e (k : A → io B) (p : io A) n s :
  run e (io_bind k p) n s =
    let q := run e p n s in
    match out q with
    | Returned a =>
        let q' := run e (k a) (steps q) (final q) in
        mkRes (out q') (trace q ++ trace q') (final q') (steps q')
    | Panicked => mkRes Panicked (trace q) (final q) (steps q)
    | Running => mkRes Running (trace q) (final q) (steps q)
    | Blocked => mkRes Blocked (trace q) (final q) (steps q)
    end.
Proof.
  revert n s. induction p as [a| | |X f k' IH|c k' IH]; intros n s; try done; simpl.
  - by destruct (run e (k a) n s).
  - destruct (f (interfere e n s)). apply IH.
  - destruct (answer e n (interfere e n s) c) as [r|]; [|done]. rewrite IH. simpl.
    by destruct (out (run e (k' r) (S n) (interfere e n s))).
Qed.

(** The number of actions, and a run seen from a later one. *)
Lemma run_steps {A} e (p : io A) n s : n ≤ steps (run e p n s).
Proof.
  revert n s. induction p as [a| | |X f k IH|c k IH]; intros n s; try done.
  - rewrite run_atomic. etrans; [|apply IH]. lia.
  - rewrite run_call. destruct (answer _ _ _ _) as [r|]; [|done]. simpl. etrans; [|apply IH]. lia.
Qed.

Definition later (m : nat) (e : env) : env :=
  mkEnv (λ n, interfere e (m + n)) (λ n, answer e (m + n)).

Lemma run_later {A} e m (p : io A) : ∀ n s,
  trace (run e p (m + n) s) = trace (run (later m e) p n s).
Proof.
  induction p as [a| | |X f k IH|c k IH]; intros n s; try done.
  - rewrite !run_atomic. simpl. by rewrite <- IH, Nat.add_succ_r.
  - rewrite !run_call. simpl. destruct (answer _ _ _ _) as [r|]; [|done]. simpl.
    by rewrite <- IH, Nat.add_succ_r.
Qed.

(** ** Weakest preconditions *)

(** What a program may assume of its environment: how the shared state changes
    between its actions, which replies a command can have, and which commands
    may wait forever. *)
Record assume := mkAssume {
  rely : Shared → Shared → Prop;
  permits : ∀ c : cmd, reply c → Prop;
  may_block : cmd → Prop
}.

Definition conforms (R : assume) (e : env) : Prop :=
  ∀ n s, rely R s (interfere e n s) ∧
    ∀ c, match answer e n (interfere e n s) c with
         | Some r => permits R c r
         | None => may_block R c
         end.

Fixpoint wp {A} (R : assume) (p : io A) (s : Shared)
    (Q : list cmd → outcome A → Shared → Prop) : Prop :=
  match p with
  | Ret a => Q [] (Returned a) s
  | Panic => Q [] Panicked s
  | Diverge => Q [] Running s
  | Atomic f k => ∀ s', rely R s s' → wp R (k (f s').2) (f s').1 Q
  | Call c k => ∀ s', rely R s s' →
      (may_block R c → Q [c] Blocked s') ∧
      ∀ r, permits R c r → wp R (k r) s' (λ tr, Q (c :: tr))
  end.

Lemma wp_run {A} R e (p : io A) n s Q :
  conforms R e → wp R p s Q →
  Q (trace (run e p n s)) (out (run e p n s)) (final (run e p n s)).
Proof.
  intros He. revert n s Q. induction p as [a| | |X f k IH|c k IH]; intros n s Q Hwp; simpl in *; try done.
  - destruct (He n s) as [Hr _]. specialize (Hwp _ Hr).
    destruct (f (interfere e n s)) as [s' x]. by apply IH.
  - destruct (He n s) as [Hr Ha]. specialize (Ha c). destruct (Hwp _ Hr) as [Hb Hk].
    destruct (answer e n (interfere e n s) c) as [r|]; simpl; [|by apply Hb].
    by apply (IH r (S n) _ (λ tr, Q (c :: tr))), Hk.
Qed.

(** [ensures R s p Q]: in every environment that keeps to [R], the run of [p]
    from [s] ends with a trace, an outcome and a state in [Q].  The theorems of
    the development are stated with it; [wp] is how they are proved. *)
Definition ensures {A} (R : assume) (s : Shared) (p : io A)
    (Q : list cmd → outcome A → Shared → Prop) : Prop :=
  ∀ e n, conforms R e → Q (trace (run e p n s)) (out (run e p n s)) (final (run e p n s)).

Lemma ensures_mono {A} R s (p : io A) (Q Q' : list cmd → outcome A → Shared → Prop) :
  ensures R s p Q → (∀ tr o s', Q tr o s' → Q' tr o s') → ensures R s p Q'.
Proof. intros H HQ e n He. apply HQ, H, He. Qed.

Lemma wp_ensures {A} R s (p : io A) Q : wp R p s Q → ensures R s p Q.
Proof. intros Hwp e n He. by apply (wp_run R e p n s Q). Qed.

Lemma wp_mono {A} R (p : io A) s (Q1 Q2 : list cmd → outcome A → Shared → Prop) :
  (∀ tr o s', Q1 tr o s' → Q2 tr o s') → wp R p s Q1 → wp R p s Q2.
Proof.
  revert s Q1 Q2. induction p as [a| | |X f k IH|c k IH]; intros s Q1 Q2 HQ; simpl; eauto.
  intros Hwp s' Hs'. destruct (Hwp s' Hs') as [Hb Hk]. split; eauto.
  intros r Hr. eapply IH; [|by apply Hk]. eauto.
Qed.

(** An assumption that asks for more of the environment. *)
Lemma wp_assume_mono {A} R R' (p : io A) s Q :
  (∀ s s', rely R' s s' → rely R s s') → (∀ c r, permits R' c r → permits R c r) →
  (∀ c, may_block R' c → may_block R c) → wp R p s Q → wp R' p s Q.
Proof.
  intros Hrely Hperm Hblock. revert s Q. induction p as [a| | |X f k IH|c k IH]; intros s Q; simpl; try done.
  - intros Hwp s' Hs'. by apply IH, Hwp, Hrely.
  - intros Hwp s' Hs'. destruct (Hwp s' (Hrely _ _ Hs')) as [Hb Hk]. split; [by intros Hc; apply Hb, Hblock|].
    intros r Hr. by apply IH, Hk, Hperm.
Qed.

(** Sequencing: the continuation runs from every state the first part can
    return in; its other outcomes are those of the whole. *)
Definition after {A B} (R : assume) (k : A → io B) (Q : list cmd → outcome B → Shared → Prop)
    (tr : list cmd) (o : outcome A) (s : Shared) : Prop :=
  match o with
  | Returned a => wp R (k a) s (λ tr', Q (tr ++ tr'))
  | Panicked => Q tr Panicked s
  | Running => Q tr Running s
  | Blocked => Q tr Blocked s
  end.

Lemma wp_bind {A B} R (p : io A) (k : A → io B) s Q :
  wp R (p ≫= k) s Q ↔ wp R p s (after R k Q).
Proof.
  unfold mbind, io_mbind. revert s Q.
  induction p as [a| | |X f k' IH|c k' IH]; intros s Q; simpl; try done.
  - split; intros Hwp s' Hs'; apply IH, Hwp, Hs'.
  - split; intros Hwp s' Hs'; destruct (Hwp s' Hs') as [Hb Hk]; (split; [done|]);
      intros r Hr; specialize (Hk r Hr).
    + apply IH in Hk. eapply wp_mono; [|exact Hk]. by intros tr [] s''.
    + apply IH. eapply wp_mono; [|exact Hk]. by intros tr [] s''.
Qed.

Lemma wp_bind_2 {A B} R (p : io A) (k : A → io B) s Q :
  wp R p s (after R k Q) → wp R (p ≫= k) s Q.
Proof. apply wp_bind. Qed.

Lemma bind_assoc_wp {A B C} R (p : io A) (k : A → io B) (h : B → io C) s Q :
  wp R ((p ≫= k) ≫= h) s Q ↔ wp R (p ≫= λ x, k x ≫= h) s Q.
Proof.
  rewrite !wp_bind. unfold after at 1. split; apply wp_mono; intros tr [] s'; simpl; try done.
  - unfold after. rewrite wp_bind. intros Hwp. eapply wp_mono; [|exact Hwp].
    intros tr' [] s''; simpl; try done. intros Hk. eapply wp_mono; [|exact Hk].
    intros. by rewrite app_assoc.
  - rewrite wp_bind. intros Hwp. eapply wp_mono; [|exact Hwp].
    intros tr' [] s''; simpl; try done. intros Hk. eapply wp_mono; [|exact Hk].
    intros. by rewrite <- app_assoc.
Qed.

Lemma bind_assoc_wp_2 {A B C} R (p : io A) (k : A → io B) (h : B → io C) s Q :
  wp R (p ≫= λ x, k x ≫= h) s Q → wp R ((p ≫= k) ≫= h) s Q.
Proof. apply bind_assoc_wp. Qed.

(** ** Invariance *)

(** Every atomic action of the program keeps the invariant [I], and every
    command it issues meets the obligation [J] (the tasks it spawns are allowed
    ones), whatever the replies of those [G] grants: what an invariant needs of a
    task to hold under every interleaving with tasks that keep it too. *)
Fixpoint preserves {A} (I : Shared → Prop) (G : ∀ c, reply c → Prop) (J : cmd → Prop) (p : io A) : Prop :=
  match p with
  | Ret _ | Panic | Diverge => True
  | Atomic f k => ∀ s, I s → I (f s).1 ∧ preserves I G J (k (f s).2)
  | Call c k => J c ∧ ∀ r, G c r → preserves I G J (k r)
  end.

Lemma preserves_bind {A B} I G J (p : io A) (k : A → io B) :
  preserves I G J p → (∀ a, preserves I G J (k a)) → preserves I G J (p ≫= k).
Proof.
  unfold mbind, io_mbind. intros Hp Hk. induction p as [a| | |X f k' IH|c k' IH]; simpl in *; try done.
  - intros s Hs. destruct (Hp s Hs). auto.
  - destruct Hp. auto.
Qed.

Lemma preserves_loop {S R} I G J (body : S → io (S + R)) fuel st :
  (∀ st, preserves I G J (body st)) → preserves I G J (loop body fuel st).
Proof.
  intros Hb. revert st. induction fuel as [|fuel IH]; intros st; simpl; [done|].
  apply (preserves_bind I G J (body st)); [done|]. intros [st'|r]; simpl; auto.
Qed.

Lemma preserves_ret {A} I G J (a : A) : preserves I G J (mret a).
Proof. done. Qed.

Lemma preserves_unwrap {A} I G J (o : option A) : preserves I G J (unwrap o).
Proof. by destruct o. Qed.

Lemma preserves_unwrap_ok I G J (b : bool) : preserves I G J (unwrap_ok b).
Proof. by destruct b. Qed.

Lemma preserves_atomic {X A} I G J (f : Shared → Shared * X) (k : X → io A) :
  (∀ s, I s → I (f s).1 ∧ preserves I G J (k (f s).2)) → preserves I G J (atomic f ≫= k).
Proof. done. Qed.

Lemma preserves_gets {X A} I G J (f : Shared → X) (k : X → io A) :
  (∀ s, I s → preserves I G J (k (f s))) → preserves I G J (gets f ≫= k).
Proof. intros H s Hs. simpl. auto. Qed.

Lemma preserves_modify I G J (f : Shared → Shared) :
  (∀ s, I s → I (f s)) → preserves I G J (modify f).
Proof. intros Hf s Hs. simpl. auto. Qed.

Lemma preserves_call I G J c : J c → preserves I G J (call c).
Proof. done. Qed.

(** A call whose reply matters. *)
Lemma preserves_call_bind {A} I G J c (k : reply c → io A) :
  J c → (∀ r, G c r → preserves I G J (k r)) → preserves I G J (call c ≫= k).
Proof. done. Qed.

Lemma preserves_spawn I G J t : J (Spawn t) → preserves I G J (spawn t).
Proof. done. Qed.

(** ** The calm environment

    A handler run without interference: sends succeed, random numbers are in
    their range, the clock is after the epoch, and only a wait on a channel can
    block.  The functional specifications of the handlers are stated against
    it. *)

Definition nice_reply (c : cmd) : reply c → Prop :=
  match c with
  | SendNodeRequest _ | SendAckTo _ _ | OutSend _ _ | InSend _ _ | CircuitSend _ _
  | SendProxy _ | SendCmd _ | SendGossip _ | SendSession _ | SubWrite _ _ | SwarmCall _
  | RawWrite _ _ | DbOpen _ | DbPut _ _ _ | NewGossipsub _ => λ r, r = true
  | GenRange high => λ r, (0 < high → 0 <= r < high)%Z
  | RandomUsize => λ r, (0 <= r < usize_max)%Z
  | FillBytes len => λ r, length r = len
  | Now => λ r, is_Some r
  | NewNoiseKeys _ => λ r, is_Some r
  | BuildNoise _ _ => λ r, is_Some r
  | _ => λ _, True
  end.

Definition waits (c : cmd) : Prop :=
  match c with
  | AwaitAck _ | AwaitPeers _ | AwaitBool _ | InRecv _ | CircuitRecv _
  | RecvProxy | RecvCmd | RecvGossip | SelectStream _ _ | SelectSwarm
  | RawRead _ _ | RecvSession | SelectStdin _ => True
  | _ => False
  end.

Definition calm : assume :=
  {| rely := eq; permits := nice_reply; may_block := waits |}.

(** An arbitrary environment. *)
Definition any_env : assume :=
  {| rely := λ _ _, True; permits := λ _ _, True; may_block := λ _, True |}.

Lemma any_env_conforms e : conforms any_env e.
Proof. intros n s. split; [done|]. intros c. by destruct (answer _ _ _ c). Qed.

(** The observable part of a trace: without randomness, time and key
    generation. *)
Definition visible (c : cmd) : bool :=
  match c with
  | Sleep _ | Now | RandomUsize | RandomPeerId | GenRange _ | FillBytes _
  | NewNoiseKeys _ | BuildNoise _ _ | Csprng | NewUuid
  | GenerateEd25519 | GenerateSecp256k1 => false
  | _ => true
  end.

Definition effects (tr : list cmd) : list cmd := List.filter visible tr.

Lemma effects_app tr1 tr2 : effects (tr1 ++ tr2) = effects tr1 ++ effects tr2.
Proof. apply List.filter_app. Qed.

Lemma effects_elem c tr : c ∈ effects tr → c ∈ tr.
Proof. rewrite !list_elem_of_In. unfold effects. rewrite List.filter_In. tauto. Qed.

Lemma wp_gets {X A} R (f : Shared → X) (k : X → io A) s Q :
  (∀ s', rely R s s' → wp R (k (f s')) s' Q) → wp R (gets f ≫= k) s Q.
Proof. done. Qed.

(** Under [calm], state actions are state updates and a send just succeeds. *)
Lemma calm_atomic {A X} (f : Shared → Shared * X) (k : X → io A) s Q :
  wp calm (k (f s).2) (f s).1 Q → wp calm (Atomic f k) s Q.
Proof. intros Hwp s' Heq. simpl in Heq. by subst s'. Qed.

Lemma calm_call {A} c (k : reply c → io A) s Q :
  (waits c → Q [c] Blocked s) →
  (∀ r, nice_reply c r → wp calm (k r) s (λ tr, Q (c :: tr))) →
  wp calm (Call c k) s Q.
Proof. intros Hb Hk s' Heq. simpl in Heq. by subst s'. Qed.

(** [calm] with a script: the replies it gives are those of the environment, and
    the task does not wait for them. *)
Definition script := ∀ c : cmd, option (reply c).

Definition calm_with (f : script) : assume :=
  {| rely := eq;
     permits := λ c r, nice_reply c r ∧ ∀ r', f c = Some r' → r = r';
     may_block := λ c, waits c ∧ f c = None |}.

Lemma calm_with_atomic {A X} P (f : Shared → Shared * X) (k : X → io A) s Q :
  wp (calm_with P) (k (f s).2) (f s).1 Q → wp (calm_with P) (Atomic f k) s Q.
Proof. intros Hwp s' Heq. simpl in Heq. by subst s'. Qed.

Lemma calm_with_call {A} (f : script) c (k : reply c → io A) s Q :
  (waits c → f c = None → Q [c] Blocked s) →
  (∀ r, nice_reply c r → (∀ r', f c = Some r' → r = r') →
     wp (calm_with f) (k r) s (λ tr, Q (c :: tr))) →
  wp (calm_with f) (Call c k) s Q.
Proof.
  intros Hb Hk s' Heq. simpl in Heq. subst s'.
  split; [by intros []; apply Hb|]. intros r [Hr HP]. by apply Hk.
Qed.

(** A specification under [calm] holds under a script. *)
Lemma wp_calm_with {A} f (p : io A) s Q : wp calm p s Q → wp (calm_with f) p s Q.
Proof. apply wp_assume_mono; [done|by intros c r []|by intros c []]. Qed.

(** A calm environment with a Noise library that does what it is asked.  [authentic i k]: [k] is a static key authenticated by the identity [i];
    [built k r hs]: [hs] is a state built from the private key of [k] for an
    initiator or a responder.  The keys are authenticated by the identity the
    program gives, and the state is built from the private key and for the role it
    asks for. *)
Definition noise_env (authentic : Keypair → NoiseKeys → Prop)
    (built : NoiseKeys → bool → HandshakeState → Prop) : assume :=
  {| rely := eq;
     permits := λ c, match c return reply c → Prop with
                     | NewNoiseKeys i => λ r, ∃ k, r = Some k ∧ authentic i k
                     | BuildNoise secret initiator => λ r, ∃ hs, r = Some hs ∧
                         ∀ k, noise_secret k = secret → built k initiator hs
                     | c => nice_reply c
                     end;
     may_block := waits |}.

Lemma wp_noise_env {A} authentic built (p : io A) s Q : wp calm p s Q → wp (noise_env authentic built) p s Q.
Proof.
  apply wp_assume_mono; [done| |done]. intros c r. destruct c; simpl; try done; intros (x & -> & _); by eexists.
Qed.

(** And a script without replies asks nothing more. *)
Lemma wp_calm_none {A} (p : io A) s Q : wp (calm_with (λ _, None)) p s Q → wp calm p s Q.
Proof.
  revert s Q. induction p as [a| | |X g k IH|c k IH]; intros s Q; simpl; try done.
  - intros Hwp s' Hs'. by apply IH, Hwp.
  - intros Hwp s' Hs'. destruct (Hwp s' Hs') as [Hb Hk]. split; [intros Hc; by apply Hb|].
    intros r Hr. by apply IH, Hk.
Qed.

(** A calm environment follows a script by giving its replies. *)
Definition follow (f : script) (e : env) : env :=
  mkEnv (interfere e) (λ n s c, match f c with Some r => Some r | None => answer e n s c end).

Lemma follow_conforms (f : script) e :
  conforms calm e → (∀ c r, f c = Some r → nice_reply c r) → conforms (calm_with f) (follow f e).
Proof.
  intros He Hf n s. destruct (He n s) as [Hr Ha]. split; [exact Hr|]. intros c. specialize (Ha c).
  simpl. destruct (f c) as [r|] eqn:Hfc.
  - split; [by apply Hf|]. congruence.
  - simpl in Ha. destruct (answer e n _ c); by split.
Qed.

(** Under [any_env], every state and every reply is possible. *)
Lemma any_atomic {A X} (f : Shared → Shared * X) (k : X → io A) s Q :
  (∀ s', wp any_env (k (f s').2) (f s').1 Q) → wp any_env (Atomic f k) s Q.
Proof. intros Hwp s' _. apply Hwp. Qed.

Lemma any_call {A} c (k : reply c → io A) s Q :
  (∀ s', Q [c] Blocked s') → (∀ r s', wp any_env (k r) s' (λ tr, Q (c :: tr))) →
  wp any_env (Call c k) s Q.
Proof. intros Hb Hk s' _. split; [intros _; apply Hb|]. intros r _. apply Hk. Qed.

(** A program that returns whenever the environment answers. *)
Definition returns {A} (R : assume) (p : io A) : Prop :=
  ∀ s, wp R p s (λ _ o _, (∃ a, o = Returned a) ∨ o = Blocked).

End Io.

#[global] Arguments wp : simpl never.
#[global] Arguments run : simpl never.

Arguments Ret {_ A} a.
Arguments Panic {_ A}.
Arguments Diverge {_ A}.
Arguments Atomic {_ A X} f k.
Arguments Call {_ A} c k.
Arguments Returned {A} a.
Arguments Panicked {A}.
Arguments Running {A}.
Arguments Blocked {A}.
Arguments mkRes {_ A} _ _ _ _.
Arguments out {_ A} _.
Arguments trace {_ A} _.
Arguments final {_ A} _.
Arguments steps {_ A} _.

(** [wp_step] executes one action of the program in the goal under [calm];
    [wp_ret] ends a program. *)
Ltac wp_cbn :=
  cbv beta delta [mbind io_mbind mret io_mret send_node_request call gets modify atomic spawn];
  cbn [io_bind unwrap unwrap_ok fst snd after].

Ltac wp_ret :=
  lazymatch goal with
  | |- wp _ (Ret ?a) ?s ?Q => change (Q [] (Returned a) s)
  | |- wp _ Panic ?s ?Q => change (Q [] Panicked s)
  end; cbn [after app].

Ltac wp_norm :=
  wp_cbn;
  repeat (lazymatch goal with
          | |- wp _ (io_bind _ (io_bind _ _)) _ _ => apply bind_assoc_wp_2
          end; wp_cbn).

(** [wp_use lem] applies a specification of a call, alone or at the head of a
    sequence. *)
Tactic Notation "wp_use" uconstr(lem) :=
  wp_norm;
  lazymatch goal with
  | |- wp _ (io_bind _ _) _ _ => apply wp_bind_2; eapply lem
  | |- wp _ _ _ _ => eapply lem
  end.

(** [wp_lift lem] is [wp_use lem] under a script, for a specification under
    [calm]. *)
Tactic Notation "wp_lift" uconstr(lem) :=
  wp_norm;
  lazymatch goal with
  | |- wp (calm_with _) (io_bind _ _) _ _ => apply wp_bind_2, wp_calm_with; eapply lem
  | |- wp (calm_with _) _ _ _ => apply wp_calm_with; eapply lem
  end.

Ltac wp_step :=
  wp_norm;
  lazymatch goal with
  | |- wp _ (Ret _) _ _ => wp_ret
  | |- wp _ Panic _ _ => wp_ret
  | |- wp calm (Atomic _ _) _ _ => apply calm_atomic; wp_cbn
  | |- wp (calm_with _) (Atomic _ _) _ _ => apply calm_with_atomic; wp_cbn
  | |- wp (calm_with _) (Call _ _) _ _ =>
      apply calm_with_call;
      [ let Hw := fresh "Hw" in let Hf := fresh "Hf" in
        intros Hw Hf; try (by destruct Hw); try discriminate Hf
      | let r := fresh "r" in let Hr := fresh "Hr" in let HP := fresh "HP" in
        intros r Hr HP; cbn [nice_reply] in Hr;
        try match type of Hr with _ = true => subst r end;
        first [ specialize (HP _ eq_refl); cbn beta in HP; subst r | clear HP ];
        wp_cbn ]
  | |- wp calm (Call _ _) _ _ =>
      apply calm_call;
      [ let Hw := fresh "Hw" in intros Hw; try (by destruct Hw)
      | let r := fresh "r" in let Hr := fresh "Hr" in
        intros r Hr; cbn [nice_reply] in Hr; try subst r;
        try match type of r with reply (Spawn _) => destruct r | reply (Sleep _) => destruct r
            | reply (SubClose _) => destruct r | reply (PrintMessage _ _) => destruct r | reply (BuildSwarm _) => destruct r end;
        wp_cbn ]
  end.

Ltac wp_steps := repeat wp_step.

(** [wp_unwrap] splits on the option of an [unwrap] at the head of the program;
    the panic is executed. *)
Tactic Notation "wp_unwrap" "as" ident(x) :=
  wp_norm;
  let E := fresh "E" in
  lazymatch goal with
  | |- wp _ (unwrap ?o) _ _ => destruct o as [x|] eqn:E; [wp_norm|wp_norm; wp_ret]
  | |- wp _ (io_bind _ (unwrap ?o)) _ _ => destruct o as [x|] eqn:E; [wp_norm|wp_norm; wp_ret]
  end.

Tactic Notation "wp_unwrap" := let x := fresh "x" in wp_unwrap as x.

(** [keeps_step] decomposes a program; [keeps_auto] first tries the lemmas of
    the operations it calls. *)
Ltac keeps_step :=
  lazymatch goal with
  | |- preserves _ _ _ (mret _) => apply preserves_ret
  | |- preserves _ _ _ (Ret _) => exact I
  | |- preserves _ _ _ Panic => exact I
  | |- preserves _ _ _ (unwrap _) => apply preserves_unwrap
  | |- preserves _ _ _ (unwrap_ok _) => apply preserves_unwrap_ok
  | |- preserves _ _ _ (call _) => split; [exact I | intros; exact I]
  | |- preserves _ _ _ (send_node_request _) => apply preserves_bind; [apply preserves_call; solve [exact I | simpl; eauto with keeps]|intros ?]
  | |- preserves _ _ _ (gets _ ≫= _) => apply preserves_gets; intros ? ?
  | |- preserves _ _ _ (gets _) => apply (preserves_gets _ _ _ _ mret); intros ? ?
  | |- preserves _ _ _ (modify _) => apply preserves_modify; intros ? ?
  | |- preserves _ _ _ (spawn _) => apply preserves_spawn; try exact I
  | |- preserves _ _ _ (atomic _ ≫= _) => apply preserves_atomic; intros ? ?
  | |- preserves _ _ _ (unwrap ?o ≫= _) =>
      let E := fresh "E" in destruct o eqn:E; [|exact I];
      try (apply fmap_Some in E as (? & ? & ->));
      lazymatch goal with
      | |- preserves ?J1 ?J2 ?J3 (unwrap (Some ?a) ≫= ?k) => change (preserves J1 J2 J3 (k a)); cbn beta
      end
  | |- preserves _ _ _ (_ ≫= _) => apply preserves_bind; [|intros ?]
  | |- preserves _ _ _ (loop _ _ _) => apply preserves_loop; intros ?
  | |- ?I (fst (match ?x with _ => _ end)) ∧ _ => let E := fresh "E" in destruct x eqn:E
  | |- ?I (fst _) ∧ _ => cbn [fst snd]; split; [eauto with keeps|]
  | |- preserves _ _ _ (match ?x with _ => _ end) => let E := fresh "E" in destruct x eqn:E
  | |- ?I (match ?x with _ => _ end) => let E := fresh "E" in destruct x eqn:E
  end.

Ltac keeps_auto := repeat first [solve [eauto 4 with keeps] | keeps_step]; eauto with keeps.
