(* ===== verification/Packing.v ===== *)
(** * Packing messages

    A compact codec for the messages of [Proto], for the concrete instance of the
    third-party interfaces: each field is preceded by its length.  It has the round
    trip that prost documents, and is short enough to run whole networks. *)

From S2P Require Import Prelude Proto.

(** ** Fields *)

(** A length in base 128, least digit first, with a high bit on all digits but the
    last; [fuel] is more than the length. *)
Fixpoint varint (fuel n : nat) : bytes :=
  match fuel with
  | O => []
  | S fuel =>
      if decide (n < 128) then [Z_u8 (Z.of_nat n)]
      else Z_u8 (Z.of_nat (128 + n mod 128)) :: varint fuel (n / 128)
  end.

Fixpoint read_len (l : bytes) : option (nat * bytes) :=
  match l with
  | [] => None
  | b :: r =>
      let v := N.to_nat (Byte.to_N b) in
      if decide (v < 128) then Some (v, r)
      else '(n, r) ← read_len r; Some (128 * n + (v - 128), r)
  end.

Definition field (b : bytes) : bytes := varint (S (length b)) (length b) ++ b.

Definition read_field (l : bytes) : option (bytes * bytes) :=
  '(n, r) ← read_len l; Some (take n r, drop n r).

Lemma small_byte n : n < 256 → N.to_nat (Byte.to_N (Z_u8 (Z.of_nat n))) = n.
Proof.
  intros Hn. pose proof (u8_Z_Z_u8 (Z.of_nat n)) as Hz. rewrite Z.mod_small in Hz by lia.
  unfold u8_Z in Hz. lia.
Qed.

Lemma read_len_varint fuel : ∀ n r, n < fuel → read_len (varint fuel n ++ r) = Some (n, r).
Proof.
  induction fuel as [|fuel IH]; intros n r Hn; [lia|]. cbn [varint].
  assert (n mod 128 < 128) by (by apply Nat.mod_upper_bound). pose proof (Nat.div_mod_eq n 128).
  case_decide; cbn [app read_len]; rewrite small_byte by lia; [by rewrite decide_True|].
  rewrite decide_False by lia. rewrite IH by lia. cbn [mbind option_bind]. do 2 f_equal. lia.
Qed.

Lemma varint_length k : ∀ fuel n, n < 128 ^ S k → length (varint fuel n) ≤ S k.
Proof.
  induction k as [|k IH]; intros [|fuel] n Hn; cbn [varint length]; try lia.
  - rewrite decide_True by done. simpl. lia.
  - case_decide; cbn [length]; [lia|]. apply le_n_S, IH. apply Nat.Div0.div_lt_upper_bound.
    rewrite Nat.pow_succ_r' in Hn. done.
Qed.

Lemma read_field_app b r : read_field (field b ++ r) = Some (b, r).
Proof.
  unfold read_field, field. rewrite <- app_assoc, read_len_varint by lia.
  cbn. by rewrite take_app_length, drop_app_length.
Qed.

(** A field of less than 2^34 bytes has at most five bytes before it. *)
Lemma field_length b :
  length b ≤ length (field b) ∧ ((Z.of_nat (length b) < 2 ^ 34)%Z → length (field b) ≤ length b + 5).
Proof.
  unfold field. rewrite length_app. split; [lia|]. intros Hb.
  pose proof (varint_length 4 (S (length b)) (length b)) as Hlen.
  cut (length b < 128 ^ 5); [lia|]. apply Nat2Z.inj_lt. rewrite Nat2Z.inj_pow. change (Z.of_nat 128) with (2 ^ 7)%Z.
  rewrite <- Z.pow_mul_r by lia. apply (Z.lt_le_trans _ (2 ^ 34)); [done|]. by apply Z.pow_le_mono_r.
Qed.

(** ** Values *)

Class Packed (A : Type) := {
  pack : A → bytes;
  unpack : bytes → option A;
  unpack_pack : ∀ a, unpack (pack a) = Some a
}.

#[export] Instance bytes_packed : Packed bytes := {|
  pack b := b; unpack := Some; unpack_pack _ := eq_refl
|}.

#[export, refine] Instance string_packed : Packed string := {|
  pack := as_bytes; unpack b := Some (of_bytes b)
|}.
Proof. intros s. by rewrite of_as_bytes. Defined.

#[export, refine] Instance bool_packed : Packed bool := {|
  pack (b : bool) := if b then [x01] else [x00]; unpack l := Some (bool_decide (l = [x01]))
|}.
Proof. by intros []. Defined.

(** The bits of the countable encoding of a number, one per byte. *)
Fixpoint pos_bits (p : positive) : bytes :=
  match p with
  | xH => []
  | xO q => x00 :: pos_bits q
  | xI q => x01 :: pos_bits q
  end.

Fixpoint bits_pos (l : bytes) : positive :=
  match l with
  | [] => xH
  | x00 :: l' => xO (bits_pos l')
  | _ :: l' => xI (bits_pos l')
  end.

Lemma bits_pos_bits p : bits_pos (pos_bits p) = p.
Proof. induction p; simpl; congruence. Qed.

#[export, refine] Instance Z_packed : Packed Z := {|
  pack z := pos_bits (encode z); unpack l := decode (bits_pos l)
|}.
Proof. intros z. by rewrite bits_pos_bits, decode_encode. Defined.

#[export, refine] Instance prod_packed {A B} `{!Packed A, !Packed B} : Packed (A * B) := {|
  pack x := field (pack x.1) ++ pack x.2;
  unpack l := '(x, r) ← read_field l; a ← unpack x; b ← unpack r; Some (a, b)
|}.
Proof. intros [a b]. by rewrite read_field_app; simpl; rewrite !unpack_pack. Defined.

Fixpoint unpack_list {A} `{!Packed A} (fuel : nat) (l : bytes) : option (list A) :=
  match l, fuel with
  | [], _ => Some []
  | _, O => None
  | _, S fuel => '(x, r) ← read_field l; a ← unpack x; cons a <$> unpack_list fuel r
  end.

Fixpoint pack_list {A} `{!Packed A} (l : list A) : bytes :=
  match l with
  | [] => []
  | a :: l => field (pack a) ++ pack_list l
  end.

Lemma unpack_pack_list {A} `{!Packed A} (l : list A) : ∀ fuel,
  length (pack_list l) ≤ fuel → unpack_list fuel (pack_list l) = Some l.
Proof.
  induction l as [|a l IH]; intros fuel Hf; [by destruct fuel|]. cbn [pack_list] in *.
  assert (Hne : 0 < length (field (pack a))) by (unfold field; rewrite length_app; cbn [varint]; case_decide; simpl; lia).
  rewrite length_app in Hf. pose proof (read_field_app (pack a) (pack_list l)) as Hr.
  destruct (field (pack a) ++ pack_list l) as [|b q] eqn:E.
  { apply (f_equal length) in E. rewrite length_app in E. simpl in E. lia. }
  destruct fuel as [|fuel]; [lia|]. cbn [unpack_list]. rewrite Hr. cbn. rewrite unpack_pack. cbn.
  by rewrite IH by lia.
Qed.

#[export, refine] Instance list_packed {A} `{!Packed A} : Packed (list A) | 10 := {|
  pack := pack_list; unpack l := unpack_list (length l) l
|}.
Proof. intros l. by apply unpack_pack_list. Defined.

(** A record is packed as the tuple of its fields. *)
Definition packed_as {M T} `{!Packed T} (f : M → T) (g : T → M) (H : ∀ m, g (f m) = m) : Packed M.
Proof.
  refine {| pack m := pack (f m); unpack l := g <$> unpack l |}.
  intros m. rewrite unpack_pack. simpl. by rewrite H.
Defined.

(** ** Messages *)

#[export] Instance Relay_packed : Packed Relay.
Proof. by refine (packed_as (λ m, (relay_id m, relay_type m, relay_data m, relay_confusion m)) (λ '(x0, x1, x2, x3), mkRelay x0 x1 x2 x3) _); intros []. Defined.

#[export] Instance SetSessionIdMsg_packed : Packed SetSessionIdMsg.
Proof. by refine (packed_as (λ m, (ssid_session_id m, ssid_role m)) (λ '(x0, x1), mkSetSessionIdMsg x0 x1) _); intros []. Defined.

#[export] Instance RelayMsg_packed : Packed RelayMsg.
Proof. by refine (packed_as (λ m, (rmsg_session_id m, rmsg_data m)) (λ '(x0, x1), mkRelayMsg x0 x1) _); intros []. Defined.

#[export] Instance ProbeSignal_packed : Packed ProbeSignal.
Proof. by refine (packed_as (λ m, (probe_session_id m, probe_data m)) (λ '(x0, x1), mkProbeSignal x0 x1) _); intros []. Defined.

#[export] Instance Disconnect_packed : Packed Disconnect.
Proof. by refine (packed_as (λ m, (disc_session_id m, disc_err_code m)) (λ '(x0, x1), mkDisconnect x0 x1) _); intros []. Defined.

#[export] Instance CircuitSuccess_packed : Packed CircuitSuccess.
Proof. by refine (packed_as (λ m, (csucc_session_id m)) (λ x0, mkCircuitSuccess x0) _); intros []. Defined.

#[export] Instance Command_packed : Packed Command.
Proof. by refine (packed_as (λ m, (command_command_id m, command_type m, command_from m, command_data m)) (λ '(x0, x1, x2, x3), mkCommand x0 x1 x2 x3) _); intros []. Defined.

#[export] Instance SessionExpend_packed : Packed SessionExpend.
Proof. by refine (packed_as (λ m, (expend_session_id m, expend_peer_id m)) (λ '(x0, x1), mkSessionExpend x0 x1) _); intros []. Defined.

#[export] Instance Ack_packed : Packed Ack.
Proof. by refine (packed_as (λ m, (ack_command_id m, ack_result m, ack_data m)) (λ '(x0, x1, x2), mkAck x0 x1 x2) _); intros []. Defined.

#[export] Instance Request_packed : Packed Request.
Proof. by refine (packed_as (λ m, (req_req_id m, req_from m, req_reqtype m, req_data m)) (λ '(x0, x1, x2, x3), mkRequest x0 x1 x2 x3) _); intros []. Defined.

#[export] Instance NewCircuit_packed : Packed NewCircuit.
Proof. by refine (packed_as (λ m, (nc_from m, nc_to m, nc_session_id m)) (λ '(x0, x1, x2), mkNewCircuit x0 x1 x2) _); intros []. Defined.

#[export] Instance NewProxy_packed : Packed NewProxy.
Proof. by refine (packed_as (λ m, (np_time m, np_white_noise_id m)) (λ '(x0, x1), mkNewProxy x0 x1) _); intros []. Defined.

#[export] Instance Decrypt_packed : Packed Decrypt.
Proof. by refine (packed_as (λ m, (decr_destination m, decr_cypher m)) (λ '(x0, x1), mkDecrypt x0 x1) _); intros []. Defined.

#[export] Instance NegPlaintext_packed : Packed NegPlaintext.
Proof. by refine (packed_as (λ m, (negp_session_id m, negp_neg m)) (λ '(x0, x1), mkNegPlaintext x0 x1) _); intros []. Defined.

#[export] Instance MainNetPeers_packed : Packed MainNetPeers.
Proof. by refine (packed_as (λ m, (mnp_max m)) (λ x0, mkMainNetPeers x0) _); intros []. Defined.

#[export] Instance NodeInfo_packed : Packed NodeInfo.
Proof. by refine (packed_as (λ m, (ni_id m, ni_addr m)) (λ '(x0, x1), mkNodeInfo x0 x1) _); intros []. Defined.

#[export] Instance PeersList_packed : Packed PeersList.
Proof. by refine (packed_as (λ m, (pl_peers m)) (λ x0, mkPeersList x0) _); intros []. Defined.

#[export] Instance Negotiate_packed : Packed Negotiate.
Proof. by refine (packed_as (λ m, (neg_join m, neg_session_id m, neg_destination m, neg_sig m)) (λ '(x0, x1, x2, x3), mkNegotiate x0 x1 x2 x3) _); intros []. Defined.

#[export] Instance EncryptedNeg_packed : Packed EncryptedNeg.
Proof. by refine (packed_as (λ m, (eneg_des m, eneg_cypher m)) (λ '(x0, x1), mkEncryptedNeg x0 x1) _); intros []. Defined.

#[export] Instance NoiseHandshakePayload_packed : Packed NoiseHandshakePayload.
Proof. by refine (packed_as (λ m, (nhp_identity_key m, nhp_identity_sig m, nhp_data m)) (λ '(x0, x1, x2), mkNoiseHandshakePayload x0 x1 x2) _); intros []. Defined.

#[export] Instance ChatMessage_packed : Packed ChatMessage.
Proof. by refine (packed_as (λ m, (chat_peer_id m, chat_data m)) (λ '(x0, x1), mkChatMessage x0 x1) _); intros []. Defined.

Definition toy_codec (M : Type) `{!Packed M} : PbCodec M := {| pb_encode := pack; pb_decode := unpack |}.

Lemma toy_codec_roundtrip (M : Type) `{!Packed M} : @PbRoundtrip M (toy_codec M).
Proof. intros m. apply unpack_pack. Qed.
