(* ===== verification/Concrete.v ===== *)
(** * A concrete instance of the third-party interfaces

    [toy] implements every operation of [Ext] by a small computable function
    that satisfies the laws of [External]: strings for peer ids and addresses,
    identity encodings, a tagging cipher that rejects what it did not produce,
    and a Noise transport whose tags are its nonces, so that messages must be
    read in the order they were written.  [toy_env] is a calm environment whose
    waits are answered by a script.  Both serve to evaluate the model and to
    show that hypotheses can hold; nothing else depends on them. *)

From S2P Require Import Prelude Proto External State Io Packing.

Definition toy_decrypt (c : bytes) : option bytes :=
  match c with
  | x01 :: m => Some m
  | _ => None
  end.

(** Base 16 on the letters A to P, in place of base 58; what is not of this form
    decodes to its own bytes. *)
Definition toy_letters (b : u8) : bytes := [Z_u8 (65 + u8_Z b / 16); Z_u8 (65 + u8_Z b mod 16)].

Definition toy_base (b : bytes) : string := of_bytes (b ≫= toy_letters).

Fixpoint toy_unletters (l : bytes) : option bytes :=
  match l with
  | [] => Some []
  | h :: l :: r =>
      if decide (65 <= u8_Z h < 81 ∧ 65 <= u8_Z l < 81)%Z then
        cons (Z_u8 (16 * (u8_Z h - 65) + (u8_Z l - 65))) <$> toy_unletters r
      else None
  | _ => None
  end.

Definition toy_unbase (s : string) : option bytes :=
  match toy_unletters (as_bytes s) with
  | Some b => Some b
  | None => Some (as_bytes s)
  end.

Lemma toy_unletters_letters b : toy_unletters (b ≫= toy_letters) = Some b.
Proof.
  induction b as [|x b IH]; [done|].
  change (toy_unletters (toy_letters x ++ (b ≫= toy_letters)) = Some (x :: b)).
  assert (Hx : ∀ r, toy_unletters (toy_letters x ++ r) = cons x <$> toy_unletters r) by (by destruct x).
  by rewrite Hx, IH.
Qed.

Lemma toy_unbase_base b : toy_unbase (toy_base b) = Some b.
Proof. unfold toy_unbase, toy_base. by rewrite as_of_bytes, toy_unletters_letters. Qed.

(** A rolling hash of 62 bits. *)
Definition toy_hash (b : bytes) : Z :=
  fold_left (λ acc x, Z.land (acc * 257 + u8_Z x + 1) (Z.ones 62)) b 7%Z.

Definition toy_digest (b : bytes) : bytes := be_bytes 32 (toy_hash b).

(** Handshake: role, own key, remote key. *)
Record toy_hs := mkToyHs { ths_initiator : bool; ths_own : u8; ths_remote : option u8 }.

Definition toy_hs_write (h : toy_hs) (payload : bytes) (n : nat) : option (toy_hs * bytes) :=
  Some (h, ths_own h :: payload).

Definition toy_hs_read (h : toy_hs) (msg : bytes) (n : nat) : option (toy_hs * bytes) :=
  match msg with
  | [] => None
  | c :: payload => Some (mkToyHs (ths_initiator h) (ths_own h) (Some c), payload)
  end.

(** Transport: the nonces of the two directions. *)
Definition toy_tag (n : nat) : bytes := replicate 16 (Z_u8 (Z.of_nat n)).

Definition toy_ts_write (t : nat * nat) (m : bytes) (n : nat) : option ((nat * nat) * bytes) :=
  if decide ((Z.of_nat (length m) + 16 <= 65535)%Z ∧ length m + 16 ≤ n)
  then Some ((S t.1, t.2), toy_tag t.1 ++ m) else None.

Definition toy_ts_read (t : nat * nat) (c : bytes) (n : nat) : option ((nat * nat) * bytes) :=
  if decide (take 16 c = toy_tag t.2 ∧ length (drop 16 c) ≤ n)
  then Some ((t.1, S t.2), drop 16 c) else None.

Definition toy_peer (a b : nat * nat) : Prop := a.1 = b.2.

Definition toy_chunk_len (cap len : nat) : nat := if decide (len < cap) then cap - len else 64.

Definition toy : Ext := {|
  PeerId := string;
  to_base58 p := toy_base (as_bytes p);
  peer_id_from_bytes b := Some (of_bytes b);
  bs58_encode := toy_base;
  bs58_decode := toy_unbase;
  sha2_256_to_bytes b := [x12; x20] ++ toy_digest b;
  Multiaddr := string;
  multiaddr_parse s := Some s;
  multiaddr_to_string s := s;
  EdKeypair := bytes;
  SecpKeypair := bytes;
  RsaKeypair := bytes;
  keypair_peer_id k := match k with Ed25519 b | Secp256k1 b | RsaKey b => of_bytes b end;
  ed_public_encode k := k;
  ed_secret k := k;
  ed_keypair_encode k := k;
  ed_keypair_decode b := Some b;
  secp_public_encode k := k;
  secp_secret_bytes k := k;
  secp_keypair_from_secret b := Some b;
  secp_public_uncompressed b := Some (replicate 65 x00);
  sha512 b := replicate 64 xff;
  secp_ecies_encrypt _ plain _ := Some (x01 :: plain);
  secp_ecies_decrypt _ c := toy_decrypt c;
  ed_ecies_encrypt _ plain _ := Some (x01 :: plain);
  ed_ecies_decrypt _ c := toy_decrypt c;
  NoiseKeys := u8;
  noise_public k := [k];
  noise_secret k := [k];
  noise_identity_public k := [k];
  noise_identity_signature k := Some [k];
  verify_protobuf_key key msg sig := Some (bool_decide (list.last msg = list.head sig ∧ key = sig));
  HandshakeState := toy_hs;
  TransportState := nat * nat;
  hs_write_message := toy_hs_write;
  hs_read_message := toy_hs_read;
  hs_get_remote_static h := (λ c, [c]) <$> ths_remote h;
  hs_into_transport_mode h := Some (0, 0);
  ts_write_message := toy_ts_write;
  ts_read_message := toy_ts_read;
  vec_chunk_len := toy_chunk_len;
  codec_Relay := toy_codec Relay;
  codec_SetSessionIdMsg := toy_codec SetSessionIdMsg;
  codec_RelayMsg := toy_codec RelayMsg;
  codec_ProbeSignal := toy_codec ProbeSignal;
  codec_Disconnect := toy_codec Disconnect;
  codec_CircuitSuccess := toy_codec CircuitSuccess;
  codec_Command := toy_codec Command;
  codec_SessionExpend := toy_codec SessionExpend;
  codec_Ack := toy_codec Ack;
  codec_Request := toy_codec Request;
  codec_NewCircuit := toy_codec NewCircuit;
  codec_NewProxy := toy_codec NewProxy;
  codec_Decrypt := toy_codec Decrypt;
  codec_NegPlaintext := toy_codec NegPlaintext;
  codec_MainNetPeers := toy_codec MainNetPeers;
  codec_PeersList := toy_codec PeersList;
  codec_Negotiate := toy_codec Negotiate;
  codec_EncryptedNeg := toy_codec EncryptedNeg;
  codec_NoiseHandshakePayload := toy_codec NoiseHandshakePayload;
  codec_ChatMessage := toy_codec ChatMessage
|}.

(** ** Its laws *)

Lemma toy_codec_laws : @CodecLaws toy.
Proof. constructor; apply toy_codec_roundtrip. Qed.

Lemma toy_base58_laws : @Base58Laws toy.
Proof.
  constructor; simpl.
  - apply toy_unbase_base.
  - intros b. unfold toy_base. rewrite as_of_bytes.
    apply Forall_bind, Forall_true. intros x. destruct x; repeat constructor.
  - intros p. rewrite toy_unbase_base. simpl. by rewrite of_as_bytes.
Qed.

Lemma toy_key_laws : @KeyLaws toy.
Proof. by constructor. Qed.

Lemma toy_multihash_laws : @MultihashLaws toy.
Proof. intros b. cbn [sha2_256_to_bytes toy]. rewrite length_app. simpl. lia. Qed.

Lemma toy_size_laws : @SizeLaws toy.
Proof.
  constructor.
  - intros b. cbn [sha2_256_to_bytes toy]. unfold toy_digest. by rewrite length_app, be_bytes_length.
  - intros b. cbn [bs58_encode toy]. unfold toy_base. rewrite as_of_bytes.
    induction b as [|x b IH]; [done|]. change ((x :: b) ≫= toy_letters) with (toy_letters x ++ (b ≫= toy_letters)).
    rewrite length_app. simpl in *. lia.
  - intros [i ty d c] t Hty. simpl in Hty. subst ty. cbn [relay_id relay_data relay_confusion].
    change (pb_encode _) with (field (field (field (as_bytes i) ++ pack (relaytype_i32 t)) ++ d) ++ c).
    assert (Ht : length (pack (relaytype_i32 t)) ≤ 6) by (destruct t; vm_compute; lia).
    destruct (field_length (field (field (as_bytes i) ++ pack (relaytype_i32 t)) ++ d)) as [H1 H1'].
    destruct (field_length (field (as_bytes i) ++ pack (relaytype_i32 t))) as [H2 H2'].
    destruct (field_length (as_bytes i)) as [H3 H3'].
    assert (Hpos : ∀ b, length b < length (field b)).
    { intros b. unfold field. rewrite length_app. cbn [varint]. case_decide; simpl; lia. }
    pose proof (Hpos (field (field (as_bytes i) ++ pack (relaytype_i32 t)) ++ d)).
    pose proof (Hpos (field (as_bytes i) ++ pack (relaytype_i32 t))).
    split; rewrite ?length_app in *; [case_decide; lia|]. intros Hsmall. lia.
  - intros [i d]. cbn [rmsg_session_id rmsg_data]. change (pb_encode _) with (field (as_bytes i) ++ d).
    destruct (field_length (as_bytes i)). split; rewrite ?length_app; lia.
  - intros [i d]. cbn [probe_session_id probe_data]. change (pb_encode _) with (field (as_bytes i) ++ d).
    destruct (field_length (as_bytes i)). split; rewrite ?length_app; lia.
  - intros [i]. cbn [csucc_session_id]. change (pb_encode _) with (as_bytes i). split; lia.
  - intros [i d]. cbn [chat_peer_id chat_data]. change (pb_encode _) with (field (as_bytes i) ++ d).
    destruct (field_length (as_bytes i)). split; rewrite ?length_app; lia.
Qed.

Lemma toy_bytes_laws : @BytesLaws toy.
Proof.
  constructor; simpl; unfold toy_chunk_len.
  - intros cap len Hlt. by rewrite decide_True.
  - intros cap. rewrite decide_False by lia. lia.
Qed.

Lemma toy_ecies_laws : @EciesLaws toy.
Proof.
  constructor; simpl.
  - intros k. eexists. by split.
  - intros k u plain seed _. eauto.
Qed.

Lemma toy_transport_laws : @NoiseTransportLaws toy toy_peer.
Proof.
  constructor; simpl.
  - intros [a1 a2] [b1 b2] msg n m Hpeer Hmax Hn Hm. unfold toy_peer in *. simpl in Hpeer. subst.
    assert (length (toy_tag b2) = 16) as Htag by apply length_replicate.
    exists (S b2, a2), (b1, S b2), (toy_tag b2 ++ msg).
    unfold toy_ts_write, toy_ts_read. cbn [fst snd]. rewrite decide_True by done.
    split; [done|]. split; [rewrite length_app; lia|]. split; [|done].
    rewrite <- Htag. rewrite take_app_length, drop_app_length. by rewrite decide_True.
  - intros [a1 a2] msg n Hlong. unfold toy_ts_write. rewrite decide_False; [done|]. lia.
Qed.

Lemma toy_multiaddr_laws : @MultiaddrLaws toy.
Proof. done. Qed.

Definition toy_built (k : u8) (i : bool) (h : toy_hs) : Prop := h = mkToyHs i k None.

Lemma toy_noise_xx_laws : @NoiseXXLaws toy toy_built toy_peer.
Proof.
  intros ka kb a b pa pb n -> -> Hn Ha Hb. simpl.
  do 11 eexists. do 12 (split; [reflexivity|]).
  do 3 (apply List.Forall_cons; [cbn [length]; lia|]). apply List.Forall_nil.
Qed.

Lemma toy_noise_identity_laws : @NoiseIdentityLaws toy.
Proof. intros k. exists [k]. split; [done|]. simpl. by rewrite bool_decide_true. Qed.

(** ** A calm environment *)

Section ToyEnv.
Local Existing Instance toy.

(** The static key made for an identity: its first byte. *)
Definition toy_static (k : Keypair) : u8 :=
  match k with Ed25519 b | Secp256k1 b | RsaKey b => hd x07 b end.

Definition toy_answer (script : nat → ∀ c : cmd, option (reply c)) (n : nat) (s : Shared)
    (c : cmd) : option (reply c) :=
  match c return option (reply c) with
  | SendNodeRequest _ | SendAckTo _ _ | OutSend _ _ | InSend _ _ | CircuitSend _ _
  | SendProxy _ | SendCmd _ | SendGossip _ | SendSession _ | SubWrite _ _ | SwarmCall _
  | RawWrite _ _ | DbOpen _ | DbPut _ _ _ | NewGossipsub _ => Some true
  | Sleep _ | SubClose _ | Spawn _ | PrintMessage _ _ | BuildSwarm _ => Some tt
  | DbGet _ _ => Some None
  | GenerateEd25519 | GenerateSecp256k1 => Some [x01]
  | GenRange _ | RandomUsize => Some 0%Z
  | RandomPeerId => Some "random"%string
  | FillBytes len => Some (replicate len x00)
  | Csprng => Some []
  | Now => Some (Some 0%Z)
  | NewUuid => Some "uuid"%string
  | KadBuckets => Some []
  | NewNoiseKeys k => Some (Some (toy_static k))
  | BuildNoise secret i => Some (Some (mkToyHs i (hd x07 secret) None))
  | c => script n c
  end.

Definition toy_env (script : nat → ∀ c : cmd, option (reply c)) : env :=
  mkEnv (λ _ s, s) (toy_answer script).

Lemma toy_env_calm script : conforms calm (toy_env script).
Proof.
  intros n s. split; [done|]. intros c. simpl.
  destruct c; simpl; try done; try (by destruct (script n _)).
  all: rewrite ?length_replicate; eauto.
  all: unfold usize_max; lia.
Qed.

Definition toy_keys : Keypair := Ed25519 (Ed := bytes) (Secp := bytes) (Rsa := bytes) [x01].
Definition toy_node : Node := mkNode toy_keys (Some "proxy"%string) None.
Definition toy_stream (peer id : string) : WrappedStream := mkWrappedStream (EXT := toy) peer id.

(** Scripts: one reply to every command of a kind. *)
Definition no_script : nat → ∀ c : cmd, option (reply c) := λ _ _, None.

(** Every acknowledgement is positive and carries [data]. *)
Definition ack_script (res : bool) (data : bytes) : nat → ∀ c : cmd, option (reply c) :=
  λ _ c, match c return option (reply c) with
         | AwaitAck _ => Some (Some (mkAck "" res data))
         | _ => None
         end.

End ToyEnv.
