(* ===== verification/Utils.v ===== *)
(** * Identifiers, framing and relay messages

    src/network/utils.rs and src/network/const_vb.rs, with the stream handle
    operations of relay_behaviour.rs they call: request and message ids, the
    hash of a WhiteNoise id, the length-prefixed payload frame, traffic
    confusion and jitter, and the constructors, writers and forwarders of relay
    messages. *)

From S2P Require Import Prelude Proto External State Io Packing Concrete.

(** ** const_vb.rs *)

Definition BUF_LEN : Z := 65536.
Definition CONFUSION_MAX_PROPORTION : Z := 10.
Definition CONFUSION_PAD_LEN : Z := 10.
Definition JITTER_MAX_MICROS : Z := 30.

Section Utils.
Context {EXT : Ext}.

(** ** Identifiers *)

(** [Code::Sha2_256.digest(buf).to_bytes()[2..].to_vec()]. *)
Definition sha2_256 (buf : bytes) : bytes := drop 2 (sha2_256_to_bytes buf).

Definition from_bytes_get_id (buf : bytes) : string := bs58_encode (sha2_256 buf).

Definition from_request_get_id (request : Request) : string :=
  from_bytes_get_id (pb_encode request).

(** [None] is a panic: no character to split off, or not base58. *)
Definition from_whitenoise_to_hash (whitenoise_id : string) : option string :=
  '(_, pub_bytes) ← split_at_1 whitenoise_id;
  whitenoise_bytes ← bs58_decode pub_bytes;
  Some (bs58_encode (sha2_256 whitenoise_bytes)).

(** ** Stream handles (relay_behaviour.rs) *)

Definition ws_write (w : WrappedStream) (data : bytes) : io unit :=
  call (OutSend w (WdData data)) ≫= unwrap_ok.

Definition ws_read (w : WrappedStream) : io (result bytes ReadOneError) :=
  read_res ← call (InRecv w);
  match read_res with
  | None => mret (Err (ReadIo "stream reader sender all destroyed"))
  | Some res => mret res
  end.

Definition ws_close (w : WrappedStream) : io unit :=
  call (OutSend w WdClose) ≫= unwrap_ok.

(** ** Confusion and jitter *)

Definition confusion_bound (relay : Relay) : Z :=
  (Z.of_nat (length (relay_data relay)) * CONFUSION_MAX_PROPORTION / 100 + CONFUSION_PAD_LEN)%Z.

Definition confusion_relay (relay : Relay) : io Relay :=
  confusion_len ← call (GenRange (confusion_bound relay));
  confusion ← call (FillBytes (Z.to_nat confusion_len));
  mret (mkRelay (relay_id relay) (relay_type relay) (relay_data relay) confusion).

Definition random_jitter_duration : io Z := call (GenRange JITTER_MAX_MICROS).

Definition jitter : io unit :=
  dur ← random_jitter_duration;
  call (Sleep dur).

(** ** Writing relay messages *)

Definition write_relay_arc (stream : WrappedStream) (relay : Relay) : io string :=
  relay ← confusion_relay relay;
  let relay_bytes := pb_encode relay in
  let key := from_bytes_get_id relay_bytes in
  let relay := mkRelay key (relay_type relay) (relay_data relay) (relay_confusion relay) in
  let relay_bytes := pb_encode relay in
  jitter;;
  ws_write stream relay_bytes;;
  mret key.

(** The frame of [write_payload_arc]: [put_u16(len as u16)], then the bytes
    copied into the rest of the vector; [None] is the length mismatch panic of
    [copy_from_slice]. *)
Definition payload_frame (buf : bytes) (len : nat) : option bytes :=
  if decide (length buf = vec_chunk_len (2 + len) 2)
  then Some (be_bytes 2 (Z.of_nat len) ++ take len buf) else None.

Definition data_relay (session_id : string) (data : bytes) : Relay :=
  mkRelay "" (relaytype_i32 RtData) (pb_encode (mkRelayMsg session_id data)) [].

Definition write_payload_arc (stream : WrappedStream) (buf : bytes) (len : nat)
    (session_id : string) : io unit :=
  new_buf ← unwrap (payload_frame buf len);
  write_relay_arc stream (data_relay session_id new_buf);;
  mret tt.

Definition write_handshake_payload_arc := write_payload_arc.

Definition write_disconnect_arc (stream : WrappedStream) (session_id : string) : io unit :=
  let data := pb_encode (mkDisconnect session_id 0) in
  write_relay_arc stream (mkRelay "" (relaytype_i32 RtDisconnect) data []);;
  mret tt.

Definition write_relay_wake_arc (stream : WrappedStream) : io unit :=
  write_relay_arc stream (mkRelay "" (relaytype_i32 RtWake) [] []);;
  mret tt.

Definition set_session_relay (session_id : string) (session_role : Z) : Relay :=
  mkRelay "" (relaytype_i32 RtSetSessionId)
    (pb_encode (mkSetSessionIdMsg session_id session_role)) [].

Definition write_set_session_with_role_arc (stream : WrappedStream) (session_id : string)
    (session_role : Z) : io string :=
  write_relay_arc stream (set_session_relay session_id session_role).

Definition write_set_session_arc (stream : WrappedStream) (session_id : string) : io string :=
  write_relay_arc stream (set_session_relay session_id (role_i32 EntryRole)).

(** [write_message(payload, buf)] of a transport state is at a handle of
    [Shared]; [unwrap] panics when the message does not fit. *)
Definition transport_write (h : nat) (payload : bytes) (buf_len : nat) : io bytes :=
  r ← atomic (λ s,
        match transports s !! h ≫= λ t, ts_write_message t payload buf_len with
        | Some (t', c) => (set_transports <[h := t']> s, Some c)
        | None => (s, None)
        end);
  unwrap r.

Definition transport_read (h : nat) (payload : bytes) (buf_len : nat) : io bytes :=
  r ← atomic (λ s,
        match transports s !! h ≫= λ t, ts_read_message t payload buf_len with
        | Some (t', m) => (set_transports <[h := t']> s, Some m)
        | None => (s, None)
        end);
  unwrap r.

Definition write_encrypted_payload_arc (stream : WrappedStream) (payload : bytes)
    (buf_len : nat) (session_id : string) (noise : nat) : io unit :=
  buf_tmp ← transport_write noise payload buf_len;
  write_payload_arc stream buf_tmp (length buf_tmp) session_id.

(** ** Reading relay messages *)

Definition read_from_negotiated_arc (stream : WrappedStream) : io (result Relay ReadOneError) :=
  res ← ws_read stream;
  match res with
  | Err e => mret (Err e)
  | Ok msg => relay ← unwrap (pb_decode msg); mret (Ok relay)
  end.

(** Unframing: [data[0] * 256 + data[1]] bytes from the third on; [None] is an
    index panic. *)
Definition payload_unframe (data : bytes) : option bytes :=
  match data with
  | b0 :: b1 :: _ =>
      let buf_len := (u8_Z b0 * 256 + u8_Z b1)%Z in
      slice data 2 (2 + Z.to_nat buf_len)
  | _ => None
  end.

Definition read_payload_arc (fuel : nat) (stream : WrappedStream) : io bytes :=
  relay ← loop (λ _ : unit,
      relay_inner_rest ← read_from_negotiated_arc stream;
      match relay_inner_rest with
      | Err _ => Panic
      | Ok relay_inner =>
          if decide (relay_type relay_inner = relaytype_i32 RtData)
          then mret (inr relay_inner) else mret (inl tt)
      end) fuel tt;
  relay_msg ← unwrap (pb_decode (M := RelayMsg) (relay_data relay));
  unwrap (payload_unframe (rmsg_data relay_msg)).

Definition read_and_decrypt_payload_arc (fuel : nat) (stream : WrappedStream) (noise : nat)
    (buf_len : nat) : io bytes :=
  payload ← read_payload_arc fuel stream;
  transport_read noise payload buf_len.

(** ** The identity payload of the Noise handshake *)

Definition noise_key_prefix : bytes := as_bytes "noise-libp2p-static-key:".

Definition handle_remote_handshake_payload (payload remote_static : bytes) : option bool :=
  noise_shakehand_payload ← pb_decode (M := NoiseHandshakePayload) payload;
  let id_key := nhp_identity_key noise_shakehand_payload in
  let id_sig := nhp_identity_sig noise_shakehand_payload in
  verify_protobuf_key id_key (noise_key_prefix ++ remote_static) id_sig.

Definition generate_handshake_payload (keys : NoiseKeys) : option bytes :=
  signature ← noise_identity_signature keys;
  Some (pb_encode (mkNoiseHandshakePayload (noise_identity_public keys) signature [])).

(** ** Circuit success and probe messages *)

Definition new_relay_circuit_success (session_id : string) : Relay :=
  mkRelay "" (relaytype_i32 RtSuccess) (pb_encode (mkCircuitSuccess session_id)) [].

Definition probe_rand (session_id : string) : bytes := sha2_256 (as_bytes session_id).

Definition new_relay_probe (session_id : string) : Relay :=
  mkRelay "" (relaytype_i32 RtProbe)
    (pb_encode (mkProbeSignal session_id (probe_rand session_id))) [].

(** ** Forwarding *)

Definition forward_relay (session : Session) (cur_stream_id : string) (relay : Relay) : io unit :=
  early ← unwrap (early_stream (pair_stream session));
  if decide (stream_id early = cur_stream_id) then
    later ← unwrap (later_stream (pair_stream session));
    write_relay_arc later relay;; mret tt
  else
    later ← unwrap (later_stream (pair_stream session));
    if decide (stream_id later = cur_stream_id) then
      early ← unwrap (early_stream (pair_stream session));
      write_relay_arc early relay;; mret tt
    else mret tt.

Definition spawn_write (w : option WrappedStream) (relay : Relay) : io unit :=
  match w with
  | Some w => spawn (TaskWriteRelay w relay)
  | None => mret tt
  end.

Definition send_relay_twoway (session : Session) (relay : Relay) : io unit :=
  spawn_write (early_stream (pair_stream session)) relay;;
  spawn_write (later_stream (pair_stream session)) relay.

End Utils.

(** * Lemmas *)

Section UtilsLemmas.
Context {EXT : Ext}.

(** The message [write_relay_arc] puts on a stream, and its id, for a given
    confusion. *)
Definition confused (relay : Relay) (confusion : bytes) : Relay :=
  mkRelay (relay_id relay) (relay_type relay) (relay_data relay) confusion.

Definition sealed_id (relay : Relay) (confusion : bytes) : string :=
  from_bytes_get_id (pb_encode (confused relay confusion)).

Definition sealed (relay : Relay) (confusion : bytes) : Relay :=
  mkRelay (sealed_id relay confusion) (relay_type relay) (relay_data relay) confusion.

(** The stream delivers [d]. *)
Definition reads (d : bytes) : script :=
  λ c, match c return option (reply c) with
       | InRecv _ => Some (Some (Ok d))
       | _ => None
       end.

(** [w] is sent [relay] under some confusion of an allowed length. *)
Definition confusion_ok (relay : Relay) (confusion : bytes) : Prop :=
  (Z.of_nat (length confusion) < confusion_bound relay)%Z.

Lemma confusion_bound_pos relay : (0 < confusion_bound relay)%Z.
Proof.
  unfold confusion_bound, CONFUSION_PAD_LEN, CONFUSION_MAX_PROPORTION.
  pose proof (Z.div_pos (Z.of_nat (length (relay_data relay)) * 10) 100). lia.
Qed.

Definition write_cmds (w : WrappedStream) (relay : Relay) (confusion : bytes) (us : Z) : list cmd :=
  [GenRange (confusion_bound relay); FillBytes (length confusion);
   GenRange JITTER_MAX_MICROS; Sleep us;
   OutSend w (WdData (pb_encode (sealed relay confusion)))].

Lemma write_relay_arc_wp (w : WrappedStream) (relay : Relay) s Q :
  (∀ confusion us, confusion_ok relay confusion → (0 <= us < JITTER_MAX_MICROS)%Z →
     Q (write_cmds w relay confusion us) (Returned (sealed_id relay confusion)) s) →
  wp calm (write_relay_arc w relay) s Q.
Proof.
  intros HQ. unfold write_relay_arc, confusion_relay, jitter, random_jitter_duration, ws_write.
  wp_steps. rename r0 into confusion.
  pose proof (confusion_bound_pos relay) as Hpos.
  assert (Hlen : confusion_ok relay confusion) by (unfold confusion_ok; lia).
  specialize (HQ confusion r1 Hlen (Hr1 eq_refl)). unfold write_cmds in HQ.
  by rewrite Hr0 in HQ.
Qed.

(** Its use in a sequence, keeping only the visible trace. *)
Lemma write_relay_arc_bind {B} (w : WrappedStream) (relay : Relay) (k : string → io B) s Q :
  (∀ confusion us, confusion_ok relay confusion →
     wp calm (k (sealed_id relay confusion)) s
       (λ tr, Q (write_cmds w relay confusion us ++ tr))) →
  wp calm (write_relay_arc w relay ≫= k) s Q.
Proof.
  intros HQ. apply wp_bind_2, write_relay_arc_wp. intros confusion us Hc Hus.
  simpl. by apply HQ.
Qed.

Lemma effects_write_cmds w relay confusion us :
  effects (write_cmds w relay confusion us) =
    [OutSend w (WdData (pb_encode (sealed relay confusion)))].
Proof. done. Qed.

Lemma payload_frame_some `{!BytesLaws} (buf : bytes) (len : nat) :
  0 < len → length buf = len →
  payload_frame buf len = Some (be_bytes 2 (Z.of_nat len) ++ buf).
Proof.
  intros Hpos Hlen. unfold payload_frame. rewrite chunk_room by lia.
  rewrite decide_True by lia. by rewrite take_ge by lia.
Qed.

Lemma payload_frame_empty `{!BytesLaws} : payload_frame [] 0 = None.
Proof.
  unfold payload_frame. rewrite decide_False; [done|]. simpl. pose proof (chunk_full 2). lia.
Qed.

(** Reading back a frame returns the low sixteen bits' worth of bytes. *)
Lemma payload_unframe_be (z : Z) (buf : bytes) :
  (z mod 65536 <= Z.of_nat (length buf))%Z →
  payload_unframe (be_bytes 2 z ++ buf) = Some (take (Z.to_nat (z mod 65536)) buf).
Proof.
  intros Hle. pose proof (from_be_bytes_2 z) as Hz.
  unfold payload_unframe. rewrite be_bytes_2 in *. cbn [from_be_bytes fold_left] in Hz.
  rewrite Z.mul_0_l, Z.add_0_l in Hz. cbn [app]. rewrite Hz.
  rewrite <- (take_drop (Z.to_nat (z mod 65536)) buf) at 1.
  apply (slice_spec' [_; _]); [done|].
  pose proof (Z.mod_pos_bound z 65536). rewrite length_take. simpl. lia.
Qed.

Lemma payload_unframe_frame (buf : bytes) :
  (Z.of_nat (length buf) < 65536)%Z →
  payload_unframe (be_bytes 2 (Z.of_nat (length buf)) ++ buf) = Some buf.
Proof.
  intros Hlt. rewrite payload_unframe_be; rewrite Z.mod_small by lia; [|lia].
  by rewrite Nat2Z.id, take_ge.
Qed.

Lemma write_payload_arc_wp `{!BytesLaws} w (buf : bytes) sid s Q :
  0 < length buf →
  (∀ confusion us,
     let relay := data_relay sid (be_bytes 2 (Z.of_nat (length buf)) ++ buf) in
     confusion_ok relay confusion →
     Q (write_cmds w relay confusion us) (Returned tt) s) →
  wp calm (write_payload_arc w buf (length buf) sid) s Q.
Proof.
  intros Hpos HQ. unfold write_payload_arc. rewrite payload_frame_some by done.
  cbn [unwrap mbind io_mbind io_bind]. apply write_relay_arc_bind.
  intros confusion us Hc. simpl. by apply HQ.
Qed.

(** Its outcomes, whatever the buffer. *)
Lemma write_payload_arc_any w (buf : bytes) len sid s Q :
  (∀ tr, Q tr Panicked s) → (∀ tr, Q tr (Returned tt) s) →
  wp calm (write_payload_arc w buf len sid) s Q.
Proof.
  intros HP HR. unfold write_payload_arc. destruct (payload_frame buf len); [|by wp_step].
  wp_norm. apply write_relay_arc_bind. intros. wp_step. apply HR.
Qed.

(** Forwarding out of one stream of a ready session goes to the other one. *)
Definition other_stream (session : Session) (cur : string) : option WrappedStream :=
  match early_stream (pair_stream session), later_stream (pair_stream session) with
  | Some e, Some l =>
      if decide (stream_id e = cur) then Some l
      else if decide (stream_id l = cur) then Some e else None
  | _, _ => None
  end.

Lemma ready_true session :
  ready session = true ↔
  ∃ e l, early_stream (pair_stream session) = Some e ∧ later_stream (pair_stream session) = Some l.
Proof.
  unfold ready. rewrite andb_true_iff, !bool_decide_eq_true. split.
  - intros [[e He] [l Hl]]. eauto.
  - intros (e & l & He & Hl). eauto.
Qed.

Lemma ready_with_later session w :
  is_Some (early_stream (pair_stream session)) → ready (with_later_stream session w) = true.
Proof. intros [e He]. apply ready_true. simpl. eauto. Qed.

Lemma forward_relay_wp (session : Session) (cur : string) (relay : Relay) s Q :
  ready session = true →
  match other_stream session cur with
  | Some w => ∀ confusion us, confusion_ok relay confusion →
                Q (write_cmds w relay confusion us) (Returned tt) s
  | None => Q [] (Returned tt) s
  end →
  wp calm (forward_relay session cur relay) s Q.
Proof.
  intros (e & l & He & Hl)%ready_true HQ.
  unfold forward_relay, other_stream in *. rewrite He, Hl in *.
  cbn [unwrap mbind io_mbind io_bind].
  case_decide; [|case_decide]; try done;
    apply write_relay_arc_bind; intros; simpl; by apply HQ.
Qed.

Definition twoway_cmds (session : Session) (relay : Relay) : list cmd :=
  (λ w, Spawn (TaskWriteRelay w relay)) <$>
    (option_list (early_stream (pair_stream session)) ++
     option_list (later_stream (pair_stream session))).

Lemma send_relay_twoway_wp (session : Session) (relay : Relay) s Q :
  Q (twoway_cmds session relay) (Returned tt) s →
  wp calm (send_relay_twoway session relay) s Q.
Proof.
  intros HQ. unfold send_relay_twoway, spawn_write, twoway_cmds in *.
  destruct (early_stream _), (later_stream _); simpl in *; wp_steps; done.
Qed.

Lemma ws_close_wp (w : WrappedStream) s Q :
  Q [OutSend w WdClose] (Returned tt) s → wp calm (ws_close w) s Q.
Proof. intros HQ. unfold ws_close. by wp_steps. Qed.

Lemma ws_read_wp (w : WrappedStream) s Q :
  Q [InRecv w] Blocked s →
  (∀ res, Q [InRecv w] (Returned res) s) →
  wp calm (ws_read w) s Q.
Proof. intros Hb HQ. unfold ws_read. wp_step. destruct r; wp_steps; apply HQ. Qed.

End UtilsLemmas.

(** * Properties *)

Section UtilsProperties.
Context {EXT : Ext}.

(** C39: a message that leaves on a stream keeps its type and data; it is padded
    with less than a tenth of its length plus ten random bytes, identified by
    the hash of its encoding under the id it had, delayed by less than 30
    microseconds, and the id is returned for the caller to wait on. *)
Theorem write_relay_arc_spec (w : WrappedStream) (r : Relay) (s : Shared) :
  ensures calm s (write_relay_arc w r) (λ tr o s', s' = s ∧ ∃ m len us,
    tr = [GenRange (confusion_bound r); FillBytes len; GenRange JITTER_MAX_MICROS; Sleep us;
          OutSend w (WdData (pb_encode m))] ∧
    o = Returned (relay_id m) ∧
    relay_type m = relay_type r ∧ relay_data m = relay_data r ∧
    length (relay_confusion m) = len ∧
    (Z.of_nat len < Z.of_nat (length (relay_data r)) * 10 / 100 + 10)%Z ∧ (0 <= us < 30)%Z ∧
    relay_id m = from_bytes_get_id
      (pb_encode (mkRelay (relay_id r) (relay_type m) (relay_data m) (relay_confusion m)))).
Proof.
  apply wp_ensures, write_relay_arc_wp. intros confusion us Hc Hus. split; [done|].
  exists (sealed r confusion), (length confusion), us. destruct Hus. split_and!; try done.
Qed.

(** The length-prefixed frame of a payload reads back as the payload's
    first [len mod 65536] bytes: exactly the payload below 64 KiB, since the
    length is truncated to sixteen bits.  An empty payload has no frame (the
    copy panics). *)
Theorem payload_frame_unframe `{!BytesLaws} (buf : bytes) :
  match payload_frame buf (length buf) with
  | None => buf = []
  | Some frame =>
      length frame = 2 + length buf ∧
      payload_unframe frame = Some (take (Z.to_nat (Z.of_nat (length buf) mod 65536)) buf)
  end.
Proof.
  destruct buf as [|b buf]; [by rewrite payload_frame_empty|].
  rewrite payload_frame_some by (simpl; lia). split.
  - by rewrite length_app, be_bytes_length.
  - apply payload_unframe_be. apply Z.mod_le; lia.
Qed.

(** What one node writes on a stream another reads: the bytes of a
    written message decode to a message of the same type and data. *)
Theorem read_written_relay `{!CodecLaws} (w w' : WrappedStream) (r : Relay) (s s' : Shared) :
  ensures calm s (write_relay_arc w r) (λ tr o _, ∀ d, OutSend w (WdData d) ∈ tr →
    ∃ m, relay_type m = relay_type r ∧ relay_data m = relay_data r ∧ o = Returned (relay_id m) ∧
    ensures (calm_with (reads d)) s' (read_from_negotiated_arc w')
      (λ _ o' s'', s'' = s' ∧ o' = Returned (Ok m))).
Proof.
  apply wp_ensures, write_relay_arc_wp. intros confusion us Hc Hus d Hd.
  assert (Heq : d = pb_encode (sealed r confusion)).
  { unfold write_cmds in Hd. rewrite !elem_of_cons in Hd.
    destruct Hd as [[=]|[[=]|[[=]|[[=]|[[=]|[]%not_elem_of_nil]]]]]; done. }
  exists (sealed r confusion). split_and!; try done. subst d.
  apply wp_ensures. unfold read_from_negotiated_arc, ws_read.
  wp_step. wp_norm. rewrite pb_decode_encode. wp_norm. by wp_ret.
Qed.

End UtilsProperties.

Section UtilsWitnesses.
Local Existing Instance toy.

Lemma payload_frame_unframe_witness :
  payload_frame [x01; x02] 2 = Some [x00; x02; x01; x02] ∧
  payload_unframe [x00; x02; x01; x02] = Some [x01; x02].
Proof.
  split; [reflexivity|]. exact (proj2 (@payload_frame_unframe toy toy_bytes_laws [x01; x02])).
Defined.

Lemma read_written_relay_witness :
  let w := toy_stream "p" "1" in
  let r := mkRelay "" (relaytype_i32 RtData) [x01] [] in
  let d := pb_encode (sealed r []) in
  OutSend w (WdData d) ∈ trace (run (toy_env no_script) (write_relay_arc w r) 0 empty_shared) ∧
  ∃ m, relay_data m = [x01] ∧
    ensures (calm_with (reads d)) empty_shared (read_from_negotiated_arc w)
      (λ _ o' s'', s'' = empty_shared ∧ o' = Returned (Ok m)).
Proof.
  intros w r d.
  assert (Hd : OutSend w (WdData d) ∈
               trace (run (toy_env no_script) (write_relay_arc w r) 0 empty_shared))
    by (do 4 apply list_elem_of_further; apply list_elem_of_here).
  split; [exact Hd|].
  destruct (@read_written_relay toy toy_codec_laws w w r empty_shared empty_shared
              (toy_env no_script) 0 (toy_env_calm no_script) d Hd) as (m & _ & Hm & _ & Hread).
  exists m. split; [exact Hm|exact Hread].
Defined.

End UtilsWitnesses.
