(* ===== verification/Substream.v ===== *)
(** * Raw substreams

    The functions of src/network/utils.rs on a [NegotiatedSubstream]: the same
    messages as those of [Utils], written to and read from the substream itself
    instead of the channels of a wrapped stream.  [redirect] replaces the
    channels of one wrapped stream by a substream in a program; the writers and
    readers of the two families are the same programs up to it. *)

From Stdlib Require Import Setoid Morphisms.
From S2P Require Import Prelude Proto External State Io Concrete Utils.

(** [std::io::Error::new(ErrorKind::InvalidData, e)]. *)
Inductive IoError := InvalidData (e : ReadOneError).

(** The limit of [read_one] on a substream. *)
Definition SUBSTREAM_MAX : nat := Z.to_nat 4096.

Section Substream.
Context {EXT : Ext}.

(** ** Writing *)

Definition write_relay (stream : nat) (relay : Relay) : io string :=
  relay ← confusion_relay relay;
  let relay_bytes := pb_encode relay in
  let key := from_bytes_get_id relay_bytes in
  let relay := mkRelay key (relay_type relay) (relay_data relay) (relay_confusion relay) in
  let relay_bytes := pb_encode relay in
  jitter;;
  call (RawWrite stream relay_bytes) ≫= unwrap_ok;;
  mret key.

Definition write_relay_wake (stream : nat) : io unit :=
  write_relay stream (mkRelay "" (relaytype_i32 RtWake) [] []);;
  mret tt.

Definition write_set_session (stream : nat) (session_id : string) : io string :=
  write_relay stream (set_session_relay session_id (role_i32 EntryRole)).

(** [put_u16(len as u16)], then every byte of [buf] by [put_u8], whatever [len]
    is: no copy, no panic. *)
Definition raw_payload_frame (buf : bytes) (len : nat) : bytes :=
  be_bytes 2 (Z.of_nat len) ++ buf.

Definition write_payload (stream : nat) (buf : bytes) (len : nat) (session_id : string) : io unit :=
  write_relay stream (data_relay session_id (raw_payload_frame buf len));;
  mret tt.

Definition write_encrypted_payload (stream : nat) (payload : bytes) (buf_len : nat)
    (session_id : string) (noise : nat) : io unit :=
  buf_tmp ← transport_write noise payload buf_len;
  write_payload stream buf_tmp (length buf_tmp) session_id.

Definition write_handshake_payload := write_payload.

(** ** Reading *)

Definition read_from_negotiated (stream : nat) : io (result Relay IoError) :=
  res ← call (RawRead stream SUBSTREAM_MAX);
  match res with
  | Err e => mret (Err (InvalidData e))
  | Ok msg => relay ← unwrap (pb_decode msg); mret (Ok relay)
  end.

Definition read_payload (fuel : nat) (stream : nat) : io bytes :=
  relay ← loop (λ _ : unit,
      relay_inner_rest ← read_from_negotiated stream;
      match relay_inner_rest with
      | Err _ => Panic
      | Ok relay_inner =>
          if decide (relay_type relay_inner = relaytype_i32 RtData)
          then mret (inr relay_inner) else mret (inl tt)
      end) fuel tt;
  relay_msg ← unwrap (pb_decode (M := RelayMsg) (relay_data relay));
  unwrap (payload_unframe (rmsg_data relay_msg)).

Definition read_and_decrypt_payload (fuel : nat) (stream : nat) (noise : nat) (buf_len : nat)
    : io bytes :=
  payload ← read_payload fuel stream;
  transport_read noise payload buf_len.

(** The handshake state is the caller's own: it is returned with the bytes put
    in the buffer. *)
Definition read_handshake_payload (fuel : nat) (stream : nat) (noise : HandshakeState)
    (buf_len : nat) : io (HandshakeState * bytes) :=
  payload ← read_payload fuel stream;
  unwrap (hs_read_message noise payload buf_len).

Definition read_handshake_payload_arc (fuel : nat) (stream : WrappedStream) (noise : HandshakeState)
    (buf_len : nat) : io (HandshakeState * bytes) :=
  payload ← read_payload_arc fuel stream;
  unwrap (hs_read_message noise payload buf_len).

End Substream.

(** * Equality of programs *)

Section Equality.
Context {EXT : Ext}.

(** Programs are equal when every environment runs them alike. *)
Record io_eq {A} (p q : io A) : Prop := mkIoEq {
  io_eq_run : ∀ e n s, run e p n s = run e q n s
}.

#[export] Instance io_equiv {A} : Equiv (io A) := io_eq.

#[export] Instance io_equivalence {A} : Equivalence (≡@{io A}).
Proof.
  split; [done| |]; [intros p q []|intros p q r [] []]; split; intros e n s; congruence.
Qed.

#[export] Instance io_bind_proper {A B} :
  Proper (pointwise_relation A (≡) ==> (≡) ==> (≡)) (@io_bind EXT A B).
Proof.
  intros k k' Hk p p' [Hp]. split. intros e n s. rewrite !run_bind, Hp. simpl.
  destruct (out _) as [a| | |]; try done. by destruct (Hk a) as [->].
Qed.

Lemma io_eq_call {A} c (k k' : reply c → io A) : (∀ r, k r ≡ k' r) → Call c k ≡ Call c k'.
Proof.
  intros Hk. split. intros e n s. rewrite !run_call.
  destruct (answer e n (interfere e n s) c) as [r|]; [|done]. by destruct (Hk r) as [->].
Qed.

Lemma io_eq_atomic {A X} (f : Shared → Shared * X) (k k' : X → io A) :
  (∀ s, k (f s).2 ≡ k' (f s).2) → Atomic f k ≡ Atomic f k'.
Proof. intros Hk. split. intros e n s. rewrite !run_atomic. apply Hk. Qed.

End Equality.

Section Redirect.
Context {EXT : Ext} (w : WrappedStream) (sub : nat).

(** The program with the channels of [w] replaced by the substream. *)
Fixpoint redirect {A} (p : io A) : io A :=
  match p with
  | Ret a => Ret a
  | Panic => Panic
  | Diverge => Diverge
  | Atomic f k => Atomic f (λ x, redirect (k x))
  | Call c k =>
      match c as c return (reply c → io A) → io A with
      | OutSend w' (WdData d) => λ k,
          if decide (w' = w) then Call (RawWrite sub d) k else Call (OutSend w' (WdData d)) k
      | InRecv w' => λ k,
          if decide (w' = w) then Call (RawRead sub SUBSTREAM_MAX) (λ r, k (Some r))
          else Call (InRecv w') k
      | c => Call c
      end (λ r, redirect (k r))
  end.

Lemma redirect_bind {A B} (k : A → io B) (p : io A) :
  redirect (io_bind k p) ≡ io_bind (λ a, redirect (k a)) (redirect p).
Proof.
  induction p as [a| | |X f k' IH|c k' IH]; simpl; try done.
  - by apply io_eq_atomic.
  - destruct c; try (apply io_eq_call; apply IH).
    + destruct d; [|case_decide]; apply io_eq_call; apply IH.
    + case_decide; apply io_eq_call; intros; apply IH.
Qed.

Lemma redirect_loop {S R} (body body' : S → io (S + R)) fuel st :
  (∀ st, redirect (body st) ≡ body' st) → redirect (loop body fuel st) ≡ loop body' fuel st.
Proof.
  intros Hb. revert st. induction fuel as [|fuel IH]; intros st; [done|]. simpl.
  rewrite redirect_bind. apply io_bind_proper; [|apply Hb]. intros [st'|r]; [apply IH|done].
Qed.

Lemma redirect_unwrap {A} (o : option A) : redirect (unwrap o) ≡ unwrap o.
Proof. by destruct o. Qed.

Lemma redirect_write_relay r : redirect (write_relay_arc w r) ≡ write_relay sub r.
Proof.
  cbn. repeat (apply io_eq_call; intros ?). cbn. rewrite decide_True by done.
  apply io_eq_call. by intros [].
Qed.

Lemma redirect_write_payload `{!BytesLaws} buf sid :
  0 < length buf →
  redirect (write_payload_arc w buf (length buf) sid) ≡ write_payload sub buf (length buf) sid.
Proof.
  intros Hpos. unfold write_payload_arc, mbind, io_mbind. rewrite payload_frame_some by done.
  change (redirect (io_bind (λ _, mret tt) (write_relay_arc w (data_relay sid
    (raw_payload_frame buf (length buf))))) ≡ write_payload sub buf (length buf) sid).
  by rewrite redirect_bind, redirect_write_relay.
Qed.

Lemma redirect_transport_write h payload n :
  redirect (transport_write h payload n) ≡ transport_write h payload n.
Proof. apply io_eq_atomic. intros o. apply redirect_unwrap. Qed.

Lemma redirect_transport_read h payload n :
  redirect (transport_read h payload n) ≡ transport_read h payload n.
Proof. apply io_eq_atomic. intros o. apply redirect_unwrap. Qed.

Lemma redirect_write_encrypted `{!BytesLaws} h payload n sid :
  (∀ t t' c, ts_write_message t payload n = Some (t', c) → 0 < length c) →
  redirect (write_encrypted_payload_arc w payload n sid h) ≡ write_encrypted_payload sub payload n sid h.
Proof.
  intros Hc. apply io_eq_atomic. intros s. simpl.
  destruct (transports s !! h ≫= _) as [[t' c]|] eqn:Ht; [|done].
  apply bind_Some in Ht as (t & _ & Ht). by apply redirect_write_payload, (Hc t t').
Qed.

(** A round of reading: a message or a panic. *)
Lemma redirect_read_payload fuel : redirect (read_payload_arc fuel w) ≡ read_payload fuel sub.
Proof.
  unfold read_payload_arc, read_payload, mbind, io_mbind. rewrite redirect_bind.
  apply io_bind_proper.
  - intros relay. rewrite redirect_bind, redirect_unwrap. apply io_bind_proper; [|done].
    intros m. apply redirect_unwrap.
  - apply redirect_loop. intros []. cbn. rewrite decide_True by done. apply io_eq_call.
    intros [msg|e]; [|done]. cbn. destruct (pb_decode msg) as [m|]; [|done]. cbn. by case_decide.
Qed.

End Redirect.

(** * Properties *)

Section SubstreamProperties.
Context {EXT : Ext}.

(** C33: the two families of functions are one.  With the channels of the
    wrapped stream replaced by the substream, every environment runs each writer
    and reader of wrapped streams as it runs its substream namesake: the same
    outcome, commands and effect on the state.  A payload writer needs a payload
    that is not empty (the other copies it byte by byte and does not panic). *)
Theorem substream_equiv `{!BytesLaws} (w : WrappedStream) (sub : nat) (r : Relay)
    (buf : bytes) (sid : string) (h n fuel : nat) (hs : HandshakeState) :
  0 < length buf →
  redirect w sub (write_relay_arc w r) ≡ write_relay sub r ∧
  redirect w sub (write_relay_wake_arc w) ≡ write_relay_wake sub ∧
  redirect w sub (write_set_session_arc w sid) ≡ write_set_session sub sid ∧
  redirect w sub (write_handshake_payload_arc w buf (length buf) sid) ≡
    write_handshake_payload sub buf (length buf) sid ∧
  ((∀ t t' c, ts_write_message t buf n = Some (t', c) → 0 < length c) →
   redirect w sub (write_encrypted_payload_arc w buf n sid h) ≡
     write_encrypted_payload sub buf n sid h) ∧
  redirect w sub (read_payload_arc fuel w) ≡ read_payload fuel sub ∧
  redirect w sub (read_and_decrypt_payload_arc fuel w h n) ≡ read_and_decrypt_payload fuel sub h n ∧
  redirect w sub (read_handshake_payload_arc fuel w hs n) ≡ read_handshake_payload fuel sub hs n.
Proof.
  intros Hbuf. split_and!.
  - apply redirect_write_relay.
  - unfold write_relay_wake_arc, mbind, io_mbind. by rewrite redirect_bind, redirect_write_relay.
  - apply redirect_write_relay.
  - by apply redirect_write_payload.
  - intros Hc. by apply redirect_write_encrypted.
  - apply redirect_read_payload.
  - unfold read_and_decrypt_payload_arc, mbind, io_mbind. rewrite redirect_bind, redirect_read_payload.
    apply io_bind_proper; [|done]. intros c. apply redirect_transport_read.
  - unfold read_handshake_payload_arc, mbind, io_mbind. rewrite redirect_bind, redirect_read_payload.
    apply io_bind_proper; [|done]. intros c. apply redirect_unwrap.
Qed.

End SubstreamProperties.

Section SubstreamWitnesses.
Local Existing Instance toy.

Lemma substream_equiv_witness :
  0 < length [x2a] ∧
  let w := toy_stream "p" "1" in
  let e := toy_env no_script in
  trace (run e (write_payload 3 [x2a] 1 "sid") 0 empty_shared) =
    trace (run e (redirect w 3 (write_payload_arc w [x2a] 1 "sid")) 0 empty_shared).
Proof.
  assert (Hpos : 0 < length [x2a]) by (simpl; lia). split; [exact Hpos|]. intros w e.
  destruct (@substream_equiv toy toy_bytes_laws w 3 (mkRelay "" 0 [] []) [x2a] "sid" 0 0 0
    (mkToyHs true x07 None) Hpos) as (_ & _ & _ & Hw & _).
  by rewrite (io_eq_run _ _ Hw).
Defined.

End SubstreamWitnesses.
