(* ===== verification/Connection.v ===== *)
(** * Circuit connections

    src/network/connection.rs: reading and writing encrypted messages on a
    circuit.  The application frames each message with a four-byte big-endian
    length ([Chat.chat_payload]), the transport encrypts it, and
    [Utils.write_payload_arc] frames the ciphertext with two bytes. *)

From S2P Require Import Prelude Proto External State Io Utils.

Section Connection.
Context {EXT : Ext}.

(** The caller's buffer after [read_message] put the plaintext at its start:
    the rest keeps its old content. *)
Definition overwrite (buf m : bytes) : bytes := m ++ drop (length m) buf.

(** The message of a buffer: its first four bytes are the size, checked against
    the length of the buffer only; [None] is an index panic. *)
Definition sized_message (buf : bytes) : option bytes :=
  match buf with
  | b0 :: b1 :: b2 :: b3 :: _ =>
      let real_size := Z.to_nat (from_be_bytes [b0; b1; b2; b3]) in
      slice buf 4 (real_size + 4)
  | _ => None
  end.

(** What [CircuitConn::read] does with the data it received. *)
Definition circuit_take (h : nat) (data buf : bytes) : io (bytes * bytes) :=
  payload ← unwrap (payload_unframe data);
  m ← transport_read h payload (length buf);
  let buf := overwrite buf m in
  msg ← unwrap (sized_message buf);
  mret (msg, buf).

(** [CircuitConn::read]: the message and the buffer as the call leaves it. *)
Definition circuit_read (self : CircuitConn) (buf : bytes) : io (bytes * bytes) :=
  match transport_state self with
  | None => mret ([], buf)
  | Some h =>
      data ← call (CircuitRecv (in_channel self)) ≫= unwrap;
      circuit_take h data buf
  end.

(** [CircuitConn::write], with a buffer of [buf_len] bytes. *)
Definition circuit_write (self : CircuitConn) (payload : bytes) (buf_len : nat) : io unit :=
  match transport_state self with
  | None => mret tt
  | Some h =>
      buf_tmp ← transport_write h payload buf_len;
      write_payload_arc (out_stream self) buf_tmp (length buf_tmp) (cc_id self)
  end.

End Connection.
