(* ===== verification/Account.v ===== *)
(** * Accounts and keys

    src/account/key_types.rs and account_service.rs: key types, the default
    account kept in the database, WhiteNoise ids, and the two ECIES schemes with
    the derivation of the Ed25519 decryption scalar. *)

From stdpp Require Import pretty.
From S2P Require Import Prelude Proto External State Io Concrete Utils.

(** ** key_types.rs *)

Inductive KeyType := ED25519 | SECP256K1.

#[export] Instance KeyType_eq_dec : EqDecision KeyType.
Proof. solve_decision. Defined.

Definition to_i32 (k : KeyType) : Z :=
  match k with
  | ED25519 => 0
  | _ => 1
  end.

Definition from_i32 (index : Z) : KeyType :=
  if decide (index = 0%Z) then ED25519 else SECP256K1.

Definition from_text_str (key_type : string) : KeyType :=
  if decide (key_type = "ed25519"%string) then ED25519 else SECP256K1.

(** ** The scalar of an Ed25519 secret *)

(** [lower[i] &= m] and [lower[i] |= m] on an array of bytes. *)
Definition and_at (i : nat) (m : Z) (l : bytes) : bytes :=
  alter (λ b, Z_u8 (Z.land (u8_Z b) m)) i l.
Definition or_at (i : nat) (m : Z) (l : bytes) : bytes :=
  alter (λ b, Z_u8 (Z.lor (u8_Z b) m)) i l.

Definition clamp (lower : bytes) : bytes :=
  let lower := and_at 0 248 lower in
  let lower := and_at 31 63 lower in
  let lower := or_at 31 64 lower in
  let lower := and_at 0 248 lower in
  let lower := and_at 31 127 lower in
  or_at 31 64 lower.

Section Account.
Context {EXT : Ext}.

(** ** account_service.rs *)

(** The database is rusty_leveldb's: [get] and [put] on an abstract store. *)
Section Db.
Context {DB : Type} (db_get : DB → bytes → option bytes) (db_put : DB → bytes → bytes → option DB).

Definition account_key (key_type : KeyType) : string :=
  String.append "default" (pretty (to_i32 key_type)).

(** [fresh_ed] and [fresh_secp] are the pairs the generators would return;
    [None] is a panic. *)
Definition get_default_account_keypair (db : DB) (key_type : KeyType)
    (fresh_ed : EdKeypair) (fresh_secp : SecpKeypair) : option (DB * Keypair) :=
  let key := as_bytes (account_key key_type) in
  match db_get db key with
  | None =>
      let keypair := match key_type with
                     | ED25519 => Ed25519 fresh_ed
                     | SECP256K1 => Secp256k1 fresh_secp
                     end in
      db ← match keypair with
           | Ed25519 k => db_put db key (ed_keypair_encode k)
           | Secp256k1 k => db_put db key (secp_secret_bytes k)
           | RsaKey _ => None
           end;
      Some (db, keypair)
  | Some default_account_bytes =>
      match key_type with
      | ED25519 => k ← ed_keypair_decode default_account_bytes; Some (db, Ed25519 k)
      | SECP256K1 => k ← secp_keypair_from_secret default_account_bytes; Some (db, Secp256k1 k)
      end
  end.

(** The store after the writes of a trace; [None]: one of them fails. *)
Fixpoint apply_puts (db : DB) (tr : list cmd) : option DB :=
  match tr with
  | [] => Some db
  | DbPut _ key v :: tr => db_put db key v ≫= λ db, apply_puts db tr
  | _ :: tr => apply_puts db tr
  end.

(** The store answers, and the generators make these pairs. *)
Definition db_script (db : DB) (fresh_ed : EdKeypair) (fresh_secp : SecpKeypair) : script :=
  λ c, match c return option (reply c) with
       | DbGet _ key => Some (db_get db key)
       | GenerateEd25519 => Some fresh_ed
       | GenerateSecp256k1 => Some fresh_secp
       | _ => None
       end.
End Db.

(** The same as the program runs it, on the database at [path]. *)
Definition default_account_keypair (path : string) (key_type : KeyType) : io Keypair :=
  call (DbOpen path) ≫= unwrap_ok;;
  let key := as_bytes (account_key key_type) in
  default_account_bytes_option ← call (DbGet path key);
  match default_account_bytes_option with
  | None =>
      keypair ← match key_type with
                | ED25519 => k ← call GenerateEd25519; mret (Ed25519 k)
                | SECP256K1 => k ← call GenerateSecp256k1; mret (Secp256k1 k)
                end;
      match keypair with
      | Ed25519 k => call (DbPut path key (ed_keypair_encode k)) ≫= unwrap_ok
      | Secp256k1 k => call (DbPut path key (secp_secret_bytes k)) ≫= unwrap_ok
      | RsaKey _ => Panic
      end;;
      mret keypair
  | Some default_account_bytes =>
      match key_type with
      | ED25519 => k ← unwrap (ed_keypair_decode default_account_bytes); mret (Ed25519 k)
      | SECP256K1 => k ← unwrap (secp_keypair_from_secret default_account_bytes); mret (Secp256k1 k)
      end
  end.

(** [None] is the panic on other key types. *)
Definition from_keypair_to_whitenoise_id (k : Keypair) : option string :=
  match k with
  | Ed25519 k => Some (String.append "0" (bs58_encode (ed_public_encode k)))
  | Secp256k1 k => Some (String.append "1" (bs58_encode (secp_public_encode k)))
  | RsaKey _ => None
  end.

Definition from_keypair_to_secretkey_bytes (k : Keypair) : option bytes :=
  match k with
  | Secp256k1 k => Some (secp_secret_bytes k)
  | _ => None
  end.

(** [public_key.copy_from_slice(&serialized[1..65])]. *)
Definition ecies_encrypt (pub_bytes plain seed : bytes) : option bytes :=
  serialized ← secp_public_uncompressed pub_bytes;
  public_key ← slice serialized 1 65;
  secp_ecies_encrypt public_key plain seed.

Definition ecies_ed25519_encrypt (pub_bytes plain seed : bytes) : option bytes :=
  ed_ecies_encrypt pub_bytes plain seed.

(** The inner option is the [Result] of the decryption. *)
Definition ecies_decrypt (k : Keypair) (encrypted : bytes) : option (option bytes) :=
  secret_key ← from_keypair_to_secretkey_bytes k;
  Some (secp_ecies_decrypt secret_key encrypted).

(** The lower half of [Sha512(secret)], clamped. *)
Definition ed25519_scalar (k : EdKeypair) : bytes := clamp (take 32 (sha512 (ed_secret k))).

Definition ecies_ed25519_decrypt (k : Keypair) (encrypted : bytes) : option (option bytes) :=
  match k with
  | Ed25519 k => Some (ed_ecies_decrypt (ed25519_scalar k) encrypted)
  | _ => None
  end.

End Account.

(** * Lemmas *)

(** Little-endian integers, as RFC 8032 reads octet strings. *)
Fixpoint le_int (l : bytes) : Z :=
  match l with
  | [] => 0
  | b :: l' => u8_Z b + 256 * le_int l'
  end.

(** RFC 8032, 5.1.5: the lowest three bits of the first octet are cleared, the
    highest bit of the last octet is cleared and the second highest bit is
    set. *)
Definition pruned (n : Z) : Z := 2 ^ 254 + 8 * ((n mod 2 ^ 254) / 8).

Lemma le_int_bound l : (0 <= le_int l < 256 ^ Z.of_nat (length l))%Z.
Proof.
  induction l as [|b l IH]; cbn [le_int length].
  - done.
  - rewrite Nat2Z.inj_succ, Z.pow_succ_r by lia. pose proof (u8_Z_bound b). lia.
Qed.

Lemma le_int_app a b : le_int (a ++ b) = (le_int a + 256 ^ Z.of_nat (length a) * le_int b)%Z.
Proof.
  induction a as [|x a IH]; cbn [le_int app length]; [lia|].
  rewrite IH, Nat2Z.inj_succ, Z.pow_succ_r by lia. lia.
Qed.

(** The byte operations of [clamp]. *)
Lemma land_248 b : u8_Z (Z_u8 (Z.land (u8_Z b) 248)) = (8 * (u8_Z b / 8))%Z.
Proof. by destruct b. Qed.

Lemma clamp_last b :
  u8_Z (Z_u8 (Z.lor (u8_Z (Z_u8 (Z.land (u8_Z (Z_u8 (Z.lor (u8_Z (Z_u8 (Z.land (u8_Z b) 63))) 64))) 127))) 64))
  = (64 + u8_Z b mod 64)%Z.
Proof. by destruct b. Qed.

Lemma alter_last (f : u8 → u8) (a : u8) mid c :
  length mid = 30 → alter f 31 (a :: mid ++ [c]) = a :: mid ++ [f c].
Proof.
  intros Hmid. change (alter f 31 (a :: ?r)) with (a :: alter f 30 r). f_equal.
  replace 30 with (length mid + 0) by lia. by rewrite alter_app_r.
Qed.

(** A 32-byte string, by its first, middle and last bytes. *)
Lemma split_32 (l : bytes) :
  length l = 32 → ∃ a mid c, l = a :: mid ++ [c] ∧ length mid = 30.
Proof.
  destruct l as [|a l]; [done|]. intros [= Hl].
  destruct (exists_last (l := l)) as (mid & c & ->); [by intros ->|].
  exists a, mid, c. split; [done|]. rewrite length_app in Hl. simpl in Hl. lia.
Qed.

Lemma clamp_form (a c : u8) mid :
  length mid = 30 → ∃ a' c', clamp (a :: mid ++ [c]) = a' :: mid ++ [c'] ∧
    u8_Z a' = (8 * (u8_Z a / 8))%Z ∧ u8_Z c' = (64 + u8_Z c mod 64)%Z.
Proof.
  intros Hmid. unfold clamp, and_at, or_at.
  change (alter ?f 0 (?x :: ?r)) with (f x :: r).
  rewrite !alter_last by done.
  change (alter ?f 0 (?x :: ?r)) with (f x :: r).
  rewrite !alter_last by done.
  eexists _, _. split; [reflexivity|]. split; [by destruct a|apply clamp_last].
Qed.

Lemma clamp_pruned_aux (l : bytes) :
  length l = 32 → length (clamp l) = 32 ∧ le_int (clamp l) = pruned (le_int l).
Proof.
  intros (a & mid & c & -> & Hmid)%split_32.
  destruct (clamp_form a c mid Hmid) as (a' & c' & -> & Ha & Hc). split.
  - simpl. rewrite length_app, Hmid. done.
  - cbn [le_int]. rewrite !le_int_app, Hmid. cbn [le_int]. rewrite Ha, Hc.
    pose proof (le_int_bound mid) as Hb. rewrite Hmid in Hb. unfold pruned.
    pose proof (u8_Z_bound a). pose proof (u8_Z_bound c).
    change (256 ^ Z.of_nat 30)%Z with (2 ^ 240)%Z in *.
    generalize dependent (le_int mid). intros n Hb.
    Z.div_mod_to_equations. lia.
Qed.

(** ** WhiteNoise ids *)

Section Ids.
Context {EXT : Ext}.

Lemma as_bytes_append1 (c : Ascii.ascii) (s : string) :
  as_bytes (String c s) = Ascii.byte_of_ascii c :: as_bytes s.
Proof. done. Qed.

(** A character followed by ASCII text is split off. *)
Lemma split_at_1_ascii (c : Ascii.ascii) (s : string) :
  Forall (λ x, (u8_Z x < 128)%Z) (as_bytes s) →
  split_at_1 (String c s) = Some ([Ascii.byte_of_ascii c], s).
Proof.
  intros Hs. unfold split_at_1. rewrite as_bytes_append1.
  destruct (as_bytes s) as [|x l] eqn:Hl.
  - by rewrite <- (of_as_bytes s), Hl.
  - inversion Hs as [|? ? Hx _]; subst.
    assert (Hstart : starts_char x = true) by (destruct x; try done; vm_compute in Hx; done).
    rewrite Hstart. by rewrite <- Hl, of_as_bytes.
Qed.

(** The key behind an id: its type character and its public bytes. *)
Definition id_key (k : Keypair) : option (u8 * bytes) :=
  match k with
  | Ed25519 k => Some (x30, ed_public_encode k)
  | Secp256k1 k => Some (x31, secp_public_encode k)
  | RsaKey _ => None
  end.

Lemma split_whitenoise_id `{!Base58Laws} k id :
  from_keypair_to_whitenoise_id k = Some id →
  ∃ b pub, id_key k = Some (b, pub) ∧ split_at_1 id = Some ([b], bs58_encode pub).
Proof.
  destruct k as [k|k|k]; intros [= <-]; eexists _, _; (split; [done|]);
    exact (split_at_1_ascii _ _ (bs58_ascii _)).
Qed.

Lemma apply_puts_app {DB : Type} (db_put : DB → bytes → bytes → option DB) tr1 tr2 : ∀ db,
  apply_puts db_put db (tr1 ++ tr2) = apply_puts db_put db tr1 ≫= λ db, apply_puts db_put db tr2.
Proof.
  induction tr1 as [|c tr1 IH]; intros db; [done|]. destruct c; simpl; try apply IH.
  destruct (db_put db key value); [apply IH|done].
Qed.

(** The second time, the account is the stored one. *)
Lemma default_account_again `{!KeyLaws} {DB : Type}
    (db_get : DB → bytes → option bytes) (db_put : DB → bytes → bytes → option DB)
    (db db' : DB) (kt : KeyType) (ed ed' : EdKeypair) (secp secp' : SecpKeypair) (k : Keypair) :
  (∀ db db' key v, db_put db key v = Some db' → db_get db' key = Some v) →
  get_default_account_keypair db_get db_put db kt ed secp = Some (db', k) →
  get_default_account_keypair db_get db_put db' kt ed' secp' = Some (db', k).
Proof.
  intros Hput Hget. unfold get_default_account_keypair in *.
  destruct (db_get db (as_bytes (account_key kt))) as [stored|] eqn:Hdb.
  - destruct kt; simpl in Hget;
      [destruct (ed_keypair_decode stored) eqn:Hdec|destruct (secp_keypair_from_secret stored) eqn:Hdec];
      simpl in Hget; simplify_eq; by rewrite Hdb, Hdec.
  - destruct kt; simpl in Hget; destruct (db_put _ _ _) as [db1|] eqn:Hdb1; simpl in Hget; simplify_eq;
      rewrite (Hput _ _ _ _ Hdb1); [by rewrite ed_keypair_roundtrip|by rewrite secp_keypair_roundtrip].
Qed.

(** The program and the function agree: on a store that takes writes, the pair
    and the store after the writes of its trace are those of the function, and
    the program panics when the stored pair does not decode. *)
Lemma default_account_wp {DB : Type}
    (db_get : DB → bytes → option bytes) (db_put : DB → bytes → bytes → option DB)
    (db : DB) (path : string) (kt : KeyType) (ed : EdKeypair) (secp : SecpKeypair) s Q :
  (∀ key v, is_Some (db_put db key v)) →
  match get_default_account_keypair db_get db_put db kt ed secp with
  | Some (db', k) => ∀ tr, apply_puts db_put db tr = Some db' → Q tr (Returned k) s
  | None => ∀ tr, Q tr Panicked s
  end →
  wp (calm_with (db_script db_get db ed secp)) (default_account_keypair path kt) s Q.
Proof.
  intros Hput HQ. unfold default_account_keypair, get_default_account_keypair in *. wp_step. wp_step.
  destruct (db_get db (as_bytes (account_key kt))) as [stored|].
  - destruct kt; [destruct (ed_keypair_decode stored)|destruct (secp_keypair_from_secret stored)];
      wp_steps; by apply HQ.
  - assert (Hp : ∀ v, ∃ db', db_put db (as_bytes (account_key kt)) v = Some db') by apply Hput.
    destruct kt; [destruct (Hp (ed_keypair_encode ed)) as [db' Hdb]
                 |destruct (Hp (secp_secret_bytes secp)) as [db' Hdb]];
      rewrite Hdb in HQ; wp_steps; apply HQ; simpl; by rewrite Hdb.
Qed.

End Ids.

(** The law of ecies_ed25519: what is encrypted to an Ed25519 public key
    decrypts with the secret scalar RFC 8032 derives from its seed. *)
Class EdEciesLaws {EXT : Ext} : Prop := {
  sha512_length : ∀ b, length (sha512 b) = 64;
  ed_ecies_roundtrip : ∀ k scalar plain seed,
    length scalar = 32 → le_int scalar = pruned (le_int (take 32 (sha512 (ed_secret k)))) →
    ∃ c, ed_ecies_encrypt (ed_public_encode k) plain seed = Some c ∧
         ed_ecies_decrypt scalar c = Some plain
}.

(** Both schemes, on the keys of one pair. *)
Lemma ecies_decrypts_key {EXT : Ext} `{!EciesLaws, !EdEciesLaws} (k : Keypair) (plain seed : bytes) :
  match k with
  | Ed25519 e => ∃ c, ecies_ed25519_encrypt (ed_public_encode e) plain seed = Some c ∧
                      ecies_ed25519_decrypt k c = Some (Some plain)
  | Secp256k1 p => ∃ c, ecies_encrypt (secp_public_encode p) plain seed = Some c ∧
                        ecies_decrypt k c = Some (Some plain)
  | RsaKey _ => True
  end.
Proof.
  destruct k as [e|p|]; [| |done].
  - destruct (clamp_pruned_aux (take 32 (sha512 (ed_secret e)))) as [Hlen Hint].
    { rewrite length_take, sha512_length. done. }
    destruct (ed_ecies_roundtrip e (ed25519_scalar e) plain seed Hlen Hint) as (c & Henc & Hdec).
    exists c. split; [done|]. simpl. by rewrite Hdec.
  - destruct (secp_uncompressed_length p) as (u & Hu & Hlen).
    destruct (secp_ecies_roundtrip p u plain seed Hu) as (c & Henc & Hdec).
    exists c. unfold ecies_encrypt, ecies_decrypt. rewrite Hu. simpl. split.
    + unfold slice. rewrite decide_True by lia. exact Henc.
    + by rewrite Hdec.
Qed.

Section AccountProperties.
Context {EXT : Ext}.

(** C38: the clamping of an Ed25519 decryption scalar is RFC 8032's pruning:
    on 32 bytes read as a little-endian integer, it clears the low three bits
    and bit 255 and sets bit 254, and changes no other bit. *)
Theorem clamp_pruned (l : bytes) :
  length l = 32 → length (clamp l) = 32 ∧ le_int (clamp l) = pruned (le_int l).
Proof. apply clamp_pruned_aux. Qed.

(** The default account survives restarts: once the key pair of a type is
    read or made, every later start with the resulting database gets the same
    key pair (whatever the generators would return) and leaves the database as
    it is, and the entry of the other key type is never touched. *)
Theorem default_account_stable `{!KeyLaws} {DB : Type}
    (db_get : DB → bytes → option bytes) (db_put : DB → bytes → bytes → option DB)
    (db db' : DB) (kt kt' : KeyType) (ed ed' : EdKeypair) (secp secp' : SecpKeypair) (k : Keypair) :
  (∀ db db' key v, db_put db key v = Some db' →
     db_get db' key = Some v ∧ ∀ key', key' ≠ key → db_get db' key' = db_get db key') →
  get_default_account_keypair db_get db_put db kt ed secp = Some (db', k) →
  get_default_account_keypair db_get db_put db' kt ed' secp' = Some (db', k) ∧
  (kt' ≠ kt → db_get db' (as_bytes (account_key kt')) = db_get db (as_bytes (account_key kt'))).
Proof.
  intros Hput Hget. split; [eapply default_account_again; [|exact Hget]; by intros; eapply Hput|].
  intros Hne. assert (Hkeys : as_bytes (account_key kt') ≠ as_bytes (account_key kt))
    by (destruct kt, kt'; done).
  unfold get_default_account_keypair in Hget.
  destruct (db_get db (as_bytes (account_key kt))) as [stored|].
  - destruct kt; simpl in Hget;
      [destruct (ed_keypair_decode stored)|destruct (secp_keypair_from_secret stored)];
      simpl in Hget; by simplify_eq.
  - destruct kt; simpl in Hget; destruct (db_put _ _ _) as [db1|] eqn:Hdb1; simpl in Hget; simplify_eq;
      by apply (Hput _ _ _ _ Hdb1).
Qed.

(** The hash a node files a client under is the hash of the client's
    public key: the id [from_keypair_to_whitenoise_id] gives always has one. *)
Theorem whitenoise_id_hash `{!Base58Laws} (k : Keypair) :
  match from_keypair_to_whitenoise_id k, id_key k with
  | Some id, Some (_, pub) => from_whitenoise_to_hash id = Some (bs58_encode (sha2_256 pub))
  | None, None => True
  | _, _ => False
  end.
Proof.
  destruct (from_keypair_to_whitenoise_id k) as [id|] eqn:Hid; [|by destruct k].
  destruct (split_whitenoise_id k id Hid) as (b & pub & -> & Hsplit).
  unfold from_whitenoise_to_hash. rewrite Hsplit. simpl. by rewrite bs58_decode_encode.
Qed.

(** C37: a client decrypts what was encrypted to its public key, with either
    key type. *)
Theorem ecies_decrypts `{!EciesLaws, !EdEciesLaws} (k : Keypair) (plain seed : bytes) :
  match k with
  | Ed25519 e => ∃ c, ecies_ed25519_encrypt (ed_public_encode e) plain seed = Some c ∧
                      ecies_ed25519_decrypt k c = Some (Some plain)
  | Secp256k1 p => ∃ c, ecies_encrypt (secp_public_encode p) plain seed = Some c ∧
                        ecies_decrypt k c = Some (Some plain)
  | RsaKey _ => True
  end.
Proof. by apply ecies_decrypts_key. Qed.

End AccountProperties.

Lemma toy_ed_ecies_laws : @EdEciesLaws toy.
Proof. constructor; simpl; [done|]. intros. eauto. Qed.

Section AccountWitnesses.
Local Existing Instance toy.

Lemma clamp_pruned_witness :
  length (replicate 32 xff) = 32 ∧
  le_int (clamp (replicate 32 xff)) = pruned (le_int (replicate 32 xff)).
Proof. split; [reflexivity|]. apply (clamp_pruned (replicate 32 xff)). reflexivity. Defined.

(** The database as a map: the first start stores the generated pair. *)
Lemma default_account_stable_witness :
  let put (db : gmap bytes bytes) k v := Some (<[k := v]> db) in
  let get (db : gmap bytes bytes) k := db !! k in
  ∃ db', get_default_account_keypair get put ∅ ED25519 [x01] [x02] = Some (db', toy_keys) ∧
         get_default_account_keypair get put db' ED25519 [x03] [x04] = Some (db', toy_keys).
Proof.
  intros put get. eexists. split; [reflexivity|].
  refine (proj1 (@default_account_stable toy toy_key_laws _ get put ∅ _ ED25519 SECP256K1
                   [x01] [x03] [x02] [x04] toy_keys _ eq_refl)).
  intros db db' key v [= <-]. unfold get. split; [apply lookup_insert_eq|].
  intros key' Hne. apply lookup_insert_ne. congruence.
Defined.

Lemma whitenoise_id_hash_witness :
  ∃ id, from_keypair_to_whitenoise_id toy_keys = Some id ∧
        from_whitenoise_to_hash id = Some (bs58_encode (sha2_256 [x01])).
Proof.
  eexists. split; [reflexivity|]. exact (@whitenoise_id_hash toy toy_base58_laws toy_keys).
Defined.

Lemma ecies_decrypts_witness :
  ∃ c, ecies_ed25519_encrypt [x01] [x05] [] = Some c ∧
       ecies_ed25519_decrypt toy_keys c = Some (Some [x05]).
Proof. exact (@ecies_decrypts toy toy_ecies_laws toy_ed_ecies_laws toy_keys [x05] []). Defined.

End AccountWitnesses.
