(* ===== verification/Node.v ===== *)
(** * The node

    src/network/node.rs: the operations a node offers its handlers and the
    client SDK.  Methods that take [&mut self] and assign [proxy_id] return the
    updated [Node]. *)

From S2P Require Import Prelude Proto External State Io Packing Concrete Utils Connection Account.

Section NodeOps.
Context {EXT : Ext}.

Definition get_id (self : Node) : string := to_base58 (keypair_peer_id (keypair self)).

(** ** Requests and their acknowledgements *)

Definition external_send_node_request_not_wait (r : NodeRequest) : io unit := send_node_request r.

Definition send_ack (r : NodeRequest) : io unit := send_node_request r.

(** [oneshot::channel()] and the insertion of its sender under the write lock
    of the event bus. *)
Definition event_bus_register (key : string) : io nat :=
  atomic (λ s, (set_event_bus <[key := next_handle s]> (bump_handle s), next_handle s)).

Definition new_channel : io nat := atomic (λ s, (bump_handle s, next_handle s)).

Definition external_send_node_request_and_wait (key : string) (r : NodeRequest) : io Ack :=
  rx ← event_bus_register key;
  send_node_request r;;
  ack ← call (AwaitAck rx);
  unwrap ack.

(** The request of type [reqtype] with the id of its own content. *)
Definition identified_request (from : string) (reqtype : Z) (data : bytes) : Request :=
  let request := mkRequest "" from reqtype data in
  mkRequest (from_request_get_id request) from reqtype data.

Definition parse_addresses (addr : list string) : option (list Multiaddr) :=
  mapM multiaddr_parse addr.

Definition peer_id_of_string (id : string) : option PeerId :=
  bs58_decode id ≫= peer_id_from_bytes.

(** The loop over the peers of the answer: those with an address are kept, and
    their addresses are registered with the swarm. *)
Fixpoint add_peers (peers : list NodeInfo) : io (list NodeInfo) :=
  match peers with
  | [] => mret []
  | peer :: rest =>
      match ni_addr peer with
      | [] => add_peers rest
      | _ =>
          addr_smallvec ← unwrap (parse_addresses (ni_addr peer));
          remote ← unwrap (peer_id_of_string (ni_id peer));
          send_node_request (NrAddPeerAddressesRequest remote addr_smallvec);;
          kept ← add_peers rest;
          mret (peer :: kept)
      end
  end.

Definition get_main_nets (cnt : Z) (remote_peer_id : PeerId) (remote_peer_addr : Multiaddr)
    : io PeersList :=
  send_node_request (NrAddPeerAddressesRequest remote_peer_id [remote_peer_addr]);;
  let request := identified_request "" (reqtype_i32 RqMainNetPeers) (pb_encode (mkMainNetPeers cnt)) in
  let key := req_req_id request in
  data ← external_send_node_request_and_wait key
           (NrProxyRequest (mkNodeProxyRequest remote_peer_id (Some request) None));
  peer_list ← unwrap (pb_decode (M := PeersList) (ack_data data));
  kept ← add_peers (pl_peers peer_list);
  mret (mkPeersList kept).

Definition register_proxy (self : Node) (remote_peer_id : PeerId) : io (Node * bool) :=
  white_noise_id ← unwrap (from_keypair_to_whitenoise_id (keypair self));
  let request := identified_request (get_id self) (reqtype_i32 RqNewProxy)
                   (pb_encode (mkNewProxy "60m" white_noise_id)) in
  let key := req_req_id request in
  data ← external_send_node_request_and_wait key
           (NrProxyRequest (mkNodeProxyRequest remote_peer_id (Some request) None));
  if ack_result data
  then mret (mkNode (keypair self) (Some remote_peer_id) (boot_peer_id self), true)
  else mret (self, false).

(** ** Relay streams *)

(** The inner loop of [wait_for_out_peer_relay_stream]: [n] streams are popped
    from the front, and pushed to the back unless they are to the peer. *)
Fixpoint scan_out_streams (peer : PeerId) (n : nat) : io (option WrappedStream) :=
  match n with
  | O => mret None
  | S n' =>
      relay_stream_option ← atomic (λ s,
        match relay_out_streams s with
        | [] => (s, None)
        | w :: rest => (set_relay_out (λ _, rest) s, Some w)
        end);
      match relay_stream_option with
      | Some relay_stream =>
          if decide (remote_peer_id relay_stream = peer) then mret (Some relay_stream)
          else modify (set_relay_out (λ q, q ++ [relay_stream]));;
               scan_out_streams peer n'
      | None => scan_out_streams peer n'
      end
  end.

(** One round of the outer loop; the loop state is [wait_time]. *)
Definition wait_round (peer : PeerId) (wait_time : Z) : io (Z + option WrappedStream) :=
  if decide (5000 <= wait_time)%Z then mret (inr None)
  else
    len ← gets (λ s, length (relay_out_streams s));
    found ← scan_out_streams peer len;
    match found with
    | Some w => mret (inr (Some w))
    | None => call (Sleep 50000);; mret (inl (wait_time + 50)%Z)
    end.

(** 5000 ms in steps of 50 ms: 100 rounds and the one that gives up. *)
Definition wait_for_out_peer_relay_stream (peer : PeerId) : io (option WrappedStream) :=
  loop (wait_round peer) 101 0%Z.

Definition wait_for_relay_stream (fuel : nat) : io WrappedStream :=
  loop (λ _ : unit,
    relay_stream_option ← atomic (λ s,
      match relay_in_streams s with
      | [] => (s, None)
      | w :: rest => (set_relay_in (λ _, rest) s, Some w)
      end);
    match relay_stream_option with
    | Some w => mret (inr w)
    | None => call (Sleep 50000);; mret (inl tt)
    end) fuel tt.

Definition new_relay_stream (peer : PeerId) : io (option WrappedStream) :=
  spawn (TaskSendNodeRequest (NrNewStreamRequest peer));;
  wait_for_out_peer_relay_stream peer.

(** ** Sessions *)

Definition close_opt (w : option WrappedStream) : io unit :=
  match w with
  | Some w => ws_close w
  | None => mret tt
  end.

Definition handle_close_session (sid : string) : io unit :=
  session_opt ← atomic (λ s, (set_session_map (delete sid) s, session_map s !! sid));
  match session_opt with
  | Some session =>
      close_opt (early_stream (pair_stream session));;
      close_opt (later_stream (pair_stream session))
  | None => mret tt
  end;;
  modify (set_circuit_map (delete sid));;
  modify (set_probe_map (delete sid)).

Definition new_session_to_peer (self : Node) (peer : PeerId) (sid : string)
    (my_role other_role : SessionRole) : io (option WrappedStream) :=
  wraped_stream_opt ← new_relay_stream peer;
  match wraped_stream_opt with
  | None => mret None
  | Some wraped_stream =>
      write_relay_wake_arc wraped_stream;;
      key ← write_set_session_with_role_arc wraped_stream sid (role_i32 other_role);
      rx ← event_bus_register key;
      ack ← call (AwaitAck rx);
      _ ← unwrap ack;
      spawn (TaskRelayHandler wraped_stream self (Some sid));;
      exists_ ← gets (λ s, bool_decide (is_Some (session_map s !! sid)));
      (if exists_ : bool then
         new_session ← gets (λ s, (λ session, with_later_stream session wraped_stream)
                                  <$> session_map s !! sid);
         new_session ← unwrap new_session;
         modify (set_session_map <[sid := new_session]>)
       else
         modify (set_session_map
           <[sid := mkSession sid (mkPairStream (Some wraped_stream) None) (role_i32 my_role)]>));;
      mret (Some wraped_stream)
  end.

(** ** Circuits *)

Definition new_circuit (remote_whitenoise_id local_white_noise_id local_peer_id sid : string)
    (proxy : PeerId) : io unit :=
  from ← unwrap (from_whitenoise_to_hash local_white_noise_id);
  to ← unwrap (from_whitenoise_to_hash remote_whitenoise_id);
  let request := identified_request local_peer_id (reqtype_i32 RqNewCircuit)
                   (pb_encode (mkNewCircuit from to sid)) in
  let key := req_req_id request in
  _ ← external_send_node_request_and_wait key
        (NrProxyRequest (mkNodeProxyRequest proxy (Some request) None));
  mret tt.

(** [as_micros()] is a [u128]; its low eight bytes, big-endian. *)
Definition session_id_bytes (remote_id local_id : string) (micros : Z) : bytes :=
  as_bytes local_id ++ as_bytes remote_id ++ be_bytes 8 micros.

Definition generate_session_id (remote_id local_id : string) : io string :=
  now ← call Now ≫= unwrap;
  mret (bs58_encode (sha2_256 (session_id_bytes remote_id local_id now))).

(** The target of a dial, as [circuit_task] keeps it: the key type character
    and the public key bytes. *)
Definition composit_bytes (remote_whitenoise_id : string) : option bytes :=
  '(index, pub_bytes) ← split_at_1 remote_whitenoise_id;
  index0 ← head index;
  key ← bs58_decode pub_bytes;
  Some (index0 :: key).

Definition fresh_circuit_conn (sid : string) (w : WrappedStream) (ch : nat) : CircuitConn :=
  mkCircuitConn sid w ch None.

Definition dial (self : Node) (remote_whitenoise_id : string) : io string :=
  local_whitenoise_id ← unwrap (from_keypair_to_whitenoise_id (keypair self));
  sid ← generate_session_id remote_whitenoise_id local_whitenoise_id;
  composit ← unwrap (composit_bytes remote_whitenoise_id);
  modify (set_circuit_task <[sid := composit]>);;
  proxy ← unwrap (proxy_id self);
  stream_opt ← new_session_to_peer self proxy sid CallerRole EntryRole;
  stream ← unwrap stream_opt;
  ch ← new_channel;
  modify (set_circuit_map <[sid := fresh_circuit_conn sid stream ch]>);;
  new_circuit remote_whitenoise_id local_whitenoise_id (get_id self) sid proxy;;
  mret sid.

Definition send_message (sid : string) (message : bytes) : io unit :=
  cc ← gets (λ s, circuit_map s !! sid);
  circuit_conn ← unwrap cc;
  match transport_state circuit_conn with
  | None => mret tt
  | Some _ => circuit_write circuit_conn message (Z.to_nat BUF_LEN)
  end.

End NodeOps.

(** * Lemmas *)

Section NodeLemmas.
Context {EXT : Ext}.

(** ** Closing a session *)

Definition session_streams (session : Session) : list WrappedStream :=
  option_list (early_stream (pair_stream session)) ++
  option_list (later_stream (pair_stream session)).

Definition close_cmds (session_opt : option Session) : list cmd :=
  (λ w, OutSend w WdClose) <$> (option_list session_opt ≫= session_streams).

Definition closed (sid : string) (s : Shared) : Shared :=
  set_probe_map (delete sid) (set_circuit_map (delete sid) (set_session_map (delete sid) s)).

Lemma close_opt_wp w s Q :
  Q ((λ w, OutSend w WdClose) <$> option_list w) (Returned tt) s →
  wp calm (close_opt w) s Q.
Proof. intros HQ. destruct w; simpl in *; [by apply ws_close_wp|by wp_steps]. Qed.

Lemma handle_close_session_wp sid s Q :
  Q (close_cmds (session_map s !! sid)) (Returned tt) (closed sid s) →
  wp calm (handle_close_session sid) s Q.
Proof.
  intros HQ. unfold handle_close_session. wp_step.
  unfold close_cmds, session_streams in HQ.
  destruct (session_map s !! sid) as [session|]; simpl in HQ; [|wp_steps; exact HQ].
  wp_use close_opt_wp. wp_use close_opt_wp. wp_steps.
  rewrite !app_nil_r, fmap_app in *. exact HQ.
Qed.

(** ** Waiting for a stream *)

(** A scan of the first [l] of the queue [l ++ r]: the first stream of [l] to
    the peer, and the queue left by the rotation. *)
Definition scan_result (peer : PeerId) (l r : list WrappedStream)
    : option WrappedStream * list WrappedStream :=
  match list_find (λ w, remote_peer_id w = peer) l with
  | Some (i, w) => (Some w, drop (S i) l ++ r ++ take i l)
  | None => (None, r ++ l)
  end.

Lemma scan_out_streams_wp peer l : ∀ r s Q,
  relay_out_streams s = l ++ r →
  Q [] (Returned (scan_result peer l r).1) (set_relay_out (λ _, (scan_result peer l r).2) s) →
  wp calm (scan_out_streams peer (length l)) s Q.
Proof.
  induction l as [|x l IH]; intros r s Q Hs HQ; simpl scan_out_streams.
  - wp_step. unfold scan_result in HQ. simpl in HQ. rewrite app_nil_r in HQ.
    destruct s; simpl in *; by subst.
  - wp_step. rewrite Hs. simpl. case_decide as Hx.
    + wp_step. unfold scan_result in HQ. simpl in HQ. rewrite decide_True in HQ by done.
      simpl in HQ. rewrite !app_nil_r in HQ. exact HQ.
    + wp_step. apply (IH (r ++ [x])); [simpl; by rewrite app_assoc|].
      revert HQ. unfold scan_result. simpl. rewrite decide_False by done.
      destruct (list_find _ l) as [[i w]|]; simpl; by rewrite <- !app_assoc.
Qed.

Lemma set_relay_out_id q s : relay_out_streams s = q → set_relay_out (λ _, q) s = s.
Proof. destruct s; simpl. by intros ->. Qed.

(** A round of the wait: it gives up, finds a stream, or sleeps. *)
Lemma wait_round_wp peer t s Q :
  (5000 <= t → Q [] (Returned (inr None)) s)%Z →
  ((t < 5000)%Z → match list_find (λ w, remote_peer_id w = peer) (relay_out_streams s) with
    | Some (i, w) => Q [] (Returned (inr (Some w))) (set_relay_out (λ q, drop (S i) q ++ take i q) s)
    | None => Q [Sleep 50000] (Returned (inl (t + 50)%Z)) s
    end) →
  wp calm (wait_round peer t) s Q.
Proof.
  intros Hend HQ. unfold wait_round. case_decide; [wp_step; by apply Hend|].
  specialize (HQ ltac:(lia)). wp_step.
  wp_use (scan_out_streams_wp _ _ []); [by rewrite app_nil_r|].
  unfold scan_result. destruct (list_find _ _) as [[i w]|]; simpl.
  - wp_steps. exact HQ.
  - rewrite set_relay_out_id by done. wp_steps. exact HQ.
Qed.

(** No stream to the peer: the remaining [j] rounds sleep and change nothing. *)
Lemma wait_loop_none_wp peer j : ∀ fuel s Q,
  j < fuel → list_find (λ w, remote_peer_id w = peer) (relay_out_streams s) = None →
  Q (repeat (Sleep 50000) j) (Returned None) s →
  wp calm (loop (wait_round peer) fuel (5000 - 50 * Z.of_nat j)%Z) s Q.
Proof.
  induction j as [|j IH]; intros [|fuel] s Q Hlt Hnone HQ; try lia; rewrite loop_S;
    wp_use wait_round_wp; try lia; intros Ht; [by wp_steps|].
  rewrite Hnone. wp_cbn.
  replace (_ - _ + 50)%Z with (5000 - 50 * Z.of_nat j)%Z by lia.
  apply IH; [lia|done|]. exact HQ.
Qed.

Lemma wait_for_out_none_wp peer s Q :
  list_find (λ w, remote_peer_id w = peer) (relay_out_streams s) = None →
  Q (repeat (Sleep 50000) 100) (Returned None) s →
  wp calm (wait_for_out_peer_relay_stream peer) s Q.
Proof. intros Hnone HQ. apply (wait_loop_none_wp peer 100 101 s Q); [lia|done..]. Qed.

Lemma wait_for_out_some_wp peer i w s Q :
  list_find (λ w, remote_peer_id w = peer) (relay_out_streams s) = Some (i, w) →
  Q [] (Returned (Some w)) (set_relay_out (λ q, drop (S i) q ++ take i q) s) →
  wp calm (wait_for_out_peer_relay_stream peer) s Q.
Proof.
  intros Hfind HQ. unfold wait_for_out_peer_relay_stream. rewrite loop_S.
  wp_use wait_round_wp; [lia|]. intros _. rewrite Hfind. by wp_step.
Qed.

(** ** Opening a session to a peer *)

Definition wake_relay : Relay := mkRelay "" (relaytype_i32 RtWake) [] [].

(** The session of [sid] once [w] joined it: a new session of the given role,
    or the old one with [w] as its later stream. *)
Definition joined_session (o : option Session) (sid : string) (role : Z) (w : WrappedStream) : Session :=
  match o with
  | Some session => with_later_stream session w
  | None => mkSession sid (mkPairStream (Some w) None) role
  end.

Definition join_session (sid : string) (role : Z) (w : WrappedStream) (s : Shared) : Shared :=
  set_session_map <[sid := joined_session (session_map s !! sid) sid role w]> s.

(** The stream taken from the queue and the waiter registered under [key]. *)
Definition awaiting (i : nat) (key : string) (s : Shared) : Shared :=
  set_event_bus <[key := next_handle s]>
    (bump_handle (set_relay_out (λ q, drop (S i) q ++ take i q) s)).

Definition opening_cmds (peer : PeerId) (w : WrappedStream) (sid : string) (other_role : SessionRole)
    (conf1 conf2 : bytes) (us1 us2 : Z) (rx : nat) : list cmd :=
  Spawn (TaskSendNodeRequest (NrNewStreamRequest peer)) ::
  write_cmds w wake_relay conf1 us1 ++
  write_cmds w (set_session_relay sid (role_i32 other_role)) conf2 us2 ++ [AwaitAck rx].

Lemma new_session_to_peer_none_wp self peer sid my other s Q :
  list_find (λ w, remote_peer_id w = peer) (relay_out_streams s) = None →
  Q (Spawn (TaskSendNodeRequest (NrNewStreamRequest peer)) :: repeat (Sleep 50000) 100)
    (Returned None) s →
  wp calm (new_session_to_peer self peer sid my other) s Q.
Proof.
  intros Hnone HQ. unfold new_session_to_peer, new_relay_stream. wp_step.
  wp_use wait_for_out_none_wp; [done|]. wp_step. exact HQ.
Qed.

Lemma new_session_to_peer_some_wp self peer sid my other i w s Q :
  list_find (λ w, remote_peer_id w = peer) (relay_out_streams s) = Some (i, w) →
  (∀ conf1 conf2 us1 us2,
     let key := sealed_id (set_session_relay sid (role_i32 other)) conf2 in
     let cmds := opening_cmds peer w sid other conf1 conf2 us1 us2 (next_handle s) in
     confusion_ok wake_relay conf1 → confusion_ok (set_session_relay sid (role_i32 other)) conf2 →
     Q cmds Blocked (awaiting i key s) ∧
     Q cmds Panicked (awaiting i key s) ∧
     Q (cmds ++ [Spawn (TaskRelayHandler w self (Some sid))]) (Returned (Some w))
       (join_session sid (role_i32 my) w (awaiting i key s))) →
  wp calm (new_session_to_peer self peer sid my other) s Q.
Proof.
  intros Hfind HQ. unfold new_session_to_peer, new_relay_stream. wp_step.
  wp_use wait_for_out_some_wp; [exact Hfind|]. wp_norm.
  unfold write_relay_wake_arc. wp_use write_relay_arc_wp. intros conf1 us1 Hc1 _. wp_norm.
  unfold write_set_session_with_role_arc. wp_use write_relay_arc_wp. intros conf2 us2 Hc2 _.
  specialize (HQ conf1 conf2 us1 us2 Hc1 Hc2). simpl in HQ. destruct HQ as (Hbl & Hpa & Hre).
  unfold event_bus_register. wp_step. wp_step.
  destruct r as [a|]; [|wp_step; exact Hpa].
  wp_steps. unfold join_session, joined_session in Hre. simpl in Hre. simpl.
  destruct (session_map s !! sid) as [session|] eqn:Hsid; simpl; wp_steps; st_simpl.
  - rewrite Hsid. simpl. wp_steps. exact Hre.
  - exact Hre.
Qed.

(** Every command is acknowledged with [a]. *)
Definition acks (a : Ack) : script :=
  λ c, match c return option (reply c) with
       | AwaitAck _ => Some (Some a)
       | _ => None
       end.

(** With the acknowledgement, the session opens. *)
Lemma new_session_acked_wp (f : script) self peer sid my other (a : Ack) i w s Q :
  f (AwaitAck (next_handle s)) = Some (Some a) →
  list_find (λ w, remote_peer_id w = peer) (relay_out_streams s) = Some (i, w) →
  (∀ conf1 conf2 us1 us2,
     let key := sealed_id (set_session_relay sid (role_i32 other)) conf2 in
     let cmds := opening_cmds peer w sid other conf1 conf2 us1 us2 (next_handle s) in
     Q (cmds ++ [Spawn (TaskRelayHandler w self (Some sid))]) (Returned (Some w))
       (join_session sid (role_i32 my) w (awaiting i key s))) →
  wp (calm_with f) (new_session_to_peer self peer sid my other) s Q.
Proof.
  intros Hf Hfind HQ. unfold new_session_to_peer, new_relay_stream. wp_step.
  wp_lift wait_for_out_some_wp; [exact Hfind|]. cbn [after]. wp_norm.
  unfold write_relay_wake_arc. wp_lift write_relay_arc_wp.
  intros conf1 us1 Hc1 _. cbn [after]. wp_norm.
  unfold write_set_session_with_role_arc. wp_lift write_relay_arc_wp.
  intros conf2 us2 Hc2 _. cbn [after].
  specialize (HQ conf1 conf2 us1 us2). simpl in HQ.
  unfold event_bus_register. wp_step. wp_norm.
  apply calm_with_call; [intros _ Hn; st_simpl; revert Hn; st_simpl; congruence|].
  intros o _ Ho. rewrite (Ho (Some a)) by (st_simpl; exact Hf). wp_steps.
  unfold join_session, joined_session in HQ. simpl in HQ. simpl.
  destruct (session_map s !! sid) as [session|] eqn:Hsid; simpl; wp_steps; st_simpl.
  - rewrite Hsid. simpl. wp_steps. exact HQ.
  - exact HQ.
Qed.

(** ** Waiting under interference *)

Lemma scan_out_streams_any peer n : ∀ s Q,
  (∀ tr o s', o ≠ Running → Q tr o s') → wp any_env (scan_out_streams peer n) s Q.
Proof.
  induction n as [|n IH]; intros s Q HQ; simpl scan_out_streams; wp_norm.
  - wp_ret. by apply HQ.
  - apply any_atomic. intros s1. destruct (relay_out_streams s1) as [|w q]; [by apply IH|].
    wp_cbn. case_decide; wp_norm; [wp_ret; by apply HQ|].
    apply any_atomic. intros s2. by apply IH.
Qed.

Lemma wait_loop_any peer j : ∀ fuel s Q,
  j < fuel → (∀ tr o s', o ≠ Running → Q tr o s') →
  wp any_env (loop (wait_round peer) fuel (5000 - 50 * Z.of_nat j)%Z) s Q.
Proof.
  induction j as [|j IH]; intros [|fuel] s Q Hlt HQ; try lia; rewrite loop_S;
    apply wp_bind_2; unfold wait_round.
  - rewrite decide_True by lia. wp_norm. wp_ret. wp_norm. wp_ret. by apply HQ.
  - rewrite decide_False by lia. wp_norm. apply any_atomic. intros s1. wp_norm.
    apply wp_bind_2, scan_out_streams_any.
    intros tr o s2 Ho. destruct o as [[w|]| | |]; wp_norm; try (by apply HQ).
    apply any_call; [intros; by apply HQ|]. intros [] s3. wp_norm. wp_ret. wp_norm.
    replace (_ - _ + 50)%Z with (5000 - 50 * Z.of_nat j)%Z by lia.
    apply IH; [lia|]. intros. by apply HQ.
Qed.

(** ** Requests *)

Lemma send_and_wait_wp key r s Q :
  let s' := set_event_bus <[key := next_handle s]> (bump_handle s) in
  let tr := [SendNodeRequest r; AwaitAck (next_handle s)] in
  Q tr Blocked s' → Q tr Panicked s' → (∀ a, Q tr (Returned a) s') →
  wp calm (external_send_node_request_and_wait key r) s Q.
Proof.
  intros s' tr Hb Hp Hr. unfold external_send_node_request_and_wait, event_bus_register. wp_step.
  wp_step. wp_step. wp_unwrap; [|exact Hp]. wp_step. apply Hr.
Qed.

(** The peers [get_main_nets] keeps, and what it registers for one. *)
Definition has_addr (peer : NodeInfo) : Prop := ni_addr peer ≠ [].

#[export] Instance has_addr_dec peer : Decision (has_addr peer).
Proof. unfold has_addr. apply _. Defined.

Definition peer_entry (peer : NodeInfo) : option (PeerId * list Multiaddr) :=
  addrs ← parse_addresses (ni_addr peer);
  p ← peer_id_of_string (ni_id peer);
  Some (p, addrs).

Lemma add_peers_wp peers : ∀ entries s Q,
  mapM peer_entry (filter has_addr peers) = Some entries →
  Q ((λ e, SendNodeRequest (NrAddPeerAddressesRequest e.1 e.2)) <$> entries)
    (Returned (filter has_addr peers)) s →
  wp calm (add_peers peers) s Q.
Proof.
  induction peers as [|peer peers IH]; intros entries s Q Hall HQ; cbn [add_peers].
  - rewrite filter_nil in *. injection Hall as <-. wp_step. exact HQ.
  - destruct (ni_addr peer) as [|a addrs] eqn:Haddr.
    + rewrite filter_cons_False in Hall, HQ by (intros Hn; by apply Hn).
      by eapply IH.
    + rewrite filter_cons_True in Hall, HQ by (unfold has_addr; by rewrite Haddr).
      cbn [mapM] in Hall. destruct (peer_entry peer) as [e|] eqn:He; [|done].
      destruct (mapM peer_entry _) as [rest|] eqn:Hrest; [|done]. injection Hall as <-.
      unfold peer_entry in He. rewrite Haddr in He.
      destruct (parse_addresses _) as [l|]; [|done]. simpl in He.
      destruct (peer_id_of_string _) as [p|]; [|done]. injection He as <-. wp_norm.
      wp_step. wp_use IH; [done|]. wp_step. rewrite app_nil_r. exact HQ.
Qed.

End NodeLemmas.

(** * Properties *)

Section NodeProperties.
Context {EXT : Ext}.

(** Closing a session removes its session, circuit and probe and nothing
    else, and sends [Close] to its early stream, then to its later stream. *)
Theorem handle_close_session_spec (s : Shared) (sid : string) :
  ensures calm s (handle_close_session sid) (λ tr o s',
    o = Returned tt ∧
    tr = match session_map s !! sid with
         | Some session => (λ w, OutSend w WdClose) <$> session_streams session
         | None => []
         end ∧
    s' = set_probe_map (delete sid) (set_circuit_map (delete sid) (set_session_map (delete sid) s))).
Proof.
  apply wp_ensures, handle_close_session_wp. split_and!; [done| |done].
  unfold close_cmds. by destruct (session_map s !! sid); simpl; rewrite ?app_nil_r.
Qed.

(** The wait for an outbound stream to a peer takes the first one of the
    queue and rotates the streams before it to the back, in order; when there is
    none it gives up after 100 sleeps of 50 ms, the queue unchanged. *)
Theorem wait_for_out_spec (peer : PeerId) (s : Shared) :
  ensures calm s (wait_for_out_peer_relay_stream peer) (λ tr o s',
    match list_find (λ w, remote_peer_id w = peer) (relay_out_streams s) with
    | Some (i, w) =>
        tr = [] ∧ o = Returned (Some w) ∧ s' = set_relay_out (λ q, drop (S i) q ++ take i q) s
    | None => tr = repeat (Sleep 50000) 100 ∧ o = Returned None ∧ s' = s
    end).
Proof.
  apply wp_ensures. destruct (list_find _ _) as [[i w]|] eqn:Hfind.
  - by eapply wait_for_out_some_wp.
  - by apply wait_for_out_none_wp.
Qed.

(** C34: whatever the other tasks do to the queue meanwhile, the wait comes to
    an end: its 101 rounds are enough. *)
Theorem wait_for_out_terminates (peer : PeerId) (s : Shared) :
  ensures any_env s (wait_for_out_peer_relay_stream peer) (λ _ o _, o ≠ Running).
Proof. apply wp_ensures, (wait_loop_any peer 100 101); [lia|done]. Qed.

(** C21: opening a session to a peer.  A stream to it is requested; when none
    comes within the time limit, nothing has changed.  Otherwise the first one
    is taken and sent a wake-up and the session's id and role, and the task
    waits for the acknowledgement under the id of that second message; once it
    comes, the stream is served by its own handler and joins the session, as the
    only stream of a new one in this node's role, or as the later stream of the
    one there. *)
Theorem new_session_to_peer_spec (self : Node) (peer : PeerId) (sid : string)
    (my other : SessionRole) (s : Shared) :
  ensures calm s (new_session_to_peer self peer sid my other) (λ tr o s',
    match list_find (λ w, remote_peer_id w = peer) (relay_out_streams s) with
    | None => o = Returned None ∧ s' = s ∧
        effects tr = [Spawn (TaskSendNodeRequest (NrNewStreamRequest peer))]
    | Some (i, w) => ∃ conf1 conf2,
        confusion_ok wake_relay conf1 ∧
        confusion_ok (set_session_relay sid (role_i32 other)) conf2 ∧
        let msg := sealed (set_session_relay sid (role_i32 other)) conf2 in
        let opening :=
          [Spawn (TaskSendNodeRequest (NrNewStreamRequest peer));
           OutSend w (WdData (pb_encode (sealed wake_relay conf1)));
           OutSend w (WdData (pb_encode msg)); AwaitAck (next_handle s)] in
        let waiting := awaiting i (relay_id msg) s in
        match o with
        | Returned r => r = Some w ∧ s' = join_session sid (role_i32 my) w waiting ∧
            effects tr = opening ++ [Spawn (TaskRelayHandler w self (Some sid))]
        | Blocked | Panicked => s' = waiting ∧ effects tr = opening
        | Running => False
        end
    end).
Proof.
  apply wp_ensures. destruct (list_find _ _) as [[i w]|] eqn:Hfind.
  - apply (new_session_to_peer_some_wp _ _ _ _ _ i w); [done|].
    intros conf1 conf2 us1 us2 key cmds Hc1 Hc2. split_and!; exists conf1, conf2; split_and!; try done.
  - apply new_session_to_peer_none_wp; [done|]. split_and!; try done.
Qed.

(** A request that waits is registered on the event bus, under its id and
    with a fresh channel, before it is sent; so its acknowledgement finds it. *)
Theorem send_and_wait_spec (key : string) (r : NodeRequest) (s : Shared) :
  ensures calm s (external_send_node_request_and_wait key r) (λ tr o s',
    tr = [SendNodeRequest r; AwaitAck (next_handle s)] ∧ o ≠ Running ∧
    s' = set_event_bus <[key := next_handle s]> (bump_handle s)).
Proof. by apply wp_ensures, send_and_wait_wp. Qed.

(** The client asks its bootstrap node for peers under the id of its
    request, keeps those of the answer that have an address, and registers
    their addresses with the swarm, in order. *)
Theorem get_main_nets_spec (cnt : Z) (boot : PeerId) (addr : Multiaddr)
    (a : Ack) (answer : PeersList) (entries : list (PeerId * list Multiaddr)) (s : Shared) :
  pb_decode (ack_data a) = Some answer →
  mapM peer_entry (filter has_addr (pl_peers answer)) = Some entries →
  let request := identified_request "" (reqtype_i32 RqMainNetPeers) (pb_encode (mkMainNetPeers cnt)) in
  ensures (calm_with (acks a)) s
    (get_main_nets cnt boot addr) (λ tr o s',
      s' = set_event_bus <[req_req_id request := next_handle s]> (bump_handle s) ∧
      o = Returned (mkPeersList (filter has_addr (pl_peers answer))) ∧
      tr = [SendNodeRequest (NrAddPeerAddressesRequest boot [addr]);
            SendNodeRequest (NrProxyRequest (mkNodeProxyRequest boot (Some request) None));
            AwaitAck (next_handle s)] ++
           ((λ e, SendNodeRequest (NrAddPeerAddressesRequest e.1 e.2)) <$> entries)).
Proof.
  intros Ha Hall request. apply wp_ensures.
  unfold get_main_nets, external_send_node_request_and_wait, event_bus_register.
  wp_step. wp_step. wp_step. wp_step. wp_norm. rewrite Ha. wp_norm. apply wp_bind_2, wp_calm_with.
  eapply add_peers_wp; [exact Hall|]. wp_norm. wp_step. by rewrite app_nil_r.
Qed.

(** Registering a client at a proxy: the proxy becomes the node's only
    when it acknowledges with success. *)
Theorem register_proxy_spec (self : Node) (proxy : PeerId) (wn : string) (a : Ack) (s : Shared) :
  from_keypair_to_whitenoise_id (keypair self) = Some wn →
  ensures (calm_with (acks a)) s
    (register_proxy self proxy) (λ tr o s',
      o = Returned (if ack_result a
                    then (mkNode (keypair self) (Some proxy) (boot_peer_id self), true)
                    else (self, false))).
Proof.
  intros Hwn. apply wp_ensures. unfold register_proxy. rewrite Hwn. wp_norm.
  unfold external_send_node_request_and_wait, event_bus_register.
  wp_step. wp_step. wp_step. wp_norm. by destruct (ack_result a); wp_step.
Qed.

(** What holds when [dial] returns a session id: the id is the hash of
    both identities and the time, the target's key is kept for the negotiation,
    a stream to the proxy carries the session with this node as its caller, the
    circuit has a connection on that stream with a fresh channel and no
    transport yet, and the proxy was asked for the circuit between the hashes of
    the two identities. *)
Theorem dial_spec (self : Node) (remote : string) (s : Shared) :
  ensures calm s (dial self remote) (λ tr o s', ∀ sid, o = Returned sid →
    ∃ local micros composit proxy w ch from to,
      from_keypair_to_whitenoise_id (keypair self) = Some local ∧
      sid = bs58_encode (sha2_256 (session_id_bytes remote local micros)) ∧
      composit_bytes remote = Some composit ∧ circuit_task s' !! sid = Some composit ∧
      proxy_id self = Some proxy ∧ remote_peer_id w = proxy ∧ w ∈ relay_out_streams s ∧
      session_map s' !! sid =
        Some (joined_session (session_map s !! sid) sid (role_i32 CallerRole) w) ∧
      circuit_map s' !! sid = Some (fresh_circuit_conn sid w ch) ∧ next_handle s ≤ ch ∧
      from_whitenoise_to_hash local = Some from ∧ from_whitenoise_to_hash remote = Some to ∧
      SendNodeRequest (NrProxyRequest (mkNodeProxyRequest proxy
        (Some (identified_request (get_id self) (reqtype_i32 RqNewCircuit)
                 (pb_encode (mkNewCircuit from to sid)))) None)) ∈ tr).
Proof.
  apply wp_ensures. unfold dial. wp_unwrap as local; [|done].
  unfold generate_session_id. wp_step. destruct Hr as [micros ->]. wp_norm.
  wp_unwrap as composit; [|done]. wp_step. wp_unwrap as proxy; [|done].
  set (sid := bs58_encode _).
  destruct (list_find (λ w, remote_peer_id w = proxy) (relay_out_streams s)) as [[i w]|] eqn:Hfind.
  - apply list_find_Some in Hfind as Hw. destruct Hw as (Hin & Hpeer & _).
    apply list_elem_of_lookup_2 in Hin.
    wp_use (new_session_to_peer_some_wp _ _ _ _ _ i w); [st_simpl; exact Hfind|].
    intros conf1 conf2 us1 us2 key cmds _ _. split_and!; cbn [after]; try done.
    wp_norm. unfold new_channel. wp_step. wp_step. unfold new_circuit.
    wp_unwrap as from; [|done]. wp_unwrap as to; [|done].
    wp_use send_and_wait_wp; cbn [after]; try done. intros a. wp_norm. wp_step.
    intros sid' [= <-]. exists local, micros, composit, proxy, w, (S (next_handle s)), from, to.
    unfold join_session, awaiting. st_simpl. rewrite !lookup_insert_eq.
    split_and!; try assumption; try reflexivity; [lia|]. set_solver.
  - wp_use new_session_to_peer_none_wp; [st_simpl; exact Hfind|]. cbn [after]. by wp_step.
Qed.

(** When the proxy answers, [dial] does return, and with a session id
    even when the answer refuses the circuit: the result of the acknowledgement
    is not looked at. *)
Theorem dial_returns (self : Node) (remote local from to : string) (composit : bytes)
    (proxy : PeerId) (i : nat) (w : WrappedStream) (a : Ack) (s : Shared) :
  from_keypair_to_whitenoise_id (keypair self) = Some local →
  composit_bytes remote = Some composit → proxy_id self = Some proxy →
  from_whitenoise_to_hash local = Some from → from_whitenoise_to_hash remote = Some to →
  list_find (λ w, remote_peer_id w = proxy) (relay_out_streams s) = Some (i, w) →
  ensures (calm_with (acks a)) s (dial self remote) (λ tr o s', ∃ micros,
    let sid := bs58_encode (sha2_256 (session_id_bytes remote local micros)) in
    o = Returned sid ∧ is_Some (session_map s' !! sid) ∧ is_Some (circuit_map s' !! sid)).
Proof.
  intros Hlocal Hcomp Hproxy Hfrom Hto Hfind. apply wp_ensures. unfold dial. rewrite Hlocal. wp_norm.
  unfold generate_session_id. wp_step. destruct Hr as [micros ->]. wp_norm.
  set (sid := bs58_encode _). rewrite Hcomp. wp_norm. wp_step. rewrite Hproxy. wp_norm.
  apply wp_bind_2. eapply new_session_acked_wp; [reflexivity|exact Hfind|]. intros conf1 conf2 us1 us2 key cmds.
  cbn [after]. wp_norm. unfold new_channel. wp_step. wp_step. unfold new_circuit.
  rewrite Hfrom. wp_norm. rewrite Hto. wp_norm.
  unfold external_send_node_request_and_wait, event_bus_register.
  wp_step. wp_step. wp_step. wp_norm. wp_step. exists micros. split; [done|].
  unfold join_session, awaiting. st_simpl. rewrite !lookup_insert_eq. eauto.
Qed.

End NodeProperties.

Section NodeWitnesses.
Local Existing Instance toy.

Lemma get_main_nets_spec_witness :
  let answer := mkPeersList [mkNodeInfo "a" ["/x"%string]; mkNodeInfo "b" []] in
  let a := mkAck "" true (pb_encode answer) in
  mapM peer_entry (filter has_addr (pl_peers answer)) = Some [("a"%string, ["/x"%string])] ∧
  ensures (calm_with (acks a)) empty_shared
    (get_main_nets 10 "boot"%string "addr"%string) (λ _ o _,
      o = Returned (mkPeersList [mkNodeInfo "a" ["/x"%string]])).
Proof.
  intros answer a. split; [reflexivity|]. intros e n He.
  exact (proj1 (proj2 (get_main_nets_spec 10 "boot"%string "addr"%string a answer
    [("a"%string, ["/x"%string])] empty_shared (toy_codec_roundtrip PeersList answer) eq_refl e n He))).
Defined.

Lemma register_proxy_spec_witness :
  from_keypair_to_whitenoise_id (keypair toy_node) = Some (String.append "0" (toy_base [x01])) ∧
  ensures (calm_with (acks (mkAck "" false []))) empty_shared
    (register_proxy toy_node "p"%string) (λ _ o _, o = Returned (toy_node, false)).
Proof.
  split; [reflexivity|].
  exact (register_proxy_spec toy_node "p"%string _ (mkAck "" false []) empty_shared eq_refl).
Defined.

(** The proxy refuses, and the caller has its session id. *)
Lemma dial_returns_witness :
  let w := toy_stream "proxy" "1" in
  let s := set_relay_out (λ _, [w]) empty_shared in
  let local := String.append "0" (toy_base [x01]) in
  from_keypair_to_whitenoise_id (keypair toy_node) = Some local ∧
  ensures (calm_with (acks (mkAck "" false []))) s (dial toy_node local) (λ _ o _,
    ∃ sid, o = Returned sid).
Proof.
  intros w s local. split; [reflexivity|]. intros e n He.
  destruct (dial_returns toy_node local local _ _ _ "proxy"%string 0 w (mkAck "" false []) s
    eq_refl eq_refl eq_refl eq_refl eq_refl eq_refl e n He) as (micros & Ho & _).
  eexists. exact Ho.
Defined.

End NodeWitnesses.
