(* ===== verification/Host.v ===== *)
(** * The start-up of a node

    src/sdk/host.rs and the server command of src/main.rs: the parsing of the
    bootstrap address, the identity of the node, the configuration of its swarm,
    its initial state and the tasks that are spawned.  The transport, the
    protocols and the swarm are libp2p's; what the code chooses of them is
    [SwarmConfig]. *)

From Stdlib Require Import Ascii.
From S2P Require Import Prelude Proto External State Io Concrete Utils Account Node.

Section Host.
Context {EXT : Ext}.

(** ** The bootstrap address *)

(** [str::split('/')] and [last]: what follows the last slash. *)
Fixpoint after_last_slash (acc s : string) : string :=
  match s with
  | EmptyString => acc
  | String c s' => if decide (c = "/"%char) then after_last_slash s' s' else after_last_slash acc s'
  end.

Definition last_part (addr : string) : string := after_last_slash addr addr.

(** [str::find("p2p")]: the first position of the pattern. *)
Fixpoint find_str (pat s : string) (i : nat) : option nat :=
  if String.prefix pat s then Some i
  else match s with
       | EmptyString => None
       | String _ s' => find_str pat s' (S i)
       end.

(** [str::is_char_boundary] inside a string. *)
Definition char_boundary (s : string) (i : nat) : bool :=
  match String.get i s with
  | Some c => starts_char (Ascii.byte_of_ascii c)
  | None => bool_decide (i = String.length s)
  end.

(** The bootstrap peer, and its address without the trailing peer component;
    [None] is a panic ([index - 1] of 0 and [split_at] inside a character
    included). *)
Definition parse_bootstrap (bootstrap_addr : string) : option (PeerId * Multiaddr) :=
  bootstrap_peer_id ← peer_id_of_string (last_part bootstrap_addr);
  whole ← multiaddr_parse bootstrap_addr;
  match find_str "p2p" bootstrap_addr 0 with
  | Some O => None
  | Some (S index) =>
      if char_boundary bootstrap_addr index then
        addr ← multiaddr_parse (String.substring 0 index bootstrap_addr);
        Some (bootstrap_peer_id, addr)
      else None
  | None => Some (bootstrap_peer_id, whole)
  end.

(** ** The swarm *)

(** Messages are identified by the hash of their data and not signed. *)
Definition new_gossipsub : io GossipsubConfig :=
  let gossipsub := mkGossipsubConfig 10 true true "noise_topic" in
  call (NewGossipsub gossipsub) ≫= unwrap_ok;;
  mret gossipsub.

Definition swarm_config (run_mode : RunMode) (peer_id : PeerId) (noise_keys : NoiseKeys)
    (gossipsub : GossipsubConfig) : SwarmConfig :=
  mkSwarmConfig run_mode peer_id noise_keys true 5 "/ipfs/id/1.0.0" 500 (5 * 60)
    (as_bytes "/whitenoise_dht/kad/1.0.0") (5 * 60) gossipsub.

Definition listen_on (port_option : option string) : io unit :=
  match port_option with
  | None => mret tt
  | Some port =>
      addr ← unwrap (multiaddr_parse (String.append "/ip4/0.0.0.0/tcp/" port));
      call (SwarmCall (SwarmListenOn addr)) ≫= unwrap_ok
  end.

(** The identity of the node: the pair given, or the default account. *)
Definition node_keypair (key_pair : option Keypair) (key_type : KeyType) : io Keypair :=
  match key_pair with
  | None => default_account_keypair "./db" key_type
  | Some x => mret x
  end.

(** The peer to bootstrap from, whose address is added to the routing table. *)
Definition add_bootstrap (bootstrap_addr_option : option string) : io (option PeerId) :=
  match bootstrap_addr_option with
  | None => mret None
  | Some bootstrap_addr =>
      '(p, addr) ← unwrap (parse_bootstrap bootstrap_addr);
      call (SwarmCall (KadAddAddress p addr));;
      mret (Some p)
  end.

(** The swarm of each mode and the tasks that drive it. *)
Definition start_swarm (port_option : option string) (run_mode : RunMode) (peer_id : PeerId)
    (noise_keys : NoiseKeys) (node : Node) : io unit :=
  gossipsub ← new_gossipsub;
  match run_mode with
  | RunClient =>
      call (BuildSwarm (swarm_config RunClient peer_id noise_keys gossipsub));;
      listen_on port_option;;
      spawn TaskClientLoop
  | RunServer =>
      spawn (TaskPublishRequests node);;
      call (BuildSwarm (swarm_config RunServer peer_id noise_keys gossipsub));;
      to_search ← call GenerateSecp256k1;
      call (SwarmCall (KadGetClosestPeers (keypair_peer_id (Secp256k1 to_search))));;
      listen_on port_option;;
      spawn TaskServerLoop
  end.

(** The node of an identity, with its static key. *)
Definition start_with (port_option bootstrap_addr_option : option string) (run_mode : RunMode)
    (id_keys : Keypair) (noise_keys : NoiseKeys) : io Node :=
  let peer_id := keypair_peer_id id_keys in
  bootstrap_peer_id ← add_bootstrap bootstrap_addr_option;
  let node := mkNode id_keys None bootstrap_peer_id in
  start_swarm port_option run_mode peer_id noise_keys node;;
  spawn (TaskProxyRequests node);;
  spawn (TaskCmdRequests node);;
  mret node.

Definition start_node (port_option bootstrap_addr_option : option string) (run_mode : RunMode)
    (id_keys : Keypair) : io Node :=
  noise_keys ← call (NewNoiseKeys id_keys) ≫= unwrap;
  start_with port_option bootstrap_addr_option run_mode id_keys noise_keys.

Definition start (port_option bootstrap_addr_option : option string) (run_mode : RunMode)
    (key_pair : option Keypair) (key_type : KeyType) : io Node :=
  id_keys ← node_keypair key_pair key_type;
  start_node port_option bootstrap_addr_option run_mode id_keys.

Definition start_server (bootstrap_addr_option port_option : option string) (key_type : string)
    (key_pair : option Keypair) : io Node :=
  node ← start port_option bootstrap_addr_option RunServer key_pair (from_text_str key_type);
  spawn (TaskNewStreams node);;
  mret node.

(** ** main.rs *)

(** The matches of the [start] subcommand. *)
Record StartArgs := mkStartArgs {
  arg_port : option string;
  arg_bootstrap : option string;
  arg_ktype : option string
}.

(** The subcommand, when it is given; the program then waits on a channel whose
    sender it keeps. *)
Definition server_main (start_matches : option StartArgs) : io unit :=
  match start_matches with
  | None => mret tt
  | Some x =>
      let key_type := default "ed25519"%string (arg_ktype x) in
      receiver ← new_channel;
      start_server (arg_bootstrap x) (arg_port x) key_type None;;
      call (AwaitBool receiver) ≫= unwrap;;
      mret tt
  end.

End Host.

(** * Lemmas *)

Section HostLemmas.
Context {EXT : Ext}.

Lemma append_nil b : String.append "" b = b.
Proof. done. Qed.

Lemma append_cons c a b : String.append (String c a) b = String c (String.append a b).
Proof. done. Qed.

Lemma append_assoc a b c : String.append a (String.append b c) = String.append (String.append a b) c.
Proof. induction a as [|x a IH]; [done|]. rewrite !append_cons. by f_equal. Qed.

(** The last part of an address that ends in a component without a slash. *)
Fixpoint no_slash (s : string) : bool :=
  match s with
  | EmptyString => true
  | String c s => bool_decide (c ≠ "/"%char) && no_slash s
  end.

Lemma after_last_slash_none acc s : no_slash s = true → after_last_slash acc s = acc.
Proof.
  revert acc. induction s as [|c s IH]; intros acc Hs; [done|]. simpl in *.
  apply andb_true_iff in Hs as [Hc Hs]. apply bool_decide_eq_true in Hc.
  rewrite decide_False by done. by apply IH.
Qed.

Lemma after_last_slash_app s id : no_slash id = true → ∀ acc,
  after_last_slash acc (String.append s (String "/"%char id)) = id.
Proof.
  intros Hid. induction s as [|c s IH]; intros acc; simpl.
  - by rewrite after_last_slash_none.
  - case_decide; apply IH.
Qed.

(** The pattern has no slash, so that it does not begin before one. *)
Lemma prefix_before_slash a t :
  String.prefix "p2p" (String.append a (String "/"%char t)) = true → String.prefix "p2p" a = true.
Proof.
  destruct a as [|c1 [|c2 [|c3 a]]]; rewrite ?append_cons, ?append_nil; cbn [String.prefix];
    repeat (destruct (Ascii.ascii_dec _ _); try done).
  by destruct a.
Qed.

(** The first occurrence of the pattern in an address with a peer component. *)
Lemma find_str_peer a id i :
  str_contains "p2p" a = false →
  find_str "p2p" (String.append a (String.append "/p2p/" id)) i = Some (S (String.length a + i)).
Proof.
  revert i. induction a as [|c a IH]; intros i Ha; [done|].
  cbn [str_contains] in Ha. apply orb_false_iff in Ha as [Hp Ha].
  assert (Hno : String.prefix "p2p" (String.append (String c a) (String.append "/p2p/" id)) = false).
  { destruct (String.prefix _ (String.append _ _)) eqn:Hpre; [|done].
    apply (prefix_before_slash (String c a) (String.append "p2p/" id)) in Hpre. congruence. }
  rewrite append_cons in *. cbn [find_str]. rewrite Hno, IH by done. simpl String.length. f_equal. lia.
Qed.

Lemma substring_app a b : String.substring 0 (String.length a) (String.append a b) = a.
Proof. induction a as [|c a IH]; [by destruct b|]. rewrite append_cons. simpl. by f_equal. Qed.

Lemma char_boundary_slash a b : char_boundary (String.append a (String "/"%char b)) (String.length a) = true.
Proof.
  unfold char_boundary. replace (String.get _ _) with (Some "/"%char); [reflexivity|].
  induction a as [|x a IH]; [done|]. rewrite append_cons. exact IH.
Qed.

(** An address with a peer component: the peer, and the address before it. *)
Lemma parse_bootstrap_peer a id p whole addr :
  str_contains "p2p" a = false → no_slash id = true →
  peer_id_of_string id = Some p →
  multiaddr_parse (String.append a (String.append "/p2p/" id)) = Some whole →
  multiaddr_parse a = Some addr →
  parse_bootstrap (String.append a (String.append "/p2p/" id)) = Some (p, addr).
Proof.
  intros Ha Hid Hp Hwhole Haddr. unfold parse_bootstrap, last_part.
  change (String.append "/p2p/" id) with (String.append "/p2p" (String "/"%char id)) in *.
  rewrite append_assoc, after_last_slash_app, <- append_assoc by done.
  rewrite Hp. cbn. rewrite Hwhole. cbn.
  change (String.append "/p2p" (String "/"%char id)) with (String.append "/p2p/" id).
  rewrite find_str_peer, Nat.add_0_r by done.
  assert (Hslash : char_boundary (String.append a (String.append "/p2p/" id)) (String.length a) = true)
    by exact (char_boundary_slash a (String.append "p2p/" id)).
  by rewrite Hslash, substring_app, Haddr.
Qed.

(** The starts of the components of a node. *)
Lemma node_keypair_wp {DB : Type} (db_get : DB → bytes → option bytes) db_put (db : DB)
    key_pair kt ed secp s Q :
  (∀ key v, is_Some (db_put db key v)) →
  match key_pair with
  | Some k => Q [] (Returned k) s
  | None =>
      match get_default_account_keypair db_get db_put db kt ed secp with
      | Some (db', k) => ∀ tr, apply_puts db_put db tr = Some db' → Q tr (Returned k) s
      | None => ∀ tr, Q tr Panicked s
      end
  end →
  wp (calm_with (db_script db_get db ed secp)) (node_keypair key_pair kt) s Q.
Proof.
  intros Hput HQ. unfold node_keypair. destruct key_pair; [by wp_step|].
  by eapply default_account_wp.
Qed.


(** What a node makes of its arguments: [None] is a panic. *)
Definition bootstrap_of (bootstrap : option string) : option (option (PeerId * Multiaddr)) :=
  match bootstrap with None => Some None | Some a => Some <$> parse_bootstrap a end.

Definition port_of (port : option string) : option (list cmd) :=
  match port with
  | None => Some []
  | Some port =>
      (λ addr, [SwarmCall (SwarmListenOn addr)]) <$>
        multiaddr_parse (String.append "/ip4/0.0.0.0/tcp/" port)
  end.

Definition bootstrap_cmds (b : option (PeerId * Multiaddr)) : list cmd :=
  match b with Some (p, addr) => [SwarmCall (KadAddAddress p addr)] | None => [] end.

(** The swarm of a mode is built, and asked, before it listens. *)
Definition swarm_cmds (mode : RunMode) (k : Keypair) (nk : NoiseKeys) (search : list PeerId)
    (node : Node) : list cmd :=
  let gossipsub := mkGossipsubConfig 10 true true "noise_topic" in
  [NewGossipsub gossipsub] ++
  match mode with RunServer => [Spawn (TaskPublishRequests node)] | RunClient => [] end ++
  [BuildSwarm (swarm_config mode (keypair_peer_id k) nk gossipsub)] ++
  ((λ p, SwarmCall (KadGetClosestPeers p)) <$> search).

Definition loop_task (mode : RunMode) : task :=
  match mode with RunClient => TaskClientLoop | RunServer => TaskServerLoop end.

(** A server looks for peers at a random place of the table; a client has none. *)
Definition searches (mode : RunMode) (search : list PeerId) : Prop :=
  match mode with RunClient => search = [] | RunServer => ∃ p, search = [p] end.

Lemma add_bootstrap_wp b s Q :
  match bootstrap_of b with
  | Some b => Q (bootstrap_cmds b) (Returned (fst <$> b)) s
  | None => Q [] Panicked s
  end →
  wp calm (add_bootstrap b) s Q.
Proof.
  intros HQ. unfold add_bootstrap, bootstrap_of in *. destruct b as [a|]; [|by wp_step].
  destruct (parse_bootstrap a) as [[p addr]|]; wp_steps; exact HQ.
Qed.

Lemma listen_on_wp port s Q :
  match port_of port with
  | Some cmds => Q cmds (Returned tt) s
  | None => Q [] Panicked s
  end →
  wp calm (listen_on port) s Q.
Proof.
  intros HQ. unfold listen_on, port_of in *. destruct port as [port|]; [|by wp_step].
  destruct (multiaddr_parse _); wp_steps; exact HQ.
Qed.

Lemma listen_spawn_wp port t s Q :
  match port_of port with
  | Some cmds => Q (cmds ++ [Spawn t]) (Returned tt) s
  | None => Q [] Panicked s
  end →
  wp calm (listen_on port;; spawn t) s Q.
Proof.
  intros HQ. apply wp_bind_2, listen_on_wp. destruct (port_of port); [|exact HQ]. cbn [after]. by wp_step.
Qed.

Lemma start_swarm_wp port mode k nk node s Q :
  (∀ search tr, searches mode search → effects tr = swarm_cmds mode k nk search node →
     match port_of port with
     | Some cmds => Q (tr ++ cmds ++ [Spawn (loop_task mode)]) (Returned tt) s
     | None => Q tr Panicked s
     end) →
  wp calm (start_swarm port mode (keypair_peer_id k) nk node) s Q.
Proof.
  intros HQ. set (g := mkGossipsubConfig 10 true true "noise_topic").
  unfold start_swarm, new_gossipsub. destruct mode.
  - do 2 wp_step. apply listen_spawn_wp.
    by apply (HQ [] [NewGossipsub g; BuildSwarm (swarm_config RunClient (keypair_peer_id k) nk g)]).
  - do 5 wp_step. apply listen_spawn_wp. set (p := keypair_peer_id (Secp256k1 r)).
    by apply (HQ [p] [NewGossipsub g; Spawn (TaskPublishRequests node);
      BuildSwarm (swarm_config RunServer (keypair_peer_id k) nk g); GenerateSecp256k1;
      SwarmCall (KadGetClosestPeers p)]); [exists p|].
Qed.

(** What start-up does, given its identity and its static key. *)
Definition starts (nk : NoiseKeys) (port bootstrap : option string) (mode : RunMode) (k : Keypair) (tr : list cmd)
    (o : outcome Node) : Prop :=
  match bootstrap_of bootstrap with
  | None => o = Panicked ∧ effects tr = []
  | Some b =>
      let node := mkNode k None (fst <$> b) in
      ∃ search, searches mode search ∧
      let cmds := bootstrap_cmds b ++ swarm_cmds mode k nk search node in
      match port_of port with
      | None => o = Panicked ∧ effects tr = cmds
      | Some listen =>
          o = Returned node ∧
          effects tr = cmds ++ listen ++
            [Spawn (loop_task mode); Spawn (TaskProxyRequests node); Spawn (TaskCmdRequests node)]
      end
  end.

Lemma effects_visible b cmds : bootstrap_of b = Some cmds → effects (bootstrap_cmds cmds) = bootstrap_cmds cmds.
Proof. by destruct cmds as [[p addr]|]. Qed.

Lemma effects_port port cmds : port_of port = Some cmds → effects cmds = cmds.
Proof. destruct port; simpl; [intros (? & _ & ->)%fmap_Some|intros [= <-]]; done. Qed.

Lemma start_with_wp nk port bootstrap mode k s Q :
  (∀ tr o, starts nk port bootstrap mode k tr o → Q tr o s) →
  wp calm (start_with port bootstrap mode k nk) s Q.
Proof.
  intros HQ. unfold start_with, starts in *.
  apply wp_bind_2, add_bootstrap_wp. destruct (bootstrap_of bootstrap) as [b|] eqn:Hb; [|by apply HQ].
  cbn [after]. apply wp_bind_2, start_swarm_wp. intros search tr Hsearch Htr.
  destruct (port_of port) as [listen|] eqn:Hport.
  - cbn [after]. wp_steps. apply HQ. exists search. split; [done|]. split; [done|].
    rewrite !effects_app, (effects_visible bootstrap), Htr, (effects_port port) by done.
    by rewrite <- !app_assoc.
  - cbn [after]. apply HQ. exists search. split; [done|]. split; [done|].
    by rewrite effects_app, (effects_visible bootstrap), Htr.
Qed.

Lemma starts_keys nk port bootstrap mode k tr o :
  starts nk port bootstrap mode k tr o → starts nk port bootstrap mode k (NewNoiseKeys k :: tr) o.
Proof. unfold starts. by change (effects (NewNoiseKeys k :: tr)) with (effects tr). Qed.

Lemma start_node_wp port bootstrap mode k s Q :
  (∀ nk tr o, starts nk port bootstrap mode k tr o → Q tr o s) →
  wp calm (start_node port bootstrap mode k) s Q.
Proof.
  intros HQ. unfold start_node. wp_step. destruct Hr as [nk ->]. wp_norm. apply start_with_wp.
  intros tr o Hst. by apply (HQ nk), starts_keys.
Qed.

(** With a static key that is authenticated by the identity. *)
Lemma start_node_noise_wp authentic built port bootstrap mode k s Q :
  (∀ nk tr o, authentic k nk → starts nk port bootstrap mode k tr o → Q tr o s) →
  wp (noise_env authentic built) (start_node port bootstrap mode k) s Q.
Proof.
  intros HQ. unfold start_node. wp_norm. intros s' Heq. simpl in Heq. subst s'. split; [by intros []|].
  intros r (nk & -> & Hnk). wp_norm. apply wp_noise_env, start_with_wp.
  intros tr o Hst. by apply (HQ nk), starts_keys.
Qed.

Lemma starts_returned nk port bootstrap mode k tr o node :
  starts nk port bootstrap mode k tr o → o = Returned node → keypair node = k.
Proof.
  unfold starts. destruct (bootstrap_of bootstrap) as [b|]; [|by intros [-> _]].
  intros (search & _ & Ho) ->. destruct (port_of port); destruct Ho; by simplify_eq.
Qed.

(** Nothing of it is written to the database. *)
Lemma starts_no_puts {DB : Type} (db_put : DB → bytes → bytes → option DB) db nk port bootstrap mode k tr o :
  starts nk port bootstrap mode k tr o → apply_puts db_put db tr = Some db.
Proof.
  intros Hst. assert (Heff : ∀ db l, apply_puts db_put db l = apply_puts db_put db (effects l)).
  { intros db1 l. revert db1. induction l as [|c l IH]; intros db1; [done|].
    destruct c; simpl; try apply IH. destruct (db_put db1 key value); simpl; [apply IH|done]. }
  rewrite Heff. unfold starts in Hst. destruct (bootstrap_of bootstrap) as [b|]; [|by destruct Hst as [_ ->]].
  destruct Hst as (search & Hsearch & Hst).
  assert (Hb : apply_puts db_put db (bootstrap_cmds b) = Some db) by (by destruct b as [[p a]|]).
  assert (Hs : apply_puts db_put db (swarm_cmds mode k nk search (mkNode k None (fst <$> b))) = Some db).
  { destruct mode; simpl in Hsearch; [by subst search|]. destruct Hsearch as [p ->]. done. }
  assert (Hl : ∀ l, port_of port = Some l → apply_puts db_put db l = Some db).
  { intros l. unfold port_of. destruct port; [intros (? & _ & ->)%fmap_Some|intros [= <-]]; done. }
  destruct (port_of port) as [l|]; destruct Hst as [_ ->]; rewrite !apply_puts_app, Hb;
    cbn [mbind option_bind]; rewrite Hs; [|done].
  cbn [mbind option_bind]. rewrite apply_puts_app, (Hl l eq_refl). by destruct mode.
Qed.

(** A start-up without a key pair runs the account first. *)
Lemma start_account_wp {DB : Type} (db_get : DB → bytes → option bytes) db_put (db : DB)
    port bootstrap mode kt ed secp s Q :
  (∀ key v, is_Some (db_put db key v)) →
  match get_default_account_keypair db_get db_put db kt ed secp with
  | Some (db', k) => ∀ nk tr o tr', starts nk port bootstrap mode k tr' o →
      apply_puts db_put db (tr ++ tr') = Some db' → Q (tr ++ tr') o s
  | None => ∀ tr, Q tr Panicked s
  end →
  wp (calm_with (db_script db_get db ed secp)) (start port bootstrap mode None kt) s Q.
Proof.
  intros Hput HQ. unfold start. apply wp_bind_2, (node_keypair_wp db_get db_put db None); [done|].
  destruct (get_default_account_keypair _ _ _ _ _ _) as [[db' k]|]; [|exact HQ].
  intros tr Htr. apply wp_calm_with, start_node_wp. intros nk tr' o Hst. apply (HQ nk); [done|].
  rewrite apply_puts_app, Htr. simpl. by eapply starts_no_puts.
Qed.

(** The swarm of every node of the network, whatever its mode. *)
Record interoperable (c : SwarmConfig) : Prop := {
  same_transport : tcp_nodelay c = true ∧ transport_timeout_secs c = 5%Z;
  same_identify : identify_protocol c = "/ipfs/id/1.0.0"%string ∧
    identify_initial_delay_millis c = 500%Z ∧ identify_interval_secs c = 300%Z;
  same_dht : dht_protocol c = as_bytes "/whitenoise_dht/kad/1.0.0" ∧ dht_query_timeout_secs c = 300%Z;
  same_gossip : gossipsub_config c = mkGossipsubConfig 10 true true "noise_topic"
}.

(** The parts of the trace of a start: what is asked of the routing table; the swarm,
    from its gossipsub, which is subscribed to the topic, to when it is driven; the
    tasks that run a node. *)
Definition asks_table (c : cmd) : bool :=
  match c with SwarmCall (KadAddAddress _ _) | SwarmCall (KadGetClosestPeers _) => true | _ => false end.

Definition milestone (c : cmd) : bool :=
  match c with
  | NewGossipsub _ | BuildSwarm _ | SwarmCall (SwarmListenOn _)
  | Spawn TaskClientLoop | Spawn TaskServerLoop => true
  | _ => false
  end.

Definition runs_node (c : cmd) : bool :=
  match c with
  | Spawn TaskClientLoop | Spawn TaskServerLoop => false
  | Spawn _ => true
  | _ => false
  end.

Definition gossip_task (mode : RunMode) (node : Node) : list cmd :=
  match mode with RunServer => [Spawn (TaskPublishRequests node)] | RunClient => [] end.

Lemma filter_effects (f : cmd → bool) tr :
  (∀ c, f c = true → visible c = true) → List.filter f tr = List.filter f (effects tr).
Proof.
  intros Hf. induction tr as [|c tr IH]; [done|]. simpl. destruct (visible c) eqn:Hv; simpl; rewrite <- IH; [done|].
  destruct (f c) eqn:Hc; [|done]. apply Hf in Hc. congruence.
Qed.

End HostLemmas.

(** * Properties *)

Section HostProperties.
Context {EXT : Ext}.

(** C26: start-up.  A bootstrap address that does not parse is a panic before
    anything is done.  Otherwise exactly one swarm is built: for the mode and the
    peer of the node's identity, with a static key authenticated by it, and with the
    protocols, the topic and the time-outs all nodes of the network share.  A server
    serves gossip and looks for one random peer, a client does neither; the
    bootstrap peer is in the routing table first.  A port that does not parse is a
    panic with nothing else running; else the node that is returned has the identity
    and the bootstrap peer, the swarm listens before the loop of the mode drives it,
    and the two request tasks run that node.  The bootstrap address of a peer is
    that peer's, without the peer component. *)
Theorem start_spec (authentic : Keypair → NoiseKeys → Prop) (built : NoiseKeys → bool → HandshakeState → Prop)
    (port bootstrap : option string) (mode : RunMode) (k : Keypair) (kt : KeyType) (s : Shared) :
  ensures (noise_env authentic built) s (start port bootstrap mode (Some k) kt) (λ tr o s', s' = s ∧
    match bootstrap_of bootstrap with
    | None => o = Panicked ∧ effects tr = []
    | Some b =>
        let node := mkNode k None (fst <$> b) in
        ∃ c, interoperable c ∧ swarm_mode c = mode ∧ local_peer c = keypair_peer_id k ∧ authentic k (noise_keys c) ∧
        (∃ search, searches mode search ∧
           List.filter asks_table tr = bootstrap_cmds b ++ ((λ p, SwarmCall (KadGetClosestPeers p)) <$> search)) ∧
        match port_of port with
        | None => o = Panicked ∧ List.filter milestone tr = [NewGossipsub (gossipsub_config c); BuildSwarm c] ∧
            List.filter runs_node tr = gossip_task mode node
        | Some listen => o = Returned node ∧
            List.filter milestone tr =
              NewGossipsub (gossipsub_config c) :: BuildSwarm c :: listen ++ [Spawn (loop_task mode)] ∧
            List.filter runs_node tr =
              gossip_task mode node ++ [Spawn (TaskProxyRequests node); Spawn (TaskCmdRequests node)]
        end
    end) ∧
  (∀ a id p whole addr,
     str_contains "p2p" a = false → no_slash id = true → peer_id_of_string id = Some p →
     multiaddr_parse (String.append a (String.append "/p2p/" id)) = Some whole →
     multiaddr_parse a = Some addr →
     bootstrap_of (Some (String.append a (String.append "/p2p/" id))) = Some (Some (p, addr))).
Proof.
  split.
  - apply wp_ensures. unfold start, node_keypair. wp_norm. apply start_node_noise_wp. intros nk tr o Hnk Hst.
    split; [done|]. unfold starts in Hst. destruct (bootstrap_of bootstrap) as [b|]; [|exact Hst].
    destruct Hst as (search & Hsearch & Hst).
    exists (swarm_config mode (keypair_peer_id k) nk (mkGossipsubConfig 10 true true "noise_topic")).
    split; [by (constructor; repeat split)|]. do 3 (split; [done|]).
    rewrite (filter_effects asks_table), (filter_effects milestone), (filter_effects runs_node) by (intros c; by destruct c).
    assert (Hport : ∀ l, port_of port = Some l → List.filter asks_table l = [] ∧ List.filter milestone l = l ∧
      List.filter runs_node l = []).
    { unfold port_of. destruct port; [intros l (? & _ & ->)%fmap_Some|intros l [= <-]]; done. }
    destruct (port_of port) as [listen|]; destruct Hst as [-> ->].
    + destruct (Hport listen eq_refl) as (Ht & Hm & Hr). rewrite !List.filter_app, Ht, Hm, Hr.
      destruct mode; simpl in Hsearch; [subst search|destruct Hsearch as [q ->]]; destruct b as [[p addr]|];
        (split; [eexists; (split; [done || by eexists|reflexivity])|by split_and!]).
    + rewrite !List.filter_app.
      destruct mode; simpl in Hsearch; [subst search|destruct Hsearch as [q ->]]; destruct b as [[p addr]|];
        (split; [eexists; (split; [done || by eexists|reflexivity])|by split_and!]).
  - intros a id p whole addr Ha Hid Hp Hw Haddr. simpl. by rewrite (parse_bootstrap_peer a id p whole addr).
Qed.

(** C25: a node keeps its identity.  Started without a key pair, it takes the
    default account of its key type, which the database has from the first start
    on: whatever the generators would make, the node of every later start on the
    database the first one left has the same key pair, and the database is not
    written again. *)
Theorem restart_keeps_identity `{!KeyLaws} {DB : Type} (db_get : DB → bytes → option bytes)
    (db_put : DB → bytes → bytes → option DB) (db : DB) (port bootstrap : option string)
    (mode : RunMode) (kt : KeyType) (ed : EdKeypair) (secp : SecpKeypair) (s : Shared) :
  (∀ db key v, is_Some (db_put db key v)) →
  (∀ db db' key v, db_put db key v = Some db' → db_get db' key = Some v) →
  ensures (calm_with (db_script db_get db ed secp)) s (start port bootstrap mode None kt)
    (λ tr o _, ∀ node, o = Returned node → ∃ db', apply_puts db_put db tr = Some db' ∧
      ∀ port' bootstrap' mode' ed' secp' s',
        ensures (calm_with (db_script db_get db' ed' secp')) s' (start port' bootstrap' mode' None kt)
          (λ tr' o' _, apply_puts db_put db' tr' = Some db' ∧
             ∀ node', o' = Returned node' → keypair node' = keypair node)).
Proof.
  intros Htotal Hget. apply wp_ensures, start_account_wp with db_put; [done|].
  destruct (get_default_account_keypair db_get db_put db kt ed secp) as [[db' k]|] eqn:Hacc; [|done].
  intros nk tr o tr' Hst Hputs node Ho. exists db'. split; [done|]. intros port' bootstrap' mode' ed' secp' s'.
  assert (Hagain : get_default_account_keypair db_get db_put db' kt ed' secp' = Some (db', k))
    by (by eapply default_account_again).
  apply wp_ensures, start_account_wp with db_put; [done|]. rewrite Hagain.
  intros nk2 tr2 o2 tr2' Hst2 Hputs2. split; [done|]. intros node' Ho2.
  rewrite (starts_returned _ _ _ _ _ _ _ _ Hst Ho). by eapply starts_returned.
Qed.

End HostProperties.

Section HostWitnesses.
Local Existing Instance toy.

Lemma start_spec_witness :
  peer_id_of_string (toy_base (as_bytes "b")) = Some "b"%string ∧
  bootstrap_of (Some (String.append "/ip4/1.2.3.4/tcp/3331" (String.append "/p2p/" (toy_base (as_bytes "b"))))) =
    Some (Some ("b"%string, "/ip4/1.2.3.4/tcp/3331"%string)).
Proof.
  split; [reflexivity|].
  exact (proj2 (start_spec (EXT := toy) (λ _ _, True) (λ _ _ _, True) None None RunServer toy_keys ED25519 empty_shared)
    "/ip4/1.2.3.4/tcp/3331"%string (toy_base (as_bytes "b")) "b"%string _ _
    eq_refl eq_refl eq_refl eq_refl eq_refl).
Defined.

(** The database as a map. *)
Lemma restart_keeps_identity_witness :
  let put (db : gmap bytes bytes) k v := Some (<[k := v]> db) in
  let get (db : gmap bytes bytes) k := db !! k in
  ensures (calm_with (db_script get ∅ [x01] [x02])) empty_shared (start None None RunServer None ED25519)
    (λ tr o _, ∀ node, o = Returned node → ∃ db', apply_puts put ∅ tr = Some db').
Proof.
  intros put get e n He node Ho.
  destruct (@restart_keeps_identity toy toy_key_laws _ get put ∅ None None RunServer
    ED25519 [x01] [x02] empty_shared) with (e := e) (n := n) (node := node) as (db' & Hdb & _).
  - intros db key v. unfold put. by eexists.
  - intros db db' key v [= <-]. unfold get. apply lookup_insert_eq.
  - exact He.
  - exact Ho.
  - exists db'. exact Hdb.
Defined.

End HostWitnesses.
