(* ===== verification/RelayEvents.v ===== *)
(** * The relay event handler

    src/network/relay_event_handler.rs: the task that reads the relay messages
    of one stream and dispatches them: session set-up, probes, circuit success,
    data, disconnection, and the Noise handshake of the two clients. *)

From S2P Require Import Prelude Proto External State Io Concrete Utils Connection Node.

Section RelayEvents.
Context {EXT : Ext}.

Definition role_is (session : Session) (r : SessionRole) : bool :=
  bool_decide (session_role session = role_i32 r).

(** The acknowledgement of a [SetSessionId] message, sent to its peer. *)
Definition ack_request_to (peer : PeerId) (command_id : string) (res : bool) (data : bytes)
    : NodeRequest :=
  NrAckRequest (mkNodeAckRequest peer (Some (mkAck command_id res data))).

Definition stream_is (w : option WrappedStream) (cur_stream_id : string) : bool :=
  match w with
  | Some w => bool_decide (stream_id w = cur_stream_id)
  | None => false
  end.

(** Does the session use this stream? *)
Definition uses_stream (session : Session) (cur_stream_id : string) : bool :=
  stream_is (early_stream (pair_stream session)) cur_stream_id ||
  stream_is (later_stream (pair_stream session)) cur_stream_id.

Definition handle_relay_probe (sid : string) (stream : WrappedStream) (relay : Relay) : io unit :=
  probe ← unwrap (pb_decode (M := ProbeSignal) (relay_data relay));
  session ← gets (λ s, session_map s !! sid);
  match session with
  | None => mret tt
  | Some session =>
      if role_is session SinkRole then
        contains ← gets (λ s, bool_decide (is_Some (probe_map s !! sid)));
        if contains : bool then
          exist_probe ← gets (λ s, probe_map s !! sid);
          exist_probe ← unwrap exist_probe;
          if decide (rand exist_probe = probe_data probe)
          then send_relay_twoway session (new_relay_circuit_success sid)
          else handle_close_session sid
        else modify (set_probe_map <[sid := mkProbe sid (probe_data probe)]>)
      else if ready session then forward_relay session (stream_id stream) relay
      else mret tt
  end.

Definition handle_success (node : Node) (relay : Relay) (stream : WrappedStream) : io unit :=
  match pb_decode (M := CircuitSuccess) (relay_data relay) with
  | None => mret tt
  | Some relay_success =>
      let sid := csucc_session_id relay_success in
      session ← gets (λ s, session_map s !! sid);
      match session with
      | None => mret tt
      | Some session =>
          if role_is session CallerRole then
            circuit_conn ← gets (λ s, circuit_map s !! sid);
            circuit_conn ← unwrap circuit_conn;
            spawn (TaskHandshake circuit_conn true sid node)
          else if role_is session AnswerRole then
            circuit_conn ← gets (λ s, circuit_map s !! sid);
            circuit_conn ← unwrap circuit_conn;
            spawn (TaskHandshake circuit_conn false sid node)
          else if ready session then forward_relay session (stream_id stream) relay
          else mret tt
      end
  end.

Definition handle_relay_msg (relay : Relay) (stream : WrappedStream) : io unit :=
  match pb_decode (M := RelayMsg) (relay_data relay) with
  | None => mret tt
  | Some relay_msg =>
      let sid := rmsg_session_id relay_msg in
      session ← gets (λ s, session_map s !! sid);
      match session with
      | None => mret tt
      | Some session =>
          if role_is session AnswerRole || role_is session CallerRole then
            circuit_conn_opt ← gets (λ s, circuit_map s !! sid);
            match circuit_conn_opt with
            | Some circuit_conn =>
                call (CircuitSend (in_channel circuit_conn) (rmsg_data relay_msg)) ≫= unwrap_ok
            | None => mret tt
            end
          else if ready session then forward_relay session (stream_id stream) relay
          else mret tt
      end
  end.

Definition handle_set_session (relay_set_session : SetSessionIdMsg) (stream : WrappedStream)
    (relay_id : string) : io unit :=
  let sid := ssid_session_id relay_set_session in
  let ack_request := ack_request_to (remote_peer_id stream) relay_id true [] in
  session ← gets (λ s, session_map s !! sid);
  match session with
  | Some session_v =>
      if role_is session_v EntryRole &&
         bool_decide (ssid_role relay_set_session = role_i32 RelayRole) then
        if ready session_v then
          let new_session := with_later_stream session_v stream in
          modify (set_session_map <[sid := new_session]>);;
          to_close_stream ← unwrap (later_stream (pair_stream session_v));
          write_disconnect_arc to_close_stream sid;;
          ws_close to_close_stream;;
          send_ack ack_request
        else handle_close_session sid
      else
        found ← atomic (λ s,
          match session_map s !! sid with
          | Some session => (set_session_map <[sid := with_later_stream session stream]> s, true)
          | None => (s, false)
          end);
        unwrap_ok found;;
        send_ack ack_request
  | None =>
      let session := mkSession sid (mkPairStream (Some stream) None)
                       (ssid_role relay_set_session) in
      modify (set_session_map <[sid := session]>);;
      send_ack ack_request
  end.

Definition add_circuit_conn (sid : string) (stream : WrappedStream) : io unit :=
  modify (λ s,
    match circuit_map s !! sid with
    | Some _ => s
    | None => set_circuit_map <[sid := fresh_circuit_conn sid stream (next_handle s)]> (bump_handle s)
    end).

(** The branches on the type of a message that was read: the next [session_id]
    of the loop, or the end of the task. *)
Definition relay_dispatch (stream : WrappedStream) (node : Node) (sid_opt : option string)
    (read_relay : Relay) : io (option string + unit) :=
  let ty := relay_type read_relay in
  if decide (ty = relaytype_i32 RtWake) then mret (inl sid_opt)
  else if decide (ty = relaytype_i32 RtAck) then mret (inl sid_opt)
  else if decide (ty = relaytype_i32 RtProbe) then
    sid ← unwrap sid_opt;
    handle_relay_probe sid stream read_relay;;
    mret (inl sid_opt)
  else if decide (ty = relaytype_i32 RtDisconnect) then
    match pb_decode (M := Disconnect) (relay_data read_relay) with
    | Some disconnect => handle_close_session (disc_session_id disconnect)
    | None => mret tt
    end;;
    mret (inr tt)
  else if decide (ty = relaytype_i32 RtSetSessionId) then
    relay_set_session ← unwrap (pb_decode (M := SetSessionIdMsg) (relay_data read_relay));
    let sid := match sid_opt with
               | None => ssid_session_id relay_set_session
               | Some sid => sid
               end in
    (if decide (ssid_role relay_set_session = role_i32 AnswerRole)
     then add_circuit_conn sid stream else mret tt);;
    handle_set_session relay_set_session stream (relay_id read_relay);;
    mret (inl (Some sid))
  else if decide (ty = relaytype_i32 RtSuccess) then
    handle_success node read_relay stream;;
    mret (inl sid_opt)
  else if decide (ty = relaytype_i32 RtData) then
    handle_relay_msg read_relay stream;;
    mret (inl sid_opt)
  else mret (inl sid_opt).

(** What the handler does when the stream cannot be read any more. *)
Definition relay_read_error (stream : WrappedStream) (sid_opt : option string) : io unit :=
  match sid_opt with
  | Some sid =>
      find_stream ← gets (λ s,
        match session_map s !! sid with
        | Some session => uses_stream session (stream_id stream)
        | None => false
        end);
      if find_stream : bool then handle_close_session sid else mret tt
  | None => mret tt
  end.

(** One iteration of the loop. *)
Definition relay_event_step (stream : WrappedStream) (node : Node) (sid_opt : option string)
    : io (option string + unit) :=
  read_relay_option ← read_from_negotiated_arc stream;
  match read_relay_option with
  | Err _ => relay_read_error stream sid_opt;; mret (inr tt)
  | Ok read_relay => relay_dispatch stream node sid_opt read_relay
  end.

Definition relay_event_handler (fuel : nat) (stream : WrappedStream) (node : Node)
    (sid_opt : option string) : io unit :=
  loop (relay_event_step stream node) fuel sid_opt.

(** ** The Noise handshake *)

(** [let mut buf = vec![0u8; 65535]]. *)
Definition handshake_buf_len : nat := Z.to_nat 65535.

(** [handle_read_shake]: the handshake state after the message and its payload;
    [None] is an index panic or a Noise error. *)
Definition handle_read_shake (data : bytes) (noise : HandshakeState)
    : option (HandshakeState * bytes) :=
  payload ← payload_unframe data;
  hs_read_message noise payload handshake_buf_len.

Definition circuit_recv (cc : CircuitConn) : io bytes :=
  call (CircuitRecv (in_channel cc)) ≫= unwrap.

(** The transport state is stored behind a new [Arc] and the connection,
    updated, replaces the one of the map. *)
Definition install_transport (cc : CircuitConn) (t : TransportState) (sid : string) : io unit :=
  h ← atomic (λ s, (set_transports <[next_handle s := t]> (bump_handle s), next_handle s));
  modify (set_circuit_map
    <[sid := mkCircuitConn (cc_id cc) (out_stream cc) (in_channel cc) (Some h)]>).

Definition process_handshake_initiator (circuit_conn : CircuitConn) (sid : string) (node : Node) : io unit :=
  noise_keys ← call (NewNoiseKeys (keypair node)) ≫= unwrap;
  noise ← call (BuildNoise (noise_secret noise_keys) true) ≫= unwrap;
  '(noise, msg) ← unwrap (hs_write_message noise [] handshake_buf_len);
  write_handshake_payload_arc (out_stream circuit_conn) msg (length msg) sid;;
  data ← circuit_recv circuit_conn;
  '(noise, payload) ← unwrap (handle_read_shake data noise);
  pubkey ← unwrap (hs_get_remote_static noise);
  verify_success ← unwrap (handle_remote_handshake_payload payload pubkey);
  let _ : bool := verify_success in
  payload ← unwrap (generate_handshake_payload noise_keys);
  '(noise, msg) ← unwrap (hs_write_message noise payload handshake_buf_len);
  write_handshake_payload_arc (out_stream circuit_conn) msg (length msg) sid;;
  transport ← unwrap (hs_into_transport_mode noise);
  install_transport circuit_conn transport sid.

Definition process_handshake_responder (circuit_conn : CircuitConn) (sid : string) (node : Node) : io unit :=
  noise_keys ← call (NewNoiseKeys (keypair node)) ≫= unwrap;
  _ ← unwrap (noise_identity_signature noise_keys);
  noise ← call (BuildNoise (noise_secret noise_keys) false) ≫= unwrap;
  data ← circuit_recv circuit_conn;
  '(noise, _) ← unwrap (handle_read_shake data noise);
  payload ← unwrap (generate_handshake_payload noise_keys);
  '(noise, msg) ← unwrap (hs_write_message noise payload handshake_buf_len);
  write_handshake_payload_arc (out_stream circuit_conn) msg (length msg) sid;;
  data ← circuit_recv circuit_conn;
  '(noise, payload) ← unwrap (handle_read_shake data noise);
  pubkey ← unwrap (hs_get_remote_static noise);
  verify_success ← unwrap (handle_remote_handshake_payload payload pubkey);
  let _ : bool := verify_success in
  transport ← unwrap (hs_into_transport_mode noise);
  install_transport circuit_conn transport sid.

Definition process_handshake (circuit_conn : CircuitConn) (initiate : bool) (sid : string)
    (node : Node) : io unit :=
  if initiate then process_handshake_initiator circuit_conn sid node
  else process_handshake_responder circuit_conn sid node.

End RelayEvents.

(** * Lemmas *)

Section RelayEventsLemmas.
Context {EXT : Ext}.

Definition disconnect_relay (sid : string) : Relay :=
  mkRelay "" (relaytype_i32 RtDisconnect) (pb_encode (mkDisconnect sid 0)) [].

Lemma write_disconnect_arc_wp w sid s Q :
  (∀ confusion us, confusion_ok (disconnect_relay sid) confusion →
     Q (write_cmds w (disconnect_relay sid) confusion us) (Returned tt) s) →
  wp calm (write_disconnect_arc w sid) s Q.
Proof.
  intros HQ. unfold write_disconnect_arc. apply write_relay_arc_bind.
  intros confusion us Hc. wp_step. rewrite app_nil_r. by apply HQ.
Qed.

(** [sends w r tr]: the observable part of [tr] is one message on [w], which is
    [r] under a new id and some confusion. *)
Definition sends (w : WrappedStream) (r : Relay) (tr : list cmd) : Prop :=
  ∃ confusion, confusion_ok r confusion ∧
    effects tr = [OutSend w (WdData (pb_encode (sealed r confusion)))].

Lemma sends_write_cmds w r confusion us :
  confusion_ok r confusion → sends w r (write_cmds w r confusion us).
Proof. intros Hc. exists confusion. by rewrite effects_write_cmds. Qed.

Lemma effects_close_cmds o : effects (close_cmds o) = close_cmds o.
Proof. destruct o as [[? [[] []] ?]|]; done. Qed.

Lemma effects_twoway_cmds session r : effects (twoway_cmds session r) = twoway_cmds session r.
Proof. unfold twoway_cmds. by destruct (early_stream _), (later_stream _). Qed.

(** The forwarding of [r], received on [cur], in the session [x]. *)
Definition forwards (x : Session) (cur : string) (r : Relay) (tr : list cmd) : Prop :=
  match other_stream x cur with
  | Some w => sends w r tr
  | None => effects tr = []
  end.

Lemma forward_relay_spec (x : Session) (cur : string) (r : Relay) s Q :
  ready x = true →
  (∀ tr, forwards x cur r tr → Q tr (Returned tt) s) →
  wp calm (forward_relay x cur r) s Q.
Proof.
  intros Hready HQ. apply forward_relay_wp; [done|]. unfold forwards in HQ.
  destruct (other_stream x cur); [|by apply HQ].
  intros. by apply HQ, sends_write_cmds.
Qed.

Lemma role_is_true x r : role_is x r = true ↔ session_role x = role_i32 r.
Proof. apply bool_decide_eq_true. Qed.

Lemma role_is_false x r : role_is x r = false ↔ session_role x ≠ role_i32 r.
Proof. apply bool_decide_eq_false. Qed.

(** The state after a handshake: a new transport behind a new handle, which is
    that of the session's connection. *)
Definition installed (cc : CircuitConn) (t : TransportState) (sid : string) (s : Shared) : Shared :=
  set_circuit_map
    <[sid := mkCircuitConn (cc_id cc) (out_stream cc) (in_channel cc) (Some (next_handle s))]>
    (set_transports <[next_handle s := t]> (bump_handle s)).

(** The replies to the initiator: its keys, its Noise state and the responder's
    message. *)
Definition handshake_replies (keys : NoiseKeys) (hs : HandshakeState) (data : bytes) : script :=
  λ c, match c return option (reply c) with
       | NewNoiseKeys _ => Some (Some keys)
       | BuildNoise _ _ => Some (Some hs)
       | CircuitRecv _ => Some (Some data)
       | _ => None
       end.

(** The test of [handle_relay_msg] and [handle_success] for an end of the
    circuit, decided. *)
Lemma client_role_cases x :
  role_is x AnswerRole || role_is x CallerRole =
    bool_decide (session_role x = role_i32 AnswerRole ∨ session_role x = role_i32 CallerRole).
Proof.
  unfold role_is. repeat case_bool_decide; naive_solver.
Qed.

End RelayEventsLemmas.

(** Symbolic execution of a handshake. *)
Ltac handshake_step :=
  first
  [ wp_step
  | wp_unwrap; [|done]
  | lazymatch goal with
    | |- wp _ (io_bind _ (write_handshake_payload_arc _ _ _ _)) _ _ =>
        apply wp_bind_2; apply write_payload_arc_any; [done|intros ?; cbn [after]]
    | |- wp _ (let '(_, _) := ?x in _) _ _ => destruct x
    end ].

Ltac handshake_steps :=
  unfold circuit_recv, install_transport; repeat handshake_step; eauto; done.

(** * Properties *)

Section RelayEventsProperties.
Context {EXT : Ext}.

(** A data message of a session: a client puts the payload on its
    circuit's channel, any other node of the circuit forwards the message, with
    the same type and data, to the other stream of the session, and a node
    without the session, or without its second stream, drops it. *)
Theorem handle_relay_msg_spec (r : Relay) (w : WrappedStream) (s : Shared) :
  ensures calm s (handle_relay_msg r w) (λ tr o s',
    o = Returned tt ∧ s' = s ∧
    match pb_decode (M := RelayMsg) (relay_data r) with
    | None => tr = []
    | Some m =>
        match session_map s !! rmsg_session_id m with
        | None => tr = []
        | Some x =>
            if decide (session_role x = role_i32 AnswerRole ∨ session_role x = role_i32 CallerRole)
            then tr = match circuit_map s !! rmsg_session_id m with
                      | Some cc => [CircuitSend (in_channel cc) (rmsg_data m)]
                      | None => []
                      end
            else if ready x then forwards x (stream_id w) r tr else tr = []
        end
    end).
Proof.
  apply wp_ensures. unfold handle_relay_msg.
  destruct (pb_decode (relay_data r)) as [m|]; [|by wp_steps].
  wp_step. destruct (session_map s !! _) as [x|]; [|by wp_steps].
  rewrite client_role_cases. case_bool.
  - wp_step. destruct (circuit_map s !! _); by wp_steps.
  - destruct (ready x) eqn:Hready; [|by wp_steps].
    by apply forward_relay_spec.
Qed.

(** A probe at the sink is stored when it is the first of its session; a
    second one completes the circuit when it carries the same random bytes
    (success is announced on both streams) and closes the session otherwise.
    Any other node forwards a probe to the other stream of a session that has
    two, and drops it otherwise. *)
Theorem handle_relay_probe_spec (sid : string) (w : WrappedStream) (r : Relay) (p : ProbeSignal)
    (s : Shared) :
  pb_decode (M := ProbeSignal) (relay_data r) = Some p →
  ensures calm s (handle_relay_probe sid w r) (λ tr o s',
    o = Returned tt ∧
    match session_map s !! sid with
    | None => tr = [] ∧ s' = s
    | Some x =>
        if decide (session_role x = role_i32 SinkRole) then
          match probe_map s !! sid with
          | None => tr = [] ∧ s' = set_probe_map <[sid := mkProbe sid (probe_data p)]> s
          | Some q =>
              if decide (rand q = probe_data p)
              then tr = twoway_cmds x (new_relay_circuit_success sid) ∧ s' = s
              else tr = close_cmds (Some x) ∧ s' = closed sid s
          end
        else s' = s ∧ if ready x then forwards x (stream_id w) r tr else tr = []
    end).
Proof.
  intros Hp. apply wp_ensures. unfold handle_relay_probe. rewrite Hp. wp_step.
  destruct (session_map s !! sid) as [x|] eqn:Hx; [|by wp_steps].
  unfold role_is. case_bool.
  - wp_step. destruct (probe_map s !! sid) as [q|] eqn:Hq.
    + rewrite bool_decide_true by eauto. wp_step. rewrite Hq. wp_norm. case_decide.
      * by apply send_relay_twoway_wp.
      * apply handle_close_session_wp. by rewrite Hx.
    + rewrite bool_decide_false by (intros [? ?]; done). by wp_steps.
  - destruct (ready x) eqn:Hready; [|by wp_steps].
    by apply forward_relay_spec.
Qed.

(** When its stream fails, the handler closes its session if the stream is
    still one of the session's two, and otherwise (it was replaced, or the
    session is gone) leaves every session as it is. *)
Theorem relay_read_error_spec (w : WrappedStream) (sid_opt : option string) (s : Shared) :
  ensures calm s (relay_read_error w sid_opt) (λ tr o s',
    o = Returned tt ∧
    match sid_opt ≫= λ sid, (sid,.) <$> session_map s !! sid with
    | Some (sid, x) =>
        if uses_stream x (stream_id w)
        then tr = close_cmds (Some x) ∧ s' = closed sid s
        else tr = [] ∧ s' = s
    | None => tr = [] ∧ s' = s
    end).
Proof.
  apply wp_ensures. unfold relay_read_error. destruct sid_opt as [sid|]; simpl; [|by wp_steps].
  wp_step. destruct (session_map s !! sid) as [x|] eqn:Hx; simpl; [|by wp_steps].
  destruct (uses_stream x _); [|by wp_steps].
  apply handle_close_session_wp. by rewrite Hx.
Qed.

(** A success message starts the Noise handshake at the two ends of the
    circuit, as initiator at the caller and as responder at the answerer, on the
    circuit connection of the session (the task panics when there is none); any
    other node of the circuit forwards it. *)
Theorem handle_success_spec (node : Node) (r : Relay) (w : WrappedStream) (s : Shared) :
  ensures calm s (handle_success node r w) (λ tr o s', s' = s ∧
    match pb_decode (M := CircuitSuccess) (relay_data r) with
    | None => o = Returned tt ∧ tr = []
    | Some m =>
        let sid := csucc_session_id m in
        match session_map s !! sid with
        | None => o = Returned tt ∧ tr = []
        | Some x =>
            if decide (session_role x = role_i32 AnswerRole ∨ session_role x = role_i32 CallerRole)
            then match circuit_map s !! sid with
                 | Some cc => o = Returned tt ∧
                     tr = [Spawn (TaskHandshake cc (role_is x CallerRole) sid node)]
                 | None => o = Panicked ∧ tr = []
                 end
            else o = Returned tt ∧ if ready x then forwards x (stream_id w) r tr else tr = []
        end
    end).
Proof.
  apply wp_ensures. unfold handle_success.
  destruct (pb_decode (relay_data r)) as [m|]; [|by wp_steps].
  wp_step. destruct (session_map s !! _) as [x|]; [|by wp_steps].
  pose proof (client_role_cases x) as Hcases.
  destruct (role_is x CallerRole); [|destruct (role_is x AnswerRole)]; simpl in Hcases;
    rewrite ?orb_true_r in Hcases; symmetry in Hcases.
  1, 2: apply bool_decide_eq_true in Hcases; destruct (decide _); [|contradiction];
    wp_step; destruct (circuit_map s !! _); by wp_steps.
  apply bool_decide_eq_false in Hcases. destruct (decide _); [contradiction|].
  destruct (ready x) eqn:Hready; [|by wp_steps]. by apply forward_relay_spec.
Qed.

(** C22: what a [SetSessionId] message of a peer does.  A new session is made
    with its stream; the stream becomes the later one of a session that exists;
    at an entry that is asked to be the relay too, the stream replaces the later
    one, which is told to disconnect and closed, if the session had both, and
    the session is closed otherwise.  Unless the session is closed, the sender
    is acknowledged under the id of its message. *)
Theorem handle_set_session_spec (m : SetSessionIdMsg) (w : WrappedStream) (id : string) (s : Shared) :
  let sid := ssid_session_id m in
  let ack := SendNodeRequest (ack_request_to (remote_peer_id w) id true []) in
  ensures calm s (handle_set_session m w id) (λ tr o s',
    o = Returned tt ∧
    match session_map s !! sid with
    | None =>
        s' = set_session_map <[sid := mkSession sid (mkPairStream (Some w) None) (ssid_role m)]> s ∧
        tr = [ack]
    | Some x =>
        if decide (session_role x = role_i32 EntryRole ∧ ssid_role m = role_i32 RelayRole) then
          match early_stream (pair_stream x), later_stream (pair_stream x) with
          | Some _, Some old =>
              s' = set_session_map <[sid := with_later_stream x w]> s ∧
              ∃ confusion, confusion_ok (disconnect_relay sid) confusion ∧
                effects tr =
                  [OutSend old (WdData (pb_encode (sealed (disconnect_relay sid) confusion)));
                   OutSend old WdClose; ack]
          | _, _ => s' = closed sid s ∧ tr = close_cmds (Some x)
          end
        else s' = set_session_map <[sid := with_later_stream x w]> s ∧ tr = [ack]
    end).
Proof.
  intros sid ack. apply wp_ensures. unfold handle_set_session, send_ack. fold sid. wp_step.
  destruct (session_map s !! sid) as [x|] eqn:Hx; [|by wp_steps].
  unfold role_is. rewrite <- bool_decide_and. case_bool.
  - unfold ready.
    destruct x as [xid [[e|] [old|]] xr]; cbn [pair_stream early_stream later_stream];
      try (rewrite andb_false_r || rewrite andb_false_l; apply handle_close_session_wp; by rewrite Hx).
    rewrite !bool_decide_true by eauto. simpl andb. wp_step. wp_use write_disconnect_arc_wp.
    intros confusion us Hc. wp_norm. wp_use ws_close_wp. wp_steps.
    split; [done|]. split; [done|]. exists confusion. split; [done|].
    by rewrite !effects_app, effects_write_cmds.
  - wp_step. rewrite Hx. by wp_steps.
Qed.

(** A handshake installs one new transport on the circuit connection of
    its session when it completes, and changes nothing when it fails (a Noise
    error, a malformed frame, a closed channel) or waits; it never loops. *)
Theorem process_handshake_spec (cc : CircuitConn) (initiate : bool) (sid : string) (node : Node)
    (s : Shared) :
  ensures calm s (process_handshake cc initiate sid node) (λ tr o s',
    match o with
    | Returned _ => ∃ t, s' = installed cc t sid s
    | Panicked | Blocked => s' = s
    | Running => False
    end).
Proof.
  apply wp_ensures. unfold process_handshake. destruct initiate.
  - unfold process_handshake_initiator. handshake_steps.
  - unfold process_handshake_responder. handshake_steps.
Qed.

(** C31: the initiator completes the handshake and installs the transport
    whenever the responder's message is a Noise message with an identity payload
    that decodes, whatever the verdict [verified] on the identity's signature of
    the static key. *)
Theorem initiator_completes `{!BytesLaws} (cc : CircuitConn) (sid : string) (node : Node)
    (keys : NoiseKeys) (hs hs1 hs2 hs3 : HandshakeState) (t : TransportState)
    (data m1 payload pubkey mine m2 : bytes) (verified : bool) (s : Shared) :
  hs_write_message hs [] handshake_buf_len = Some (hs1, m1) → 0 < length m1 →
  handle_read_shake data hs1 = Some (hs2, payload) →
  hs_get_remote_static hs2 = Some pubkey →
  handle_remote_handshake_payload payload pubkey = Some verified →
  generate_handshake_payload keys = Some mine →
  hs_write_message hs2 mine handshake_buf_len = Some (hs3, m2) → 0 < length m2 →
  hs_into_transport_mode hs3 = Some t →
  ensures (calm_with (handshake_replies keys hs data)) s (process_handshake cc true sid node)
    (λ tr o s', o = Returned tt ∧ s' = installed cc t sid s).
Proof.
  intros Hw1 Hm1 Hr Hpk Hver Hgen Hw2 Hm2 Ht. apply wp_ensures.
  unfold process_handshake, process_handshake_initiator, circuit_recv, write_handshake_payload_arc.
  wp_step. wp_norm. wp_step. wp_norm. rewrite Hw1. wp_norm.
  apply wp_bind_2, wp_calm_with, write_payload_arc_wp; [done|]. intros c1 us1 relay1 _. wp_norm.
  wp_step. wp_norm. rewrite Hr. wp_norm. rewrite Hpk. wp_norm.
  rewrite Hver. wp_norm. rewrite Hgen. wp_norm. rewrite Hw2. wp_norm.
  apply wp_bind_2, wp_calm_with, write_payload_arc_wp; [done|]. intros c2 us2 relay2 _. wp_norm.
  rewrite Ht. unfold install_transport. by wp_steps.
Qed.

End RelayEventsProperties.

Section RelayEventsWitnesses.
Local Existing Instance toy.

Definition toy_session (role : SessionRole) : Session :=
  mkSession "sid" (mkPairStream (Some (toy_stream "e" "1")) (Some (toy_stream "l" "2"))) (role_i32 role).

Lemma handle_relay_probe_spec_witness :
  let p := mkProbeSignal "sid" [x01] in
  let r := mkRelay "" (relaytype_i32 RtProbe) (pb_encode p) [] in
  let s := set_session_map <["sid"%string := toy_session SinkRole]> empty_shared in
  pb_decode (relay_data r) = Some p ∧
  probe_map (final (run (toy_env no_script) (handle_relay_probe "sid" (toy_stream "e" "1") r) 0 s))
    !! "sid"%string = Some (mkProbe "sid" [x01]).
Proof.
  intros p r s. assert (Hp : pb_decode (relay_data r) = Some p) by reflexivity. split; [exact Hp|].
  destruct (handle_relay_probe_spec "sid" (toy_stream "e" "1") r p s Hp (toy_env no_script) 0
              (toy_env_calm no_script)) as [_ Hs].
  change (session_map s !! "sid"%string) with (Some (toy_session SinkRole)) in Hs. simpl in Hs.
  destruct Hs as [_ ->]. reflexivity.
Defined.

Definition toy_cc : CircuitConn := mkCircuitConn "sid" (toy_stream "e" "1") 7 None.

(** A responder whose payload is not signed by its key: [verified] is false. *)
Lemma initiator_completes_witness :
  let payload := pb_encode (mkNoiseHandshakePayload [x09] [x09] []) in
  let data := be_bytes 2 (Z.of_nat (S (length payload))) ++ x05 :: payload in
  let keys : NoiseKeys := x07 in
  let hs : HandshakeState := mkToyHs true x07 None in
  handle_remote_handshake_payload payload [x05] = Some false ∧
  ensures (calm_with (handshake_replies keys hs data)) empty_shared
    (process_handshake toy_cc true "sid" toy_node)
    (λ tr o s', o = Returned tt ∧ s' = installed toy_cc (0, 0) "sid" empty_shared).
Proof.
  intros payload data keys hs. split; [vm_compute; reflexivity|].
  eapply (@initiator_completes toy toy_bytes_laws toy_cc "sid" toy_node keys hs
           hs (mkToyHs true x07 (Some x05)) (mkToyHs true x07 (Some x05)) (0, 0) data [x07] payload
           [x05] _ _ false empty_shared); try reflexivity; vm_compute; try reflexivity; lia.
Defined.

End RelayEventsWitnesses.
