(* ===== verification/Typing.v ===== *)
(** * Types of relay messages

    A relay message says its type and carries the encoding of a message of that
    type (src/relay.proto); [well_typed] is that agreement.  A handler that is
    given a well-typed message does not panic ([typed_handled]), and no program of
    a node puts anything else on a stream ([System.reachable_typed]): what a node
    forwards it has decoded before.  In a network the two meet
    ([Authenticity.frames_handled]). *)

From S2P Require Import Prelude Proto External State Io Concrete Utils Connection Node RelayEvents.

Section Typing.
Context {EXT : Ext}.

(** The typing rules. *)
Inductive well_typed (r : Relay) : Prop :=
| typed_wake : relay_type r = relaytype_i32 RtWake → relay_data r = [] → well_typed r
| typed_set_session (x : SetSessionIdMsg) :
    relay_type r = relaytype_i32 RtSetSessionId → pb_decode (relay_data r) = Some x → well_typed r
| typed_data (x : RelayMsg) :
    relay_type r = relaytype_i32 RtData → pb_decode (relay_data r) = Some x → well_typed r
| typed_probe (x : ProbeSignal) :
    relay_type r = relaytype_i32 RtProbe → pb_decode (relay_data r) = Some x → well_typed r
| typed_success (x : CircuitSuccess) :
    relay_type r = relaytype_i32 RtSuccess → pb_decode (relay_data r) = Some x → well_typed r
| typed_disconnect (x : Disconnect) :
    relay_type r = relaytype_i32 RtDisconnect → pb_decode (relay_data r) = Some x → well_typed r.

(** The bytes on a stream are a well-typed message. *)
Definition typed_frame (d : bytes) : Prop := ∃ r, pb_decode d = Some r ∧ well_typed r.

(** The same on what a program writes, before it is decoded: a message it has
    made is typed by its construction, one it forwards has been decoded. *)
Inductive writes_type (r : Relay) : Prop :=
| writes_typed : well_typed r → writes_type r
| writes_wake : relay_type r = relaytype_i32 RtWake → relay_data r = [] → writes_type r
| writes_set_session (x : SetSessionIdMsg) :
    relay_type r = relaytype_i32 RtSetSessionId → relay_data r = pb_encode x → writes_type r
| writes_data (x : RelayMsg) :
    relay_type r = relaytype_i32 RtData → relay_data r = pb_encode x → writes_type r
| writes_probe (x : ProbeSignal) :
    relay_type r = relaytype_i32 RtProbe → relay_data r = pb_encode x → writes_type r
| writes_success (x : CircuitSuccess) :
    relay_type r = relaytype_i32 RtSuccess → relay_data r = pb_encode x → writes_type r
| writes_disconnect (x : Disconnect) :
    relay_type r = relaytype_i32 RtDisconnect → relay_data r = pb_encode x → writes_type r.

Definition writes_frame (d : bytes) : Prop := ∃ r, d = pb_encode r ∧ writes_type r.

(** ** Lemmas *)

Lemma writes_well_typed `{!CodecLaws} r : writes_type r → well_typed r.
Proof.
  destruct 1 as [|? ?|x Hty Hd|x Hty Hd|x Hty Hd|x Hty Hd|x Hty Hd]; [done|by apply typed_wake|..];
    [eapply typed_set_session|eapply typed_data|eapply typed_probe|eapply typed_success|eapply typed_disconnect];
    try done; rewrite Hd; apply pb_decode_encode.
Qed.

Lemma writes_typed_frame `{!CodecLaws} d : writes_frame d → typed_frame d.
Proof. intros (r & -> & Hr). exists r. by rewrite pb_decode_encode; auto using writes_well_typed. Qed.

(** The typing depends on the type and the data only. *)
Lemma writes_type_same r r' :
  relay_type r' = relay_type r → relay_data r' = relay_data r → writes_type r → writes_type r'.
Proof.
  intros Hty Hd. destruct 1 as [Hr|? ?|x ? ?|x ? ?|x ? ?|x ? ?|x ? ?].
  - apply writes_typed. destruct Hr as [? ?|x ? ?|x ? ?|x ? ?|x ? ?|x ? ?];
      [apply typed_wake|apply (typed_set_session _ x)|apply (typed_data _ x)|apply (typed_probe _ x)|
       apply (typed_success _ x)|apply (typed_disconnect _ x)]; congruence.
  - apply writes_wake; congruence.
  - apply (writes_set_session _ x); congruence.
  - apply (writes_data _ x); congruence.
  - apply (writes_probe _ x); congruence.
  - apply (writes_success _ x); congruence.
  - apply (writes_disconnect _ x); congruence.
Qed.

Lemma writes_sealed r k c :
  writes_type r → writes_frame (pb_encode (mkRelay k (relay_type r) (relay_data r) c)).
Proof. intros Hr. eexists. split; [done|]. by eapply writes_type_same; [| |exact Hr]. Qed.

(** The messages the program makes. *)
Lemma writes_data_relay sid d : writes_type (data_relay sid d).
Proof. by eapply writes_data. Qed.
Lemma writes_set_session_relay sid role : writes_type (set_session_relay sid role).
Proof. by eapply writes_set_session. Qed.
Lemma writes_probe_relay sid : writes_type (new_relay_probe sid).
Proof. by eapply writes_probe. Qed.
Lemma writes_success_relay sid : writes_type (new_relay_circuit_success sid).
Proof. by eapply writes_success. Qed.

Lemma writes_wake_relay : writes_type (mkRelay "" (relaytype_i32 RtWake) [] []).
Proof. by apply writes_wake. Qed.
Lemma writes_disconnect_relay sid : writes_type (disconnect_relay sid).
Proof. by eapply writes_disconnect. Qed.

(** ** Progress *)

Definition returns_always {A} (p : io A) (s : Shared) : Prop :=
  wp calm p s (λ _ o _, ∃ a, o = Returned a).

(** The ends of the session of a success message have its circuit. *)
Definition success_expected (r : Relay) (s : Shared) : Prop :=
  ∀ m x, relay_type r = relaytype_i32 RtSuccess → pb_decode (relay_data r) = Some m →
    session_map s !! csucc_session_id m = Some x →
    session_role x = role_i32 AnswerRole ∨ session_role x = role_i32 CallerRole →
    is_Some (circuit_map s !! csucc_session_id m).

(** The handler goes on, its session set if it was or if the message sets it, or
    ends on a disconnect. *)
Definition handled (sid_opt : option string) (ty : Z) (o : outcome (option string + unit)) : Prop :=
  match o with
  | Returned (inl sid_opt') => is_Some sid_opt ∨ ty = relaytype_i32 RtSetSessionId → is_Some sid_opt'
  | Returned (inr _) => ty = relaytype_i32 RtDisconnect
  | _ => False
  end.

Lemma forward_relay_returns x cur r s : ready x = true → returns_always (forward_relay x cur r) s.
Proof. intros Hready. apply forward_relay_spec; eauto. Qed.

Lemma close_returns sid s : returns_always (handle_close_session sid) s.
Proof. apply handle_close_session_wp. destruct (session_map s !! sid); eauto. Qed.

Lemma probe_returns sid w r (p : ProbeSignal) s :
  pb_decode (relay_data r) = Some p → returns_always (handle_relay_probe sid w r) s.
Proof.
  intros Hp. unfold returns_always, handle_relay_probe. rewrite Hp. wp_norm. wp_step.
  destruct (session_map s !! sid) as [x|]; [|wp_steps; eauto].
  destruct (role_is x SinkRole).
  - wp_step. case_bool_decide as Hq; [|wp_steps; eauto]. destruct Hq as [q Hq]. wp_step. rewrite Hq. wp_norm.
    case_decide; [apply send_relay_twoway_wp; eauto|apply close_returns].
  - destruct (ready x) eqn:Hready; [by apply forward_relay_returns|wp_steps; eauto].
Qed.

Lemma success_returns node r w s :
  relay_type r = relaytype_i32 RtSuccess → success_expected r s → returns_always (handle_success node r w) s.
Proof.
  intros Hty Hexp. unfold returns_always, handle_success.
  destruct (pb_decode (relay_data r)) as [m|] eqn:Hm; [|wp_steps; eauto].
  wp_step. destruct (session_map s !! _) as [x|] eqn:Hx; [|wp_steps; eauto].
  pose proof (λ Hrole, Hexp m x Hty Hm Hx Hrole) as Hcc.
  destruct (role_is x CallerRole) eqn:Hcall; [|destruct (role_is x AnswerRole) eqn:Hans].
  1, 2: apply role_is_true in Hcall || apply role_is_true in Hans;
    wp_step; destruct Hcc as [cc ->]; [by auto|]; wp_steps; eauto.
  destruct (ready x) eqn:Hready; [by apply forward_relay_returns|wp_steps; eauto].
Qed.

Lemma relay_msg_returns r w s : returns_always (handle_relay_msg r w) s.
Proof.
  unfold returns_always, handle_relay_msg. destruct (pb_decode (relay_data r)) as [m|]; [|wp_steps; eauto].
  wp_step. destruct (session_map s !! _) as [x|]; [|wp_steps; eauto].
  destruct (_ || _).
  - wp_step. destruct (circuit_map s !! _); wp_steps; eauto.
  - destruct (ready x) eqn:Hready; [by apply forward_relay_returns|wp_steps; eauto].
Qed.

Lemma set_session_returns m w id s : returns_always (handle_set_session m w id) s.
Proof.
  unfold returns_always, handle_set_session, send_ack. wp_step.
  destruct (session_map s !! _) as [x|] eqn:Hx; [|wp_steps; eauto].
  destruct (_ && _).
  - destruct (ready x) eqn:Hready; [|apply close_returns].
    apply ready_true in Hready as (e & l & _ & Hl). wp_step. rewrite Hl. wp_norm.
    wp_use write_disconnect_arc_wp. intros conf us _. cbn [after]. wp_norm. wp_use ws_close_wp. wp_steps. eauto.
  - wp_step. rewrite Hx. wp_steps. eauto.
Qed.

(** The handler of a stream deals with every well-typed message: whatever the
    state of the node, it neither panics nor waits, and the stream's session is set
    after a [SetSessionId].  What it expects of the sender is that a probe comes
    after the [SetSessionId] message of its stream and a success after the circuit
    was made. *)
Lemma typed_handled (w : WrappedStream) (node : Node) (sid_opt : option string) (r : Relay)
    (s : Shared) :
  well_typed r →
  (relay_type r = relaytype_i32 RtProbe → is_Some sid_opt) → success_expected r s →
  ensures calm s (relay_dispatch w node sid_opt r) (λ _ o _,
    handled sid_opt (relay_type r) o).
Proof.
  intros Hr Hprobe Hsucc. apply wp_ensures. unfold relay_dispatch.
  assert (Hret : ∀ (p : io unit) (k : io (option string + unit)) Q, returns_always p s →
    (∀ tr s', wp calm k s' (λ tr', Q (tr ++ tr'))) → wp calm (p;; k) s Q).
  { intros p k Q Hp Hk. apply wp_bind_2. eapply wp_mono; [|exact Hp]. intros tr o s' [[] ->]. apply Hk. }
  destruct Hr as [Hty _|m Hty Hm|m Hty Hm|m Hty Hm|m Hty Hm|m Hty Hm]; rewrite Hty in *;
    repeat rewrite decide_False by done; rewrite decide_True by done.
  - wp_step. by intros [?|?].
  - rewrite Hm. wp_norm.
    assert (Hset : ∀ s' sid, wp calm (handle_set_session m w (relay_id r);; mret (inl (Some sid))) s'
      (λ _ o _, handled sid_opt (relaytype_i32 RtSetSessionId) o)).
    { intros s' sid. apply wp_bind_2. eapply wp_mono; [|apply set_session_returns].
      intros tr o s'' [[] ->]. cbn [after]. wp_step. by eexists. }
    case_decide; [unfold add_circuit_conn; wp_step|]; apply Hset.
  - apply Hret; [apply relay_msg_returns|]. intros tr s'. wp_step. by intros [?|?].
  - destruct Hprobe as [sid ->]; [done|]. wp_norm. apply Hret; [by eapply probe_returns|].
    intros tr s'. wp_step. by eexists.
  - apply Hret; [by apply success_returns|]. intros tr s'. wp_step. by intros [?|?].
  - rewrite Hm. apply Hret; [apply close_returns|]. intros tr s'. by wp_step.
Qed.

(** The two ways in which a well-typed message is more than its handler can take: a
    probe before any [SetSessionId] of its stream, and a success at an end of the
    circuit that has not made it yet. *)
Inductive out_of_order (sid_opt : option string) (r : Relay) (s : Shared) : Prop :=
| early_probe : relay_type r = relaytype_i32 RtProbe → sid_opt = None → out_of_order sid_opt r s
| early_success m x :
    relay_type r = relaytype_i32 RtSuccess → pb_decode (relay_data r) = Some m →
    session_map s !! csucc_session_id m = Some x →
    session_role x = role_i32 AnswerRole ∨ session_role x = role_i32 CallerRole →
    circuit_map s !! csucc_session_id m = None → out_of_order sid_opt r s.

(** It panics on these, and on no other. *)
Lemma out_of_order_panics w node sid_opt r s :
  out_of_order sid_opt r s → ensures calm s (relay_dispatch w node sid_opt r) (λ _ o _, o = Panicked).
Proof.
  intros Hr. apply wp_ensures. unfold relay_dispatch.
  destruct Hr as [Hty ->|m x Hty Hm Hx Hrole Hcc]; rewrite Hty;
    repeat rewrite decide_False by done; rewrite decide_True by done; [by wp_steps|].
  apply wp_bind_2. unfold handle_success. rewrite Hm. wp_step. rewrite Hx.
  destruct (role_is x CallerRole) eqn:Hcall; [|destruct (role_is x AnswerRole) eqn:Hans].
  1, 2: wp_step; rewrite Hcc; by wp_step.
  apply role_is_false in Hcall, Hans. by destruct Hrole.
Qed.

Lemma in_order_handled w node sid_opt r s :
  well_typed r → ¬ out_of_order sid_opt r s →
  ensures calm s (relay_dispatch w node sid_opt r) (λ _ o _, handled sid_opt (relay_type r) o).
Proof.
  intros Hr Hno. apply typed_handled; [done|..].
  - intros Hty. destruct sid_opt as [sid|]; [by eexists|]. by destruct Hno; apply early_probe.
  - intros m x Hty Hm Hx Hrole. destruct (circuit_map s !! _) as [cc|] eqn:Hcc; [by eexists|].
    destruct Hno. by eapply early_success.
Qed.

End Typing.

Create HintDb typing.
#[export] Hint Resolve writes_sealed writes_data_relay writes_set_session_relay writes_probe_relay
  writes_success_relay writes_wake_relay writes_disconnect_relay : typing keeps.
