(* ===== verification/Proxy.v ===== *)
(** * The proxy event handler

    src/network/proxy_event_handler.rs: the requests of clients to their proxy
    node and of nodes to their clients (registration, peer lists, encryption and
    decryption of negotiations), and the construction of a circuit at the entry
    node. *)

From S2P Require Import Prelude Proto External State Io Packing Concrete Utils Connection Account Node RelayEvents.

Section Proxy.
Context {EXT : Ext}.

(** One pass over the node infos, from [index]: the first peer that is not
    known invalid, not this node, not [other] and not the bootstrap, and that is
    not a client registered here whose hash hashes to [dest], becomes the
    result; without one the previous choice [cur] stays.  The entry node's loop
    here and the access node's in publish_event_handler.rs have this body. *)
Fixpoint pick_peer (node : Node) (nodeinfos : list NodeInfo) (invalid : gmap string bool)
    (other dest : string) (n : nat) (index : Z) (cur : PeerId) : io PeerId :=
  match n with
  | O => mret cur
  | S n' =>
      let index := usize_add index 1 in
      let index := (index mod Z.of_nat (length nodeinfos))%Z in
      info ← unwrap (nodeinfos !! Z.to_nat index);
      let id := ni_id info in
      bootstrap_peer_id ← match boot_peer_id node with
                          | Some p => mret p
                          | None => call RandomPeerId
                          end;
      if bool_decide (invalid !! id = None) && bool_decide (id ≠ get_id node) &&
         bool_decide (id ≠ other) && bool_decide (id ≠ to_base58 bootstrap_peer_id) then
        remote_hash ← gets (λ s, client_peer_map s !! id);
        differs ← match remote_hash with
                  | None => mret true
                  | Some h => hh ← unwrap (from_whitenoise_to_hash h); mret (bool_decide (hh ≠ dest))
                  end;
        if differs : bool then unwrap (peer_id_of_string id)
        else pick_peer node nodeinfos invalid other dest n' index cur
      else pick_peer node nodeinfos invalid other dest n' index cur
  end.

(** The three tries: a peer is picked and a session opened to it; a peer that
    does not answer is remembered as invalid.  [None] after the last one. *)
Fixpoint try_peers (node : Node) (nodeinfos : list NodeInfo) (other dest sid : string)
    (my_role other_role : SessionRole) (tries : nat) (invalid : gmap string bool)
    (cur : PeerId) : io (option PeerId) :=
  match tries with
  | O => mret None
  | S tries' =>
      index ← call RandomUsize;
      cur ← pick_peer node nodeinfos invalid other dest (length nodeinfos) index cur;
      wraped_stream_opt ← new_session_to_peer node cur sid my_role other_role;
      match wraped_stream_opt with
      | None => try_peers node nodeinfos other dest sid my_role other_role tries'
                  (<[to_base58 cur := true]> invalid) cur
      | Some _ => mret (Some cur)
      end
  end.

(** [GetMainNets] with a fresh oneshot; [None] is a dropped sender. *)
Definition request_main_nets (command_id : string) (peer : PeerId) (num : Z)
    : io (option (list NodeInfo)) :=
  rx ← new_channel;
  send_node_request (NrGetMainNetsRequest command_id peer num rx);;
  call (AwaitPeers rx).

(** The rest of [handle_new_circuit] once [join] is the sink of the session: the
    caller encrypts the negotiation, which is published, and the probe goes out. *)
Definition circuit_negotiation (node : Node) (remote : PeerId) (new_circuit : NewCircuit)
    (join : PeerId) : io bool :=
  let sid := nc_session_id new_circuit in
  let neg := mkNegotiate (to_base58 join) sid (nc_to new_circuit) [] in
  let neg_plain := mkNegPlaintext sid (pb_encode neg) in
  let neg_request := identified_request (get_id node) (reqtype_i32 RqNegPlainText)
                       (pb_encode neg_plain) in
  ack ← external_send_node_request_and_wait (req_req_id neg_request)
          (NrProxyRequest (mkNodeProxyRequest remote (Some neg_request) None));
  let encrypted_neg := mkEncryptedNeg (nc_to new_circuit) (ack_data ack) in
  rx ← new_channel;
  send_node_request (NrPublishData (pb_encode encrypted_neg) rx);;
  published ← call (AwaitBool rx);
  _ ← unwrap published;
  session_opt ← gets (λ s, session_map s !! sid);
  match session_opt with
  | None => mret false
  | Some session => send_relay_twoway session (new_relay_probe sid);; mret true
  end.

(** The answerer is a client of this node, which is the access node too. *)
Definition circuit_to_client (node : Node) (new_circuit : NewCircuit) (to_client_info : ClientInfo)
    : io bool :=
  let sid := nc_session_id new_circuit in
  wraped_stream_opt ← new_session_to_peer node (peer_id to_client_info) sid AccessRole AnswerRole;
  match wraped_stream_opt with
  | None => mret false
  | Some _ =>
      new_session_opt ← gets (λ s, session_map s !! sid);
      match new_session_opt with
      | Some new_session => send_relay_twoway new_session (new_relay_circuit_success sid)
      | None => mret tt
      end;;
      mret true
  end.

(** It is not: this node is only the entry node, and finds a sink. *)
Definition circuit_to_sink (node : Node) (request : Request) (remote : PeerId)
    (new_circuit : NewCircuit) : io bool :=
  let sid := nc_session_id new_circuit in
  nodeinfos_res ← request_main_nets (req_req_id request) remote 100;
  match nodeinfos_res with
  | None => mret false
  | Some nodeinfos =>
      join0 ← call RandomPeerId;
      join ← try_peers node nodeinfos (to_base58 remote) (nc_to new_circuit) sid
               EntryRole SinkRole 3 ∅ join0;
      match join with
      | None => handle_close_session sid;; mret false
      | Some join => circuit_negotiation node remote new_circuit join
      end
  end.

Definition handle_new_circuit (node : Node) (request : Request) (remote : PeerId) : io bool :=
  match pb_decode (M := NewCircuit) (req_data request) with
  | None => mret false
  | Some new_circuit =>
      let sid := nc_session_id new_circuit in
      from_client ← gets (λ s, client_wn_map s !! nc_from new_circuit);
      if bool_decide (from_client = None) then mret false else
      empty_or_full_check ← gets (λ s,
        (λ session, negb (ready session)) <$> session_map s !! sid);
      if negb (default false empty_or_full_check) then mret false else
      to_client_info_opt ← gets (λ s, client_wn_map s !! nc_to new_circuit);
      match to_client_info_opt with
      | Some to_client_info => circuit_to_client node new_circuit to_client_info
      | None => circuit_to_sink node request remote new_circuit
      end
  end.

(** Removing a client of this node, by its peer id. *)
Definition unregister_peer (peer : PeerId) : io unit :=
  hash_option ← atomic (λ s,
    (set_client_peer (delete (to_base58 peer)) s, client_peer_map s !! to_base58 peer));
  match hash_option with
  | Some hash => modify (set_client_wn (delete hash))
  | None => mret tt
  end.

Definition handle_decrypt_gossip (node : Node) (request : Request) (peer : PeerId) : io unit :=
  decrypt ← unwrap (pb_decode (M := Decrypt) (req_data request));
  plain_text ← match keypair node with
               | Ed25519 _ =>
                   res ← unwrap (ecies_ed25519_decrypt (keypair node) (decr_cypher decrypt));
                   unwrap res
               | Secp256k1 _ =>
                   res ← unwrap (ecies_decrypt (keypair node) (decr_cypher decrypt));
                   unwrap res
               | RsaKey _ => Panic
               end;
  match pb_decode (M := Negotiate) plain_text with
  | Some _ => send_node_request (ack_request_to peer (req_req_id request) true plain_text)
  | None => mret tt
  end.

Definition handle_neg_plaintext (request : Request) (peer : PeerId) : io unit :=
  neg_plaintext ← unwrap (pb_decode (M := NegPlaintext) (req_data request));
  pub_bytes ← gets (λ s, circuit_task s !! negp_session_id neg_plaintext);
  pub_bytes ← unwrap pub_bytes;
  b0 ← unwrap (head pub_bytes);
  seed ← call Csprng;
  crypted_text ←
    (if decide (u8_Z b0 = 48%Z)
     then unwrap (ecies_ed25519_encrypt (drop 1 pub_bytes) (negp_neg neg_plaintext) seed)
     else unwrap (ecies_encrypt (drop 1 pub_bytes) (negp_neg neg_plaintext) seed));
  send_node_request (ack_request_to peer (req_req_id request) true crypted_text).

Definition handle_main_net_peers (request : Request) (peer : PeerId) : io unit :=
  get_mainnets_request ← unwrap (pb_decode (M := MainNetPeers) (req_data request));
  nodeinfos_res ← request_main_nets (req_req_id request) peer (mnp_max get_mainnets_request);
  match nodeinfos_res with
  | Some nodeinfos =>
      send_ack (ack_request_to peer (req_req_id request) true (pb_encode (mkPeersList nodeinfos)))
  | None => send_ack (ack_request_to peer (req_req_id request) false [])
  end.

Definition handle_new_proxy (request : Request) (peer : PeerId) : io unit :=
  new_proxy ← unwrap (pb_decode (M := NewProxy) (req_data request));
  hash ← unwrap (from_whitenoise_to_hash (np_white_noise_id new_proxy));
  find ← gets (λ s, bool_decide (is_Some (client_wn_map s !! hash)));
  if find : bool then
    send_node_request (ack_request_to peer (req_req_id request) false (as_bytes "Proxy already"))
  else
    modify (set_client_peer <[to_base58 peer := hash]>);;
    let client_info := mkClientInfo (np_white_noise_id new_proxy) peer 1 3600 in
    modify (set_client_wn <[hash := client_info]>);;
    send_node_request (ack_request_to peer (req_req_id request) true []).

(** One request of the channel. *)
Definition handle_proxy_request (node : Node) (npr : NodeProxyRequest) : io unit :=
  match peer_operation npr with
  | Some PoDisconnect => unregister_peer (npr_peer npr)
  | None =>
      request ← unwrap (proxy_request npr);
      let ty := req_reqtype request in
      if decide (ty = reqtype_i32 RqDecryptGossip) then
        handle_decrypt_gossip node request (npr_peer npr)
      else if decide (ty = reqtype_i32 RqNegPlainText) then
        handle_neg_plaintext request (npr_peer npr)
      else if decide (ty = reqtype_i32 RqMainNetPeers) then
        handle_main_net_peers request (npr_peer npr)
      else if decide (ty = reqtype_i32 RqNewProxy) then
        handle_new_proxy request (npr_peer npr)
      else if decide (ty = reqtype_i32 RqUnRegisterType) then
        unregister_peer (npr_peer npr)
      else if decide (ty = reqtype_i32 RqNewCircuit) then
        res ← handle_new_circuit node request (npr_peer npr);
        send_node_request (ack_request_to (npr_peer npr) (req_req_id request) res [])
      else mret tt
  end.

Definition process_proxy_request (fuel : nat) (node : Node) : io unit :=
  loop (λ _ : unit,
    proxy_request_option ← call RecvProxy;
    match proxy_request_option with
    | Some npr => handle_proxy_request node npr;; mret (inl tt)
    | None => mret (inr tt)
    end) fuel tt.

End Proxy.

(** * Lemmas *)

Section ProxyLemmas.
Context {EXT : Ext}.

(** A node info the loop accepts in state [s], for a node whose bootstrap is
    [boot].  The last condition is meant to keep out the peer of the destination's
    client, but it hashes what [client_peer_map] holds, which is a hash already, and
    compares the hash of a hash with [dest], as the code does. *)
Definition eligible (node : Node) (boot : PeerId) (invalid : gmap string bool) (other dest : string)
    (s : Shared) (info : NodeInfo) : Prop :=
  let id := ni_id info in
  invalid !! id = None ∧ id ≠ get_id node ∧ id ≠ other ∧ id ≠ to_base58 boot ∧
  client_peer_map s !! id ≫= from_whitenoise_to_hash ≠ Some dest.

#[export] Instance eligible_dec node boot invalid other dest s info :
  Decision (eligible node boot invalid other dest s info).
Proof. unfold eligible. apply _. Defined.

(** The infos in the order the loop visits them from a random [index]. *)
Definition visit_order (infos : list NodeInfo) (index : Z) : list NodeInfo :=
  let start := Z.to_nat (usize_add index 1 mod Z.of_nat (length infos)) in
  drop start infos ++ take start infos.

Lemma rotation_lookup {A} (l : list A) (start j : nat) :
  start < length l → j < length l →
  (drop start l ++ take start l) !! j = l !! ((start + j) mod length l).
Proof.
  intros Hs Hj. destruct (decide (start + j < length l)) as [Hlt|Hge].
  - rewrite lookup_app_l by (rewrite length_drop; lia).
    by rewrite lookup_drop, Nat.mod_small by lia.
  - rewrite lookup_app_r by (rewrite length_drop; lia). rewrite length_drop.
    replace ((start + j) mod length l) with (j - (length l - start)).
    + rewrite lookup_take. by rewrite decide_True by lia.
    + apply (Nat.mod_unique _ _ 1); lia.
Qed.

Context (node : Node) (boot : PeerId) (invalid : gmap string bool) (other dest : string) (s : Shared).
Hypothesis Hboot : boot_peer_id node = Some boot.
(** The ids of the network are peer ids, and the registry holds hashes that
    hash again (they are base58 themselves). *)
Hypothesis Hhash : ∀ id h, client_peer_map s !! id = Some h → is_Some (from_whitenoise_to_hash h).

(** One visit. *)
Lemma pick_peer_visit infos n index cur info Q :
  infos !! Z.to_nat (usize_add index 1 mod Z.of_nat (length infos)) = Some info →
  (eligible node boot invalid other dest s info → ∃ p, peer_id_of_string (ni_id info) = Some p ∧
     Q [] (Returned p) s) →
  (¬ eligible node boot invalid other dest s info →
     wp calm (pick_peer node infos invalid other dest n
                (usize_add index 1 mod Z.of_nat (length infos)) cur) s Q) →
  wp calm (pick_peer node infos invalid other dest (S n) index cur) s Q.
Proof.
  intros Hinfo Hyes Hno. cbn [pick_peer]. rewrite Hinfo. wp_norm. rewrite Hboot. wp_norm.
  unfold eligible in *. set (id := ni_id info) in *.
  destruct (bool_decide (invalid !! id = None) && bool_decide (id ≠ get_id node) &&
            bool_decide (id ≠ other) && bool_decide (id ≠ to_base58 boot)) eqn:Htest.
  - rewrite !andb_true_iff, !bool_decide_eq_true in Htest. destruct Htest as [[[H1 H2] H3] H4].
    wp_step. destruct (client_peer_map s !! id) as [h|] eqn:Hh; simpl in *.
    + destruct (Hhash id h Hh) as [hh Hhh]. rewrite Hhh in *. wp_norm. case_bool_decide as Hd.
      * destruct Hyes as (p & -> & HQ); [by split_and!; try congruence|]. wp_norm. by wp_ret.
      * apply Hno. intros (_ & _ & _ & _ & He). apply He. congruence.
    + wp_norm. destruct Hyes as (p & -> & HQ); [by split_and!|]. wp_norm. by wp_ret.
  - apply Hno. intros (H1 & H2 & H3 & H4 & _).
    by rewrite !bool_decide_true in Htest.
Qed.

(** The visits of the loop, from any point on. *)
Lemma pick_peer_wp infos l : ∀ index cur Q,
  (Z.of_nat (length infos) < usize_max)%Z →
  (∀ j info, l !! j = Some info →
     infos !! Z.to_nat ((usize_add index 1 + Z.of_nat j) mod Z.of_nat (length infos)) = Some info) →
  Forall (λ info, is_Some (peer_id_of_string (ni_id info))) l →
  (∀ p, match list_find (eligible node boot invalid other dest s) l with
        | Some (_, info) => peer_id_of_string (ni_id info) = Some p
        | None => p = cur
        end → Q [] (Returned p) s) →
  wp calm (pick_peer node infos invalid other dest (length l) index cur) s Q.
Proof.
  induction l as [|info l IH]; intros index cur Q Hsize Hl Hids HQ.
  - cbn [length pick_peer]. wp_norm. wp_ret. by apply HQ.
  - pose proof (Hl 0 info eq_refl) as Hinfo. rewrite Z.add_0_r in Hinfo.
    apply Forall_cons_1 in Hids as [[p Hp] Hids].
    assert (Hpos : 0 < length infos) by (apply lookup_lt_Some in Hinfo; lia).
    apply (pick_peer_visit _ _ _ _ info); [done| |].
    + intros Hel. exists p. split; [done|]. apply HQ. cbn [list_find]. by rewrite decide_True.
    + intros Hnel. apply IH; [done| |done|].
      * intros j x Hj. rewrite <- (Hl (S j) x Hj). do 2 f_equal.
        pose proof (Z.mod_pos_bound (usize_add index 1) (Z.of_nat (length infos)) ltac:(lia)) as Hb.
        unfold usize_add at 1. rewrite (Z.mod_small _ usize_max) by lia.
        rewrite <- Z.add_assoc, Zplus_mod_idemp_l. f_equal. lia.
      * intros q Hq. apply HQ. cbn [list_find]. rewrite decide_False by done.
        by destruct (list_find _ l) as [[i y]|].
Qed.

End ProxyLemmas.

(** The target a caller keeps for a dialled identity is its key. *)
Lemma composit_of_key {EXT : Ext} `{!Base58Laws} k id composit :
  from_keypair_to_whitenoise_id k = Some id → composit_bytes id = Some composit →
  ∃ b pub, id_key k = Some (b, pub) ∧ composit = b :: pub.
Proof.
  intros Hid Hcomp. destruct (split_whitenoise_id k id Hid) as (b & pub & Hkey & Hsplit).
  exists b, pub. split; [done|]. unfold composit_bytes in Hcomp. rewrite Hsplit in Hcomp.
  simpl in Hcomp. rewrite bs58_decode_encode in Hcomp. simpl in Hcomp. congruence.
Qed.

(** ** The encryption of a negotiation *)

(** What the task of a client with this key pair makes of a ciphertext. *)
Definition decrypts_to {EXT : Ext} (k : Keypair) (c plain : bytes) : Prop :=
  match k with
  | Ed25519 _ => ecies_ed25519_decrypt k c = Some (Some plain)
  | Secp256k1 _ => ecies_decrypt k c = Some (Some plain)
  | RsaKey _ => False
  end.

(** The caller's node encrypts to the dialled identity. *)
Lemma neg_plaintext_wp {EXT : Ext} `{!Base58Laws, !EciesLaws, !EdEciesLaws} k remote composit r peer
    (neg : NegPlaintext) s Q :
  from_keypair_to_whitenoise_id k = Some remote → composit_bytes remote = Some composit →
  circuit_task s !! negp_session_id neg = Some composit → pb_decode (req_data r) = Some neg →
  (∀ c, decrypts_to k c (negp_neg neg) →
     Q [Csprng; SendNodeRequest (ack_request_to peer (req_req_id r) true c)] (Returned tt) s) →
  wp calm (handle_neg_plaintext r peer) s Q.
Proof.
  intros Hid Hcomp Htask Hneg HQ. apply composit_of_key with (k := k) in Hcomp; [|done].
  unfold handle_neg_plaintext. rewrite Hneg. wp_norm. wp_step. rewrite Htask. wp_norm.
  destruct Hcomp as (b & pub & Hkey & ->).
  change (head (b :: pub)) with (Some b). change (drop 1 (b :: pub)) with pub.
  wp_norm. wp_step. rename r0 into seed.
  pose proof (ecies_decrypts_key k (negp_neg neg) seed) as Hecies.
  destruct k as [e|p|]; simpl in Hkey; [| |done]; injection Hkey as <- <-;
    [rewrite decide_True by reflexivity|rewrite decide_False by (vm_compute; discriminate)];
    destruct Hecies as (c & Henc & Hdec); rewrite Henc; wp_norm; wp_step; by apply HQ.
Qed.

(** And the answering client decrypts. *)
Lemma decrypt_gossip_wp {EXT : Ext} r peer (node : Node) des c plain (n : Negotiate) s Q :
  decrypts_to (keypair node) c plain → pb_decode (req_data r) = Some (mkDecrypt des c) →
  pb_decode plain = Some n →
  Q [SendNodeRequest (ack_request_to peer (req_req_id r) true plain)] (Returned tt) s →
  wp calm (handle_decrypt_gossip node r peer) s Q.
Proof.
  intros Hdec Hr Hn HQ. unfold handle_decrypt_gossip. rewrite Hr. wp_norm. cbn [decr_cypher].
  unfold decrypts_to in Hdec. destruct (keypair node); [| |done]; rewrite Hdec; wp_norm; rewrite Hn; by wp_steps.
Qed.

(** * Properties *)

Section ProxyProperties.
Context {EXT : Ext}.

(** C27: the choice of the next node of a circuit.  From a random index the
    loop visits every node info once, in a rotation of their order, and takes
    the first eligible one: not known invalid, not this node, not [other], not
    the bootstrap, and not a registered peer the hash of whose recorded hash is the
    destination (which does not keep out the destination's own peer: what is
    recorded is a hash already).  If there is an eligible one it
    finds one; otherwise the previous choice stays. *)
Theorem pick_peer_spec (node : Node) (boot : PeerId) (infos : list NodeInfo)
    (invalid : gmap string bool) (other dest : string) (index : Z) (cur : PeerId) (s : Shared) :
  boot_peer_id node = Some boot →
  (∀ id h, client_peer_map s !! id = Some h → is_Some (from_whitenoise_to_hash h)) →
  Forall (λ info, is_Some (peer_id_of_string (ni_id info))) infos →
  (Z.of_nat (length infos) < usize_max)%Z →
  visit_order infos index ≡ₚ infos ∧
  ensures calm s (pick_peer node infos invalid other dest (length infos) index cur) (λ tr o s',
    tr = [] ∧ s' = s ∧ ∃ p, o = Returned p ∧
    match list_find (eligible node boot invalid other dest s) (visit_order infos index) with
    | Some (_, info) => eligible node boot invalid other dest s info ∧
                        peer_id_of_string (ni_id info) = Some p
    | None => p = cur ∧ Forall (λ info, ¬ eligible node boot invalid other dest s info) infos
    end).
Proof.
  intros Hboot Hhash Hids Hsize.
  set (start := Z.to_nat (usize_add index 1 mod Z.of_nat (length infos))).
  assert (Hperm : visit_order infos index ≡ₚ infos).
  { unfold visit_order. fold start. rewrite Permutation_app_comm. by rewrite take_drop. }
  split; [done|]. apply wp_ensures. rewrite <- (Permutation_length Hperm).
  apply (pick_peer_wp node boot); try done.
  - intros j info Hj. pose proof (lookup_lt_Some _ _ _ Hj) as Hlt. rewrite (Permutation_length Hperm) in Hlt.
    unfold visit_order in Hj. fold start in Hj.
    assert (Hstart : start < length infos).
    { unfold start. pose proof (Z.mod_pos_bound (usize_add index 1) (Z.of_nat (length infos))). lia. }
    rewrite rotation_lookup in Hj by done. rewrite <- Hj. f_equal.
    rewrite <- Zplus_mod_idemp_l.
    pose proof (Z.mod_pos_bound (usize_add index 1) (Z.of_nat (length infos)) ltac:(lia)) as Hb.
    rewrite <- (Z2Nat.id (usize_add index 1 mod _)) by lia. fold start.
    by rewrite <- Nat2Z.inj_add, <- Nat2Z.inj_mod, Nat2Z.id.
  - by rewrite Hperm.
  - intros p Hp. split_and!; [done..|]. exists p. split; [done|].
    destruct (list_find _ _) as [[i info]|] eqn:Hfind.
    + by apply list_find_Some in Hfind as (_ & Hel & _).
    + apply list_find_None in Hfind. by rewrite Hperm in Hfind.
Qed.

(** The negotiation of a dial, end to end.  What the caller's node returns
    for a [NegPlainText] request is the negotiation encrypted to the key of the
    dialled identity (either key type), and the answering client, given that
    ciphertext by its access node, returns the negotiation; each acknowledges
    under the id of the request. *)
Theorem negotiation_roundtrip `{!Base58Laws, !EciesLaws, !EdEciesLaws} (k : Keypair)
    (remote : string) (composit : bytes) (caller_r answer_r : Request) (caller_peer answer_peer : PeerId)
    (neg : NegPlaintext) (n : Negotiate) (answerer : Node) (s s2 : Shared) :
  from_keypair_to_whitenoise_id k = Some remote → composit_bytes remote = Some composit →
  circuit_task s !! negp_session_id neg = Some composit →
  pb_decode (req_data caller_r) = Some neg → pb_decode (negp_neg neg) = Some n →
  keypair answerer = k →
  ensures calm s (handle_neg_plaintext caller_r caller_peer) (λ tr o s', o = Returned tt ∧ s' = s ∧
    ∃ c, tr = [Csprng; SendNodeRequest (ack_request_to caller_peer (req_req_id caller_r) true c)] ∧
    ∀ des, pb_decode (req_data answer_r) = Some (mkDecrypt des c) →
      ensures calm s2 (handle_decrypt_gossip answerer answer_r answer_peer) (λ tr2 o2 s2',
        o2 = Returned tt ∧ s2' = s2 ∧
        tr2 = [SendNodeRequest
                 (ack_request_to answer_peer (req_req_id answer_r) true (negp_neg neg))])).
Proof.
  intros Hid Hcomp Htask Hneg Hn <-. apply wp_ensures. eapply neg_plaintext_wp; [done..|]. intros c Hc.
  split; [done|]. split; [done|]. exists c. split; [done|]. intros des Hdes.
  by eapply wp_ensures, decrypt_gossip_wp.
Qed.


(** An entry node refuses a circuit, and does nothing else, when the
    request does not decode, when the caller is not registered with it, and
    when the caller has opened no session for it or the session already has
    both of its streams. *)
Theorem new_circuit_refused (node : Node) (r : Request) (remote : PeerId) (s : Shared) :
  match pb_decode (M := NewCircuit) (req_data r) with
  | None => True
  | Some nc =>
      client_wn_map s !! nc_from nc = None ∨
      session_map s !! nc_session_id nc = None ∨
      (∃ x, session_map s !! nc_session_id nc = Some x ∧ ready x = true)
  end →
  ensures calm s (handle_new_circuit node r remote) (λ tr o s',
    tr = [] ∧ o = Returned false ∧ s' = s).
Proof.
  intros Hrefuse. apply wp_ensures. unfold handle_new_circuit.
  destruct (pb_decode (req_data r)) as [nc|]; [|by wp_step]. wp_step.
  destruct (client_wn_map s !! nc_from nc) as [ci|] eqn:Hci.
  - rewrite bool_decide_false by done. wp_step.
    destruct Hrefuse as [Hno|[Hno|(x & Hx & Hready)]]; [done|rewrite Hno|rewrite Hx]; simpl.
    + by wp_step.
    + rewrite Hready. simpl. by wp_step.
  - rewrite bool_decide_true by done. by wp_step.
Qed.

End ProxyProperties.

Section ProxyWitnesses.
Local Existing Instance toy.

Definition toy_server : Node := mkNode toy_keys None (Some "boot"%string).

Lemma pick_peer_spec_witness :
  let infos := [mkNodeInfo "a" []; mkNodeInfo "b" []] in
  boot_peer_id toy_server = Some "boot"%string ∧
  visit_order infos 0 ≡ₚ infos ∧
  ensures calm empty_shared (pick_peer toy_server infos ∅ "a" "dest" 2 0%Z "cur"%string) (λ _ o s',
    s' = empty_shared ∧ ∃ p, o = Returned p).
Proof.
  intros infos. split; [reflexivity|].
  destruct (pick_peer_spec toy_server "boot"%string infos ∅ "a" "dest" 0 "cur"%string empty_shared)
    as [Hperm Hpick]; [reflexivity| |repeat constructor; eauto|reflexivity|].
  - intros id h. simpl. by rewrite lookup_empty.
  - split; [exact Hperm|]. intros e n He. destruct (Hpick e n He) as (_ & Hs & p & Hp & _). eauto.
Defined.

Lemma negotiation_roundtrip_witness :
  let neg := mkNegotiate "join" "sid" "dest" [] in
  let plain := mkNegPlaintext "sid" (pb_encode neg) in
  let r := mkRequest "id" "" (reqtype_i32 RqNegPlainText) (pb_encode plain) in
  let s : Shared := set_circuit_task <["sid"%string := [x30; x01]]> empty_shared in
  from_keypair_to_whitenoise_id toy_keys = Some (String.append "0" (toy_base [x01])) ∧
  ensures calm s (handle_neg_plaintext r "entry"%string) (λ tr o _, o = Returned tt ∧
    ∃ c, tr = [Csprng; SendNodeRequest (ack_request_to "entry"%string "id" true c)]).
Proof.
  intros neg plain r s. split; [reflexivity|]. intros e n He.
  destruct (@negotiation_roundtrip toy toy_base58_laws toy_ecies_laws toy_ed_ecies_laws toy_keys
    (String.append "0" (toy_base [x01])) [x30; x01] r r "entry"%string "access"%string plain neg toy_node
    s s eq_refl eq_refl eq_refl (toy_codec_roundtrip NegPlaintext plain)
    (toy_codec_roundtrip Negotiate neg) eq_refl e n He) as (Ho & _ & c & Htr & _).
  split; [exact Ho|]. exists c. exact Htr.
Defined.

Lemma new_circuit_refused_witness :
  let nc := mkNewCircuit "from" "to" "sid" in
  let r := mkRequest "id" "" (reqtype_i32 RqNewCircuit) (pb_encode nc) in
  client_wn_map (EXT := toy) empty_shared !! nc_from nc = None ∧
  ensures calm empty_shared (handle_new_circuit toy_server r "p"%string) (λ tr o s',
    tr = [] ∧ o = Returned false ∧ s' = empty_shared).
Proof.
  intros nc r. split; [reflexivity|]. apply new_circuit_refused.
  replace (pb_decode (req_data r)) with (Some nc) by (symmetry; apply (toy_codec_roundtrip NewCircuit nc)).
  left. reflexivity.
Defined.

End ProxyWitnesses.
