(* ===== verification/Registry.v ===== *)
(** * The registry of a proxy node

    [client_peer_map] (peer to client hash) and [client_wn_map] (client hash to
    client) together are the registry of the clients of a node.  Only the task
    of [process_proxy_request] writes them; this file shows what it keeps true
    of them while every other task of the node does anything else. *)

From S2P Require Import Prelude Proto External State Io Packing Concrete Utils Connection Account Node RelayEvents Proxy.

Section Registry.
Context {EXT : Ext}.

(** Every registered peer's hash leads back to it. *)
Definition registry_ok (s : Shared) : Prop :=
  ∀ p h, client_peer_map s !! p = Some h →
    ∃ ci, client_wn_map s !! h = Some ci ∧ to_base58 (peer_id ci) = p.

Definition same_registry (s s' : Shared) : Prop :=
  client_wn_map s' = client_wn_map s ∧ client_peer_map s' = client_peer_map s.

(** The rest of the node does not write the registry; it may do and reply
    anything else. *)
Definition registry_owner : assume :=
  {| rely := same_registry; permits := λ _ _, True; may_block := λ _, True |}.

(** ** Programs that do not write the registry *)

Section Avoids.
Context (wn : gmap string ClientInfo) (peers : gmap string string).

Definition registry_is (s : Shared) : Prop := client_wn_map s = wn ∧ client_peer_map s = peers.

Local Abbreviation avoids := (preserves registry_is (λ _ _, True) (λ _, True)).

Lemma is_session f s : registry_is s → registry_is (set_session_map f s).
Proof. done. Qed.
Lemma is_circuit f s : registry_is s → registry_is (set_circuit_map f s).
Proof. done. Qed.
Lemma is_probe f s : registry_is s → registry_is (set_probe_map f s).
Proof. done. Qed.
Lemma is_relay_out f s : registry_is s → registry_is (set_relay_out f s).
Proof. done. Qed.
Hint Resolve is_session is_circuit is_probe is_relay_out : keeps.

Lemma avoids_write_relay w r : avoids (write_relay_arc w r).
Proof. unfold write_relay_arc, confusion_relay, jitter, random_jitter_duration, ws_write. keeps_auto. Qed.
Hint Resolve avoids_write_relay : keeps.

Lemma avoids_twoway session r : avoids (send_relay_twoway session r).
Proof. unfold send_relay_twoway, spawn_write. keeps_auto. Qed.

Lemma avoids_close sid : avoids (handle_close_session sid).
Proof. unfold handle_close_session, close_opt, ws_close. keeps_auto. Qed.

Lemma avoids_scan peer n : avoids (scan_out_streams peer n).
Proof. induction n; cbn [scan_out_streams]; keeps_auto. Qed.
Hint Resolve avoids_twoway avoids_close avoids_scan : keeps.

Lemma avoids_new_relay_stream peer : avoids (new_relay_stream peer).
Proof. unfold new_relay_stream, wait_for_out_peer_relay_stream, wait_round. keeps_auto. Qed.

Lemma avoids_bus_register key : avoids (event_bus_register key).
Proof. by intros s Hs. Qed.

Lemma avoids_new_channel : avoids new_channel.
Proof. by intros s Hs. Qed.
Hint Resolve avoids_new_relay_stream avoids_bus_register avoids_new_channel : keeps.

Lemma avoids_send_and_wait key r : avoids (external_send_node_request_and_wait key r).
Proof. unfold external_send_node_request_and_wait. keeps_auto. Qed.
Hint Resolve avoids_send_and_wait : keeps.

Lemma avoids_new_session self peer sid my other : avoids (new_session_to_peer self peer sid my other).
Proof.
  unfold new_session_to_peer, write_relay_wake_arc, write_set_session_with_role_arc. keeps_auto.
Qed.
Hint Resolve avoids_new_session : keeps.

Lemma avoids_pick node infos inv other dest n : ∀ i cur,
  avoids (pick_peer node infos inv other dest n i cur).
Proof. induction n; intros; cbn [pick_peer]; keeps_auto. Qed.
Hint Resolve avoids_pick : keeps.

Lemma avoids_try node infos other dest sid my r n : ∀ inv cur,
  avoids (try_peers node infos other dest sid my r n inv cur).
Proof. induction n; intros; cbn [try_peers]; keeps_auto. Qed.

Lemma avoids_main_nets id p num : avoids (request_main_nets id p num).
Proof. unfold request_main_nets. keeps_auto. Qed.
Hint Resolve avoids_try avoids_main_nets : keeps.

Lemma avoids_new_circuit node r p : avoids (handle_new_circuit node r p).
Proof. unfold handle_new_circuit, circuit_to_client, circuit_to_sink, circuit_negotiation. keeps_auto. Qed.

Lemma avoids_decrypt node r p : avoids (handle_decrypt_gossip node r p).
Proof. unfold handle_decrypt_gossip. keeps_auto. Qed.

Lemma avoids_neg r p : avoids (handle_neg_plaintext r p).
Proof. unfold handle_neg_plaintext. keeps_auto. Qed.

Lemma avoids_peers r p : avoids (handle_main_net_peers r p).
Proof. unfold handle_main_net_peers, send_ack. keeps_auto. Qed.

End Avoids.

(** A program that avoids the registry leaves it as it is, under the other
    tasks too. *)
Lemma avoids_wp {A} (p : io A) s Q :
  preserves (registry_is (client_wn_map s) (client_peer_map s)) (λ _ _, True) (λ _, True) p →
  (∀ tr o s', same_registry s s' → Q tr o s') →
  wp registry_owner p s Q.
Proof.
  intros Hp HQ. assert (Hs : same_registry s s) by done. revert Hs HQ.
  generalize s at 2 4 as s0. revert Q.
  induction p as [a| | |X f k IH|c k IH]; intros Q s0 Hs0 HQ; try exact (HQ [] _ s0 Hs0).
  - intros s' [Hw Hpm]. simpl in Hp.
    assert (Hs' : registry_is (client_wn_map s) (client_peer_map s) s')
      by (destruct Hs0; split; congruence).
    destruct (Hp s' Hs') as [Hf Hk]. by apply IH.
  - intros s' [Hw Hpm]. destruct Hp as [_ Hk].
    assert (Hs' : same_registry s s') by (destruct Hs0; split; congruence).
    split; [intros _; by apply HQ|]. intros r _. apply IH; [by apply Hk|done|]. intros. by apply HQ.
Qed.

(** ** The operations on the registry *)

Lemma registry_ok_same s s' : same_registry s s' → registry_ok s → registry_ok s'.
Proof. intros [Hw Hp] Hok p h. rewrite Hw, Hp. apply Hok. Qed.

Lemma registry_ok_insert s h ci :
  client_wn_map s !! h = None → registry_ok s →
  registry_ok (set_client_wn <[h := ci]> (set_client_peer <[to_base58 (peer_id ci) := h]> s)).
Proof.
  intros Hh Hok p h'. simpl. intros [[<- <-]|[Hne Hp]]%lookup_insert_Some.
  - exists ci. by rewrite lookup_insert_eq.
  - destruct (Hok p h' Hp) as (ci' & Hci & Hid). exists ci'.
    rewrite lookup_insert_ne by congruence. done.
Qed.

Lemma registry_ok_delete s p :
  registry_ok s →
  registry_ok (match client_peer_map s !! p with
               | Some h => set_client_wn (delete h) (set_client_peer (delete p) s)
               | None => set_client_peer (delete p) s
               end).
Proof.
  intros Hok. destruct (client_peer_map s !! p) as [h|] eqn:Hp; intros q h'; simpl;
    intros [Hne Hq]%lookup_delete_Some; destruct (Hok q h' Hq) as (ci & Hci & Hid); exists ci; [|done].
  rewrite lookup_delete_ne; [done|]. intros ->.
  destruct (Hok p h' Hp) as (ci' & Hci' & Hid'). congruence.
Qed.

Lemma handle_new_proxy_ok r p s Q :
  registry_ok s → (∀ tr o s', registry_ok s' → Q tr o s') →
  wp registry_owner (handle_new_proxy r p) s Q.
Proof.
  intros Hok HQ. unfold handle_new_proxy.
  wp_unwrap as np; [|by apply HQ]. wp_unwrap as hash; [|by apply HQ].
  intros s1 Hs1. apply (registry_ok_same s s1 Hs1) in Hok. wp_norm.
  destruct (client_wn_map s1 !! hash) as [ci|] eqn:Hci.
  - rewrite bool_decide_true by eauto. apply avoids_wp; [by split; [|intros []]|]. intros tr o s' Hs'.
    by apply HQ, (registry_ok_same s1).
  - rewrite bool_decide_false by (by intros [? ?]). wp_norm. intros s2 Hs2. wp_norm.
    intros s3 Hs3. wp_norm.
    set (ci := mkClientInfo _ _ _ _). pose proof (registry_ok_insert s1 hash ci Hci Hok) as Hins.
    apply avoids_wp; [by split; [|intros []]|]. intros tr o s' Hs'. apply HQ.
    apply (registry_ok_same (set_client_wn <[hash := ci]> (set_client_peer <[to_base58 p := hash]> s1)));
      [|done].
    destruct Hs2 as [Hw2 Hp2], Hs3 as [Hw3 Hp3], Hs' as [Hw' Hp']. split; simpl in *; congruence.
Qed.

(** One request of the channel keeps the registry consistent. *)
Lemma handle_proxy_request_ok node npr s Q :
  registry_ok s → (∀ tr o s', registry_ok s' → Q tr o s') →
  wp registry_owner (handle_proxy_request node npr) s Q.
Proof.
  intros Hok HQ.
  assert (Hun : ∀ p s Q, registry_ok s → (∀ tr o s', registry_ok s' → Q tr o s') →
                 wp registry_owner (unregister_peer p) s Q).
  { clear. intros p s Q Hok HQ. unfold unregister_peer. wp_norm. intros s1 Hs1.
    apply (registry_ok_same s s1 Hs1), (registry_ok_delete s1 (to_base58 p)) in Hok. simpl.
    destruct (client_peer_map s1 !! to_base58 p) as [h|]; wp_norm.
    - intros s2 Hs2. wp_norm. wp_ret. apply HQ. simpl.
      apply (registry_ok_same (set_client_wn (delete h) (set_client_peer (delete (to_base58 p)) s1))); [|done].
      destruct Hs2 as [Hw Hp]. split; simpl in *; congruence.
    - wp_ret. by apply HQ. }
  assert (Hav : ∀ (p : io unit) s Q, registry_ok s → (∀ tr o s', registry_ok s' → Q tr o s') →
            (∀ wn peers, preserves (registry_is wn peers) (λ _ _, True) (λ _, True) p) →
            wp registry_owner p s Q).
  { clear. intros p s Q Hok HQ Hp. apply avoids_wp; [done|]. intros tr o s' Hs'.
    by apply HQ, (registry_ok_same s). }
  unfold handle_proxy_request.
  destruct (peer_operation npr) as [[]|]; [by apply Hun|].
  wp_unwrap as request; [|by apply HQ]. repeat case_decide.
  - apply Hav; [done..|]. intros. apply avoids_decrypt.
  - apply Hav; [done..|]. intros. apply avoids_neg.
  - apply Hav; [done..|]. intros. apply avoids_peers.
  - by apply handle_new_proxy_ok.
  - by apply Hun.
  - apply Hav; [done..|]. intros. apply preserves_bind; [apply avoids_new_circuit|].
    intros res. by split; [|intros []].
  - wp_ret. by apply HQ.
Qed.

Lemma handle_new_proxy_fresh_wp r peer np hash s Q :
  pb_decode (M := NewProxy) (req_data r) = Some np →
  from_whitenoise_to_hash (np_white_noise_id np) = Some hash → client_wn_map s !! hash = None →
  Q [SendNodeRequest (ack_request_to peer (req_req_id r) true [])] (Returned tt)
    (set_client_wn <[hash := mkClientInfo (np_white_noise_id np) peer 1 3600]>
       (set_client_peer <[to_base58 peer := hash]> s)) →
  wp calm (handle_new_proxy r peer) s Q.
Proof.
  intros Hnp Hhash Hfree HQ. unfold handle_new_proxy. rewrite Hnp. wp_norm. rewrite Hhash. wp_step.
  rewrite Hfree, bool_decide_false by (by intros [? ?]). wp_steps. exact HQ.
Qed.

End Registry.

(** * Properties *)

Section RegistryProperties.
Context {EXT : Ext}.

(** C19: however long the proxy task runs and whatever requests it gets, and
    whatever the other tasks of the node do, every peer it has registered is
    filed under the hash that leads back to that peer. *)
Theorem registry_invariant (fuel : nat) (node : Node) (s : Shared) :
  registry_ok s →
  ensures registry_owner s (process_proxy_request fuel node) (λ _ _ s', registry_ok s').
Proof.
  intros Hok. apply wp_ensures. unfold process_proxy_request. revert s Hok.
  cut (∀ s tr0, registry_ok s → wp registry_owner (process_proxy_request fuel node) s
         (λ tr o s', (λ (_ : list cmd) (_ : outcome unit) s', registry_ok s') (tr0 ++ tr) o s')).
  { intros Hcut s Hok. by apply (Hcut s []). }
  unfold process_proxy_request. induction fuel as [|fuel IH]; intros s tr0 Hok; [done|].
  rewrite loop_S. apply wp_bind_2. wp_norm. intros s1 Hs1. apply (registry_ok_same s s1 Hs1) in Hok.
  split; [done|]. intros [npr|] _; wp_norm; [|by wp_ret].
  apply wp_bind_2, handle_proxy_request_ok; [done|]. intros tr o s2 Hok2.
  destruct o; wp_norm; try done. wp_ret. by apply (IH s2 []).
Qed.

(** Registration.  A client whose hash is not taken is filed in both maps,
    under its peer and under its hash, and acknowledged; one whose hash is
    taken is refused and nothing changes; an id without a hash, like a request
    that does not decode, panics the task. *)
Theorem handle_new_proxy_spec (r : Request) (peer : PeerId) (s : Shared) :
  ensures calm s (handle_new_proxy r peer) (λ tr o s',
    match pb_decode (M := NewProxy) (req_data r) ≫= λ np,
            (np,.) <$> from_whitenoise_to_hash (np_white_noise_id np) with
    | None => o = Panicked ∧ tr = [] ∧ s' = s
    | Some (np, hash) =>
        o = Returned tt ∧
        match client_wn_map s !! hash with
        | Some _ => s' = s ∧ tr = [SendNodeRequest
            (ack_request_to peer (req_req_id r) false (as_bytes "Proxy already"))]
        | None =>
            s' = set_client_wn <[hash := mkClientInfo (np_white_noise_id np) peer 1 3600]>
                   (set_client_peer <[to_base58 peer := hash]> s) ∧
            tr = [SendNodeRequest (ack_request_to peer (req_req_id r) true [])]
        end
    end).
Proof.
  apply wp_ensures. unfold handle_new_proxy.
  destruct (pb_decode (req_data r)) as [np|]; simpl; [|by wp_step].
  destruct (from_whitenoise_to_hash _) as [hash|]; simpl; [|by wp_step].
  wp_step. destruct (client_wn_map s !! hash) as [ci|] eqn:Hci.
  - rewrite bool_decide_true by eauto. by wp_steps.
  - rewrite bool_decide_false by (by intros [? ?]). by wp_steps.
Qed.

(** When a peer disconnects or unregisters, its entry and the client under
    its hash are removed, and nothing else. *)
Theorem unregister_peer_spec (peer : PeerId) (s : Shared) :
  ensures calm s (unregister_peer peer) (λ tr o s', o = Returned tt ∧ tr = [] ∧
    s' = match client_peer_map s !! to_base58 peer with
         | Some h => set_client_wn (delete h) (set_client_peer (delete (to_base58 peer)) s)
         | None => set_client_peer (delete (to_base58 peer)) s
         end).
Proof.
  apply wp_ensures. unfold unregister_peer. wp_step.
  destruct (client_peer_map s !! _); by wp_steps.
Qed.

(** C35: a peer that registers a second id and then disconnects leaves its
    first id behind: no peer is registered for it any more, but the client is
    still filed under its hash, so the id is refused to everybody from then
    on. *)
Theorem second_registration_leaks (r1 r2 : Request) (np1 np2 : NewProxy) (h1 h2 : string)
    (peer : PeerId) (s : Shared) :
  pb_decode (M := NewProxy) (req_data r1) = Some np1 →
  pb_decode (M := NewProxy) (req_data r2) = Some np2 →
  from_whitenoise_to_hash (np_white_noise_id np1) = Some h1 →
  from_whitenoise_to_hash (np_white_noise_id np2) = Some h2 →
  h1 ≠ h2 → client_wn_map s !! h1 = None → client_wn_map s !! h2 = None →
  ensures calm s
    (handle_new_proxy r1 peer;; handle_new_proxy r2 peer;; unregister_peer peer)
    (λ _ o s', o = Returned tt ∧ client_peer_map s' !! to_base58 peer = None ∧
       client_wn_map s' !! h2 = None ∧
       client_wn_map s' !! h1 = Some (mkClientInfo (np_white_noise_id np1) peer 1 3600)).
Proof.
  intros Hr1 Hr2 Hh1 Hh2 Hne Hf1 Hf2. apply wp_ensures.
  wp_use handle_new_proxy_fresh_wp; [done..|]. cbn [after].
  wp_use handle_new_proxy_fresh_wp; [done..| |]; [by st_simpl; rewrite lookup_insert_ne|]. cbn [after].
  unfold unregister_peer. wp_step. st_simpl. rewrite !lookup_insert_eq. wp_steps. st_simpl.
  split; [done|]. rewrite !lookup_delete_eq. split_and!; [done..|].
  rewrite lookup_delete_ne, lookup_insert_ne by congruence. apply lookup_insert_eq.
Qed.

End RegistryProperties.

Section RegistryWitnesses.
Local Existing Instance toy.

Lemma registry_invariant_witness :
  registry_ok empty_shared ∧
  ensures registry_owner empty_shared (process_proxy_request 3 toy_node) (λ _ _ s', registry_ok s').
Proof.
  assert (Hok : registry_ok empty_shared) by (intros p h; simpl; by rewrite lookup_empty).
  split; [exact Hok|]. exact (registry_invariant 3 toy_node empty_shared Hok).
Defined.

Definition toy_registration (id : string) : Request :=
  mkRequest "" "" (reqtype_i32 RqNewProxy) (pb_encode (mkNewProxy "60m" id)).

Lemma second_registration_leaks_witness :
  client_wn_map (EXT := toy) empty_shared !! "a"%string = None ∧
  ensures calm empty_shared
    (handle_new_proxy (toy_registration "0BB") "p"%string;;
     handle_new_proxy (toy_registration "0CC") "p"%string;; unregister_peer "p"%string)
    (λ _ o _, o = Returned tt).
Proof.
  split; [reflexivity|]. intros e n He.
  refine (proj1 (second_registration_leaks (toy_registration "0BB") (toy_registration "0CC")
    (mkNewProxy "60m" "0BB") (mkNewProxy "60m" "0CC") (toy_base (toy_digest [x11])) (toy_base (toy_digest [x22])) "p"%string empty_shared
    (toy_codec_roundtrip NewProxy _) (toy_codec_roundtrip NewProxy _) _ _ _ _ _ e n He));
    try reflexivity. intros Heq. vm_compute in Heq. discriminate.
Defined.

End RegistryWitnesses.
