(* ===== verification/Publish.v ===== *)
(** * The gossip handler

    src/network/publish_event_handler.rs: the access node's reaction to an
    encrypted negotiation on the gossip topic. *)

From S2P Require Import Prelude Proto External State Io Utils Connection Account Node RelayEvents Proxy.

Section Publish.
Context {EXT : Ext}.

(** The command of type [ty], with the id of its own content. *)
Definition identified_command (from : string) (ty : Z) (data : bytes) : Command :=
  let command := mkCommand "" ty from data in
  mkCommand (from_bytes_get_id (pb_encode command)) ty from data.

(** The relay [relay] is asked to extend the session to the sink; the probe goes
    out when it has accepted. *)
Definition extend_session (node : Node) (relay : PeerId) (negotiate : Negotiate) : io unit :=
  let sid := neg_session_id negotiate in
  let session_expand := mkSessionExpend sid (neg_join negotiate) in
  let command := identified_command (get_id node) (cmdtype_i32 CtSessionExPend)
                   (pb_encode session_expand) in
  ack ← external_send_node_request_and_wait (command_command_id command)
          (NrCmdRequest (mkNodeCmdRequest relay (Some command)));
  if negb (ack_result ack) then handle_close_session sid
  else
    session_opt ← gets (λ s, session_map s !! sid);
    match session_opt with
    | None => mret tt
    | Some session => send_relay_twoway session (new_relay_probe sid)
    end.

(** The rest of the handler once the answer client has a session here: this
    node is the sink itself, or finds a relay and asks it to reach the sink. *)
Definition access_circuit (node : Node) (des : string) (negotiate : Negotiate) : io unit :=
  let sid := neg_session_id negotiate in
  if decide (neg_join negotiate = get_id node) then
    new_session_opt ← gets (λ s, session_map s !! sid);
    match new_session_opt with
    | None => mret tt
    | Some new_session => send_relay_twoway new_session (new_relay_circuit_success sid)
    end
  else
    random_peer ← call RandomPeerId;
    nodeinfos_res ← request_main_nets "123" random_peer 100;
    match nodeinfos_res with
    | None => mret tt
    | Some nodeinfos =>
        relay0 ← call RandomPeerId;
        relay ← try_peers node nodeinfos (neg_join negotiate) des sid AccessRole RelayRole 3 ∅ relay0;
        match relay with
        | None => handle_close_session sid
        | Some relay => extend_session node relay negotiate
        end
    end.

Definition handle_gossip (node : Node) (data : bytes) : io unit :=
  encrypted_neg ← unwrap (pb_decode (M := EncryptedNeg) data);
  let des := eneg_des encrypted_neg in
  contains ← gets (λ s, bool_decide (is_Some (client_wn_map s !! des)));
  if contains : bool then
    client_info ← gets (λ s, client_wn_map s !! des);
    client_info ← unwrap client_info;
    let request := identified_request (get_id node) (reqtype_i32 RqDecryptGossip)
                     (pb_encode (mkDecrypt des (eneg_cypher encrypted_neg))) in
    ack ← external_send_node_request_and_wait (req_req_id request)
            (NrProxyRequest (mkNodeProxyRequest (peer_id client_info) (Some request) None));
    if negb (ack_result ack) then mret tt
    else
      negotiate ← unwrap (pb_decode (M := Negotiate) (ack_data ack));
      wraped_stream_opt ← new_session_to_peer node (peer_id client_info)
                            (neg_session_id negotiate) AccessRole AnswerRole;
      match wraped_stream_opt with
      | None => handle_close_session (neg_session_id negotiate)
      | Some _ => access_circuit node des negotiate
      end
  else mret tt.

Definition process_publish_request (fuel : nat) (node : Node) : io unit :=
  loop (λ _ : unit,
    gossipsub_message_opt ← call RecvGossip;
    match gossipsub_message_opt with
    | None => mret (inr tt)
    | Some data => handle_gossip node data;; mret (inl tt)
    end) fuel tt.

End Publish.
