(* ===== verification/Commands.v ===== *)
(** * The command handler

    src/network/cmd_event_handler.rs: the relay node's reaction to a request to
    extend a session to the sink. *)

From S2P Require Import Prelude Proto External State Io Packing Concrete Utils Connection Account Node RelayEvents.

Section Commands.
Context {EXT : Ext}.

Definition handle_session_expend (node : Node) (request : Command) (peer : PeerId) : io unit :=
  session_expend ← unwrap (pb_decode (M := SessionExpend) (command_data request));
  let sid := expend_session_id session_expend in
  let ack res data := ack_request_to peer (command_command_id request) res data in
  session ← gets (λ s, session_map s !! sid);
  match session with
  | None =>
      handle_close_session sid;;
      send_ack (ack false (as_bytes "No such session"))
  | Some session =>
      if ready session then
        send_ack (ack true []);;
        send_relay_twoway session (new_relay_circuit_success sid)
      else
        sink_peer_id ← unwrap (peer_id_of_string (expend_peer_id session_expend));
        wraped_stream ← new_session_to_peer node sink_peer_id sid RelayRole SinkRole;
        match wraped_stream with
        | None =>
            handle_close_session sid;;
            send_ack (ack false (as_bytes "new session error"))
        | Some _ => send_ack (ack true [])
        end
  end.

Definition handle_cmd_request (node : Node) (ncr : NodeCmdRequest) : io unit :=
  request ← unwrap (cmd_request ncr);
  if decide (command_type request = cmdtype_i32 CtSessionExPend)
  then handle_session_expend node request (ncr_peer ncr)
  else mret tt.

Definition process_cmd_request (fuel : nat) (node : Node) : io unit :=
  loop (λ _ : unit,
    cmd_request_option ← call RecvCmd;
    match cmd_request_option with
    | Some ncr => handle_cmd_request node ncr;; mret (inl tt)
    | None => mret (inr tt)
    end) fuel tt.

End Commands.

(** * Properties *)

Section CommandsProperties.
Context {EXT : Ext}.

(** A request to extend a session at the relay node.  Without the session
    it is refused; a relay that already has both streams (it is the entry node
    too) accepts and announces success on both; otherwise it opens a session to
    the sink it is given and accepts only once the sink has acknowledged, its
    own session then having the sink's stream as the later one; and when no
    stream to the sink comes within the time limit, it closes the session and
    refuses.  A sink id that does not parse panics the task. *)
Theorem handle_session_expend_spec (node : Node) (r : Command) (peer : PeerId) (m : SessionExpend)
    (s : Shared) :
  pb_decode (command_data r) = Some m →
  let sid := expend_session_id m in
  let ack res data := SendNodeRequest (ack_request_to peer (command_command_id r) res data) in
  ensures calm s (handle_session_expend node r peer) (λ tr o s',
    match session_map s !! sid with
    | None => o = Returned tt ∧ s' = closed sid s ∧ tr = [ack false (as_bytes "No such session")]
    | Some x =>
        if ready x then
          o = Returned tt ∧ s' = s ∧ tr = ack true [] :: twoway_cmds x (new_relay_circuit_success sid)
        else match peer_id_of_string (expend_peer_id m) with
        | None => o = Panicked ∧ s' = s ∧ tr = []
        | Some sink =>
            let dial := Spawn (TaskSendNodeRequest (NrNewStreamRequest sink)) in
            match list_find (λ w, remote_peer_id w = sink) (relay_out_streams s) with
            | None => o = Returned tt ∧ s' = closed sid s ∧
                effects tr = dial :: close_cmds (Some x) ++ [ack false (as_bytes "new session error")]
            | Some (i, w) => ∃ d0 d key,
                let opening := [dial; OutSend w (WdData d0); OutSend w (WdData d);
                                AwaitAck (next_handle s)] in
                match o with
                | Returned _ =>
                    s' = set_session_map <[sid := with_later_stream x w]> (awaiting i key s) ∧
                    effects tr = opening ++ [Spawn (TaskRelayHandler w node (Some sid)); ack true []]
                | Blocked | Panicked => s' = awaiting i key s ∧ effects tr = opening
                | Running => False
                end
            end
        end
    end).
Proof.
  intros Hm sid ack. apply wp_ensures. unfold handle_session_expend, send_ack. rewrite Hm.
  wp_norm. wp_step. fold sid. destruct (session_map s !! sid) as [x|] eqn:Hx.
  2: { wp_use handle_close_session_wp. rewrite Hx. cbn [after]. by wp_steps. }
  destruct (ready x).
  { wp_step. wp_norm. by apply send_relay_twoway_wp. }
  destruct (peer_id_of_string _) as [sink|]; [wp_norm|by wp_step].
  destruct (list_find _ _) as [[i w]|] eqn:Hfind.
  - wp_use (new_session_to_peer_some_wp _ _ _ _ _ i w); [exact Hfind|].
    intros conf1 conf2 us1 us2 key cmds _ _. unfold cmds, opening_cmds.
    split_and!; cbn [after]; [..|wp_steps]; eexists _, _, key; (split; [|reflexivity]); try done.
    unfold join_session, joined_session. st_simpl. unfold awaiting. st_simpl. by rewrite Hx.
  - wp_use new_session_to_peer_none_wp; [exact Hfind|]. cbn [after]. wp_norm.
    wp_use handle_close_session_wp. cbn [after]. wp_steps. split; [done|]. split; [done|].
    rewrite Hx. change (effects ?l) with (effects l). simpl. f_equal.
    rewrite !effects_app. by rewrite effects_close_cmds.
Qed.

End CommandsProperties.

Section CommandsWitnesses.
Local Existing Instance toy.

Lemma handle_session_expend_spec_witness :
  let m := mkSessionExpend "sid" "sink" in
  let r := mkCommand "id" (cmdtype_i32 CtSessionExPend) "" (pb_encode m) in
  pb_decode (command_data r) = Some m ∧
  ensures calm empty_shared (handle_session_expend toy_node r "access"%string) (λ tr o _,
    o = Returned tt ∧
    tr = [SendNodeRequest (ack_request_to "access"%string "id" false (as_bytes "No such session"))]).
Proof.
  intros m r. assert (Hm : pb_decode (command_data r) = Some m) by apply (toy_codec_roundtrip SessionExpend m).
  split; [exact Hm|]. intros e n He.
  destruct (handle_session_expend_spec toy_node r "access"%string m empty_shared Hm e n He)
    as (Ho & _ & Htr). split; [exact Ho|exact Htr].
Defined.

End CommandsWitnesses.
