(* ===== verification/RelayBehaviour.v ===== *)
(** * The relay behaviour

    src/network/protocols/relay_protocol.rs (the per-connection handler),
    relay_behaviour.rs (the network behaviour and the poll task of a stream).
    The two queues of the behaviour and the three of the handler are lists, front
    first; a negotiated substream is an element of an arbitrary type. *)

From S2P Require Import Prelude Proto External State Io Concrete Utils.

(** ** relay_protocol.rs *)

Section Handler.
Context {EXT : Ext} {Substream : Type}.

Inductive RelayHandlerInEvent := Dial (peer : PeerId).

Record RelayHandler := mkRelayHandler {
  inbound : list Substream;
  outbound : list Substream;
  events : list RelayHandlerInEvent
}.

Inductive RelayHandlerOutEvent := HRelayInbound (s : Substream) | HRelayOutbound (s : Substream).

(** The events of [ProtocolsHandler::poll]. *)
Inductive handler_event := HCustom (e : RelayHandlerOutEvent) | HOutboundSubstreamRequest.

Definition handler_new : RelayHandler := mkRelayHandler [] [] [].

Definition inject_fully_negotiated_inbound (stream : Substream) (self : RelayHandler) : RelayHandler :=
  mkRelayHandler (inbound self ++ [stream]) (outbound self) (events self).

Definition inject_fully_negotiated_outbound (stream : Substream) (self : RelayHandler) : RelayHandler :=
  mkRelayHandler (inbound self) (outbound self ++ [stream]) (events self).

Definition handler_inject_event (x : RelayHandlerInEvent) (self : RelayHandler) : RelayHandler :=
  mkRelayHandler (inbound self) (outbound self) (events self ++ [x]).

(** [None] is [Poll::Pending]. *)
Definition handler_poll (self : RelayHandler) : option (handler_event * RelayHandler) :=
  match inbound self with
  | stream_s :: rest =>
      Some (HCustom (HRelayInbound stream_s), mkRelayHandler rest (outbound self) (events self))
  | [] =>
      match outbound self with
      | stream_s :: rest =>
          Some (HCustom (HRelayOutbound stream_s), mkRelayHandler [] rest (events self))
      | [] =>
          match events self with
          | _ :: rest => Some (HOutboundSubstreamRequest, mkRelayHandler [] [] rest)
          | [] => None
          end
      end
  end.

(** The upgrade of a substream, by the name [protocol_info] gives it: no bytes
    are exchanged, the substream is the result. *)
Inductive RelayProtocol := TheRelayProtocol.

Definition protocol_info (self : RelayProtocol) : list bytes := [as_bytes "/relay"].

Definition upgrade_inbound (self : RelayProtocol) (stream : Substream) (info : bytes)
    : result Substream Empty_set := Ok stream.

Definition upgrade_outbound (self : RelayProtocol) (stream : Substream) (info : bytes)
    : result Substream Empty_set := Ok stream.

Definition listen_protocol (self : RelayHandler) : RelayProtocol * unit := (TheRelayProtocol, tt).

(** The protocol of an [OutboundSubstreamRequest]. *)
Definition outbound_protocol : RelayProtocol * unit := (TheRelayProtocol, tt).

(** A failed dial is only logged: the request it was for is gone. *)
Definition inject_dial_upgrade_error (self : RelayHandler) : RelayHandler := self.

(** [KeepAlive::Yes]. *)
Definition connection_keep_alive (self : RelayHandler) : bool := true.

End Handler.
Arguments RelayHandler {EXT} Substream.
Arguments RelayHandlerOutEvent Substream : clear implicits.
Arguments handler_event Substream : clear implicits.

(** ** relay_behaviour.rs *)

Section Behaviour.
Context {EXT : Ext} {Substream : Type}.

Inductive RelayEvent :=
| EvRelayInbound (w : WrappedStream)
| EvRelayOutbound (w : WrappedStream)
| EvDisconnect (peer : PeerId).

Record RelayState := mkRelayState {
  out_events : list RelayEvent;
  dive_events : list RelayHandlerInEvent;
  addresses : gmap PeerId (list Multiaddr)
}.

Definition relay_new : RelayState := mkRelayState [] [] ∅.

(** [VecDeque::push_front] and [pop_back]. *)
Definition push_front {A} (x : A) (q : list A) : list A := x :: q.
Definition pop_back {A} (q : list A) : option (A * list A) :=
  match rev q with
  | [] => None
  | x :: r => Some (x, rev r)
  end.

Definition new_handler (self : RelayState) : RelayState * RelayHandler Substream := (self, handler_new).

Definition inject_connected (peer : PeerId) (self : RelayState) : RelayState := self.

Definition new_stream (peer : PeerId) (self : RelayState) : RelayState :=
  mkRelayState (out_events self) (dive_events self ++ [Dial peer]) (addresses self).

Definition addresses_of_peer (self : RelayState) (peer : PeerId) : list Multiaddr :=
  default [] (addresses self !! peer).

Definition inject_disconnected (peer : PeerId) (self : RelayState) : RelayState :=
  mkRelayState (push_front (EvDisconnect peer) (out_events self)) (dive_events self) (addresses self).

Definition from_neg_to_wraped (stream : Substream) (peer : PeerId) : io WrappedStream :=
  stream_id ← call NewUuid;
  let wraped_stream := mkWrappedStream peer stream_id in
  spawn (TaskStartPoll wraped_stream);;
  mret wraped_stream.

Definition relay_inject_event (peer : PeerId) (result : RelayHandlerOutEvent Substream)
    (self : RelayState) : io RelayState :=
  match result with
  | HRelayInbound x =>
      wraped_stream ← from_neg_to_wraped x peer;
      mret (mkRelayState (push_front (EvRelayInbound wraped_stream) (out_events self))
              (dive_events self) (addresses self))
  | HRelayOutbound x =>
      wraped_stream ← from_neg_to_wraped x peer;
      mret (mkRelayState (push_front (EvRelayOutbound wraped_stream) (out_events self))
              (dive_events self) (addresses self))
  end.

(** The actions of [NetworkBehaviour::poll]; [None] is [Poll::Pending]. *)
Inductive relay_action :=
| GenerateEvent (e : RelayEvent)
| NotifyHandler (peer : PeerId) (event : RelayHandlerInEvent).

Definition relay_poll (self : RelayState) : option (relay_action * RelayState) :=
  match pop_back (out_events self) with
  | Some (e, rest) => Some (GenerateEvent e, mkRelayState rest (dive_events self) (addresses self))
  | None =>
      match dive_events self with
      | Dial x :: rest =>
          Some (NotifyHandler x (Dial x), mkRelayState (out_events self) rest (addresses self))
      | [] => None
      end
  end.

End Behaviour.

(** ** The poll task of a stream *)

Section StartPoll.
Context {EXT : Ext}.

(** The longest frame that is read. *)
Definition READ_MAX : nat := Z.to_nat 4096.

(** One iteration of [start_poll]: [inl] continues, [inr] breaks. *)
Definition start_poll_step (w : WrappedStream) : io (unit + unit) :=
  selected ← call (SelectStream w READ_MAX);
  match selected with
  | inl None =>
      call (InSend w (Err (ReadIo "stream out sender is null,close"))) ≫= unwrap_ok;;
      call (SubClose w);;
      mret (inr tt)
  | inl (Some WdClose) =>
      call (SubClose w);;
      call (InSend w (Err (ReadIo "active close stream"))) ≫= unwrap_ok;;
      mret (inr tt)
  | inl (Some (WdData x)) =>
      call (SubWrite w x) ≫= unwrap_ok;;
      mret (inl tt)
  | inr (Err e) =>
      call (InSend w (Err e)) ≫= unwrap_ok;;
      mret (inr tt)
  | inr (Ok []) =>
      call (InSend w (Err (ReadIo "stream read len zero"))) ≫= unwrap_ok;;
      mret (inr tt)
  | inr (Ok data) =>
      spawn (TaskInSend w (Ok data));;
      mret (inl tt)
  end.

Definition start_poll (fuel : nat) (w : WrappedStream) : io unit :=
  loop (λ _ : unit, start_poll_step w) fuel tt.

End StartPoll.

(** * Lemmas *)

Section RelayBehaviourLemmas.
Context {EXT : Ext} {Substream : Type}.

(** What the swarm sees of a handler that it polls until it is pending. *)
Fixpoint drain_handler (fuel : nat) (h : RelayHandler Substream) : list (handler_event Substream) :=
  match fuel with
  | O => []
  | S fuel =>
      match handler_poll h with
      | Some (e, h) => e :: drain_handler fuel h
      | None => []
      end
  end.

Definition handler_size (h : RelayHandler Substream) : nat :=
  length (inbound h) + length (outbound h) + length (events h).

Definition handler_pending (h : RelayHandler Substream) : list (handler_event Substream) :=
  ((λ x, HCustom (HRelayInbound x)) <$> inbound h) ++
  ((λ x, HCustom (HRelayOutbound x)) <$> outbound h) ++
  ((λ _, HOutboundSubstreamRequest) <$> events h).

Lemma handler_poll_pending h :
  handler_pending h = match handler_poll h with Some (e, h') => e :: handler_pending h' | None => [] end.
Proof. by destruct h as [[|x i] [|y o] [|z e]]. Qed.

Lemma handler_poll_size h :
  match handler_poll h with Some (_, h') => handler_size h = S (handler_size h') | None => handler_size h = 0 end.
Proof. destruct h as [[|x i] [|y o] [|z e]]; unfold handler_size; simpl; lia. Qed.

(** The relay behaviour: its queue of events, oldest first. *)
Definition pending_events (st : RelayState) : list RelayEvent := rev (out_events st).

Lemma pop_back_rev {A} (q : list A) :
  pop_back q = match rev q with [] => None | x :: r => Some (x, rev r) end.
Proof. done. Qed.

Lemma relay_poll_pending st :
  relay_poll st =
    match pending_events st, dive_events st with
    | e :: rest, dives => Some (GenerateEvent e, mkRelayState (rev rest) dives (addresses st))
    | [], Dial p :: dives => Some (NotifyHandler p (Dial p), mkRelayState [] dives (addresses st))
    | [], [] => None
    end.
Proof.
  unfold relay_poll, pending_events, pop_back. destruct (rev (out_events st)) as [|e r] eqn:Hr; [|done].
  assert (out_events st = []) as Hnil by (by rewrite <- (rev_involutive (out_events st)), Hr).
  rewrite Hnil. by destruct (dive_events st).
Qed.

Fixpoint drain_relay (fuel : nat) (st : RelayState) : list relay_action :=
  match fuel with
  | O => []
  | S fuel =>
      match relay_poll st with
      | Some (a, st) => a :: drain_relay fuel st
      | None => []
      end
  end.

(** What reaches the behaviour between two polls. *)
Inductive relay_input := InEvent (e : RelayEvent) | InDial (peer : PeerId).

Definition relay_accept (st : RelayState) (x : relay_input) : RelayState :=
  match x with
  | InEvent (EvDisconnect p) => inject_disconnected p st
  | InEvent e => mkRelayState (push_front e (out_events st)) (dive_events st) (addresses st)
  | InDial p => new_stream p st
  end.

Definition input_event (x : relay_input) : option RelayEvent :=
  match x with InEvent e => Some e | _ => None end.
Definition input_dial (x : relay_input) : option RelayHandlerInEvent :=
  match x with InDial p => Some (Dial p) | _ => None end.

(** A dial is passed to the handler of the peer it names. *)
Definition notify (x : RelayHandlerInEvent) : relay_action :=
  match x with Dial p => NotifyHandler p (Dial p) end.

Lemma relay_accept_pending st x :
  pending_events (relay_accept st x) = pending_events st ++ option_list (input_event x) ∧
  dive_events (relay_accept st x) = dive_events st ++ option_list (input_dial x) ∧
  addresses (relay_accept st x) = addresses st.
Proof. destruct x as [[]|]; unfold pending_events; simpl; by rewrite ?app_nil_r. Qed.

Lemma relay_accept_all xs : ∀ st,
  pending_events (foldl relay_accept st xs) = pending_events st ++ omap input_event xs ∧
  dive_events (foldl relay_accept st xs) = dive_events st ++ omap input_dial xs.
Proof.
  induction xs as [|x xs IH]; intros st; simpl; [by rewrite !app_nil_r|].
  destruct (IH (relay_accept st x)) as [-> ->].
  destruct (relay_accept_pending st x) as (-> & -> & _). rewrite <- !app_assoc.
  destruct x as [[]|]; done.
Qed.

Lemma drain_relay_all fuel : ∀ st,
  length (pending_events st) + length (dive_events st) < fuel →
  drain_relay fuel st = (GenerateEvent <$> pending_events st) ++ (notify <$> dive_events st).
Proof.
  induction fuel as [|fuel IH]; intros st Hlt; [lia|]. cbn [drain_relay].
  rewrite relay_poll_pending. destruct (pending_events st) as [|e es] eqn:Hp.
  - destruct (dive_events st) as [|[p] ps]; [done|]. rewrite IH; [done|]. simpl in *. lia.
  - rewrite IH; unfold pending_events; simpl in *; rewrite rev_involutive; [done|lia].
Qed.

(** What the swarm does with a substream negotiated for the handler. *)
Definition negotiate (h : RelayHandler Substream) (info : bytes) (x : RelayHandlerOutEvent Substream)
    : RelayHandler Substream :=
  match x with
  | HRelayInbound stream =>
      match upgrade_inbound (listen_protocol h).1 stream info with
      | Ok stream => inject_fully_negotiated_inbound stream h
      | Err e => match e with end
      end
  | HRelayOutbound stream =>
      match upgrade_outbound outbound_protocol.1 stream info with
      | Ok stream => inject_fully_negotiated_outbound stream h
      | Err e => match e with end
      end
  end.

Lemma relay_inject_event_wp peer (r : RelayHandlerOutEvent Substream) st s Q :
  (∀ id st', let w := mkWrappedStream peer id in
     pending_events st' = pending_events st ++
       [match r with HRelayInbound _ => EvRelayInbound w | HRelayOutbound _ => EvRelayOutbound w end] →
     dive_events st' = dive_events st →
     Q [NewUuid; Spawn (TaskStartPoll w)] (Returned st') s) →
  wp calm (relay_inject_event peer r st) s Q.
Proof.
  intros HQ. unfold relay_inject_event, from_neg_to_wraped. destruct r; wp_steps; by apply HQ.
Qed.

End RelayBehaviourLemmas.

(** * Properties *)

Section RelayBehaviourProperties.
Context {EXT : Ext} {Substream : Type}.

(** Polled until it is pending, a connection handler reports every
    inbound substream, then every outbound one, then asks for a new substream
    for every dial, each once and in the order of arrival; one more poll than
    there are elements is enough. *)
Theorem handler_drains (h : RelayHandler Substream) (fuel : nat) :
  handler_size h < fuel →
  drain_handler fuel h =
    ((λ x, HCustom (HRelayInbound x)) <$> inbound h) ++
    ((λ x, HCustom (HRelayOutbound x)) <$> outbound h) ++
    ((λ _, HOutboundSubstreamRequest) <$> events h).
Proof.
  change (_ ++ _) with (handler_pending h). revert h. induction fuel as [|fuel IH]; intros h Hlt; [lia|].
  cbn [drain_handler]. rewrite handler_poll_pending. pose proof (handler_poll_size h) as Hsize.
  destruct (handler_poll h) as [[e h']|]; [|done]. f_equal. apply IH. lia.
Qed.

(** The relay behaviour is a queue: whatever it accepts between polls, the
    swarm then gets the events, oldest first, and after them the dials, in the
    order they were asked for, and nothing else. *)
Theorem relay_behaviour_fifo (xs : list relay_input) (fuel : nat) :
  length xs < fuel →
  drain_relay fuel (foldl relay_accept relay_new xs) =
    (GenerateEvent <$> omap input_event xs) ++ (notify <$> omap input_dial xs).
Proof.
  intros Hlt. destruct (relay_accept_all xs relay_new) as [Hp Hd]. simpl in Hp, Hd.
  rewrite drain_relay_all; rewrite Hp, Hd; [done|].
  cut (length (omap input_event xs) + length (omap input_dial xs) ≤ length xs); [lia|].
  clear. induction xs as [|[e|p] xs IH]; csimpl; lia.
Qed.

(** A negotiated substream gets a fresh stream id and a poll task of its
    own, and its event is queued behind those already there. *)
Theorem relay_inject_event_spec (peer : PeerId) (r : RelayHandlerOutEvent Substream)
    (st : RelayState) (s : Shared) :
  ensures calm s (relay_inject_event peer r st) (λ tr o s', s' = s ∧ ∃ id st',
    let w := mkWrappedStream peer id in
    o = Returned st' ∧ tr = [NewUuid; Spawn (TaskStartPoll w)] ∧
    pending_events st' = pending_events st ++
      [match r with HRelayInbound _ => EvRelayInbound w | HRelayOutbound _ => EvRelayOutbound w end] ∧
    dive_events st' = dive_events st).
Proof.
  apply wp_ensures, relay_inject_event_wp. intros id st' w Hp Hd. split; [done|]. by exists id, st'.
Qed.

(** One round of a stream's poll task: it waits, writes what the node
    sent, hands what it read to the reader by a task, or stops; and when it
    stops, the reader has been told by an error. *)
Theorem start_poll_step_spec (w : WrappedStream) (s : Shared) :
  ensures calm s (start_poll_step w) (λ tr o s', s' = s ∧
    match o with
    | Returned (inl _) =>
        (∃ x, tr = [SelectStream w READ_MAX; SubWrite w x]) ∨
        (∃ x, x ≠ [] ∧ tr = [SelectStream w READ_MAX; Spawn (TaskInSend w (Ok x))])
    | Returned (inr _) => ∃ e, InSend w (Err e) ∈ tr
    | Blocked => tr = [SelectStream w READ_MAX]
    | Panicked | Running => False
    end).
Proof.
  apply wp_ensures. unfold start_poll_step. wp_step.
  destruct r as [[[|x]|]|[[|b data]|e]]; wp_steps; (split; [done|]);
    try (eexists; repeat first [apply list_elem_of_here | apply list_elem_of_further]; fail).
  - left. eauto.
  - right. by exists (b :: data).
Qed.

(** But a failed write ends the poll task by a panic that tells nobody:
    the reader of the stream is left waiting. *)
Theorem start_poll_write_failure (w : WrappedStream) (x : bytes) (s : Shared) :
  ensures {| rely := eq;
             permits := λ c, match c return reply c → Prop with
                             | SelectStream _ _ => λ r, r = inl (Some (WdData x))
                             | SubWrite _ _ => λ r, r = false
                             | _ => λ _, True
                             end;
             may_block := λ _, False |} s (start_poll_step w)
    (λ tr o _, o = Panicked ∧ tr = [SelectStream w READ_MAX; SubWrite w x]).
Proof.
  apply wp_ensures. unfold start_poll_step. wp_norm.
  intros s1 _. split; [done|]. intros r Hr. simpl in Hr. subst r. wp_norm.
  intros s2 _. split; [done|]. intros r Hr. simpl in Hr. subst r. wp_norm. by wp_ret.
Qed.

End RelayBehaviourProperties.

Section RelayBehaviourWitnesses.
Local Existing Instance toy.

Lemma handler_drains_witness :
  let h := mkRelayHandler [1; 2] [3] [Dial (EXT := toy) "p"%string] in
  handler_size (EXT := toy) h < 5 ∧
  drain_handler 5 h =
    [HCustom (HRelayInbound 1); HCustom (HRelayInbound 2); HCustom (HRelayOutbound 3);
     HOutboundSubstreamRequest].
Proof.
  intros h. assert (Hsize : handler_size (EXT := toy) h < 5) by (vm_compute; lia).
  split; [exact Hsize|]. rewrite (handler_drains h 5 Hsize). reflexivity.
Defined.

Lemma relay_behaviour_fifo_witness :
  let w := mkWrappedStream "p"%string "s" in
  let xs := [InDial "q"%string; InEvent (EvRelayInbound w); InDial "r"%string] in
  length xs < 4 ∧
  drain_relay (EXT := toy) 4 (foldl relay_accept relay_new xs) =
    [GenerateEvent (EvRelayInbound w); NotifyHandler "q"%string (Dial "q"%string);
     NotifyHandler "r"%string (Dial "r"%string)].
Proof.
  intros w xs. assert (Hlen : length xs < 4) by (simpl; lia).
  split; [exact Hlen|]. rewrite (relay_behaviour_fifo xs 4 Hlen). reflexivity.
Defined.

End RelayBehaviourWitnesses.
