(* ===== verification/Behaviour.v ===== *)
(** * The network behaviour of a node

    src/network/whitenoise_behaviour.rs: the events of the libp2p behaviours,
    and the event loops that serve the node's requests to the swarm. *)

From S2P Require Import Prelude Proto External State Io Concrete Utils RelayBehaviour.

(** libp2p::request_response::RequestResponseEvent, by its constructors. *)
Inductive RequestResponseMessage (Req Resp : Type) :=
| RrRequest (request : Req)
| RrResponse (response : Resp).
Arguments RrRequest {Req Resp} request.
Arguments RrResponse {Req Resp} response.

Section Behaviour.
Context {EXT : Ext}.

Inductive RequestResponseEvent (Req Resp : Type) :=
| InboundFailure (peer : PeerId)
| OutboundFailure (peer : PeerId)
| RrMessage (peer : PeerId) (message : RequestResponseMessage Req Resp)
| ResponseSent (peer : PeerId).
Arguments RrMessage {Req Resp} peer message.

(** ** WhitenoiseBehaviour *)

Definition inject_relay_event (message : RelayEvent) : io unit :=
  match message with
  | EvRelayInbound x => modify (set_relay_in (λ q, q ++ [x]))
  | EvRelayOutbound x => modify (set_relay_out (λ q, q ++ [x]))
  | EvDisconnect peer =>
      call (SendProxy (mkNodeProxyRequest peer None (Some PoDisconnect))) ≫= unwrap_ok
  end.

(** The swarm polls the relay behaviour and gives the event it generates to the
    behaviour that derives from it. *)
Definition poll_relay (relay : RelayState) : io unit :=
  match relay_poll relay with
  | Some (GenerateEvent e, _) => inject_relay_event e
  | _ => mret tt
  end.

Definition inject_proxy_event (message : RequestResponseEvent Request bytes) : io unit :=
  match message with
  | RrMessage peer (RrRequest request) =>
      call (SendProxy (mkNodeProxyRequest peer (Some request) None)) ≫= unwrap_ok
  | _ => mret tt
  end.

Definition inject_cmd_event (message : RequestResponseEvent Command bytes) : io unit :=
  match message with
  | RrMessage peer (RrRequest request) =>
      call (SendCmd (mkNodeCmdRequest peer (Some request))) ≫= unwrap_ok
  | _ => mret tt
  end.

Definition inject_ack_event (message : RequestResponseEvent Ack bytes) : io unit :=
  match message with
  | RrMessage _ (RrRequest request) =>
      sender_option ← atomic (λ s,
        (set_event_bus (delete (ack_command_id request)) s, event_bus s !! ack_command_id request));
      match sender_option with
      | Some sender => call (SendAckTo sender request) ≫= unwrap_ok
      | None => mret tt
      end
  | _ => mret tt
  end.

(** The events of the behaviours it is derived from. *)
Inductive WhitenoiseEvent :=
| WbProxy (m : RequestResponseEvent Request bytes)
| WbCmd (m : RequestResponseEvent Command bytes)
| WbAck (m : RequestResponseEvent Ack bytes)
| WbRelay (e : RelayEvent).

Definition whitenoise_inject_event (e : WhitenoiseEvent) : io unit :=
  match e with
  | WbProxy m => inject_proxy_event m
  | WbCmd m => inject_cmd_event m
  | WbAck m => inject_ack_event m
  | WbRelay e => inject_relay_event e
  end.

(** ** WhitenoiseServerBehaviour *)

Inductive GossipsubEvent := GsMessage (data : bytes) | GsSubscribed | GsOther.

Definition inject_gossip_event (event : GossipsubEvent) : io unit :=
  match event with
  | GsMessage data => call (SendGossip data) ≫= unwrap_ok
  | _ => mret tt
  end.

Inductive IdentifyEvent :=
| IdReceived (peer : PeerId) (listen_addrs : list Multiaddr) (protocols : list string)
| IdSent | IdError | IdPushed.

Fixpoint kad_add_addresses (peer : PeerId) (addrs : list Multiaddr) : io unit :=
  match addrs with
  | [] => mret tt
  | addr :: rest => call (SwarmCall (KadAddAddress peer addr));; kad_add_addresses peer rest
  end.

Definition is_server_node (protocols : list string) : bool :=
  existsb (str_contains "meshsub") protocols.

Definition inject_identify_event (message : IdentifyEvent) : io unit :=
  match message with
  | IdReceived peer listen_addrs protocols =>
      if is_server_node protocols then kad_add_addresses peer listen_addrs else mret tt
  | _ => mret tt
  end.

(** libp2p::kad::KademliaEvent, by its constructors; each is only logged. *)
Inductive KademliaEvent :=
| KadRoutablePeer (peer : PeerId) (address : Multiaddr)
| KadRoutingUpdated (peer : PeerId) (addresses : list Multiaddr)
| KadUnroutablePeer (peer : PeerId)
| KadQueryResult
| KadPendingRoutablePeer (peer : PeerId) (address : Multiaddr).

Definition inject_kad_event (message : KademliaEvent) : io unit :=
  match message with
  | KadRoutablePeer _ _ | KadRoutingUpdated _ _ | KadUnroutablePeer _ | KadQueryResult
  | KadPendingRoutablePeer _ _ => mret tt
  end.

(** The event [()] of the inner behaviour. *)
Definition inject_inner_event (message : unit) : io unit := mret tt.

(** The behaviour of a server: its inner behaviour and the others it derives
    from, each with the handler of its events. *)
Inductive WhitenoiseServerEvent :=
| SvInner (e : unit) | SvGossip (e : GossipsubEvent) | SvKad (e : KademliaEvent)
| SvIdentify (e : IdentifyEvent).

Definition server_inject_event (e : WhitenoiseServerEvent) : io unit :=
  match e with
  | SvInner e => inject_inner_event e
  | SvGossip e => inject_gossip_event e
  | SvKad e => inject_kad_event e
  | SvIdentify e => inject_identify_event e
  end.

(** ** WhitenoiseClientBehaviour *)

Inductive WhitenoiseClientEvent :=
| ClInner (e : unit) | ClGossip (e : GossipsubEvent) | ClIdentify (e : IdentifyEvent).

(** A client drops the gossip and identify events. *)
Definition client_inject_event (e : WhitenoiseClientEvent) : io unit :=
  match e with
  | ClInner e => inject_inner_event e
  | ClGossip _ => mret tt
  | ClIdentify _ => mret tt
  end.

(** ** get_kad_peers *)

(** The addresses without a "p2p" component, in text. *)
Definition plain_addresses (addrs : list Multiaddr) : list string :=
  List.filter (λ a, negb (str_contains "p2p" a)) (multiaddr_to_string <$> addrs).

Definition kad_node_info (e : KadEntry) : NodeInfo :=
  mkNodeInfo (to_base58 (kad_peer e)) (plain_addresses (kad_addresses e)).

(** The closure of the two [for_each], on the state ([cnt], [peers]). *)
Definition kad_visit (number : Z) (st : Z * list NodeInfo) (e : KadEntry) : Z * list NodeInfo :=
  let '(cnt, peers) := st in
  if decide (cnt < number)%Z then
    if kad_connected e then ((cnt + 1)%Z, peers ++ [kad_node_info e]) else st
  else st.

Definition get_kad_peers (kbuckets : list (list KadEntry)) (number : Z) : list NodeInfo :=
  (fold_left (λ st kbucket, fold_left (kad_visit number) kbucket st) kbuckets (0%Z, [])).2.

(** ** The event loops *)

Fixpoint add_addresses (peer : PeerId) (addrs : list Multiaddr) : io unit :=
  match addrs with
  | [] => mret tt
  | x :: rest =>
      call (SwarmCall (AckAddAddress peer x));;
      call (SwarmCall (ProxyAddAddress peer x));;
      add_addresses peer rest
  end.

Definition insert_addresses (peer : PeerId) (addrs : list Multiaddr) (self : RelayState) : RelayState :=
  mkRelayState (out_events self) (dive_events self) (<[peer := addrs]> (addresses self)).

(** The requests both loops serve in the same way; the result is the relay
    behaviour of the swarm. *)
Definition serve_common (relay : RelayState) (r : NodeRequest) : io RelayState :=
  match r with
  | NrProxyRequest npr =>
      request ← unwrap (proxy_request npr);
      call (SwarmCall (ProxySendRequest (npr_peer npr) request));;
      mret relay
  | NrCmdRequest ncr =>
      request ← unwrap (cmd_request ncr);
      call (SwarmCall (CmdSendRequest (ncr_peer ncr) request));;
      mret relay
  | NrAddPeerAddressesRequest peer addrs =>
      add_addresses peer addrs;;
      mret (insert_addresses peer addrs relay)
  | NrAckRequest nar =>
      request ← unwrap (ack_request nar);
      call (SwarmCall (AckSendRequest (nar_peer nar) request));;
      mret relay
  | NrNewStreamRequest peer => mret (new_stream peer relay)
  | NrGetMainNetsRequest _ _ _ _ | NrPublishData _ _ => mret relay
  end.

Definition client_serve := serve_common.

Definition server_serve (relay : RelayState) (r : NodeRequest) : io RelayState :=
  match r with
  | NrGetMainNetsRequest _ _ num sender =>
      kbuckets ← call KadBuckets;
      let peers := get_kad_peers kbuckets num in
      call (SwarmCall (ReplyPeers sender peers)) ≫= unwrap_ok;;
      mret relay
  | NrPublishData data sender =>
      call (SwarmCall (GossipPublish "noise_topic" data)) ≫= unwrap_ok;;
      call (SwarmCall (ReplyBool sender true)) ≫= unwrap_ok;;
      mret relay
  | _ => serve_common relay r
  end.

(** The loop of both: an event of the swarm itself is unexpected. *)
Definition event_loop_step (serve : RelayState → NodeRequest → io RelayState) (relay : RelayState)
    : io (RelayState + unit) :=
  selected ← call SelectSwarm;
  match selected with
  | inl _ => Panic
  | inr None => mret (inr tt)
  | inr (Some node_request) =>
      relay ← serve relay node_request;
      mret (inl relay)
  end.

Definition whitenoise_client_event_loop (fuel : nat) (relay : RelayState) : io unit :=
  loop (event_loop_step client_serve) fuel relay.

Definition whitenoise_server_event_loop (fuel : nat) (relay : RelayState) : io unit :=
  loop (event_loop_step server_serve) fuel relay.

End Behaviour.
Arguments RrMessage {_ Req Resp} peer message.
Arguments InboundFailure {_ Req Resp} peer.
Arguments OutboundFailure {_ Req Resp} peer.
Arguments ResponseSent {_ Req Resp} peer.

(** * Lemmas *)

Section BehaviourLemmas.
Context {EXT : Ext}.

Lemma inject_ack_wp peer a s Q :
  (∀ tr, tr = match event_bus s !! ack_command_id a with Some tx => [SendAckTo tx a] | None => [] end →
     Q tr (Returned tt) (set_event_bus (delete (ack_command_id a)) s)) →
  wp calm (inject_ack_event (RrMessage peer (RrRequest a))) s Q.
Proof.
  intros HQ. unfold inject_ack_event. wp_step.
  destruct (event_bus s !! _); wp_steps; by apply HQ.
Qed.

(** The nested iteration visits the entries of all buckets in order. *)
Lemma fold_buckets {A} (f : A → KadEntry → A) kbuckets a :
  fold_left (λ st kbucket, fold_left f kbucket st) kbuckets a = fold_left f (concat kbuckets) a.
Proof.
  revert a. induction kbuckets as [|b bs IH]; intros a; [done|]. simpl.
  by rewrite IH, fold_left_app.
Qed.

Lemma kad_visit_fold number l : ∀ peers,
  fold_left (kad_visit number) l (Z.of_nat (length peers), peers) =
    let new := take (Z.to_nat number - length peers) (filter (λ e, kad_connected e = true) l) in
    (Z.of_nat (length peers + length new), peers ++ (kad_node_info <$> new)).
Proof.
  induction l as [|e l IH]; intros peers; cbn [fold_left].
  - rewrite filter_nil, take_nil. simpl. by rewrite app_nil_r, Nat.add_0_r.
  - unfold kad_visit at 2. case_decide as Hlt.
    + destruct (kad_connected e) eqn:He.
      * rewrite filter_cons_True by done.
        replace (Z.of_nat (length peers) + 1)%Z with (Z.of_nat (length (peers ++ [kad_node_info e])))
          by (rewrite length_app; simpl; lia).
        rewrite IH, length_app. simpl length.
        replace (Z.to_nat number - length peers) with (S (Z.to_nat number - (length peers + 1))) by lia.
        simpl. rewrite <- app_assoc. simpl. do 2 f_equal. lia.
      * rewrite filter_cons_False by (by rewrite He). apply IH.
    + replace (Z.to_nat number - length peers) with 0 by lia. simpl. rewrite IH.
      replace (Z.to_nat number - length peers) with 0 by lia. done.
Qed.

Lemma plain_addresses_spec addrs a :
  a ∈ plain_addresses addrs ↔ a ∈ (multiaddr_to_string <$> addrs) ∧ str_contains "p2p" a = false.
Proof.
  unfold plain_addresses. rewrite !list_elem_of_In, List.filter_In. by rewrite negb_true_iff.
Qed.

Lemma add_addresses_wp peer addrs s Q :
  Q (addrs ≫= λ x, [SwarmCall (AckAddAddress peer x); SwarmCall (ProxyAddAddress peer x)])
    (Returned tt) s →
  wp calm (add_addresses peer addrs) s Q.
Proof.
  revert Q. induction addrs as [|x addrs IH]; intros Q HQ; cbn [add_addresses]; [by wp_step|].
  wp_step. wp_step. by apply IH.
Qed.

Lemma get_kad_peers_eq kbuckets number :
  get_kad_peers kbuckets number =
    kad_node_info <$> take (Z.to_nat number) (filter (λ e, kad_connected e = true) (concat kbuckets)).
Proof.
  unfold get_kad_peers. rewrite fold_buckets. change 0%Z with (Z.of_nat (length (@nil NodeInfo))).
  rewrite kad_visit_fold. simpl. by rewrite Nat.sub_0_r.
Qed.

End BehaviourLemmas.

(** * Properties *)

Section BehaviourProperties.
Context {EXT : Ext}.

(** An acknowledgement from the network goes to the task that awaits it
    under its command id, at most once: its registration is removed, so a
    repetition is dropped, like an acknowledgement nobody awaits. *)
Theorem ack_delivered_once (peer peer' : PeerId) (a a' : Ack) (s : Shared) :
  ack_command_id a' = ack_command_id a →
  ensures calm s
    (inject_ack_event (RrMessage peer (RrRequest a));; inject_ack_event (RrMessage peer' (RrRequest a')))
    (λ tr o s', o = Returned tt ∧
      tr = match event_bus s !! ack_command_id a with Some tx => [SendAckTo tx a] | None => [] end ∧
      s' = set_event_bus (delete (ack_command_id a)) s).
Proof.
  intros Hid. apply wp_ensures. wp_use inject_ack_wp. intros tr ->. cbn [after].
  apply inject_ack_wp. intros tr ->. rewrite Hid. simpl. rewrite lookup_delete_eq, app_nil_r.
  split_and!; [done..|]. destruct s; unfold set_event_bus; simpl. by rewrite delete_delete_eq.
Qed.

(** The peers a node returns are the first [number] connected entries of
    its routing table, in the order of the buckets (none for a number below
    one), each with its id and those of its addresses without a peer
    component. *)
Theorem get_kad_peers_spec (kbuckets : list (list KadEntry)) (number : Z) :
  get_kad_peers kbuckets number =
    kad_node_info <$> take (Z.to_nat number) (filter (λ e, kad_connected e = true) (concat kbuckets)) ∧
  (∀ e a, a ∈ ni_addr (kad_node_info e) ↔
     a ∈ (multiaddr_to_string <$> kad_addresses e) ∧ str_contains "p2p" a = false).
Proof.
  split; [apply get_kad_peers_eq|intros; apply plain_addresses_spec].
Qed.

(** What a server does for a request of its tasks: requests, commands and
    acknowledgements go to the peer they name, a peer's addresses are registered
    with each protocol, a new stream is queued for dialling, a peer list is
    answered from the routing table, and data is published before the publisher
    is answered.  A request without its message panics the loop. *)
Theorem server_serve_spec (relay : RelayState) (r : NodeRequest) (s : Shared) :
  ensures calm s (server_serve relay r) (λ tr o s', s' = s ∧
    match r with
    | NrProxyRequest npr =>
        match proxy_request npr with
        | Some m => o = Returned relay ∧ tr = [SwarmCall (ProxySendRequest (npr_peer npr) m)]
        | None => o = Panicked ∧ tr = []
        end
    | NrCmdRequest ncr =>
        match cmd_request ncr with
        | Some m => o = Returned relay ∧ tr = [SwarmCall (CmdSendRequest (ncr_peer ncr) m)]
        | None => o = Panicked ∧ tr = []
        end
    | NrAckRequest nar =>
        match ack_request nar with
        | Some m => o = Returned relay ∧ tr = [SwarmCall (AckSendRequest (nar_peer nar) m)]
        | None => o = Panicked ∧ tr = []
        end
    | NrNewStreamRequest peer => o = Returned (new_stream peer relay) ∧ tr = []
    | NrAddPeerAddressesRequest peer addrs =>
        o = Returned (insert_addresses peer addrs relay) ∧
        tr = addrs ≫= λ x, [SwarmCall (AckAddAddress peer x); SwarmCall (ProxyAddAddress peer x)]
    | NrGetMainNetsRequest _ _ num sender =>
        o = Returned relay ∧ ∃ kbuckets,
        tr = [KadBuckets; SwarmCall (ReplyPeers sender (get_kad_peers kbuckets num))]
    | NrPublishData data sender =>
        o = Returned relay ∧
        tr = [SwarmCall (GossipPublish "noise_topic" data); SwarmCall (ReplyBool sender true)]
    end).
Proof.
  apply wp_ensures. unfold server_serve, serve_common. destruct r as [npr|ncr|nar|p|p addrs|id p num tx|d tx].
  - destruct (proxy_request npr); by wp_steps.
  - destruct (cmd_request ncr); by wp_steps.
  - destruct (ack_request nar); by wp_steps.
  - by wp_steps.
  - wp_use add_addresses_wp. wp_step. by rewrite app_nil_r.
  - wp_steps. eauto.
  - by wp_steps.
Qed.

(** C17: a stream, from the request to the queues of its two ends.  The loop of
    the opening node, with nothing else to do, turns a request into one dial of
    that peer; the handler of the connection turns the dial into one request for
    a substream of the relay protocol; and the substream negotiated for it comes
    back through the handler and the behaviour as one outgoing stream to that
    peer, with a poll task of its own.  At the other end the same substream
    becomes one incoming stream from the peer that dialled. *)
Theorem stream_established {Substream : Type} (relay : RelayState) (opener peer : PeerId)
    (sub sub' : Substream) (info : bytes) (s s' : Shared) :
  pending_events relay = [] → dive_events relay = [] →
  ensures calm s (client_serve relay (NrNewStreamRequest peer)) (λ tr o _, tr = [] ∧
    ∃ relay1 relay2 h1, o = Returned relay1 ∧
    relay_poll relay1 = Some (NotifyHandler peer (Dial peer), relay2) ∧ relay_poll relay2 = None ∧
    handler_poll (handler_inject_event (Dial peer) (new_handler relay2).2) = Some (HOutboundSubstreamRequest, h1) ∧
    handler_poll (negotiate h1 info (HRelayOutbound sub)) =
      Some (HCustom (HRelayOutbound sub), handler_new) ∧
    ensures calm s (relay_inject_event peer (HRelayOutbound sub) relay2) (λ tr o _, ∃ w relay3 relay4,
      o = Returned relay3 ∧ tr = [NewUuid; Spawn (TaskStartPoll w)] ∧ remote_peer_id w = peer ∧
      relay_poll relay3 = Some (GenerateEvent (EvRelayOutbound w), relay4) ∧
      relay_poll relay4 = None ∧
      ensures calm s (inject_relay_event (EvRelayOutbound w)) (λ tr o s1, tr = [] ∧
        o = Returned tt ∧ s1 = set_relay_out (λ q, q ++ [w]) s))) ∧
  handler_poll (negotiate handler_new info (HRelayInbound sub')) =
    Some (HCustom (HRelayInbound sub'), handler_new) ∧
  ensures calm s' (relay_inject_event opener (HRelayInbound sub') relay) (λ tr o _, ∃ v relay3 relay4,
    o = Returned relay3 ∧ tr = [NewUuid; Spawn (TaskStartPoll v)] ∧ remote_peer_id v = opener ∧
    relay_poll relay3 = Some (GenerateEvent (EvRelayInbound v), relay4) ∧
    ensures calm s' (inject_relay_event (EvRelayInbound v)) (λ tr o s1, tr = [] ∧
      o = Returned tt ∧ s1 = set_relay_in (λ q, q ++ [v]) s')).
Proof.
  intros Hp Hd. split_and!; [|done|].
  - apply wp_ensures. unfold client_serve, serve_common. wp_step. split; [done|].
    set (relay2 := mkRelayState [] [] (addresses relay)).
    exists (new_stream peer relay), relay2, handler_new.
    split; [done|]. split.
    { rewrite relay_poll_pending. change (pending_events (new_stream _ _)) with (pending_events relay).
      rewrite Hp. cbn [new_stream dive_events]. by rewrite Hd. }
    do 3 (split; [done|]). apply wp_ensures, relay_inject_event_wp. intros id relay3 w Hp3 Hd3.
    exists w, relay3, (mkRelayState [] [] (addresses relay3)). split; [done|]. split; [done|]. split; [done|].
    rewrite relay_poll_pending, Hp3, Hd3. do 2 (split; [done|]). apply wp_ensures. cbn [inject_relay_event]. by wp_steps.
  - apply wp_ensures, relay_inject_event_wp. intros id relay3 v Hp3 Hd3.
    exists v, relay3, (mkRelayState [] [] (addresses relay3)). do 3 (split; [done|]).
    rewrite relay_poll_pending, Hp3, Hd3, Hp, Hd. split; [done|]. apply wp_ensures. cbn [inject_relay_event]. by wp_steps.
Qed.

End BehaviourProperties.

Section BehaviourWitnesses.
Local Existing Instance toy.

Definition toy_ack (data : bytes) : Ack := mkAck "id" true data.

Lemma ack_delivered_once_witness :
  ack_command_id (toy_ack [x02]) = ack_command_id (toy_ack [x01]) ∧
  ensures calm (set_event_bus <["id"%string := 7]> empty_shared)
    (inject_ack_event (RrMessage "p"%string (RrRequest (toy_ack [x01])));;
     inject_ack_event (RrMessage "q"%string (RrRequest (toy_ack [x02]))))
    (λ tr o s', o = Returned tt ∧ tr = [SendAckTo 7 (toy_ack [x01])] ∧
       event_bus s' = ∅).
Proof.
  split; [reflexivity|]. intros e n He.
  destruct (ack_delivered_once (EXT := toy) "p"%string "q"%string (toy_ack [x01]) (toy_ack [x02])
    (set_event_bus <["id"%string := 7]> empty_shared) eq_refl e n He) as (Ho & Htr & Hs).
  split; [exact Ho|]. split; [rewrite Htr; reflexivity|]. rewrite Hs. reflexivity.
Defined.

Lemma stream_established_witness :
  let w (id : string) : WrappedStream := mkWrappedStream (EXT := toy) "b"%string id in
  pending_events (EXT := toy) relay_new = [] ∧
  ensures calm empty_shared (client_serve relay_new (NrNewStreamRequest "b"%string))
    (λ tr o _, ∃ relay1 relay2, o = Returned relay1 ∧
       relay_poll relay1 = Some (NotifyHandler "b"%string (Dial "b"%string), relay2)).
Proof.
  intros w. split; [reflexivity|]. intros e n He.
  destruct (stream_established (EXT := toy) relay_new "a"%string "b"%string 1 2 [] empty_shared
    empty_shared eq_refl eq_refl) as [Hopen _].
  destruct (Hopen e n He) as (_ & relay1 & relay2 & h1 & Ho & Hpoll & _).
  exists relay1, relay2. split; [exact Ho|exact Hpoll].
Defined.

End BehaviourWitnesses.
