(* ===== verification/Requests.v ===== *)
(** * Types of requests and commands

    A request to a proxy node and a command to a relay node say their type and
    carry the encoding of a message of that type (src/request.proto,
    src/command.proto), as relay messages do; a gossip message is an encrypted
    negotiation.  What the tasks of a node ask its event loop to send is typed in
    this sense ([node_request_ok]); [System] proves that they ask nothing else. *)

From S2P Require Import Prelude Proto External State Io Concrete Utils Connection Account Node.
From S2P Require Import RelayEvents Proxy Publish Commands Behaviour.

Section Requests.
Context {EXT : Ext}.

(** The typing rules.  The WhiteNoise id of a registration has a hash. *)
Inductive request_typed (q : Request) : Prop :=
| typed_new_proxy (x : NewProxy) :
    req_reqtype q = reqtype_i32 RqNewProxy → pb_decode (req_data q) = Some x →
    is_Some (from_whitenoise_to_hash (np_white_noise_id x)) → request_typed q
| typed_main_net_peers (x : MainNetPeers) :
    req_reqtype q = reqtype_i32 RqMainNetPeers → pb_decode (req_data q) = Some x → request_typed q
| typed_new_circuit (x : NewCircuit) :
    req_reqtype q = reqtype_i32 RqNewCircuit → pb_decode (req_data q) = Some x → request_typed q
| typed_neg_plaintext (x : NegPlaintext) :
    req_reqtype q = reqtype_i32 RqNegPlainText → pb_decode (req_data q) = Some x → request_typed q
| typed_decrypt (x : Decrypt) :
    req_reqtype q = reqtype_i32 RqDecryptGossip → pb_decode (req_data q) = Some x → request_typed q.

Definition command_typed (c : Command) : Prop :=
  command_type c = cmdtype_i32 CtSessionExPend ∧
  ∃ x : SessionExpend, pb_decode (command_data c) = Some x.

Definition gossip_typed (d : bytes) : Prop := ∃ x : EncryptedNeg, pb_decode d = Some x.

(** The same on what a program writes, before it is decoded. *)
Inductive writes_request (q : Request) : Prop :=
| writes_new_proxy k t id :
    from_keypair_to_whitenoise_id k = Some id →
    req_reqtype q = reqtype_i32 RqNewProxy → req_data q = pb_encode (mkNewProxy t id) → writes_request q
| writes_main_net_peers (x : MainNetPeers) :
    req_reqtype q = reqtype_i32 RqMainNetPeers → req_data q = pb_encode x → writes_request q
| writes_new_circuit (x : NewCircuit) :
    req_reqtype q = reqtype_i32 RqNewCircuit → req_data q = pb_encode x → writes_request q
| writes_neg_plaintext (x : NegPlaintext) :
    req_reqtype q = reqtype_i32 RqNegPlainText → req_data q = pb_encode x → writes_request q
| writes_decrypt (x : Decrypt) :
    req_reqtype q = reqtype_i32 RqDecryptGossip → req_data q = pb_encode x → writes_request q.

Definition writes_command (c : Command) : Prop :=
  command_type c = cmdtype_i32 CtSessionExPend ∧ ∃ x : SessionExpend, command_data c = pb_encode x.

Definition writes_gossip (d : bytes) : Prop := ∃ x : EncryptedNeg, d = pb_encode x.

(** The obligation on a request to the event loop: its message is there (the loop
    unwraps it) and typed. *)
Definition node_request_ok (r : NodeRequest) : Prop :=
  match r with
  | NrProxyRequest npr => from_option writes_request False (proxy_request npr)
  | NrCmdRequest ncr => from_option writes_command False (cmd_request ncr)
  | NrAckRequest nar => from_option (λ _, True) False (ack_request nar)
  | NrPublishData d _ => writes_gossip d
  | _ => True
  end.

(** ** Lemmas *)

Lemma writes_request_typed `{!CodecLaws, !Base58Laws} q : writes_request q → request_typed q.
Proof.
  destruct 1 as [k t id Hid Hty Hd|x Hty Hd|x Hty Hd|x Hty Hd|x Hty Hd];
    [eapply typed_new_proxy|eapply typed_main_net_peers|eapply typed_new_circuit|
     eapply typed_neg_plaintext|eapply typed_decrypt];
    try done; try (rewrite Hd; apply pb_decode_encode).
  simpl. pose proof (whitenoise_id_hash k) as Hhash. rewrite Hid in Hhash.
  destruct (id_key k) as [[? pub]|]; [|done]. by eexists.
Qed.

Lemma writes_command_typed `{!CodecLaws} c : writes_command c → command_typed c.
Proof. intros (Hty & x & Hd). split; [done|]. exists x. rewrite Hd. apply pb_decode_encode. Qed.

Lemma writes_gossip_typed `{!CodecLaws} d : writes_gossip d → gossip_typed d.
Proof. intros (x & ->). exists x. apply pb_decode_encode. Qed.

(** The requests the program makes. *)
Lemma ok_registration p k from t id :
  from_keypair_to_whitenoise_id k = Some id →
  node_request_ok (NrProxyRequest (mkNodeProxyRequest p
    (Some (identified_request from (reqtype_i32 RqNewProxy) (pb_encode (mkNewProxy t id)))) None)).
Proof. intros Hid. by eapply writes_new_proxy. Qed.

Lemma ok_main_nets p from n :
  node_request_ok (NrProxyRequest (mkNodeProxyRequest p
    (Some (identified_request from (reqtype_i32 RqMainNetPeers) (pb_encode (mkMainNetPeers n)))) None)).
Proof. by eapply writes_main_net_peers. Qed.

Lemma ok_circuit p from (x : NewCircuit) :
  node_request_ok (NrProxyRequest (mkNodeProxyRequest p
    (Some (identified_request from (reqtype_i32 RqNewCircuit) (pb_encode x))) None)).
Proof. by eapply writes_new_circuit. Qed.

Lemma ok_negotiation p from (x : NegPlaintext) :
  node_request_ok (NrProxyRequest (mkNodeProxyRequest p
    (Some (identified_request from (reqtype_i32 RqNegPlainText) (pb_encode x))) None)).
Proof. by eapply writes_neg_plaintext. Qed.

Lemma ok_decryption p from (x : Decrypt) :
  node_request_ok (NrProxyRequest (mkNodeProxyRequest p
    (Some (identified_request from (reqtype_i32 RqDecryptGossip) (pb_encode x))) None)).
Proof. by eapply writes_decrypt. Qed.

Lemma ok_extension p from (x : SessionExpend) :
  node_request_ok (NrCmdRequest (mkNodeCmdRequest p
    (Some (identified_command from (cmdtype_i32 CtSessionExPend) (pb_encode x))))).
Proof. split; [done|]. by eexists. Qed.

Lemma ok_publication (x : EncryptedNeg) tx : node_request_ok (NrPublishData (pb_encode x) tx).
Proof. by exists x. Qed.

Lemma ok_acknowledgement p id res d : node_request_ok (ack_request_to p id res d).
Proof. done. Qed.

End Requests.

#[export] Hint Resolve ok_registration ok_main_nets ok_circuit ok_negotiation ok_decryption ok_extension
  ok_publication ok_acknowledgement : keeps.
#[export] Hint Extern 1 (node_request_ok (NrAddPeerAddressesRequest _ _)) => exact I : keeps.
#[export] Hint Extern 1 (node_request_ok (NrNewStreamRequest _)) => exact I : keeps.
#[export] Hint Extern 1 (node_request_ok (NrGetMainNetsRequest _ _ _ _)) => exact I : keeps.

(** * Properties *)

Section RequestsProperties.
Context {EXT : Ext}.

(** Progress of the proxy task: a typed registration is answered, and so is a
    typed request for peers once the event loop has listed them; the task does
    not panic on either. *)
Lemma typed_request_handled (node : Node) (npr : NodeProxyRequest) (q : Request) (s : Shared) :
  request_typed q → proxy_request npr = Some q → peer_operation npr = None →
  req_reqtype q = reqtype_i32 RqNewProxy ∨ req_reqtype q = reqtype_i32 RqMainNetPeers →
  ensures calm s (handle_proxy_request node npr) (λ tr o _,
    (o = Returned tt ∧ ∃ res d,
       SendNodeRequest (ack_request_to (npr_peer npr) (req_req_id q) res d) ∈ tr) ∨
    (o = Blocked ∧ req_reqtype q = reqtype_i32 RqMainNetPeers)).
Proof.
  intros Hq Hr Hop Hty. apply wp_ensures. unfold handle_proxy_request. rewrite Hop, Hr. wp_norm.
  destruct Hq as [x Ht Hx [h Hh]|x Ht Hx|x Ht _|x Ht _|x Ht _]; rewrite Ht in Hty |- *; try (by destruct Hty);
    repeat rewrite decide_False by done; rewrite decide_True by done.
  - unfold handle_new_proxy. rewrite Hx. wp_norm. rewrite Hh. wp_norm. wp_step.
    destruct (bool_decide _); wp_steps; left; (split; [done|]); do 2 eexists; apply list_elem_of_here.
  - unfold handle_main_net_peers, request_main_nets, send_ack, new_channel. rewrite Hx. wp_steps; [by right|].
    destruct r as [infos|]; wp_steps; left; (split; [done|]); do 2 eexists;
      apply list_elem_of_further, list_elem_of_further, list_elem_of_here.
Qed.

End RequestsProperties.
