(* ===== verification/Codecs.v ===== *)
(** * The request/response codecs

    src/network/protocols/proxy_protocol.rs, cmd_protocol.rs and ack_protocol.rs:
    how a request and a response of each of the three protocols are written to
    and read from a substream.  The three codecs have one interface, [RrCodec];
    its laws are proved once for the bodies the three files share, and the three
    instances differ in their message type and protocol name. *)

From S2P Require Import Prelude Proto External State Io Packing Concrete.

(** [io::Result]: the kinds of errors the codecs make. *)
Inductive io_error := InvalidData.

(** libp2p's [upgrade::read_one] and [write_with_len_prefix] on the bytes in
    transit. *)
Class LenPrefix (IO : Type) := {
  read_one : nat → IO → result bytes ReadOneError * IO;
  write_with_len_prefix : bytes → IO → IO
}.

(** Documented: what was written first is read first, if it is not longer than
    the limit of the reader. *)
Class LenPrefixLaws (IO : Type) `{!LenPrefix IO} (quiet : IO) : Prop :=
  read_one_write : ∀ max d, length d ≤ max →
    read_one max (write_with_len_prefix d quiet) = (Ok d, quiet).

Definition MAX_SIZE : nat := 8 * 1024 * 1024.

(** The interface the event loops use; [None] is a panic. *)
Class RrCodec (IO Request Response : Type) := {
  protocol_name : bytes;
  read_request : IO → option (result Request io_error * IO);
  read_response : IO → result Response io_error * IO;
  write_request : Request → IO → IO;
  write_response : Response → IO → IO
}.

Section Codecs.
Context {EXT : Ext} {IO : Type} `{!LenPrefix IO}.

(** ** The shared bodies *)

Definition read_message {M} `{!PbCodec M} (io : IO) : option (result M io_error * IO) :=
  match read_one MAX_SIZE io with
  | (Err _, io) => Some (Err InvalidData, io)
  | (Ok [], io) => Some (Err InvalidData, io)
  | (Ok vec, io) => m ← pb_decode vec; Some (Ok m, io)
  end.

Definition read_bytes (io : IO) : result bytes io_error * IO :=
  match read_one MAX_SIZE io with
  | (Err _, io) => (Err InvalidData, io)
  | (Ok vec, io) => (Ok vec, io)
  end.

Definition write_message {M} `{!PbCodec M} (m : M) (io : IO) : IO :=
  write_with_len_prefix (pb_encode m) io.

(** ** The three protocols *)

#[export] Instance ProxyCodec : RrCodec IO Request bytes := {|
  protocol_name := as_bytes "/proxy";
  read_request := read_message;
  read_response := read_bytes;
  write_request := write_message;
  write_response := write_with_len_prefix
|}.

#[export] Instance CmdCodec : RrCodec IO Command bytes := {|
  protocol_name := as_bytes "/cmd";
  read_request := read_message;
  read_response := read_bytes;
  write_request := write_message;
  write_response := write_with_len_prefix
|}.

#[export] Instance AckCodec : RrCodec IO Ack bytes := {|
  protocol_name := as_bytes "/ack";
  read_request := read_message;
  read_response := read_bytes;
  write_request := write_message;
  write_response := write_with_len_prefix
|}.

End Codecs.

(** * Properties *)

Section CodecsProperties.
Context {EXT : Ext} {IO : Type} `{!LenPrefix IO} (quiet : IO) `{!LenPrefixLaws IO quiet}.

Lemma read_message_write `{!PbCodec M, !PbRoundtrip M} (m : M) :
  length (pb_encode m) ≤ MAX_SIZE →
  read_message (write_message m quiet) =
    Some (if decide (pb_encode m = []) then Err InvalidData else Ok m, quiet).
Proof.
  intros Hlen. unfold read_message, write_message. rewrite read_one_write by done.
  destruct (pb_encode m) as [|b bs] eqn:Hm; [done|]. rewrite decide_False by done.
  rewrite <- Hm, pb_decode_encode. done.
Qed.

Lemma read_bytes_write (v : bytes) :
  length v ≤ MAX_SIZE → read_bytes (write_with_len_prefix v quiet) = (Ok v, quiet).
Proof. intros Hlen. unfold read_bytes. by rewrite read_one_write. Qed.

(** What a codec with messages [M] promises to the two sides of an exchange. *)
Definition exchanges {M} `{!PbCodec M} (C : RrCodec IO M bytes) : Prop :=
  (∀ m, length (pb_encode m) ≤ MAX_SIZE →
     read_request (write_request m quiet) =
       Some (if decide (pb_encode m = []) then Err InvalidData else Ok m, quiet)) ∧
  (∀ v, length v ≤ MAX_SIZE → read_response (write_response v quiet) = (Ok v, quiet)).

(** C32: with each of the three protocols the reader gets the request the
    writer wrote, and the response too, up to 8 MiB; except that a request that
    encodes to no bytes, every field being its default, is refused as invalid
    data. *)
Theorem codecs_exchange `{!CodecLaws} :
  exchanges ProxyCodec ∧ exchanges CmdCodec ∧ exchanges AckCodec.
Proof.
  split_and!; (split; [intros m; apply read_message_write|apply read_bytes_write]).
Qed.

End CodecsProperties.

Section CodecsWitnesses.
Local Existing Instance toy.

(** A queue of framed messages. *)
#[local] Instance toy_len_prefix : LenPrefix (list bytes) := {|
  read_one max io := match io with
                     | d :: io => (if decide (length d ≤ max) then Ok d else Err (ReadIo "eof"), io)
                     | [] => (Err (ReadIo "eof"), [])
                     end;
  write_with_len_prefix d io := io ++ [d]
|}.

Lemma toy_len_prefix_laws : LenPrefixLaws (list bytes) [].
Proof. intros max d Hd. simpl. by rewrite decide_True. Qed.

Lemma codecs_exchange_witness :
  LenPrefixLaws (list bytes) [] ∧
  read_response (RrCodec := AckCodec) (write_response (RrCodec := AckCodec) [x01] []) = (Ok [x01], []).
Proof.
  split; [exact toy_len_prefix_laws|].
  apply (proj2 (proj2 (proj2 (@codecs_exchange toy (list bytes) _ [] toy_len_prefix_laws toy_codec_laws)))).
  change (1 ≤ MAX_SIZE). unfold MAX_SIZE. lia.
Defined.

End CodecsWitnesses.
