(* ===== verification/Client.v ===== *)
(** * The client

    src/sdk/client.rs: the SDK a client program uses, and the tasks that accept
    streams and announce sessions. *)

From S2P Require Import Prelude Proto External State Io Concrete Utils Connection Account Node Host.

Section Client.
Context {EXT : Ext}.

(** ** The tasks *)

Definition process_new_stream (fuel : nat) (node : Node) : io unit :=
  loop (λ _ : unit,
    stream ← wait_for_relay_stream fuel;
    spawn (TaskRelayHandler stream node None);;
    mret (inl tt)) fuel tt.

(** The closure of [for_each]: the last circuit of the iteration that was not
    announced is kept. *)
Definition visit_circuit (exist_session : gmap string bool)
    (acc : option (string * CircuitConn)) (x : string * CircuitConn) : option (string * CircuitConn) :=
  match exist_session !! x.1 with
  | None => Some x
  | Some _ => acc
  end.

(** One iteration.  [order] is the iteration order of the [HashMap], which the
    standard library leaves open. *)
Definition new_session_step (order : gmap string CircuitConn → list (string * CircuitConn))
    (exist_session : gmap string bool) : io (gmap string bool) :=
  len ← gets (λ s, size (circuit_map s));
  exist_session ←
    (if decide (0 < len) then
       found ← gets (λ s, fold_left (visit_circuit exist_session) (order (circuit_map s)) None);
       match found with
       | Some (sid, cc) =>
           match transport_state cc with
           | Some _ =>
               call (SendSession sid) ≫= unwrap_ok;;
               mret (<[sid := true]> exist_session)
           | None => mret exist_session
           end
       | None => mret exist_session
       end
     else mret exist_session);
  call (Sleep 50000);;
  mret exist_session.

Definition process_new_session (order : gmap string CircuitConn → list (string * CircuitConn))
    (fuel : nat) : io unit :=
  loop (λ exist_session,
    exist_session ← new_session_step order exist_session;
    mret (inl exist_session)) fuel ∅.

(** ** The SDK *)

Record WhiteNoiseClient := mkWhiteNoiseClient {
  client_node : Node;
  bootstrap_addr_str : string;
  bootstrap_peer_id : PeerId
}.

Definition client_init (bootstrap_addr : string) (key_type : KeyType) (key_pair : option Keypair)
    : io WhiteNoiseClient :=
  node ← start None (Some bootstrap_addr) RunClient key_pair key_type;
  p ← unwrap (peer_id_of_string (last_part bootstrap_addr));
  spawn (TaskNewStreams node);;
  spawn (TaskNewSessions node);;
  mret (mkWhiteNoiseClient node bootstrap_addr p).

(** The trait [Client]; methods on [&mut self] return the updated client. *)
Class Client (C : Type) := {
  client_get_main_net_peers : C → Z → io (list PeerId);
  client_register : C → PeerId → io (C * bool);
  client_dial : C → string → io string;
  client_get_circuit : C → string → io (option CircuitConn);
  client_send_message : C → string → bytes → io unit;
  client_disconnect_circuit : C → string → io unit;
  client_get_whitenoise_id : C → option string;
  client_notify_next_session : C → io (option string)
}.

#[export] Instance WhiteNoiseClient_client : Client WhiteNoiseClient := {|
  client_get_main_net_peers self _cnt :=
    bootstrap_addr ← unwrap (multiaddr_parse (bootstrap_addr_str self));
    peer_list ← get_main_nets 10 (bootstrap_peer_id self) bootstrap_addr;
    unwrap (mapM (λ x, peer_id_of_string (ni_id x)) (pl_peers peer_list));
  client_register self peer :=
    '(node, res) ← register_proxy (client_node self) peer;
    mret (mkWhiteNoiseClient node (bootstrap_addr_str self) (bootstrap_peer_id self), res);
  client_dial self remote_id := dial (client_node self) remote_id;
  client_get_circuit self sid := gets (λ s, circuit_map s !! sid);
  client_send_message self sid data := send_message sid data;
  client_disconnect_circuit self sid := handle_close_session sid;
  client_get_whitenoise_id self := from_keypair_to_whitenoise_id (keypair (client_node self));
  client_notify_next_session _ := call RecvSession
|}.

End Client.

(** * Lemmas *)

Section ClientLemmas.
Context {EXT : Ext}.

(** The sessions a trace announces to the user, in order. *)
Definition announced (tr : list cmd) : list string :=
  omap (λ c, match c with SendSession sid => Some sid | _ => None end) tr.

Definition has_transport (cc : CircuitConn) : Prop := is_Some (transport_state cc).

(** The circuits of the iteration that were not announced. *)
Definition unseen (exist_session : gmap string bool) (l : list (string * CircuitConn))
    : list (string * CircuitConn) :=
  filter (λ x, exist_session !! x.1 = None) l.

Lemma visit_circuit_last exist_session l : ∀ acc,
  fold_left (visit_circuit exist_session) l acc =
    match list.last (unseen exist_session l) with Some x => Some x | None => acc end.
Proof.
  induction l as [|x l IH]; intros acc; [done|]. cbn [fold_left]. rewrite IH. unfold unseen, visit_circuit.
  destruct (exist_session !! x.1) eqn:Hx.
  - by rewrite filter_cons_False by (by rewrite Hx).
  - rewrite filter_cons_True by done. rewrite last_cons. by destruct (list.last _).
Qed.

Context (order : gmap string CircuitConn → list (string * CircuitConn)).
Hypothesis Horder : ∀ m, order m ≡ₚ map_to_list m.

(** The rest of the node, as the task sees it: the other tasks change the circuits
    as they like, but only the sessions of [done] ever have a transport; the circuits
    are those of [cm] and no longer change. *)
Definition others (done : string → Prop) : assume :=
  {| rely := λ _ s', ∀ sid cc, circuit_map s' !! sid = Some cc → has_transport cc → done sid;
     permits := nice_reply; may_block := waits |}.

Definition settled (cm : gmap string CircuitConn) : assume :=
  {| rely := λ _ s', circuit_map s' = cm; permits := nice_reply; may_block := waits |}.

(** One action of the task in such an environment. *)
Ltac round_step := wp_norm; let Hs := fresh "Hs" in
  intros ? Hs; try (split; [by intros []|]; intros ? ?; cbn in *; subst).

(** A round announces a circuit that has a transport and was not announced, or
    none. *)
Lemma new_session_step_wp (done : string → Prop) exist_session s Q :
  (∀ s', Q [Sleep 50000] (Returned exist_session) s') →
  (∀ sid s', done sid → exist_session !! sid = None →
     Q [SendSession sid; Sleep 50000] (Returned (<[sid := true]> exist_session)) s') →
  wp (others done) (new_session_step order exist_session) s Q.
Proof.
  intros Hnone Hsome. unfold new_session_step. round_step.
  case_decide; [|round_step; apply Hnone]. round_step. rewrite visit_circuit_last.
  destruct (list.last _) as [[sid cc]|] eqn:Hl; [|round_step; apply Hnone].
  apply last_Some_elem_of, list_elem_of_filter in Hl as [Hseen Hin].
  rewrite Horder in Hin. apply elem_of_map_to_list in Hin.
  wp_norm. destruct (transport_state cc) as [h|] eqn:Hcc; [|round_step; apply Hnone].
  do 2 round_step. apply Hsome; [|done]. eapply Hs0; [exact Hin|by eexists].
Qed.

(** Once the circuits no longer change, the last of the unseen ones decides. *)
Lemma settled_step_wp cm exist_session s Q :
  (∀ s', match list.last (unseen exist_session (order cm)) with
         | Some (sid, cc) =>
             match transport_state cc with
             | Some _ => Q [SendSession sid; Sleep 50000] (Returned (<[sid := true]> exist_session)) s'
             | None => Q [Sleep 50000] (Returned exist_session) s'
             end
         | None => Q [Sleep 50000] (Returned exist_session) s'
         end) →
  wp (settled cm) (new_session_step order exist_session) s Q.
Proof.
  intros HQ. unfold new_session_step. round_step. simpl in Hs. rewrite Hs. case_decide as Hsize.
  - round_step. simpl in Hs0. rewrite Hs0, visit_circuit_last.
    destruct (list.last _) as [[sid cc]|]; [|round_step; apply HQ].
    wp_norm. destruct (transport_state cc); [do 2 round_step; apply HQ|round_step; apply HQ].
  - assert (Hnil : order cm = []).
    { apply length_zero_iff_nil. rewrite (Permutation_length (Horder _)), length_map_to_list.
      simpl in Hsize. rewrite ?Hs in Hsize. lia. }
    rewrite Hnil in HQ. simpl in HQ. round_step. apply HQ.
Qed.

Lemma NoDup_unseen exist_session l : NoDup l.*1 → NoDup (unseen exist_session l).*1.
Proof.
  induction l as [|[k cc] l IH]; [done|]. intros [Hk Hnd]%list.NoDup_cons. unfold unseen in *.
  rewrite filter_cons. case_decide; [|by apply IH]. apply list.NoDup_cons. split; [|by apply IH].
  intros ([k' cc'] & [= ->] & [_ Hin]%list_elem_of_filter)%list_elem_of_fmap.
  apply Hk, list_elem_of_fmap. by exists (k', cc').
Qed.

(** Announcing a circuit takes it, and only it, out of the unseen ones. *)
Lemma unseen_insert exist_session sid l :
  NoDup l.*1 → sid ∈ (unseen exist_session l).*1 →
  (unseen exist_session l).*1 ≡ₚ sid :: (unseen (<[sid := true]> exist_session) l).*1.
Proof.
  intros Hnd Hin. apply NoDup_Permutation.
  - by apply NoDup_unseen.
  - apply list.NoDup_cons. split; [|by apply NoDup_unseen].
    intros ([k cc] & -> & [Hk _]%list_elem_of_filter)%list_elem_of_fmap. simpl in Hk.
    by rewrite lookup_insert_eq in Hk.
  - intros x. rewrite elem_of_cons. unfold unseen in *. rewrite !list_elem_of_fmap. split.
    + intros ([k cc] & -> & [Hk Hl]%list_elem_of_filter). simpl in *.
      destruct (decide (k = sid)) as [->|Hne]; [by left|right].
      exists (k, cc). split; [done|]. apply list_elem_of_filter. simpl. by rewrite lookup_insert_ne.
    + intros [->|([k cc] & -> & [Hk Hl]%list_elem_of_filter)]; [by apply list_elem_of_fmap|].
      exists (k, cc). split; [done|]. apply list_elem_of_filter. simpl in *. split; [|done].
      destruct (decide (k = sid)) as [->|Hne]; [by rewrite lookup_insert_eq in Hk|].
      by rewrite lookup_insert_ne in Hk.
Qed.

End ClientLemmas.

(** * Properties *)

Section ClientProperties.
Context {EXT : Ext}.
Context (order : gmap string CircuitConn → list (string * CircuitConn)).
Hypothesis Horder : ∀ m, order m ≡ₚ map_to_list m.

Lemma NoDup_order m : NoDup (order m).*1.
Proof. rewrite Horder. apply NoDup_fst_map_to_list. Qed.

(** What the rounds announce from [exist_session] on. *)
Definition announces (exist_session : gmap string bool) (cm : gmap string CircuitConn) (fuel : nat)
    (tr : list cmd) : Prop :=
  let pending := (unseen exist_session (order cm)).*1 in
  NoDup (announced tr) ∧ announced tr ⊆ pending ∧
  (∀ sid, sid ∈ announced tr → ∃ cc, cm !! sid = Some cc ∧ has_transport cc) ∧
  (map_Forall (λ _, has_transport) cm → length pending ≤ fuel → pending ⊆ announced tr).

Lemma unseen_member exist_session cm sid cc :
  (sid, cc) ∈ unseen exist_session (order cm) → cm !! sid = Some cc.
Proof. intros [_ Hin]%list_elem_of_filter. rewrite Horder in Hin. by apply elem_of_map_to_list. Qed.

(** A round without an announcement leaves the rest; it is the last unseen
    circuit that is not ready, if there is one. *)
Lemma announces_skip exist_session cm fuel tr :
  (∀ x, list.last (unseen exist_session (order cm)) = Some x → ¬ has_transport x.2) →
  announces exist_session cm fuel tr → announces exist_session cm (S fuel) (Sleep 50000 :: tr).
Proof.
  intros Hlast (Hnd & Hsub & Hready & Hall). split_and!; try done. intros Hcm _.
  destruct (list.last _) as [[sid cc]|] eqn:Hl.
  - apply last_Some_elem_of in Hl as Hin. destruct (Hlast _ eq_refl).
    by eapply Hcm, unseen_member.
  - apply last_None in Hl. rewrite Hl. set_solver.
Qed.

Lemma announces_send exist_session cm fuel sid cc tr :
  (sid, cc) ∈ unseen exist_session (order cm) → has_transport cc →
  announces (<[sid := true]> exist_session) cm fuel tr →
  announces exist_session cm (S fuel) (SendSession sid :: Sleep 50000 :: tr).
Proof.
  intros Hin Hcc (Hnd & Hsub & Hready & Hall).
  assert (Hsid : sid ∈ (unseen exist_session (order cm)).*1)
    by (apply list_elem_of_fmap; by exists (sid, cc)).
  pose proof (unseen_insert exist_session sid (order cm) (NoDup_order cm) Hsid) as Hperm.
  unfold announces. set (pending := (unseen exist_session _).*1) in *.
  set (pending' := (unseen (<[sid := true]> _) _).*1) in *.
  assert (Hnot : sid ∉ pending').
  { assert (NoDup (sid :: pending')) as [? _]%list.NoDup_cons; [|done].
    rewrite <- Hperm. apply NoDup_unseen, NoDup_order. }
  change (announced (_ :: _ :: tr)) with (sid :: announced tr). split_and!.
  - apply list.NoDup_cons. split; [|done]. intros Hs. by apply Hnot, Hsub.
  - intros x [->|Hx]%elem_of_cons; rewrite Hperm; [by left|right; by apply Hsub].
  - intros x [->|Hx]%elem_of_cons; [|by apply Hready]. exists cc. split; [|done].
    by eapply unseen_member.
  - intros Hcm Hlen x Hx. rewrite Hperm in Hx, Hlen. simpl in Hlen.
    apply elem_of_cons in Hx as [->|Hx]; [by left|right]. apply Hall; [done|lia|done].
Qed.

(** The loop of the task. *)
Definition session_loop (fuel : nat) (exist_session : gmap string bool) : io unit :=
  loop (λ exist_session,
    exist_session ← new_session_step order exist_session;
    mret (inl (B := unit) exist_session)) fuel exist_session.

Lemma session_loop_settled cm fuel : ∀ exist_session s Q,
  (∀ tr s', announces exist_session cm fuel tr → Q tr Running s') →
  wp (settled cm) (session_loop fuel exist_session) s Q.
Proof.
  induction fuel as [|fuel IH]; intros exist_session s Q HQ.
  - apply HQ. split_and!; simpl; try set_solver; [constructor|].
    intros _ Hlen. apply Nat.le_0_r, length_zero_iff_nil in Hlen. rewrite Hlen. set_solver.
  - unfold session_loop. rewrite loop_S. wp_norm. apply wp_bind_2, settled_step_wp; [done|]. intros s0.
    destruct (list.last _) as [[sid cc]|] eqn:Hl.
    + destruct (transport_state cc) eqn:Ht; cbn [after]; wp_norm; apply IH; intros tr s' Htr; apply HQ.
      * eapply announces_send; [by eapply last_Some_elem_of|by eexists|done].
      * apply announces_skip; [|done]. rewrite Hl. intros x [= <-]. intros [? ?]. simpl in *. congruence.
    + cbn [after]. wp_norm. apply IH. intros tr s' Htr. apply HQ. apply announces_skip; [|done].
      by rewrite Hl.
Qed.

(** Whatever the other tasks do: each session once, and none without a transport. *)
Lemma session_loop_others done fuel : ∀ exist_session s Q,
  (∀ tr s', NoDup (announced tr) → (∀ sid, sid ∈ announced tr → done sid ∧ exist_session !! sid = None) →
     Q tr Running s') →
  wp (others done) (session_loop fuel exist_session) s Q.
Proof.
  induction fuel as [|fuel IH]; intros exist_session s Q HQ.
  - apply HQ; [constructor|]. intros sid Hsid. by apply elem_of_nil in Hsid.
  - unfold session_loop. rewrite loop_S. wp_norm. apply wp_bind_2, new_session_step_wp; [done|..].
    + intros s0. cbn [after]. wp_norm. apply IH. intros tr s' Hnd Hin. by apply HQ.
    + intros sid s0 Hdone Hnew. cbn [after]. wp_norm. apply IH. intros tr s' Hnd Hin. apply HQ; simpl.
      * apply list.NoDup_cons. split; [|exact Hnd]. intros [_ Hsid]%Hin. by rewrite lookup_insert_eq in Hsid.
      * intros x [->|Hx]%elem_of_cons; [done|]. destruct (Hin x Hx) as [Hd Hx'].
        apply lookup_insert_None in Hx' as [Hx' _]. done.
Qed.

(** The first [k] rounds: at least as many actions, and exactly what was announced
    is remembered. *)
Lemma session_loop_run done e k m : conforms (others done) e → ∀ exist_session n s,
  ∃ exist_session' tr n' s', n + k ≤ n' ∧
    (∀ sid, is_Some (exist_session' !! sid) → is_Some (exist_session !! sid) ∨ sid ∈ announced tr) ∧
    trace (run e (session_loop (k + m) exist_session) n s) =
      tr ++ trace (run e (session_loop m exist_session') n' s').
Proof.
  intros He. induction k as [|k IH]; intros exist_session n s.
  { exists exist_session, [], n, s. split; [lia|]. split; [by left|done]. }
  unfold session_loop. simpl (S k + m). rewrite loop_S. unfold mbind, io_mbind. rewrite run_bind.
  set (q := run e (io_bind _ (new_session_step order exist_session)) n s).
  assert (Hq : (∃ x, out q = Returned (inl x) ∧ ∀ sid, is_Some (x !! sid) →
                  is_Some (exist_session !! sid) ∨ sid ∈ announced (trace q)) ∧ S n ≤ steps q).
  { split; [|apply (run_steps e _ (S n))].
    refine (wp_run (others done) e _ n s (λ tr o _, ∃ x, o = Returned (inl x) ∧ ∀ sid, is_Some (x !! sid) →
      is_Some (exist_session !! sid) ∨ sid ∈ announced tr) He _).
    apply wp_bind_2, new_session_step_wp; [done|..].
    - intros s0. cbn [after]. wp_norm. wp_ret. exists exist_session. split; [done|]. by left.
    - intros sid s0 _ _. cbn [after]. wp_norm. wp_ret. eexists. split; [done|]. intros x Hx.
      destruct (decide (sid = x)) as [->|Hne]; [right; by left|]. left. by rewrite lookup_insert_ne in Hx. }
  destruct Hq as [(x & Hout & Hx) Hsteps]. cbv zeta. rewrite Hout. simpl.
  destruct (IH x (steps q) (final q)) as (E & tr & n' & s' & Hn & HE & Htr).
  exists E, (trace q ++ tr), n', s'. split; [lia|]. split.
  - intros sid Hsid. unfold announced in *. rewrite omap_app, elem_of_app.
    destruct (HE sid Hsid) as [[?|?]%Hx|?]; auto.
  - rewrite <- app_assoc. f_equal. exact Htr.
Qed.

(** Once the circuits have settled. *)
Lemma settled_later done e m cm :
  conforms (others done) e → (∀ n s, m ≤ n → circuit_map (interfere e n s) = cm) →
  conforms (settled cm) (later m e).
Proof.
  intros He Hcm n s. destruct (He (m + n) s) as [_ Ha]. split; [|exact Ha]. simpl. apply Hcm. lia.
Qed.

Lemma pending_unseen E cm sid cc : cm !! sid = Some cc → E !! sid = None → sid ∈ (unseen E (order cm)).*1.
Proof.
  intros Hcc HE. apply list_elem_of_fmap. exists (sid, cc). split; [done|].
  apply list_elem_of_filter. split; [done|]. rewrite Horder. by apply elem_of_map_to_list.
Qed.

Lemma pending_length E cm : length (unseen E (order cm)).*1 ≤ size cm.
Proof.
  rewrite length_fmap. etrans; [apply length_filter|]. by rewrite Horder, length_map_to_list.
Qed.

(** C24: the sessions announced to the user, while the other tasks change the
    circuits at every action of this one, and whatever the order in which the map
    is iterated.  Each session is announced at most once, and only after its
    handshake: [done] are the sessions that have a transport at some time.  And a
    session that has to wait for its handshake is not forgotten: when from the
    action [n0] on the circuits are those of [cm], each with a transport, all of
    them have been announced after [n0] rounds and one more for each. *)
Theorem process_new_session_spec (done : string → Prop) (e : env) (fuel : nat) (s : Shared) :
  conforms (others done) e →
  let q := run e (process_new_session order fuel) 0 s in
  out q = Running ∧ NoDup (announced (trace q)) ∧ (∀ sid, sid ∈ announced (trace q) → done sid) ∧
  ∀ n0 cm,
    (∀ n s', n0 ≤ n → circuit_map (interfere e n s') = cm) → map_Forall (λ _, has_transport) cm →
    n0 + size cm ≤ fuel → ∀ sid, is_Some (cm !! sid) → sid ∈ announced (trace q).
Proof.
  intros He q.
  assert (Hsafe : out q = Running ∧ NoDup (announced (trace q)) ∧ ∀ sid, sid ∈ announced (trace q) → done sid).
  { apply (wp_run (others done) e _ 0 s (λ tr o _, o = Running ∧ NoDup (announced tr) ∧ ∀ sid, sid ∈ announced tr → done sid) He).
    apply session_loop_others. intros tr s' Hnd Hin. split_and!; [done..|]. intros sid Hsid. by apply Hin. }
  destruct Hsafe as (Ho & Hnd & Hdone). split_and!; [done..|].
  intros n0 cm Hcm Hready Hfuel sid [cc Hcc].
  destruct (session_loop_run done e n0 (fuel - n0) He ∅ 0 s) as (E & tr & n' & s' & Hn & HE & Htr).
  rewrite Nat.add_comm, Nat.sub_add in Htr by lia. unfold q, process_new_session. fold (session_loop fuel ∅).
  rewrite Htr. unfold announced. rewrite omap_app, elem_of_app.
  destruct (E !! sid) as [b|] eqn:HEsid.
  { left. destruct (HE sid ltac:(by eexists)) as [[? Hempty]|?]; [by rewrite lookup_empty in Hempty|done]. }
  right. rewrite <- (Nat.add_0_r n'), run_later. fold (announced (trace (run (later n' e) (session_loop (fuel - n0) E) 0 s'))).
  assert (Hann : announces E cm (fuel - n0) (trace (run (later n' e) (session_loop (fuel - n0) E) 0 s'))).
  { apply (wp_run (settled cm) (later n' e) _ 0 s' (λ tr _ _, announces E cm (fuel - n0) tr)).
    - eapply settled_later; [done|]. intros n s0 Hle. apply Hcm. lia.
    - by apply session_loop_settled. }
  destruct Hann as (_ & _ & _ & Hall). apply Hall; [done| |by eapply pending_unseen].
  pose proof (pending_length E cm). lia.
Qed.

End ClientProperties.

Section ClientWitnesses.
Local Existing Instance toy.

(** A circuit whose handshake is over at the fourth action. *)
Definition toy_circuits (n : nat) : gmap string CircuitConn :=
  {["sid"%string := mkCircuitConn "sid" (toy_stream "p" "1") 7 (if n <? 4 then None else Some 0)]}.

Definition toy_world : env :=
  mkEnv (λ n s, set_circuit_map (λ _, toy_circuits n) s) (toy_answer no_script).

Lemma toy_world_others : conforms (others (λ sid, sid = "sid"%string)) toy_world.
Proof.
  intros n s. split.
  - intros sid cc. simpl. unfold toy_circuits. by intros [<- _]%lookup_singleton_Some.
  - exact (proj2 (toy_env_calm no_script n (interfere toy_world n s))).
Qed.

Lemma process_new_session_spec_witness :
  (∀ m : gmap string CircuitConn, map_to_list m ≡ₚ map_to_list m) ∧
  conforms (others (λ sid, sid = "sid"%string)) toy_world ∧
  "sid"%string ∈ announced (trace (run toy_world (process_new_session map_to_list 5) 0 empty_shared)).
Proof.
  split; [reflexivity|]. split; [exact toy_world_others|].
  apply (process_new_session_spec map_to_list (λ m, reflexivity _) (λ sid, sid = "sid"%string) toy_world 5
    empty_shared toy_world_others) with (n0 := 4) (cm := toy_circuits 4).
  - intros n s' Hn. simpl. unfold toy_circuits. destruct (Nat.ltb_spec n 4); [lia|reflexivity].
  - intros sid x. unfold toy_circuits. intros [<- <-]%lookup_singleton_Some. by exists 0.
  - vm_compute. lia.
  - eexists. apply lookup_singleton_eq.
Defined.

End ClientWitnesses.
