(* ===== verification/Exchange.v ===== *)
(** * Exchanges between a client and its node

    The two requests a client makes of a node before it dials, end to end: the
    list of peers and the registration.  Each goes from a task of the client
    (src/network/node.rs) through its event loop, the node's behaviour
    (src/network/whitenoise_behaviour.rs) and proxy task
    (src/network/proxy_event_handler.rs), and back as an acknowledgement to the
    channel the task waits on. *)

From S2P Require Import Prelude Proto External State Io Packing Concrete Utils Connection Account Node.
From S2P Require Import RelayEvents Proxy Registry RelayBehaviour Behaviour Host Client.

Section Exchange.
Context {EXT : Ext}.

(** The two event loops, of a client and of a server. *)
Definition event_loop (serve : RelayState → NodeRequest → io RelayState) : Prop :=
  serve = client_serve ∨ serve = server_serve.

(** A request on its way: the event loop of [a] sends it to [b], whose behaviour
    gives it to the proxy task as [a]'s. *)
Definition request_travels (a b : PeerId) (r : Request) : Prop :=
  (∀ serve relay s, event_loop serve →
     ensures calm s (serve relay (NrProxyRequest (mkNodeProxyRequest b (Some r) None)))
       (λ tr o _, o = Returned relay ∧ tr = [SwarmCall (ProxySendRequest b r)])) ∧
  (∀ s, ensures calm s (whitenoise_inject_event (WbProxy (RrMessage a (RrRequest r))))
     (λ tr o s', o = Returned tt ∧ s' = s ∧ tr = [SendProxy (mkNodeProxyRequest a (Some r) None)])).

Lemma request_travels_always a b r : request_travels a b r.
Proof.
  split; [intros serve relay s [-> | ->]|intros s]; apply wp_ensures.
  1, 2: unfold client_serve, server_serve, serve_common; cbn [proxy_request npr_peer]; by wp_steps.
  cbn [whitenoise_inject_event inject_proxy_event]. by wp_steps.
Qed.

(** A command on its way, to the command task of [b]. *)
Definition command_travels (a b : PeerId) (c : Command) : Prop :=
  (∀ serve relay s, event_loop serve →
     ensures calm s (serve relay (NrCmdRequest (mkNodeCmdRequest b (Some c))))
       (λ tr o _, o = Returned relay ∧ tr = [SwarmCall (CmdSendRequest b c)])) ∧
  (∀ s, ensures calm s (whitenoise_inject_event (WbCmd (RrMessage a (RrRequest c))))
     (λ tr o s', o = Returned tt ∧ s' = s ∧ tr = [SendCmd (mkNodeCmdRequest a (Some c))])).

Lemma command_travels_always a b c : command_travels a b c.
Proof.
  split; [intros serve relay s [-> | ->]|intros s]; apply wp_ensures.
  1, 2: unfold client_serve, server_serve, serve_common; cbn [cmd_request ncr_peer]; by wp_steps.
  cbn [whitenoise_inject_event inject_cmd_event]. by wp_steps.
Qed.

(** An acknowledgement on its way back: the event loop of [b] sends it to [a],
    in whose state [s] its channel is found under its command id. *)
Definition ack_travels (a b : PeerId) (x : Ack) (rx : nat) (s : Shared) : Prop :=
  (∀ serve relay s, event_loop serve →
     ensures calm s (serve relay (NrAckRequest (mkNodeAckRequest a (Some x))))
       (λ tr o _, o = Returned relay ∧ tr = [SwarmCall (AckSendRequest a x)])) ∧
  ensures calm s (whitenoise_inject_event (WbAck (RrMessage b (RrRequest x))))
    (λ tr o _, o = Returned tt ∧ tr = [SendAckTo rx x]).

Lemma ack_travels_registered a b x rx s :
  event_bus s !! ack_command_id x = Some rx → ack_travels a b x rx s.
Proof.
  intros Hbus. split; [intros serve relay s1 [-> | ->]|]; apply wp_ensures.
  1, 2: unfold client_serve, server_serve, serve_common; cbn [ack_request nar_peer]; by wp_steps.
  cbn [whitenoise_inject_event]. apply inject_ack_wp. intros tr ->. by rewrite Hbus.
Qed.

(** ** The list of peers *)

(** The addresses of an entry that are given out. *)
Definition plain_multiaddrs (e : KadEntry) : list Multiaddr :=
  List.filter (λ a, negb (str_contains "p2p" (multiaddr_to_string a))) (kad_addresses e).

(** The connected entries of the table, as many as asked for, that have one. *)
Definition offered (number : Z) (kbuckets : list (list KadEntry)) : list KadEntry :=
  List.filter (λ e, negb (bool_decide (plain_multiaddrs e = [])))
    (take (Z.to_nat number) (filter (λ e, kad_connected e = true) (concat kbuckets))).

Lemma plain_addresses_text e :
  plain_addresses (kad_addresses e) = multiaddr_to_string <$> plain_multiaddrs e.
Proof.
  unfold plain_addresses, plain_multiaddrs. induction (kad_addresses e) as [|a l IH]; [done|].
  rewrite fmap_cons. cbn [List.filter]. rewrite IH. by destruct (negb _).
Qed.

Lemma filter_offered l :
  filter has_addr (kad_node_info <$> l) =
    kad_node_info <$> List.filter (λ e, negb (bool_decide (plain_multiaddrs e = []))) l.
Proof.
  induction l as [|e l IH]; [done|]. rewrite fmap_cons. cbn [List.filter].
  assert (Hiff : has_addr (kad_node_info e) ↔ plain_multiaddrs e ≠ []).
  { unfold has_addr. simpl. rewrite plain_addresses_text. by destruct (plain_multiaddrs e). }
  case_bool_decide as He; simpl.
  - rewrite filter_cons_False by tauto. exact IH.
  - rewrite filter_cons_True by tauto. by rewrite IH.
Qed.

Lemma parse_plain `{!MultiaddrLaws} l : parse_addresses (multiaddr_to_string <$> l) = Some l.
Proof.
  unfold parse_addresses. induction l as [|a l IH]; [done|]. rewrite fmap_cons. cbn [mapM].
  rewrite multiaddr_parse_to_string. cbn [mbind option_bind]. by rewrite IH.
Qed.

Lemma entries_offered `{!MultiaddrLaws, !Base58Laws} l :
  mapM peer_entry (kad_node_info <$> l) = Some ((λ e, (kad_peer e, plain_multiaddrs e)) <$> l).
Proof.
  induction l as [|e l IH]; [done|]. rewrite fmap_cons. cbn [mapM].
  assert (He : peer_entry (kad_node_info e) = Some (kad_peer e, plain_multiaddrs e)).
  { unfold peer_entry. cbn [ni_addr ni_id kad_node_info]. rewrite plain_addresses_text, parse_plain.
    cbn [mbind option_bind]. unfold peer_id_of_string. by rewrite peer_id_of_base58. }
  rewrite He. cbn [mbind option_bind]. by rewrite IH.
Qed.

Lemma ids_offered `{!Base58Laws} l :
  mapM (λ x, peer_id_of_string (ni_id x)) (kad_node_info <$> l) = Some (kad_peer <$> l).
Proof.
  induction l as [|e l IH]; [done|]. rewrite fmap_cons. cbn [mapM ni_id kad_node_info].
  assert (Hp : peer_id_of_string (to_base58 (kad_peer e)) = Some (kad_peer e)) by apply peer_id_of_base58.
  rewrite Hp. cbn [mbind option_bind]. by rewrite IH.
Qed.

(** The routing table, and the reply of the node's event loop to its proxy task. *)
Definition table (kbuckets : list (list KadEntry)) : script :=
  λ c, match c return option (reply c) with KadBuckets => Some kbuckets | _ => None end.

Definition peers_reply (peers : list NodeInfo) : script :=
  λ c, match c return option (reply c) with AwaitPeers _ => Some (Some peers) | _ => None end.

(** ** The lemmas of the two ends *)

(** The client's question, and what it makes of the answer. *)
Definition peers_question (cnt : Z) : Request :=
  identified_request "" (reqtype_i32 RqMainNetPeers) (pb_encode (mkMainNetPeers cnt)).

Lemma get_main_nets_answered `{!CodecLaws} cnt boot addr (x : Ack) answer entries s Q :
  pb_decode (ack_data x) = Some answer →
  mapM peer_entry (filter has_addr (pl_peers answer)) = Some entries →
  Q ([SendNodeRequest (NrAddPeerAddressesRequest boot [addr]);
      SendNodeRequest (NrProxyRequest (mkNodeProxyRequest boot (Some (peers_question cnt)) None));
      AwaitAck (next_handle s)] ++ ((λ e, SendNodeRequest (NrAddPeerAddressesRequest e.1 e.2)) <$> entries))
    (Returned (mkPeersList (filter has_addr (pl_peers answer))))
    (set_event_bus <[req_req_id (peers_question cnt) := next_handle s]> (bump_handle s)) →
  wp (calm_with (acks x)) (get_main_nets cnt boot addr) s Q.
Proof.
  intros Hx Hall HQ. unfold get_main_nets, external_send_node_request_and_wait, event_bus_register.
  do 4 wp_step. wp_norm. rewrite Hx. wp_norm. apply wp_bind_2, wp_calm_with.
  eapply add_peers_wp; [exact Hall|]. wp_norm. wp_step. by rewrite app_nil_r.
Qed.

(** The proxy task on the question, given the reply of its event loop. *)
Lemma peers_question_wp `{!CodecLaws} node (a : PeerId) cnt peers s Q :
  (∀ x, ack_command_id x = req_req_id (peers_question cnt) → pb_decode (ack_data x) = Some (mkPeersList peers) →
     Q [SendNodeRequest (NrGetMainNetsRequest (req_req_id (peers_question cnt)) a cnt (next_handle s));
        AwaitPeers (next_handle s); SendNodeRequest (NrAckRequest (mkNodeAckRequest a (Some x)))]
       (Returned tt) (bump_handle s)) →
  wp (calm_with (peers_reply peers))
    (handle_proxy_request node (mkNodeProxyRequest a (Some (peers_question cnt)) None)) s Q.
Proof.
  intros HQ. unfold handle_proxy_request. cbn [peer_operation proxy_request npr_peer]. wp_norm.
  change (req_reqtype (peers_question cnt)) with (reqtype_i32 RqMainNetPeers).
  repeat rewrite decide_False by done. rewrite decide_True by done. unfold handle_main_net_peers.
  change (req_data (peers_question cnt)) with (pb_encode (mkMainNetPeers cnt)).
  rewrite pb_decode_encode. wp_norm. unfold request_main_nets, new_channel, send_ack. cbn [mnp_max].
  wp_steps. apply HQ; [done|]. simpl. apply pb_decode_encode.
Qed.

End Exchange.

(** * Properties *)

Section ExchangeProperties.
Context {EXT : Ext} `{!CodecLaws, !Base58Laws}.

(** C20: the list of peers, end to end.  The client's task asks under the id of
    its question; the question reaches the node's proxy task, which asks its
    event loop, which answers from the routing table; the answer goes back under
    the same id to the channel the client's task waits on.  With it, the client's
    call returns the connected peers of the table that have an address to give
    out, in the table's order (always at most ten, whatever count it is called
    with), after their addresses, which are those of the table, have been
    registered with its swarm. *)
Theorem peers_exchange `{!MultiaddrLaws} (client : WhiteNoiseClient) (cnt : Z) (addr : Multiaddr)
    (a : PeerId) (node : Node) (relay : RelayState) (kbuckets : list (list KadEntry)) (sA sB : Shared) :
  let b := Client.bootstrap_peer_id client in
  let request := peers_question 10 in
  let peers := get_kad_peers kbuckets 10 in
  multiaddr_parse (bootstrap_addr_str client) = Some addr →
  request_travels a b request ∧
  ensures (calm_with (peers_reply peers)) sB
    (handle_proxy_request node (mkNodeProxyRequest a (Some request) None)) (λ trB oB _,
    oB = Returned tt ∧ ∃ x,
    trB = [SendNodeRequest (NrGetMainNetsRequest (req_req_id request) a 10 (next_handle sB));
           AwaitPeers (next_handle sB); SendNodeRequest (NrAckRequest (mkNodeAckRequest a (Some x)))] ∧
    ensures (calm_with (table kbuckets)) sB
      (server_serve relay (NrGetMainNetsRequest (req_req_id request) a 10 (next_handle sB)))
      (λ tr o _, o = Returned relay ∧
         tr = [KadBuckets; SwarmCall (ReplyPeers (next_handle sB) peers)]) ∧
    ensures (calm_with (acks x)) sA (client_get_main_net_peers client cnt) (λ trA oA sA',
      oA = Returned (kad_peer <$> offered 10 kbuckets) ∧
      ack_travels a b x (next_handle sA) sA' ∧
      trA = [SendNodeRequest (NrAddPeerAddressesRequest b [addr]);
             SendNodeRequest (NrProxyRequest (mkNodeProxyRequest b (Some request) None));
             AwaitAck (next_handle sA)] ++
            ((λ e, SendNodeRequest (NrAddPeerAddressesRequest (kad_peer e) (plain_multiaddrs e)))
               <$> offered 10 kbuckets))).
Proof.
  intros b request peers Haddr. split; [apply request_travels_always|].
  apply wp_ensures, peers_question_wp. intros x Hid Hdata. split; [done|]. exists x. split; [done|].
  assert (Hkept : filter has_addr peers = kad_node_info <$> offered 10 kbuckets).
  { unfold peers. rewrite get_kad_peers_eq. apply filter_offered. }
  split; apply wp_ensures.
  - unfold server_serve. by wp_steps.
  - cbn [client_get_main_net_peers WhiteNoiseClient_client]. rewrite Haddr. wp_norm.
    apply wp_bind_2. eapply get_main_nets_answered; [exact Hdata| |].
    { cbn [pl_peers]. rewrite Hkept. apply entries_offered. }
    cbn [after pl_peers]. rewrite Hkept, ids_offered. wp_norm. wp_ret. rewrite app_nil_r. split; [done|]. split.
    + apply ack_travels_registered. rewrite Hid. simpl. by rewrite lookup_insert_eq.
    + do 3 f_equal. by rewrite <- list_fmap_compose.
Qed.

(** C12: registration, end to end.  The client's request reaches the node's
    proxy task as the client's; the task files the client under the hash of its
    id, with its peer, exactly when the hash is free, and answers which it was,
    under the id of the request, to the channel the client's task waits on; and
    the client takes the node for its proxy exactly when it was filed. *)
Theorem registration_agrees (client : WhiteNoiseClient) (proxy : PeerId) (wn hash : string)
    (server : Node) (sA sB : Shared) :
  let self := client_node client in
  let a := keypair_peer_id (keypair self) in
  from_keypair_to_whitenoise_id (keypair self) = Some wn → from_whitenoise_to_hash wn = Some hash →
  ∃ request, request_travels a proxy request ∧
  ensures calm sB (handle_proxy_request server (mkNodeProxyRequest a (Some request) None)) (λ trB oB sB',
    oB = Returned tt ∧ ∃ x,
    trB = [SendNodeRequest (NrAckRequest (mkNodeAckRequest a (Some x)))] ∧
    (ack_result x = true ↔ client_wn_map sB !! hash = None) ∧
    (if ack_result x
     then client_wn_map sB' !! hash = Some (mkClientInfo wn a 1 3600) ∧
          client_peer_map sB' !! to_base58 a = Some hash
     else sB' = sB) ∧
    ensures (calm_with (acks x)) sA (client_register client proxy) (λ trA oA sA',
      trA = [SendNodeRequest (NrProxyRequest (mkNodeProxyRequest proxy (Some request) None));
             AwaitAck (next_handle sA)] ∧
      ack_travels a proxy x (next_handle sA) sA' ∧
      ∃ client', oA = Returned (client', ack_result x) ∧
        proxy_id (client_node client') = if ack_result x then Some proxy else proxy_id self)).
Proof.
  intros self a Hwn Hhash.
  set (request := identified_request (get_id self) (reqtype_i32 RqNewProxy) (pb_encode (mkNewProxy "60m" wn))).
  exists request. split; [apply request_travels_always|]. apply wp_ensures.
  unfold handle_proxy_request. cbn [peer_operation proxy_request npr_peer]. wp_norm.
  change (req_reqtype request) with (reqtype_i32 RqNewProxy).
  repeat rewrite decide_False by done. rewrite decide_True by done. unfold handle_new_proxy.
  change (req_data request) with (pb_encode (mkNewProxy "60m" wn)). rewrite pb_decode_encode. wp_norm.
  cbn [np_white_noise_id]. rewrite Hhash. wp_step.
  assert (Hclient : ∀ x, ack_command_id x = req_req_id request →
    ensures (calm_with (acks x)) sA (client_register client proxy) (λ trA oA sA',
      trA = [SendNodeRequest (NrProxyRequest (mkNodeProxyRequest proxy (Some request) None));
             AwaitAck (next_handle sA)] ∧
      ack_travels a proxy x (next_handle sA) sA' ∧
      ∃ client', oA = Returned (client', ack_result x) ∧
        proxy_id (client_node client') = if ack_result x then Some proxy else proxy_id self)).
  { intros x Hx. apply wp_ensures. cbn [client_register WhiteNoiseClient_client]. unfold register_proxy.
    fold self. rewrite Hwn. wp_norm. unfold external_send_node_request_and_wait, event_bus_register.
    wp_step. wp_step. wp_step. wp_norm.
    destruct (ack_result x); wp_step; (split; [done|]); (split; [|by eexists]);
      apply ack_travels_registered; rewrite Hx; simpl; by rewrite lookup_insert_eq. }
  case_bool_decide as Hfind.
  - wp_steps. split; [done|]. eexists. split; [done|]. simpl. split; [|split; [done|by apply Hclient]].
    destruct Hfind as [ci ->]. done.
  - wp_steps. split; [done|]. eexists. split; [done|]. simpl. rewrite !lookup_insert_eq.
    split; [|split; [done|by apply Hclient]]. apply eq_None_not_Some in Hfind. done.
Qed.

End ExchangeProperties.

Section ExchangeWitnesses.
Local Existing Instance toy.

Definition toy_member : WhiteNoiseClient := mkWhiteNoiseClient (EXT := toy) toy_node "/ip4/1" "b"%string.

(** A table with a client without addresses, a peer that left and a peer. *)
Definition toy_table : list (list KadEntry) :=
  [[mkKadEntry (EXT := toy) "c"%string true []; mkKadEntry (EXT := toy) "d"%string false ["/ip4/2"%string]];
   [mkKadEntry (EXT := toy) "e"%string true ["/ip4/3"%string]]].

Lemma peers_exchange_witness :
  multiaddr_parse (bootstrap_addr_str toy_member) = Some "/ip4/1"%string ∧
  ensures (calm_with (peers_reply (get_kad_peers toy_table 10))) empty_shared
    (handle_proxy_request toy_node (mkNodeProxyRequest "a"%string (Some (peers_question 10)) None))
    (λ trB oB _, ∃ x, ensures (calm_with (acks x)) empty_shared (client_get_main_net_peers toy_member 3)
      (λ _ oA _, oA = Returned ["e"%string])).
Proof.
  split; [reflexivity|]. intros e n He.
  destruct (@peers_exchange toy toy_codec_laws toy_base58_laws toy_multiaddr_laws toy_member 3 "/ip4/1"%string
    "a"%string toy_node relay_new toy_table empty_shared empty_shared eq_refl) as (_ & Hserver).
  destruct (Hserver e n He) as (_ & x & _ & _ & Hclient). exists x. intros e' n' He'.
  exact (proj1 (Hclient e' n' He')).
Defined.

Lemma registration_agrees_witness :
  from_keypair_to_whitenoise_id toy_keys = Some (String.append "0" (toy_base [x01])) ∧
  ∃ request, ensures calm empty_shared
    (handle_proxy_request toy_node (mkNodeProxyRequest (of_bytes [x01]) (Some request) None))
    (λ trB oB _, oB = Returned tt).
Proof.
  split; [reflexivity|].
  destruct (@registration_agrees toy toy_codec_laws toy_member "p"%string
    (String.append "0" (toy_base [x01])) (toy_base (toy_digest [x01])) toy_node empty_shared empty_shared
    eq_refl eq_refl) as (request & _ & Hserver).
  exists request. intros e n He. exact (proj1 (Hserver e n He)).
Defined.

End ExchangeWitnesses.
