(* ===== verification/Delivery.v ===== *)
(** * Delivery along a circuit

    A message written on a circuit at one end, through the relay nodes of the
    circuit, to the buffer of the reader at the other end.  The steps are those
    of the code: [circuit_write] (Connection), the relay event handler of each
    node on the way (RelayEvents), the poll tasks of the two ends of each stream
    between them (RelayBehaviour), the handler of the receiving client, and
    [circuit_read].  A poll task reads no frame of more than [READ_MAX] bytes; a
    longer one ends the stream. *)

From S2P Require Import Prelude Proto External State Io Packing Concrete Utils Connection Node.
From S2P Require Import RelayEvents RelayBehaviour.

Section Delivery.
Context {EXT : Ext}.

(** The bytes [d] on a stream are a data message of session [sid] with this
    payload. *)
Definition carries (d : bytes) (sid : string) (payload : bytes) : Prop :=
  ∃ m, pb_decode d = Some m ∧ relay_type m = relaytype_i32 RtData ∧
       pb_decode (relay_data m) = Some (mkRelayMsg sid payload).

(** The circuit's channel delivers [payload]. *)
Definition receives (payload : bytes) : script :=
  λ c, match c return option (reply c) with
       | CircuitRecv _ => Some (Some payload)
       | _ => None
       end.

(** A node on the way: its state, the stream it receives on and the one it
    sends on. *)
Record hop := mkHop {
  hop_node : Node;
  hop_state : Shared;
  hop_in : WrappedStream;
  hop_out : WrappedStream
}.

(** The node relays the session: it has it with both streams, is not an end of
    the circuit, and its stream other than [hop_in] is [hop_out]. *)
Definition relays (sid : string) (h : hop) : Prop :=
  ∃ x, session_map (hop_state h) !! sid = Some x ∧ ready x = true ∧
       session_role x ≠ role_i32 AnswerRole ∧ session_role x ≠ role_i32 CallerRole ∧
       other_stream x (stream_id (hop_in h)) = Some (hop_out h).

Definition hop_step (sid : string) (h : hop) : io (option string + unit) :=
  relay_event_step (hop_in h) (hop_node h) (Some sid).

(** What the poll tasks of the two ends of a stream are given: the task of the
    sender the bytes [d] to send, that of the reader the frame [x] its substream
    brings, as [read_one] reads it under the limit the task asks for. *)
Definition queued (d : bytes) : script :=
  λ c, match c return option (reply c) with
       | SelectStream _ _ => Some (inl (Some (WdData d)))
       | _ => None
       end.

Definition incoming (x : bytes) : script :=
  λ c, match c return option (reply c) with
       | SelectStream _ max => Some (inr (read_frame max x))
       | _ => None
       end.

(** What a poll task passes to the reader, itself or by the task it spawns. *)
Definition hands_over (v : WrappedStream) (tr : list cmd) (res : result bytes ReadOneError) : Prop :=
  InSend v res ∈ tr ∨ Spawn (TaskInSend v res) ∈ tr.

(** [d], sent on the stream [w], whose other end is [v], reaches the reader of [v]
    as [res]: the poll task of [w] writes a frame, that of [v] reads it. *)
Inductive crosses (w v : WrappedStream) (d : bytes) (res : result bytes ReadOneError) : Prop :=
| crossed e1 n1 s1 x e2 n2 s2 :
    conforms (calm_with (queued d)) e1 → SubWrite w x ∈ trace (run e1 (start_poll_step w) n1 s1) →
    conforms (calm_with (incoming x)) e2 → hands_over v (trace (run e2 (start_poll_step v) n2 s2)) res →
    crosses w v d res.

(** [d], sent on [w], travels the path and reaches the reader of [v] as [d']: each
    node reads what the one before sent, and the last stream is that of [v]. *)
Inductive travels (sid : string) (v : WrappedStream) : WrappedStream → list hop → bytes → bytes → Prop :=
| travels_end w d d' : crosses w v d (Ok d') → travels sid v w [] d d'
| travels_hop w h hs d d0 d1 d2 e n :
    crosses w (hop_in h) d (Ok d0) → conforms (calm_with (reads d0)) e →
    OutSend (hop_out h) (WdData d1) ∈ trace (run e (hop_step sid h) n (hop_state h)) →
    travels sid v (hop_out h) hs d1 d2 → travels sid v w (h :: hs) d d2.

(** The frames the program writes of a message: its type and data, with the hash of
    a message for its id, and confusion within its bound. *)
Definition frame_of (r : Relay) (d : bytes) : Prop :=
  ∃ k confusion, confusion_ok r confusion ∧
    d = pb_encode (mkRelay (from_bytes_get_id k) (relay_type r) (relay_data r) confusion).

(** ** Lemmas *)

Lemma carries_data `{!CodecLaws} sid payload confusion :
  carries (pb_encode (sealed (data_relay sid payload) confusion)) sid payload.
Proof.
  exists (sealed (data_relay sid payload) confusion). rewrite pb_decode_encode.
  split_and!; try done. simpl. by rewrite pb_decode_encode.
Qed.

Lemma carries_sealed `{!CodecLaws} sid payload m confusion :
  relay_type m = relaytype_i32 RtData → pb_decode (relay_data m) = Some (mkRelayMsg sid payload) →
  carries (pb_encode (sealed m confusion)) sid payload.
Proof. intros Hty Hm. exists (sealed m confusion). by rewrite pb_decode_encode. Qed.

(** The relay event handler on a data message. *)
Lemma data_step_wp d m w node sid_opt s Q :
  pb_decode d = Some m → relay_type m = relaytype_i32 RtData →
  wp calm (handle_relay_msg m w) s (after calm (λ _, mret (inl sid_opt)) (λ tr, Q (InRecv w :: tr))) →
  wp (calm_with (reads d)) (relay_event_step w node sid_opt) s Q.
Proof.
  intros Hd Hty Hk. unfold relay_event_step, read_from_negotiated_arc, ws_read.
  wp_step. wp_norm. rewrite Hd. wp_norm. wp_norm.
  unfold relay_dispatch. rewrite Hty.
  repeat rewrite decide_False by done. rewrite decide_True by done.
  by apply wp_calm_with, wp_bind_2.
Qed.

(** *** Frames *)

Lemma frame_sealed r confusion : confusion_ok r confusion → frame_of r (pb_encode (sealed r confusion)).
Proof. intros Hc. by eexists _, confusion. Qed.

(** What a reader makes of one, and what it sends when it passes it on. *)
Lemma frame_decoded `{!CodecLaws} r d :
  frame_of r d → ∃ m, pb_decode d = Some m ∧ relay_type m = relay_type r ∧ relay_data m = relay_data r ∧
    ∀ confusion, confusion_ok m confusion → frame_of r (pb_encode (sealed m confusion)).
Proof.
  intros (k & c & Hc & ->). eexists. rewrite pb_decode_encode. do 3 (split; [done|]).
  intros confusion Hok. by eexists _, confusion.
Qed.

Lemma frame_carries `{!CodecLaws} sid payload d : frame_of (data_relay sid payload) d → carries d sid payload.
Proof.
  intros (m & Hd & Hty & Hm & _)%frame_decoded. exists m. rewrite Hm. split_and!; [done..|].
  simpl. by rewrite pb_decode_encode.
Qed.

(** Their length: 64 characters of id, a tenth and nine bytes of confusion, and the
    encoding's own bytes. *)
Lemma frame_length `{!SizeLaws} r t d :
  relay_type r = relaytype_i32 t → t ≠ RtSetSessionId → frame_of r d →
  length (relay_data r) < length d ∧ (length (relay_data r) ≤ 3617 → length d ≤ READ_MAX).
Proof.
  intros Hty Ht (k & c & Hc & ->). set (id := from_bytes_get_id k).
  destruct (relay_length (mkRelay id (relay_type r) (relay_data r) c) t Hty) as [Hlow Hhigh].
  cbn [relay_id relay_data relay_confusion] in *. rewrite decide_False in Hlow by done.
  assert (Hid : length (as_bytes id) ≤ 64).
  { unfold id, from_bytes_get_id, sha2_256.
    pose proof (bs58_length (drop 2 (sha2_256_to_bytes k))) as Hb.
    rewrite length_drop, multihash_length in Hb. lia. }
  unfold confusion_ok, confusion_bound, CONFUSION_MAX_PROPORTION, CONFUSION_PAD_LEN in Hc.
  set (n := length (relay_data r)) in *. pose proof (Z.div_lt_upper_bound (Z.of_nat n * 10) 100 362).
  split; [lia|]. intros Hsmall. unfold READ_MAX. lia.
Qed.

(** Data messages. *)
Lemma data_length `{!SizeLaws} sid payload :
  length payload ≤ length (relay_data (data_relay sid payload)) ∧
  (length (as_bytes sid) + length payload ≤ 3595 → length (relay_data (data_relay sid payload)) ≤ 3617).
Proof.
  destruct (relay_msg_length (mkRelayMsg sid payload)) as [Hlow Hhigh]. cbn [rmsg_session_id rmsg_data] in *.
  change (relay_data _) with (pb_encode (mkRelayMsg sid payload)). split; lia.
Qed.

(** *** One stream: the poll tasks of its ends *)

Lemma sender_sends w d s :
  ensures (calm_with (queued d)) s (start_poll_step w) (λ tr _ _, tr = [SelectStream w READ_MAX; SubWrite w d]).
Proof. apply wp_ensures. unfold start_poll_step. by wp_steps. Qed.

Lemma reader_hands_over v x s :
  x ≠ [] →
  ensures (calm_with (incoming x)) s (start_poll_step v) (λ tr _ _,
    ∀ res, hands_over v tr res ↔ res = read_frame READ_MAX x).
Proof.
  intros Hx. apply wp_ensures. unfold start_poll_step, hands_over. wp_step. wp_norm. unfold read_frame.
  assert (Hsend : ∀ y (tr : list cmd) res, tr = [SelectStream v READ_MAX; InSend v y] ∨
    tr = [SelectStream v READ_MAX; Spawn (TaskInSend v y)] →
    (InSend v res ∈ tr ∨ Spawn (TaskInSend v res) ∈ tr) ↔ res = y).
  { intros y tr res [-> | ->]; rewrite !elem_of_cons, !elem_of_nil; clear; naive_solver. }
  case_decide; [destruct x as [|b x]; [done|]|]; wp_steps; intros res; apply Hsend; auto.
Qed.

(** A frame crosses a stream as it is, or is refused for its length. *)
Lemma crosses_read w v d res : d ≠ [] → crosses w v d res → res = read_frame READ_MAX d.
Proof.
  intros Hd [e1 n1 s1 x e2 n2 s2 He1 Hin He2 Hout]. rewrite (sender_sends w d s1 e1 n1 He1) in Hin.
  apply elem_of_cons in Hin as [[=]|Hin]. apply list_elem_of_singleton in Hin as [= ->].
  by apply (reader_hands_over v d s2 Hd e2 n2 He2).
Qed.

Lemma crosses_always w v d e : d ≠ [] → conforms calm e → crosses w v d (read_frame READ_MAX d).
Proof.
  intros Hd He.
  assert (H1 : conforms (calm_with (queued d)) (follow (queued d) e))
    by (apply follow_conforms; [done|]; intros c r; destruct c; simpl; intros; by simplify_eq).
  assert (H2 : conforms (calm_with (incoming d)) (follow (incoming d) e))
    by (apply follow_conforms; [done|]; intros c r; destruct c; simpl; intros; by simplify_eq).
  eapply (crossed w v d _ _ 0 empty_shared d _ 0 empty_shared H1); [|exact H2|].
  - rewrite (sender_sends w d _ _ 0 H1). apply list_elem_of_further, list_elem_of_here.
  - by apply (reader_hands_over v d empty_shared Hd _ 0 H2).
Qed.

(** *** Paths *)

(** One node on the way: it sends the message on, in a frame of its own, and does
    nothing else. *)
Definition forwards (sid : string) (r : Relay) (h : hop) (tr : list cmd)
    (o : outcome (option string + unit)) (s' : Shared) : Prop :=
  o = Returned (inl (Some sid)) ∧ s' = hop_state h ∧
  ∃ d', frame_of r d' ∧ effects tr = [InRecv (hop_in h); OutSend (hop_out h) (WdData d')].

Lemma forwards_wp r h m x Q :
  relay_type m = relay_type r → relay_data m = relay_data r →
  (∀ confusion, confusion_ok m confusion → frame_of r (pb_encode (sealed m confusion))) →
  ready x = true → other_stream x (stream_id (hop_in h)) = Some (hop_out h) →
  (∀ tr, (∃ d', frame_of r d' ∧ effects tr = [OutSend (hop_out h) (WdData d')]) →
     Q tr (Returned tt) (hop_state h)) →
  wp calm (forward_relay x (stream_id (hop_in h)) m) (hop_state h) Q.
Proof.
  intros Hty Hdata Hnext Hready Hother HQ. apply forward_relay_wp; [done|]. rewrite Hother.
  intros confusion us Hc. apply HQ. eexists. split; [by apply Hnext|done].
Qed.

Lemma effects_sent w d tr :
  OutSend w (WdData d) ∈ tr ↔ OutSend w (WdData d) ∈ effects tr.
Proof.
  unfold effects. induction tr as [|c tr IH]; [done|]. simpl. rewrite elem_of_cons.
  destruct (visible c) eqn:Hc; rewrite ?elem_of_cons, IH; [done|].
  split; [|tauto]. intros [<-|]; [done|tauto].
Qed.

Lemma forwards_sent sid r h tr o s' d :
  forwards sid r h tr o s' → OutSend (hop_out h) (WdData d) ∈ tr → frame_of r d.
Proof.
  intros (_ & _ & d' & Hd' & Htr) Hin. apply effects_sent in Hin. rewrite Htr in Hin.
  apply elem_of_cons in Hin as [[=]|Hin]. apply elem_of_cons in Hin as [[= ->]|[]%not_elem_of_nil].
  done.
Qed.

(** A message of a type other than [SetSessionId], and nodes that send it on. *)
Section Paths.
Context `{!SizeLaws} (sid : string) (r : Relay) (t : Relaytype).
Hypothesis Htype : relay_type r = relaytype_i32 t.
Hypothesis Hset : t ≠ RtSetSessionId.

Lemma frame_nonempty d : frame_of r d → d ≠ [].
Proof. intros [Hl _]%(frame_length r t); [|done..]. intros ->. simpl in Hl. lia. Qed.

Lemma crosses_ok w v d d' : frame_of r d → crosses w v d (Ok d') → d' = d ∧ length d ≤ READ_MAX.
Proof.
  intros Hd Hc. apply crosses_read in Hc; [|by apply frame_nonempty].
  unfold read_frame in Hc. case_decide; by simplify_eq.
Qed.

Lemma crosses_small w v d e :
  length (relay_data r) ≤ 3617 → frame_of r d → conforms calm e → crosses w v d (Ok d).
Proof.
  intros Hlen Hd He. replace (Ok d) with (read_frame READ_MAX d).
  - eapply crosses_always; [by apply frame_nonempty|done].
  - unfold read_frame. rewrite decide_True; [done|]. by apply (frame_length r t).
Qed.

Context (path : list hop).
Hypothesis Hpath : Forall (λ h, ∀ d, frame_of r d →
  ensures (calm_with (reads d)) (hop_state h) (hop_step sid h) (forwards sid r h)) path.

Lemma travels_frame v w d d' :
  frame_of r d → travels sid v w path d d' → frame_of r d' ∧ length d ≤ READ_MAX.
Proof.
  intros Hd Htravel. revert Hpath Hd.
  induction Htravel as [w d d' Hc|w h hs d d0 d1 d2 e' n Hc He' Hout _ IH]; intros Hhops Hd;
    destruct (crosses_ok _ _ _ _ Hd Hc) as [-> Hl]; [done|].
  inversion Hhops as [|? ? Hh Hhs]; subst. split; [|done]. apply IH; [done|].
  eapply (forwards_sent sid r h); [|exact Hout]. exact (Hh _ Hd e' n He').
Qed.

Lemma travels_small v e :
  length (relay_data r) ≤ 3617 → conforms calm e →
  ∀ w d, frame_of r d → ∃ d', travels sid v w path d d'.
Proof.
  intros Hlen He. induction Hpath as [|h hs Hh Hhs IH]; intros w d Hd.
  { exists d. constructor. by eapply crosses_small. }
  assert (Hf : conforms (calm_with (reads d)) (follow (reads d) e)).
  { apply follow_conforms; [done|]. intros c r0; destruct c; simpl; intros; by simplify_eq. }
  destruct (Hh d Hd _ 0 Hf) as (_ & _ & d1 & Hd1 & Htr).
  destruct (IH Hhs (hop_out h) d1 Hd1) as [d' Ht]. exists d'.
  eapply travels_hop; [by eapply crosses_small|exact Hf| |exact Ht].
  apply effects_sent. rewrite Htr. apply list_elem_of_further, list_elem_of_here.
Qed.

End Paths.

(** Nodes that relay the session forward its data messages. *)
Lemma relays_forward `{!CodecLaws} sid payload path :
  Forall (relays sid) path →
  Forall (λ h, ∀ d, frame_of (data_relay sid payload) d →
    ensures (calm_with (reads d)) (hop_state h) (hop_step sid h) (forwards sid (data_relay sid payload) h)) path.
Proof.
  apply Forall_impl. intros h (x & Hx & Hready & Hans & Hcall & Hother) d (m & Hd & Hty & Hm & Hnext)%frame_decoded.
  apply wp_ensures, (data_step_wp d m); [done..|].
  unfold handle_relay_msg. rewrite Hm. cbn [relay_data data_relay]. rewrite pb_decode_encode.
  wp_step. cbn [rmsg_session_id]. rewrite Hx.
  rewrite client_role_cases, bool_decide_false by tauto. rewrite Hready.
  eapply forwards_wp; [done..|]. intros tr (d' & Hd' & Htr). cbn [after]. wp_step.
  rewrite app_nil_r. split_and!; [done..|]. exists d'. split; [done|]. simpl. by rewrite Htr.
Qed.

(** ** The ends of the circuit *)

(** The frame of a ciphertext and the message a reader extracts. *)
Lemma sized_message_of (m rest : bytes) :
  (Z.of_nat (length m) < 2 ^ 32)%Z →
  sized_message ((be_bytes 4 (Z.of_nat (length m)) ++ m) ++ rest) = Some m.
Proof.
  intros Hlt. pose proof (from_be_bytes_4 (Z.of_nat (length m))) as Hint. rewrite be_bytes_4 in *.
  cbn [app]. unfold sized_message. rewrite Hint, Z.mod_small by lia. rewrite Nat2Z.id.
  apply (slice_spec' [_; _; _; _] m rest); simpl; lia.
Qed.

Lemma circuit_write_wp `{!BytesLaws} cc h payload n c t t' s Q :
  transport_state cc = Some h →
  transports s !! h = Some t → ts_write_message t payload n = Some (t', c) → 0 < length c →
  (∀ confusion us,
     let r := data_relay (cc_id cc) (be_bytes 2 (Z.of_nat (length c)) ++ c) in
     confusion_ok r confusion →
     Q (write_cmds (out_stream cc) r confusion us) (Returned tt) (set_transports <[h := t']> s)) →
  wp calm (circuit_write cc payload n) s Q.
Proof.
  intros Hcc Ht Hw Hc HQ. unfold circuit_write, transport_write. rewrite Hcc. wp_step.
  rewrite Ht. simpl. rewrite Hw. wp_norm. by apply write_payload_arc_wp.
Qed.

(** What the reader makes of a frame. *)
Lemma circuit_take_wp h frame c t t' m plain buf s Q :
  payload_unframe frame = Some c →
  transports s !! h = Some t → ts_read_message t c (length buf) = Some (t', plain) →
  sized_message (overwrite buf plain) = Some m →
  Q [] (Returned (m, overwrite buf plain)) (set_transports <[h := t']> s) →
  wp calm (circuit_take h frame buf) s Q.
Proof.
  intros Hframe Ht Hr Hm HQ. unfold circuit_take, transport_read. rewrite Hframe. wp_step.
  rewrite Ht. simpl. rewrite Hr. wp_norm. rewrite Hm. wp_norm. by wp_ret.
Qed.

Lemma circuit_read_wp cc h frame c t t' m plain buf s Q :
  transport_state cc = Some h → payload_unframe frame = Some c →
  transports s !! h = Some t → ts_read_message t c (length buf) = Some (t', plain) →
  sized_message (overwrite buf plain) = Some m →
  Q [CircuitRecv (in_channel cc)] (Returned (m, overwrite buf plain)) (set_transports <[h := t']> s) →
  wp (calm_with (receives frame)) (circuit_read cc buf) s Q.
Proof.
  intros Hcc Hframe Ht Hr Hm HQ. unfold circuit_read. rewrite Hcc. wp_step. wp_norm.
  apply wp_calm_with. by eapply circuit_take_wp.
Qed.

(** The handler of a client's stream: the payload goes to the circuit. *)
Lemma client_step_ensures sid d payload s x w node cc :
  carries d sid payload →
  session_map s !! sid = Some x →
  session_role x = role_i32 AnswerRole ∨ session_role x = role_i32 CallerRole →
  circuit_map s !! sid = Some cc →
  ensures (calm_with (reads d)) s (relay_event_step w node (Some sid)) (λ tr o s',
    s' = s ∧ o = Returned (inl (Some sid)) ∧ tr = [InRecv w; CircuitSend (in_channel cc) payload]).
Proof.
  intros (m & Hd & Hty & Hm) Hx Hrole Hcc. apply wp_ensures, (data_step_wp d m); [done..|].
  unfold handle_relay_msg. rewrite Hm. wp_step. cbn [rmsg_session_id rmsg_data]. rewrite Hx.
  rewrite client_role_cases, bool_decide_true by done. wp_step. rewrite Hcc.
  wp_step. wp_norm. wp_ret. wp_norm. by wp_ret.
Qed.

(** The ways of a payload that is written in a frame of its length. *)
Lemma sealed_payload_ways `{!CodecLaws, !SizeLaws} sid (c : bytes) confusion path w v :
  let r := data_relay sid (be_bytes 2 (Z.of_nat (length c)) ++ c) in
  let d := pb_encode (sealed r confusion) in
  confusion_ok r confusion → Forall (relays sid) path →
  (length (as_bytes sid) + length c ≤ 3593 → ∀ e, conforms calm e → ∃ d', travels sid v w path d d') ∧
  (READ_MAX < length c → ∀ d', ¬ travels sid v w path d d') ∧
  ∀ d', travels sid v w path d d' → carries d' sid (be_bytes 2 (Z.of_nat (length c)) ++ c).
Proof.
  intros r d Hconf Hpath. set (payload := be_bytes 2 _ ++ c) in *.
  assert (Hlen : length payload = 2 + length c) by (unfold payload; by rewrite length_app, be_bytes_length).
  assert (Hd : frame_of r d) by by apply frame_sealed.
  pose proof (relays_forward sid payload path Hpath) as Hhops. destruct (data_length sid payload) as [Hlow Hhigh].
  destruct (frame_length r RtData d) as [Hl _]; [done..|]. fold r in Hlow, Hhigh. split_and!.
  - intros Hsmall e He. eapply (travels_small sid r RtData); try done. apply Hhigh. lia.
  - intros Hlong d' Ht. eapply (travels_frame sid r RtData) in Ht as [_ Hmax]; [lia|done..].
  - intros d' Ht. eapply frame_carries, (travels_frame sid r RtData); done.
Qed.

End Delivery.

(** * Properties *)

Section DeliveryProperties.
Context {EXT : Ext} `{!CodecLaws, !SizeLaws}.

(** C15: what the nodes of a circuit's path do with a message.  On the way from the
    stream [w], through nodes that relay the session in any state, to the reader of
    [v], it passes the poll tasks of both ends of every stream: whatever comes out
    carries the session and the payload that went in (under a new id and new
    confusion).  If the session id and the payload have at most 3595 bytes
    together, it comes out.  If the payload alone is longer than a poll task reads,
    it never does: the reader of the first stream is told that the frame is too
    large. *)
Theorem path_delivers (sid : string) (path : list hop) (w v : WrappedStream) (d payload : bytes) (e : env) :
  Forall (relays sid) path → frame_of (data_relay sid payload) d → conforms calm e →
  (∀ d', travels sid v w path d d' → frame_of (data_relay sid payload) d' ∧ carries d' sid payload) ∧
  (length (as_bytes sid) + length payload ≤ 3595 → ∃ d', travels sid v w path d d') ∧
  (READ_MAX < length payload →
     (∀ d', ¬ travels sid v w path d d') ∧
     ∀ u res, crosses w u d res ↔ res = Err (RequestedTooLarge (length d) READ_MAX)).
Proof.
  intros Hpath Hd He. set (r := data_relay sid payload) in *.
  pose proof (relays_forward sid payload path Hpath) as Hhops.
  destruct (data_length sid payload) as [Hlow Hhigh]. fold r in Hlow, Hhigh. split_and!.
  - intros d' Ht. assert (Hd' : frame_of r d') by by eapply (travels_frame sid r RtData).
    split; [done|by apply frame_carries].
  - intros Hlen. eapply (travels_small sid r RtData); try done. by apply Hhigh.
  - intros Hlong. destruct (frame_length r RtData d) as [Hl _]; [done..|].
    split; [intros d' Ht; eapply (travels_frame sid r RtData) in Ht as [_ Hmax]; [lia|done..]|]. intros u res.
    replace (Err _) with (read_frame READ_MAX d) by (unfold read_frame; by rewrite decide_False by lia).
    pose proof (frame_nonempty r RtData eq_refl ltac:(done) d Hd).
    split; [by apply crosses_read|intros ->; by eapply crosses_always].
Qed.

(** C8: end to end.  What one client writes on a circuit, framed as the chat client
    frames it, is one message on its stream.  Every way it takes from there, over
    the poll tasks of the streams and through nodes that relay the session, to the
    other client brings the channel of that client's circuit one frame, from which
    [read] returns the message, and the two Noise states stay in step.  There is
    such a way when the message and the session id have at most 3573 bytes; there is
    none when the message is longer than a poll task reads. *)
Theorem end_to_end `{!BytesLaws} (ts_peer : TransportState → TransportState → Prop)
    `{!NoiseTransportLaws ts_peer} (cc : CircuitConn) (h : nat) (a b : TransportState) (m : bytes)
    (s1 : Shared) :
  transport_state cc = Some h → transports s1 !! h = Some a → ts_peer a b →
  (Z.of_nat (length m) + 20 <= 65535)%Z →
  ensures calm s1 (circuit_write cc (be_bytes 4 (Z.of_nat (length m)) ++ m) (Z.to_nat BUF_LEN))
    (λ tr1 o1 s1', o1 = Returned tt ∧
      ∃ d a', effects tr1 = [OutSend (out_stream cc) (WdData d)] ∧ transports s1' !! h = Some a' ∧
      ∀ path w, Forall (relays (cc_id cc)) path →
      (length (as_bytes (cc_id cc)) + length m ≤ 3573 → ∀ e, conforms calm e →
         ∃ d', travels (cc_id cc) w (out_stream cc) path d d') ∧
      (READ_MAX < length m → ∀ d', ¬ travels (cc_id cc) w (out_stream cc) path d d') ∧
      ∀ d' s2 x node cc2,
        travels (cc_id cc) w (out_stream cc) path d d' →
        session_map s2 !! cc_id cc = Some x →
        session_role x = role_i32 AnswerRole ∨ session_role x = role_i32 CallerRole →
        circuit_map s2 !! cc_id cc = Some cc2 →
        ensures (calm_with (reads d')) s2 (relay_event_step w node (Some (cc_id cc)))
          (λ tr2 o2 s2', s2' = s2 ∧ o2 = Returned (inl (Some (cc_id cc))) ∧
            ∃ frame, tr2 = [InRecv w; CircuitSend (in_channel cc2) frame] ∧
            ∀ s3 cc3 h3 buf,
              transport_state cc3 = Some h3 → transports s3 !! h3 = Some b →
              length m + 4 ≤ length buf →
              ensures (calm_with (receives frame)) s3 (circuit_read cc3 buf) (λ _ o3 s3',
                ∃ rest b', o3 = Returned (m, rest) ∧ transports s3' !! h3 = Some b' ∧
                           ts_peer a' b'))).
Proof.
  intros Hcc Ha Hpeer Hlen. set (plain := be_bytes 4 _ ++ m).
  assert (Hplain : length plain = 4 + length m) by (unfold plain; by rewrite length_app, be_bytes_length).
  destruct (ts_roundtrip a b plain (Z.to_nat BUF_LEN) (length plain)) as
    (a' & b0 & c & Hw & Hc & _); [done|lia|unfold BUF_LEN; lia|lia|].
  apply wp_ensures. eapply circuit_write_wp; [done..|lia|]. intros confusion us r Hconf. split; [done|].
  eexists _, a'. rewrite effects_write_cmds. split; [done|]. simpl.
  split; [apply lookup_insert_eq|]. intros path w Hpath.
  destruct (sealed_payload_ways (cc_id cc) c confusion path (out_stream cc) w) as (Hway & Hlong & Hcarry);
    [done..|]. split_and!; [intros Hsmall; apply Hway; lia|intros Hl; apply Hlong; lia|].
  intros d' s2 x node cc2 Htravel Hx Hrole Hcc2 e n He.
  destruct (client_step_ensures _ _ _ _ _ w node _ (Hcarry d' Htravel) Hx Hrole Hcc2 e n He) as (Hs & Ho & Htr).
  split; [done|]. split; [done|]. eexists. split; [exact Htr|].
  intros s3 cc3 h3 buf Hcc3 Hb Hbuf.
  destruct (ts_roundtrip a b plain (Z.to_nat BUF_LEN) (length buf)) as
    (a1 & b' & c1 & Hw1 & _ & Hr & Hpeer'); [done|lia|unfold BUF_LEN; lia|lia|].
  rewrite Hw in Hw1. simplify_eq. apply wp_ensures.
  eapply circuit_read_wp; [done|apply payload_unframe_frame; lia|done..| |].
  - apply sized_message_of. lia.
  - eexists _, b'. split; [done|]. simpl. by rewrite lookup_insert_eq.
Qed.

End DeliveryProperties.

Section DeliveryWitnesses.
Local Existing Instance toy.

(** A path of one relay node. *)
Definition toy_hop : hop :=
  mkHop toy_node (set_session_map <["sid"%string := toy_session RelayRole]> empty_shared)
    (toy_stream "e" "1") (toy_stream "l" "2").

Lemma toy_relays : Forall (relays "sid") [toy_hop].
Proof. repeat constructor. exists (toy_session RelayRole). by split_and!. Qed.

Lemma path_delivers_witness :
  Forall (relays "sid") [toy_hop] ∧
  ∃ d', travels "sid" (toy_stream "b" "3") (toy_stream "a" "0") [toy_hop]
    (pb_encode (sealed (data_relay "sid" [x01]) [])) d'.
Proof.
  split; [exact toy_relays|].
  refine (proj1 (proj2 (@path_delivers toy toy_codec_laws toy_size_laws "sid" [toy_hop] (toy_stream "a" "0")
    (toy_stream "b" "3") _ [x01] (toy_env no_script) toy_relays
    (frame_sealed (data_relay "sid" [x01]) [] _) (toy_env_calm no_script))) _); [reflexivity|].
  apply (bool_decide_unpack _). vm_compute. exact I.
Defined.

Lemma end_to_end_witness :
  let cc := mkCircuitConn "sid" (toy_stream "p" "1") 7 (Some 0) in
  let s : Shared := set_transports <[0 := (3, 5) : TransportState]> empty_shared in
  toy_peer (3, 5) (9, 3) ∧
  ensures calm s (circuit_write cc (be_bytes 4 1 ++ [x2a]) (Z.to_nat BUF_LEN))
    (λ _ o1 _, o1 = Returned tt).
Proof.
  intros cc s. split; [reflexivity|]. intros e n He.
  refine (proj1 (@end_to_end toy toy_codec_laws toy_size_laws toy_bytes_laws toy_peer toy_transport_laws
    cc 0 (3, 5) (9, 3) [x2a] s eq_refl _ eq_refl _ e n He)); [reflexivity|vm_compute; discriminate].
Defined.

End DeliveryWitnesses.
