(* ===== verification/Chat.v ===== *)
(** * The chat client

    whitenoise-client/src/main.rs: the program a user runs.  It joins the
    network through a random node of the bootstrap node's list, dials another
    client or waits to be dialled, and then exchanges lines: what is typed goes
    out on the circuit, what comes in is printed.  The theorem at the end follows
    a line from one terminal to the other. *)

From S2P Require Import Prelude Proto External State Io Packing Concrete Utils Connection Account Node.
From S2P Require Import RelayEvents Host Client RelayBehaviour Delivery.

Section Chat.
Context {EXT : Ext}.

(** ** Lines and messages *)

(** The framing of a message: [put_u32(len as u32)] and the bytes copied into
    the rest of the vector; [None] is the length mismatch panic. *)
Definition chat_payload (chat_message_encode : bytes) : option bytes :=
  let len := length chat_message_encode in
  if decide (len = vec_chunk_len (4 + len) 4)
  then Some (be_bytes 4 (Z.of_nat len) ++ chat_message_encode) else None.

Definition send_line {C} `{!Client C} (client : C) (sid nick_name line : string) : io unit :=
  let chat_message := mkChatMessage nick_name (as_bytes line) in
  let chat_message_encode := pb_encode chat_message in
  payload ← unwrap (chat_payload chat_message_encode);
  client_send_message client sid payload.

(** The data goes to the terminal through [from_utf8_lossy]. *)
Definition print_message (data : bytes) : io unit :=
  chat_message ← unwrap (pb_decode (M := ChatMessage) data);
  call (PrintMessage (chat_peer_id chat_message) (chat_data chat_message)).

(** The channel a read of the circuit waits on. *)
Definition read_channel (cc : CircuitConn) : option nat :=
  match transport_state cc with None => None | Some _ => Some (in_channel cc) end.

(** One round of the [select!]: a line was read, or the circuit's read is done;
    the other future is dropped.  A read of a circuit without a transport is done
    at once.  [buf] keeps its content between reads. *)
Definition chat_step {C} `{!Client C} (client : C) (sid nick_name : string) (circuit_conn : CircuitConn)
    (buf : bytes) : io (bytes + unit) :=
  selected ← call (SelectStdin (read_channel circuit_conn));
  match selected with
  | inl line =>
      send_line client sid nick_name line;;
      mret (inl buf)
  | inr received =>
      '(data, buf) ← match transport_state circuit_conn with
                     | None => mret ([], buf)
                     | Some h => frame ← unwrap received; circuit_take h frame buf
                     end;
      print_message data;;
      mret (inl buf)
  end.

Definition chat_loop {C} `{!Client C} (fuel : nat) (client : C) (sid nick_name : string)
    (circuit_conn : CircuitConn) : io unit :=
  loop (chat_step client sid nick_name circuit_conn) fuel (replicate (Z.to_nat BUF_LEN) x00).

Definition answer {C} `{!Client C} (fuel : nat) (client : C) (nick_name : string) : io unit :=
  session_id ← client_notify_next_session client ≫= unwrap;
  circuit_conn ← client_get_circuit client session_id ≫= unwrap;
  chat_loop fuel client session_id nick_name circuit_conn.

(** The wait for the handshake. *)
Definition wait_step {C} `{!Client C} (client : C) (session_id : string) : io (unit + CircuitConn) :=
  cc ← client_get_circuit client session_id ≫= unwrap;
  match transport_state cc with
  | Some _ => mret (inr cc)
  | None => call (Sleep 20000);; mret (inl tt)
  end.

Definition caller {C} `{!Client C} (fuel : nat) (remote_whitenoise_id : string) (client : C)
    (nick_name : string) : io unit :=
  session_id ← client_dial client remote_whitenoise_id;
  circuit_conn ← loop (λ _ : unit, wait_step client session_id) fuel tt;
  chat_loop fuel client session_id nick_name circuit_conn.

(** ** The program *)

(** [%] panics on an empty list. *)
Definition choose_proxy (peer_list : list PeerId) (random : Z) : option PeerId :=
  if decide (length peer_list = 0) then None
  else peer_list !! Z.to_nat (random mod Z.of_nat (length peer_list)).

Definition start_client (fuel : nat) (bootstrap_addr nick_name : string)
    (remote_whitenoise_id_option : option string) (key_type : string) : io unit :=
  client ← client_init bootstrap_addr (from_text_str key_type) None;
  peer_list ← client_get_main_net_peers client 10;
  index ← call RandomUsize;
  proxy_remote_id ← unwrap (choose_proxy peer_list index);
  '(client, _) ← client_register client proxy_remote_id;
  match remote_whitenoise_id_option with
  | Some remote => caller fuel remote client nick_name
  | None => answer fuel client nick_name
  end.

(** The matches of the [chat] subcommand. *)
Record ChatArgs := mkChatArgs {
  chat_arg_bootstrap : option string;
  chat_arg_id : option string;
  chat_arg_nick : option string;
  chat_arg_ktype : option string
}.

Definition chat_main (fuel : nat) (chat_matches : option ChatArgs) : io unit :=
  match chat_matches with
  | None => mret tt
  | Some x =>
      bootstrap_addr ← unwrap (chat_arg_bootstrap x);
      start_client fuel bootstrap_addr (default "Alice" (chat_arg_nick x))%string (chat_arg_id x)
        (default "ed25519" (chat_arg_ktype x))%string
  end.

End Chat.

(** * Lemmas *)

Section ChatLemmas.
Context {EXT : Ext}.

Lemma chat_payload_some `{!BytesLaws} (m : bytes) :
  0 < length m → chat_payload m = Some (be_bytes 4 (Z.of_nat (length m)) ++ m).
Proof. intros Hpos. unfold chat_payload. rewrite chunk_room by lia. by rewrite decide_True by lia. Qed.

Lemma chat_payload_empty `{!BytesLaws} : chat_payload [] = None.
Proof. unfold chat_payload. rewrite decide_False; [done|]. simpl. pose proof (chunk_full 4). lia. Qed.

(** The user types [line]; the circuit delivers [frame]. *)
Definition types (line : string) : script :=
  λ c, match c return option (reply c) with
       | SelectStdin _ => Some (inl line)
       | _ => None
       end.

Definition comes_in (frame : bytes) : script :=
  λ c, match c return option (reply c) with
       | SelectStdin _ => Some (inr (Some frame))
       | _ => None
       end.

Lemma overwrite_length (buf m : bytes) : length m ≤ length buf → length (overwrite buf m) = length buf.
Proof. intros Hle. unfold overwrite. rewrite length_app, length_drop. lia. Qed.

(** A line on a circuit with a transport. *)
Lemma send_line_wp `{!BytesLaws} (client : WhiteNoiseClient) sid nick line cc h t t' c s Q :
  let enc := pb_encode (mkChatMessage nick (as_bytes line)) in
  circuit_map s !! sid = Some cc → transport_state cc = Some h → transports s !! h = Some t →
  0 < length enc →
  ts_write_message t (be_bytes 4 (Z.of_nat (length enc)) ++ enc) (Z.to_nat BUF_LEN) = Some (t', c) →
  0 < length c →
  (∀ confusion us,
     let r := data_relay (cc_id cc) (be_bytes 2 (Z.of_nat (length c)) ++ c) in
     confusion_ok r confusion → Q (write_cmds (out_stream cc) r confusion us) (Returned tt) (set_transports <[h := t']> s)) →
  wp calm (send_line client sid nick line) s Q.
Proof.
  intros enc Hcc Hh Ht Henc Hw Hc HQ. unfold send_line. fold enc. rewrite chat_payload_some by done.
  cbn [client_send_message WhiteNoiseClient_client]. unfold send_message. wp_step. rewrite Hcc. wp_norm.
  rewrite Hh. eapply circuit_write_wp; [done..|]. intros confusion us r Hc'. by apply HQ.
Qed.

(** A frame of a message on a circuit with a transport. *)
Lemma chat_receive_wp `{!CodecLaws} {C} `{!Client C} (client : C) sid nick cc h frame c t t' m buf s Q :
  transport_state cc = Some h → payload_unframe frame = Some c → transports s !! h = Some t →
  (Z.of_nat (length (pb_encode m)) < 2 ^ 32)%Z →
  ts_read_message t c (length buf) =
    Some (t', be_bytes 4 (Z.of_nat (length (pb_encode m))) ++ pb_encode m) →
  length (pb_encode m) + 4 ≤ length buf →
  (∀ buf', length buf' = length buf →
     Q [SelectStdin (Some (in_channel cc)); PrintMessage (chat_peer_id m) (chat_data m)]
       (Returned (inl buf')) (set_transports <[h := t']> s)) →
  wp (calm_with (comes_in frame)) (chat_step client sid nick cc buf) s Q.
Proof.
  intros Hh Hframe Ht Hm Hr Hbuf HQ. unfold chat_step, read_channel. rewrite Hh. wp_step. wp_norm.
  apply wp_bind_2, wp_calm_with. eapply circuit_take_wp; [done..| |].
  { unfold overwrite. rewrite <- app_assoc. rewrite app_assoc. by apply sized_message_of. }
  cbn [after]. unfold print_message. rewrite pb_decode_encode. wp_norm. wp_step.
  wp_step. apply HQ. apply overwrite_length. rewrite length_app, be_bytes_length. lia.
Qed.

End ChatLemmas.

(** * Properties *)

Section ChatProperties.
Context {EXT : Ext} `{!CodecLaws, !SizeLaws, !BytesLaws}.

(** C16: a line, from one terminal to the other.  What the user of one client
    types goes out as one message on the circuit; whatever way it takes, over the
    poll tasks of the streams and through nodes that relay the session, the other
    client's handler puts it on its circuit's channel; and the other program's next
    round prints exactly that line under the sender's nick name.  The two Noise
    states stay in step and the buffer keeps its size, so that the next line does
    the same.  There is a way when the line, the nick name and the session id have
    at most 3551 bytes, and none when the line is longer than a poll task reads. *)
Theorem chat_line_delivered (ts_peer : TransportState → TransportState → Prop)
    `{!NoiseTransportLaws ts_peer} (client : WhiteNoiseClient) (nick line : string)
    (cc : CircuitConn) (h : nat) (a b : TransportState) (buf : bytes) (s1 : Shared) :
  let sid := cc_id cc in
  let enc := pb_encode (mkChatMessage nick (as_bytes line)) in
  circuit_map s1 !! sid = Some cc → transport_state cc = Some h →
  transports s1 !! h = Some a → ts_peer a b →
  0 < length enc → (Z.of_nat (length enc) + 20 <= 65535)%Z →
  ensures (calm_with (types line)) s1 (chat_step client sid nick cc buf) (λ tr1 o1 s1',
    o1 = Returned (inl buf) ∧ ∃ d a',
    effects tr1 = [SelectStdin (Some (in_channel cc)); OutSend (out_stream cc) (WdData d)] ∧
    transports s1' !! h = Some a' ∧ circuit_map s1' = circuit_map s1 ∧
    ∀ path w, Forall (relays sid) path →
    (length (as_bytes sid) + length (as_bytes nick) + length (as_bytes line) ≤ 3551 →
       ∀ e, conforms calm e → ∃ d', travels sid w (out_stream cc) path d d') ∧
    (READ_MAX < length (as_bytes line) → ∀ d', ¬ travels sid w (out_stream cc) path d d') ∧
    ∀ d' s2 x node cc2,
      travels sid w (out_stream cc) path d d' →
      session_map s2 !! sid = Some x →
      session_role x = role_i32 AnswerRole ∨ session_role x = role_i32 CallerRole →
      circuit_map s2 !! sid = Some cc2 →
      ensures (calm_with (reads d')) s2 (relay_event_step w node (Some sid)) (λ tr2 _ _, ∃ frame,
        tr2 = [InRecv w; CircuitSend (in_channel cc2) frame] ∧
        ∀ (client3 : WhiteNoiseClient) sid3 nick3 s3 cc3 h3 buf3,
          transport_state cc3 = Some h3 → transports s3 !! h3 = Some b →
          length buf3 = Z.to_nat BUF_LEN →
          ensures (calm_with (comes_in frame)) s3 (chat_step client3 sid3 nick3 cc3 buf3)
            (λ tr3 o3 s3',
               tr3 = [SelectStdin (Some (in_channel cc3)); PrintMessage nick (as_bytes line)] ∧
               ∃ buf' b', o3 = Returned (inl buf') ∧ length buf' = Z.to_nat BUF_LEN ∧
               transports s3' !! h3 = Some b' ∧ ts_peer a' b'))).
Proof.
  intros sid enc Hcc Hh Ha Hpeer Hpos Hlen.
  set (plain := be_bytes 4 (Z.of_nat (length enc)) ++ enc).
  assert (Hplain : length plain = 4 + length enc) by (unfold plain; by rewrite length_app, be_bytes_length).
  destruct (ts_roundtrip a b plain (Z.to_nat BUF_LEN) (Z.to_nat BUF_LEN)) as
    (a' & b' & c & Hw & Hc & Hr & Hpeer'); [done|unfold BUF_LEN; lia..|].
  apply wp_ensures. unfold chat_step, read_channel. rewrite Hh. wp_step.
  apply wp_bind_2, wp_calm_with. eapply send_line_wp; [done..|lia|]. intros confusion us r Hconf. cbn [after].
  wp_step. split; [done|]. eexists _, a'. rewrite app_nil_r. split; [done|].
  split; [apply lookup_insert_eq|]. split; [done|].
  intros path w Hpath.
  destruct (sealed_payload_ways sid c confusion path (out_stream cc) w) as (Hway & Hlong & Hcarry); [done..|].
  destruct (chat_message_length (mkChatMessage nick (as_bytes line))) as [Hlow Hhigh].
  cbn [chat_peer_id chat_data] in Hlow, Hhigh. fold enc in Hlow, Hhigh.
  split_and!; [intros Hsmall; apply Hway; lia|intros Hl; apply Hlong; lia|].
  intros d' s2 x node cc2 Htravel Hx Hrole Hcc2 e n He.
  destruct (client_step_ensures _ _ _ _ _ w node _ (Hcarry d' Htravel) Hx Hrole Hcc2 e n He) as (_ & _ & Htr).
  eexists. split; [exact Htr|]. intros client3 sid3 nick3 s3 cc3 h3 buf3 Hh3 Hb Hbuf.
  apply wp_ensures. eapply (chat_receive_wp client3 _ _ _ _ _ c _ _ (mkChatMessage nick (as_bytes line)));
    [done|apply payload_unframe_frame; lia|done|fold enc; lia|by rewrite Hbuf|fold enc; unfold BUF_LEN in *; lia|].
  intros buf' Hbuf'. split; [done|]. exists buf', b'. split; [done|]. split; [congruence|].
  split; [apply lookup_insert_eq|done].
Qed.

(** The wait for the handshake, when nothing else runs: over at once when the
    circuit has a transport, and for ever when it has none (the dial of a refused
    circuit returns a session id all the same); a closed circuit is a panic. *)
Theorem caller_wait_spec (client : WhiteNoiseClient) (sid : string) (fuel : nat) (s : Shared) :
  ensures calm s (loop (λ _ : unit, wait_step client sid) (S fuel) tt) (λ tr o s', s' = s ∧
    match circuit_map s !! sid with
    | None => o = Panicked ∧ tr = []
    | Some cc =>
        match transport_state cc with
        | Some _ => o = Returned cc ∧ tr = []
        | None => o = Running ∧ tr = replicate (S fuel) (Sleep 20000)
        end
    end).
Proof.
  apply wp_ensures. destruct (circuit_map s !! sid) as [cc|] eqn:Hcc.
  2:{ rewrite loop_S. unfold wait_step. cbn [client_get_circuit WhiteNoiseClient_client].
      wp_step. rewrite Hcc. wp_norm. by wp_ret. }
  destruct (transport_state cc) as [h|] eqn:Hh.
  { rewrite loop_S. unfold wait_step. cbn [client_get_circuit WhiteNoiseClient_client].
    wp_step. rewrite Hcc. wp_norm. rewrite Hh. wp_norm. by wp_ret. }
  cut (∀ Q : list cmd → outcome CircuitConn → Shared → Prop,
    Q (replicate (S fuel) (Sleep 20000)) Running s →
    wp calm (loop (λ _ : unit, wait_step client sid) (S fuel) tt) s Q); [intros Hloop; by apply Hloop|].
  set (body := λ _ : unit, wait_step client sid).
  induction (S fuel) as [|n IH]; intros Q HQ; [done|].
  rewrite loop_S. unfold body at 2, wait_step. cbn [client_get_circuit WhiteNoiseClient_client].
  wp_step. rewrite Hcc. wp_norm. rewrite Hh. wp_step. by apply IH.
Qed.

(** The proxy a client registers with is one of the peers it was given, any of
    them for some random number; without peers the program panics. *)
Theorem choose_proxy_spec (peers : list PeerId) (random : Z) :
  match choose_proxy peers random with
  | Some p => p ∈ peers
  | None => peers = []
  end ∧
  (∀ i p, peers !! i = Some p → choose_proxy peers (Z.of_nat i) = Some p).
Proof.
  unfold choose_proxy. case_decide as Hlen.
  - apply length_zero_iff_nil in Hlen. subst peers. split; [done|]. intros i p Hp. by rewrite lookup_nil in Hp.
  - pose proof (Z.mod_pos_bound random (Z.of_nat (length peers))) as Hr. split.
    + destruct (peers !! _) as [p|] eqn:Hp; [by eapply list_elem_of_lookup_2|].
      apply lookup_ge_None in Hp. lia.
    + intros i p Hp. pose proof (lookup_lt_Some _ _ _ Hp) as Hi.
      rewrite Z.mod_small by lia. by rewrite Nat2Z.id.
Qed.

End ChatProperties.

Section ChatWitnesses.
Local Existing Instance toy.

Definition toy_client : WhiteNoiseClient := mkWhiteNoiseClient (EXT := toy) toy_node "b" "b"%string.

Lemma chat_line_delivered_witness :
  let cc := mkCircuitConn "sid" (toy_stream "p" "1") 7 (Some 0) in
  let s : Shared := set_circuit_map <["sid"%string := cc]>
    (set_transports <[0 := (3, 5) : TransportState]> empty_shared) in
  circuit_map s !! "sid"%string = Some cc ∧ toy_peer (3, 5) (9, 3) ∧
  ensures (calm_with (types "hi")) s (chat_step toy_client "sid" "Alice" cc [])
    (λ tr1 o1 s1', o1 = Returned (inl []) ∧ ∃ d,
       effects tr1 = [SelectStdin (Some 7); OutSend (toy_stream "p" "1") (WdData d)]).
Proof.
  intros cc s. split; [reflexivity|]. split; [reflexivity|]. intros e n He.
  destruct (@chat_line_delivered toy toy_codec_laws toy_size_laws toy_bytes_laws toy_peer toy_transport_laws
    toy_client "Alice" "hi" cc 0 (3, 5) (9, 3) [] s eq_refl eq_refl eq_refl eq_refl) with (e := e) (n := n)
    as (Ho & d & a' & Htr & _).
  - vm_compute. lia.
  - vm_compute. discriminate.
  - exact He.
  - split; [exact Ho|]. exists d. exact Htr.
Defined.

End ChatWitnesses.
