(* ===== verification/CommandLine.v ===== *)
(** * The command lines

    The [main] functions of src/main.rs and whitenoise-client/src/main.rs: the
    description of their command lines, as they give it to clap, and what they do
    with the matches.  clap itself is a parameter; its documentation is the law
    [ClapLaws]: an option that takes a value has the value that follows its long
    name. *)

From Stdlib Require Import Ascii.
From S2P Require Import Prelude Proto External State Io Concrete Utils Account Node Host Client Chat.

(** ** clap *)

(** [clap::Arg], with what the program says of it; every argument of the program
    is an option that takes a value. *)
Record Arg := mkArg {
  arg_name : string;
  arg_long : string;
  arg_short : option ascii;
  arg_help : string
}.

Record SubCommand := mkSubCommand {
  sub_name : string;
  sub_args : list Arg
}.

Record App := mkApp {
  app_name : string;
  app_version : string;
  app_author : string;
  app_about : string;
  app_args : list Arg;
  app_subcommands : list SubCommand
}.

(** [clap::ArgMatches]: [value_of] and [subcommand_matches]. *)
Definition Values := string → option string.

Record ArgMatches := mkArgMatches {
  value_of : Values;
  subcommand_matches : string → option Values
}.

(** [None]: clap prints a message and ends the process. *)
Class Clap := get_matches : App → list string → option ArgMatches.

(** An option with its value on the command line. *)
Definition option_words (x : Arg * string) : list string := [String.append "--" (arg_long x.1); x.2].

(** A word clap takes for a value: it does not begin with a dash. *)
Definition plain_word (v : string) : Prop := String.prefix "-" v = false.

Definition given (name : string) (opts : list (Arg * string)) : option string :=
  snd <$> List.find (λ x, bool_decide (arg_name x.1 = name)) opts.

(** A subcommand of the application with some of its options, each given once,
    whose long names are different. *)
Class ClapLaws `{!Clap} : Prop :=
  clap_options : ∀ app sub opts,
    app_subcommands app = [sub] → NoDup (arg_long <$> sub_args sub) → NoDup (arg_name <$> sub_args sub) →
    Forall (λ x, x.1 ∈ sub_args sub ∧ plain_word x.2) opts → NoDup (arg_name <$> (fst <$> opts)) →
    ∃ m values, get_matches app (sub_name sub :: (opts ≫= option_words)) = Some m ∧
      subcommand_matches m (sub_name sub) = Some values ∧
      ∀ name, name ∈ (arg_name <$> sub_args sub) → values name = given name opts.

(** ** main.rs *)

Definition log_arg : Arg := mkArg "log" "log" None "log level error, warn, info or debug".

Definition port_arg : Arg := mkArg "port" "port" (Some "p"%char) "listen port.".
Definition bootstrap_arg : Arg :=
  mkArg "bootstrap" "bootstrap" (Some "b"%char) "MultiAddress of the node to bootstrap from.".
Definition ktype_arg : Arg := mkArg "ktype" "keytype" None "key type".

Definition server_app : App :=
  mkApp "whitenoise" "1.0" "EVA-Labs" "whitenoise" [log_arg]
    [mkSubCommand "start" [port_arg; bootstrap_arg; ktype_arg]].

(** ** whitenoise-client/src/main.rs *)

Definition chat_bootstrap_arg : Arg :=
  mkArg "bootstrap" "bootstrap" (Some "b"%char) "MultiAddress of the WhiteNoise network bootstrap node.".
Definition id_arg : Arg := mkArg "id" "id" None "WhiteNoiseID of another client to chat with.".
Definition nick_arg : Arg := mkArg "nick" "nick" None "Nick name for chatting.".
Definition chat_ktype_arg : Arg :=
  mkArg "ktype" "keytype" None
    "Specify crypto suite of account's key. Support 'ed25519' or 'secp256k1', 'ed25519' by default".

Definition chat_app : App :=
  mkApp "whitenoise-chat" "1.0" "EVA-Labs" "WhiteNoise client chatting example" [log_arg]
    [mkSubCommand "chat" [chat_bootstrap_arg; id_arg; nick_arg; chat_ktype_arg]].

Section CommandLine.
Context {EXT : Ext} `{!Clap}.

(** The level of the logger: the environment variable [MY_LOG], if it is set,
    comes before it. *)
Definition log_level (args : ArgMatches) : string := default "info"%string (value_of args "log").

Definition start_args (x : Values) : StartArgs := mkStartArgs (x "port"%string) (x "bootstrap"%string) (x "ktype"%string).

Definition server_command (argv : list string) : io unit :=
  match get_matches server_app argv with
  | None => mret tt
  | Some args => server_main (start_args <$> subcommand_matches args "start")
  end.

Definition chat_args (x : Values) : ChatArgs :=
  mkChatArgs (x "bootstrap"%string) (x "id"%string) (x "nick"%string) (x "ktype"%string).

Definition chat_command (fuel : nat) (argv : list string) : io unit :=
  match get_matches chat_app argv with
  | None => mret tt
  | Some args => chat_main fuel (chat_args <$> subcommand_matches args "chat")
  end.

(** ** The words of a command *)

Definition options (l : list (Arg * option string)) : list (Arg * string) :=
  omap (λ '(a, v), (λ v, (a, v)) <$> v) l.

Definition start_options (a : StartArgs) : list (Arg * option string) :=
  [(port_arg, arg_port a); (bootstrap_arg, arg_bootstrap a); (ktype_arg, arg_ktype a)].

Definition chat_options (a : ChatArgs) : list (Arg * option string) :=
  [(chat_bootstrap_arg, chat_arg_bootstrap a); (id_arg, chat_arg_id a); (nick_arg, chat_arg_nick a);
           (chat_ktype_arg, chat_arg_ktype a)].

End CommandLine.

(** * Lemmas *)

Section CommandLineLemmas.
Context {EXT : Ext}.

(** The options given are some of the arguments, in their order. *)
Lemma options_sublist (l : list (Arg * option string)) : (fst <$> options l) `sublist_of` (fst <$> l).
Proof.
  unfold options. induction l as [|[a [v|]] l IH]; simpl; [constructor|by constructor|by constructor].
Qed.

Lemma options_elem (l : list (Arg * option string)) x : x ∈ options l → x.1 ∈ (fst <$> l).
Proof. intros Hx. eapply elem_of_sublist, options_sublist. by apply list_elem_of_fmap_2. Qed.

(** Options may come in any order. *)
Lemma given_permutation opts opts' name :
  opts ≡ₚ opts' → NoDup (arg_name <$> (fst <$> opts)) → given name opts = given name opts'.
Proof.
  induction 1 as [|x l l' _ IH|x y l|l1 l2 l3 Hp1 IH1 _ IH2]; intros Hnd; unfold given in *; simpl.
  - done.
  - case_bool_decide; [done|]. apply IH. by apply list.NoDup_cons in Hnd as [_ Hnd].
  - repeat case_bool_decide; try done. apply list.NoDup_cons in Hnd as [Hnot _]. destruct Hnot.
    apply elem_of_cons. left. congruence.
  - rewrite IH1 by done. apply IH2. by rewrite <- Hp1.
Qed.

End CommandLineLemmas.

(** ** A small clap: options by their long names, after a subcommand *)

Fixpoint parse_options (args : list Arg) (words : list string) : option (list (Arg * string)) :=
  match words with
  | [] => Some []
  | w :: v :: words =>
      a ← List.find (λ a, bool_decide (String.append "--" (arg_long a) = w)) args;
      if String.prefix "-" v then None else cons (a, v) <$> parse_options args words
  | [_] => None
  end.

Definition toy_clap : Clap := λ app argv,
  match app_subcommands app, argv with
  | [sub], s :: words =>
      if decide (s = sub_name sub) then
        opts ← parse_options (sub_args sub) words;
        Some (mkArgMatches (λ _, None) (λ s, if decide (s = sub_name sub) then Some (λ n, given n opts) else None))
      else None
  | _, _ => None
  end.

Lemma find_long args a :
  a ∈ args → NoDup (arg_long <$> args) →
  List.find (λ b, bool_decide (String.append "--" (arg_long b) = String.append "--" (arg_long a))) args = Some a.
Proof.
  induction args as [|b args IH]; [by intros ?%elem_of_nil|].
  intros [->|Ha]%elem_of_cons [Hb Hnd]%list.NoDup_cons; cbn [List.find].
  - by rewrite bool_decide_true.
  - rewrite bool_decide_false; [by apply IH|]. intros [= E]. apply Hb.
    change (arg_long b = arg_long a) in E. rewrite E. by apply list_elem_of_fmap_2.
Qed.

Lemma parse_option_words args opts :
  NoDup (arg_long <$> args) → Forall (λ x, x.1 ∈ args ∧ plain_word x.2) opts →
  parse_options args (opts ≫= option_words) = Some opts.
Proof.
  intros Hnd. induction 1 as [|[a v] opts [Ha Hv] _ IH]; [done|].
  change (((a, v) :: opts) ≫= option_words) with
    (String.append "--" (arg_long a) :: v :: (opts ≫= option_words)).
  unfold plain_word in Hv. simpl in Ha, Hv. cbn [parse_options].
  match goal with |- context [List.find ?f args] => replace (List.find f args) with (Some a) end;
    [|symmetry; by apply find_long].
  change (mbind (M := option) ?f (Some a)) with (f a). cbn beta. by rewrite Hv, IH.
Qed.

Lemma toy_clap_laws : @ClapLaws toy_clap.
Proof.
  intros app sub opts Happ Hlong _ Hopts _. unfold get_matches, toy_clap. rewrite Happ.
  rewrite decide_True, parse_option_words by done. do 2 eexists. split; [done|]. simpl.
  by rewrite decide_True.
Qed.

(** * Properties *)

Section CommandLineProperties.
Context {EXT : Ext} `{!Clap, !ClapLaws}.

(** What clap reads of the options of a subcommand. *)
Lemma options_read app sub (l : list (Arg * option string)) opts :
  app_subcommands app = [sub] → (fst <$> l) = sub_args sub →
  NoDup (arg_long <$> sub_args sub) → NoDup (arg_name <$> sub_args sub) →
  opts ≡ₚ options l → Forall (λ x, plain_word x.2) opts →
  ∃ m values, get_matches app (sub_name sub :: (opts ≫= option_words)) = Some m ∧
    subcommand_matches m (sub_name sub) = Some values ∧
    ∀ name, name ∈ (arg_name <$> sub_args sub) → values name = given name (options l).
Proof.
  intros Happ Hl Hlong Hname Hp Hplain.
  assert (Hnd : NoDup (arg_name <$> (fst <$> opts))).
  { rewrite Hp. eapply sublist_NoDup; [exact Hname|]. rewrite <- Hl. apply fmap_sublist, options_sublist. }
  destruct (clap_options app sub opts Happ Hlong Hname) as (m & values & Hm & Hv & Hval); [|done|].
  - apply Forall_forall. intros x Hx. split; [|by apply (proj1 (Forall_forall _ _) Hplain)].
    apply list_elem_of_In in Hx. rewrite Hp in Hx. rewrite <- Hl. by apply options_elem.
  - exists m, values. split_and!; [done..|]. intros name Hn. rewrite (Hval name Hn). by apply given_permutation.
Qed.

(** A command line says what the program is given.  Whatever options of the
    [start] and the [chat] command are given, in any order and by their long names,
    the node starts with exactly their values as port, bootstrap address and key
    type, and the chat client with its bootstrap address, callee, nick name and key
    type. *)
Theorem commands_start (fuel : nat) (a : StartArgs) (c : ChatArgs) (opts opts' : list (Arg * string)) :
  opts ≡ₚ options (start_options a) → opts' ≡ₚ options (chat_options c) →
  Forall (λ x, plain_word x.2) opts → Forall (λ x, plain_word x.2) opts' →
  server_command ("start"%string :: (opts ≫= option_words)) = server_main (Some a) ∧
  chat_command fuel ("chat"%string :: (opts' ≫= option_words)) = chat_main fuel (Some c).
Proof.
  intros Hopts Hopts' Hplain Hplain'. split.
  - destruct (options_read server_app (mkSubCommand "start" [port_arg; bootstrap_arg; ktype_arg]) (start_options a) opts)
      as (m & x & Hm & Hx & Hval); try done; try (by apply (bool_decide_unpack _)).
    assert (Hargs : start_args x = a) by (unfold start_args; rewrite !Hval by set_solver; by destruct a as [[] [] []]).
    unfold server_command. cbn [sub_name] in *. rewrite Hm, Hx.
    change (start_args <$> Some x) with (Some (start_args x)). by rewrite Hargs.
  - destruct (options_read chat_app (mkSubCommand "chat" [chat_bootstrap_arg; id_arg; nick_arg; chat_ktype_arg])
      (chat_options c) opts') as (m & x & Hm & Hx & Hval); try done; try (by apply (bool_decide_unpack _)).
    assert (Hargs : chat_args x = c) by (unfold chat_args; rewrite !Hval by set_solver; by destruct c as [[] [] [] []]).
    unfold chat_command. cbn [sub_name] in *. rewrite Hm, Hx.
    change (chat_args <$> Some x) with (Some (chat_args x)). by rewrite Hargs.
Qed.

End CommandLineProperties.

Section CommandLineWitnesses.
Local Existing Instance toy.
Local Existing Instance toy_clap.

Lemma commands_start_witness :
  let a := mkStartArgs (Some "3331"%string) (Some "/ip4/1"%string) None in
  let c := mkChatArgs (Some "/ip4/1"%string) None (Some "bob"%string) None in
  let opts := [(bootstrap_arg, "/ip4/1"%string); (port_arg, "3331"%string)] in
  opts ≡ₚ options (start_options a) ∧ Forall (λ x, plain_word x.2) opts ∧
  server_command ["start"; "--bootstrap"; "/ip4/1"; "--port"; "3331"]%string = server_main (Some a) ∧
  chat_command 5 ["chat"; "--bootstrap"; "/ip4/1"; "--nick"; "bob"]%string = chat_main 5 (Some c).
Proof.
  intros a c opts. assert (Hp : opts ≡ₚ options (start_options a)) by apply Permutation_swap.
  assert (Hw : Forall (λ x, plain_word x.2) opts) by (repeat constructor).
  split; [exact Hp|]. split; [exact Hw|].
  apply (@commands_start toy toy_clap toy_clap_laws 5 a c opts (options (chat_options c)) Hp
    (Permutation_refl _) Hw).
  repeat constructor.
Defined.

End CommandLineWitnesses.
