(* ===== verification/Handshake.v ===== *)
(** * The handshake of the two ends

    The two sides of [process_handshake] (src/network/relay_event_handler.rs)
    against each other.  [pause] cuts a program at its next wait for a message of
    the circuit, so that the two programs can be run in turn, each on what the
    other sent. *)

From S2P Require Import Prelude Proto External State Io Packing Concrete Utils Substream Connection Node RelayEvents Delivery.

Section Pause.
Context {EXT : Ext} (ch : nat).

(** The program up to its first receive on [ch], and what follows the reply. *)
Fixpoint pause {A} (p : io A) : io (A + (option bytes → io A)) :=
  match p with
  | Ret a => Ret (inl a)
  | Panic => Panic
  | Diverge => Diverge
  | Atomic f k => Atomic f (λ x, pause (k x))
  | Call c k =>
      match c as c return (reply c → io A) → (reply c → io (A + (option bytes → io A))) → _ with
      | CircuitRecv ch' => λ k k', if decide (ch' = ch) then Ret (inr k) else Call (CircuitRecv ch') k'
      | c => λ _ k', Call c k'
      end k (λ r, pause (k r))
  end.

(** The program does not receive. *)
Definition no_recv {A} : io A → Prop :=
  preserves (λ _, True) (λ _ _, True) (λ c, match c with CircuitRecv _ => False | _ => True end).

Lemma wp_pause_bind {A B} R (p : io A) (k : A → io B) s Q :
  no_recv p →
  wp R p s (λ tr o s', match o with
                       | Returned a => wp R (pause (k a)) s' (λ tr', Q (tr ++ tr'))
                       | Panicked => Q tr Panicked s'
                       | Running => Q tr Running s'
                       | Blocked => Q tr Blocked s'
                       end) →
  wp R (pause (io_bind k p)) s Q.
Proof.
  unfold no_recv. revert s Q. induction p as [a| | |X f k' IH|c k' IH]; intros s Q Hno Hwp; try done.
  - intros s' Hs'. apply IH; [|by apply Hwp]. by apply (Hno s' I).
  - simpl in Hno. destruct Hno as [Hc Hno].
    destruct c; try done; cbn [io_bind pause]; intros s' Hs'; destruct (Hwp s' Hs') as [Hb Hr];
      (split; [exact Hb|]); intros r0 Hr0; (eapply IH; [by apply Hno|]);
      (eapply wp_mono; [|by apply Hr]); by intros tr [] s''.
Qed.

Lemma wp_pause_recv {B} R (k : option bytes → io B) s Q :
  Q [] (Returned (inr k)) s → wp R (pause (Call (CircuitRecv ch) k)) s Q.
Proof. intros HQ. cbn [pause]. rewrite decide_True by done. exact HQ. Qed.

(** Cutting a program changes nothing: resumed by the receive, it is the same. *)
Fixpoint resume {A} (p : io (A + (option bytes → io A))) : io A :=
  match p with
  | Ret (inl a) => Ret a
  | Ret (inr k) => Call (CircuitRecv ch) k
  | Panic => Panic
  | Diverge => Diverge
  | Atomic f k => Atomic f (λ x, resume (k x))
  | Call c k => Call c (λ r, resume (k r))
  end.

Lemma resume_pause {A} (p : io A) : resume (pause p) ≡ p.
Proof.
  induction p as [a| | |X f k IH|c k IH]; cbn [pause resume]; try done.
  - apply io_eq_atomic. intros s. apply IH.
  - destruct c; try (apply io_eq_call; apply IH).
    case_decide; [by subst|apply io_eq_call; apply IH].
Qed.

Lemma pause_write_payload {A} `{!BytesLaws} w (buf : bytes) sid (k : unit → io A) s Q :
  0 < length buf →
  (∀ confusion us, wp calm (pause (k tt)) s (λ tr,
     Q (write_cmds w (data_relay sid (be_bytes 2 (Z.of_nat (length buf)) ++ buf)) confusion us ++ tr))) →
  wp calm (pause (io_bind k (write_payload_arc w buf (length buf) sid))) s Q.
Proof.
  intros Hpos HQ. apply wp_pause_bind.
  - unfold no_recv, write_payload_arc, write_relay_arc, confusion_relay, jitter, random_jitter_duration,
      ws_write. keeps_auto.
  - apply write_payload_arc_wp; [done|]. intros confusion us r _. apply HQ.
Qed.

End Pause.

Section HandshakeLemmas.
Context {EXT : Ext}.

(** The frame of a Noise message. *)
Definition noise_frame (m : bytes) : bytes := be_bytes 2 (Z.of_nat (length m)) ++ m.

Lemma read_shake_frame m hs hs' p :
  (Z.of_nat (length m) <= 65535)%Z → hs_read_message hs m handshake_buf_len = Some (hs', p) →
  handle_read_shake (noise_frame m) hs = Some (hs', p).
Proof. intros Hm Hr. unfold handle_read_shake, noise_frame. by rewrite payload_unframe_frame by lia. Qed.

(** What a side sends on its stream: a message of the session with this frame. *)
Definition sends_frame (w : WrappedStream) (sid : string) (frame : bytes) (tr : list cmd) : Prop :=
  ∃ d, effects tr = [OutSend w (WdData d)] ∧ carries d sid frame.

Lemma sends_frame_write `{!CodecLaws} w sid m confusion us pre :
  effects pre = [] →
  sends_frame w sid (noise_frame m) (pre ++ write_cmds w (data_relay sid (noise_frame m)) confusion us).
Proof.
  intros Hpre. eexists. rewrite effects_app, Hpre. split; [apply effects_write_cmds|apply carries_data].
Qed.

(** [pause_norm] moves the cut to the head of the program in the goal. *)
Ltac pause_norm := wp_cbn; cbn [pause io_bind unwrap].
Ltac pause_step := pause_norm; wp_step; pause_norm.
Ltac pause_rewrite H := rewrite H; pause_norm.

(** The keys and the state of a side. *)
Ltac noise_step k Hk :=
  pause_norm; intros s' Heq; simpl in Heq; subst s';
  (split; [by intros []|]); intros r (k & -> & Hk); pause_norm.

(** The initiator, up to the responder's message and from it on; what the library
    does depends on the key and the state it is given. *)
Lemma initiator_wp `{!CodecLaws, !BytesLaws} authentic built cc sid node s Q :
  (∀ ka a, authentic (keypair node) ka → built ka true a →
   ∃ a1 a2 a3 m1 m2 m3 pa pb pub v t,
     hs_write_message a [] handshake_buf_len = Some (a1, m1) ∧ 0 < length m1 ∧
     handle_read_shake (noise_frame m2) a1 = Some (a2, pb) ∧
     hs_get_remote_static a2 = Some pub ∧ handle_remote_handshake_payload pb pub = Some v ∧
     generate_handshake_payload ka = Some pa ∧
     hs_write_message a2 pa handshake_buf_len = Some (a3, m3) ∧ 0 < length m3 ∧
     hs_into_transport_mode a3 = Some t ∧
     ∀ tr k, sends_frame (out_stream cc) sid (noise_frame m1) tr →
       wp calm (pause (in_channel cc) (k (Some (noise_frame m2)))) s (λ tr o s2,
         sends_frame (out_stream cc) sid (noise_frame m3) tr ∧ o = Returned (inl tt) ∧
         s2 = installed cc t sid s) →
       Q tr (Returned (inr k)) s) →
  wp (noise_env authentic built) (pause (in_channel cc) (process_handshake cc true sid node)) s Q.
Proof.
  intros HQ. unfold process_handshake, process_handshake_initiator, circuit_recv, write_handshake_payload_arc.
  noise_step ka Hka. noise_step a Ha.
  destruct (HQ ka a Hka (Ha ka eq_refl)) as (a1 & a2 & a3 & m1 & m2 & m3 & pa & pb & pub & v & t & Hw1 & Hm1 &
    Hr & Hpub & Hver & Hgen & Hw2 & Hm3 & Ht & HQ'). clear HQ.
  pause_rewrite Hw1. apply wp_noise_env, pause_write_payload; [done..|].
  intros conf us. pause_norm. apply wp_pause_recv. apply HQ'.
  { rewrite app_nil_r. by apply (sends_frame_write _ _ _ _ _ [_; _]). }
  pause_norm. pause_rewrite Hr. pause_rewrite Hpub. pause_rewrite Hver. pause_rewrite Hgen.
  pause_rewrite Hw2. apply pause_write_payload; [done..|]. intros conf' us'. pause_norm. pause_rewrite Ht.
  unfold install_transport. do 3 pause_step. rewrite app_nil_r.
  split; [by apply (sends_frame_write _ _ _ _ _ [])|done].
Qed.

(** The responder, up to each of the initiator's messages and from it on. *)
Lemma responder_wp `{!CodecLaws, !BytesLaws, !NoiseIdentityLaws} authentic built cc sid node s Q :
  (∀ kb b tr k, authentic (keypair node) kb → built kb false b → effects tr = [] →
     (∀ b1 b2 b3 m1 m2 m3 p0 pa pb pub v t,
       handle_read_shake (noise_frame m1) b = Some (b1, p0) →
       generate_handshake_payload kb = Some pb →
       hs_write_message b1 pb handshake_buf_len = Some (b2, m2) → 0 < length m2 →
       handle_read_shake (noise_frame m3) b2 = Some (b3, pa) →
       hs_get_remote_static b3 = Some pub → handle_remote_handshake_payload pa pub = Some v →
       hs_into_transport_mode b3 = Some t →
       wp calm (pause (in_channel cc) (k (Some (noise_frame m1)))) s (λ tr o s2, s2 = s ∧
         ∃ k2, sends_frame (out_stream cc) sid (noise_frame m2) tr ∧ o = Returned (inr k2) ∧
         wp calm (pause (in_channel cc) (k2 (Some (noise_frame m3)))) s (λ tr o s3,
           effects tr = [] ∧ o = Returned (inl tt) ∧ s3 = installed cc t sid s))) →
     Q tr (Returned (inr k)) s) →
  wp (noise_env authentic built) (pause (in_channel cc) (process_handshake cc false sid node)) s Q.
Proof.
  intros HQ. unfold process_handshake, process_handshake_responder, circuit_recv, write_handshake_payload_arc.
  noise_step kb Hkb. destruct (noise_identity_verifies kb) as (sig & Hsig & _). pause_rewrite Hsig.
  noise_step b Hb. apply wp_noise_env, wp_pause_recv.
  apply (HQ kb b [_; _] _ Hkb (Hb kb eq_refl)); [done|].
  intros b1 b2 b3 m1 m2 m3 p0 pa pb pub v t Hr1 Hgen Hw Hm2 Hr2 Hpub Hver Ht.
  pause_norm. pause_rewrite Hr1. pause_rewrite Hgen. pause_rewrite Hw.
  apply pause_write_payload; [done..|]. intros conf us. pause_norm. apply wp_pause_recv. split; [done|].
  eexists. rewrite app_nil_r. split; [by apply (sends_frame_write _ _ _ _ _ [])|]. split; [done|].
  pause_norm. pause_rewrite Hr2. pause_rewrite Hpub. pause_rewrite Hver. pause_rewrite Ht.
  unfold install_transport. by do 3 pause_step.
Qed.

(** The payload a side proves its identity with, and the verdict on it. *)
Lemma identity_payload `{!CodecLaws, !NoiseIdentityLaws} keys :
  ∃ p, generate_handshake_payload keys = Some p ∧
       handle_remote_handshake_payload p (noise_public keys) = Some true.
Proof.
  destruct (noise_identity_verifies keys) as (sig & Hsig & Hver). eexists.
  unfold generate_handshake_payload. rewrite Hsig. split; [done|].
  unfold handle_remote_handshake_payload. by rewrite pb_decode_encode.
Qed.

End HandshakeLemmas.

(** * Properties *)

Section HandshakeProperties.
Context {EXT : Ext} `{!CodecLaws, !BytesLaws, !NoiseIdentityLaws}.
Context (authentic : Keypair → NoiseKeys → Prop) (built : NoiseKeys → bool → HandshakeState → Prop)
        (ts_peer : TransportState → TransportState → Prop) `{!NoiseXXLaws built ts_peer}.

(** The identity payloads of a node leave room for the keys and tags of a Noise
    message. *)
Definition payloads_fit (node : Node) : Prop :=
  ∀ k p, authentic (keypair node) k → generate_handshake_payload k = Some p →
    (Z.of_nat (length p) + 96 <= 65535)%Z.

(** C9: the handshake succeeds.  The answerer waits for the caller's first
    message, and the caller sends it at once; when each is given the frame the
    other sent, the answerer replies, the caller sends its last message and
    installs a transport, and the answerer installs one too.  The two transports
    are in step in both directions.  The keys come from the library, authenticated
    by the identity each program gives it, and the states are built from the
    private key and for the role each program asks for; the payload of either
    identity verifies against the static key the other side learns.  Neither node's
    state is touched before. *)
Theorem handshake_agrees (nodeA nodeB : Node) (ccA ccB : CircuitConn) (sid : string) (sA sB : Shared) :
  payloads_fit nodeA → payloads_fit nodeB →
  ensures (noise_env authentic built) sB
    (pause (in_channel ccB) (process_handshake ccB false sid nodeB)) (λ tr1 o1 sB1, sB1 = sB ∧
  ∃ kB kb, effects tr1 = [] ∧ o1 = Returned (inr kB) ∧ authentic (keypair nodeB) kb ∧
  ensures (noise_env authentic built) sA
    (pause (in_channel ccA) (process_handshake ccA true sid nodeA)) (λ tr2 o2 sA1, sA1 = sA ∧
  ∃ f1 kA ka, sends_frame (out_stream ccA) sid f1 tr2 ∧ o2 = Returned (inr kA) ∧ authentic (keypair nodeA) ka ∧
  (∀ k, k = ka ∨ k = kb → ∃ p, generate_handshake_payload k = Some p ∧
     handle_remote_handshake_payload p (noise_public k) = Some true) ∧
  ensures calm sB (pause (in_channel ccB) (kB (Some f1))) (λ tr3 o3 sB2, sB2 = sB ∧
  ∃ f2 kB2, sends_frame (out_stream ccB) sid f2 tr3 ∧ o3 = Returned (inr kB2) ∧
  ensures calm sA (pause (in_channel ccA) (kA (Some f2))) (λ tr4 o4 sA2,
  ∃ f3 ta, sends_frame (out_stream ccA) sid f3 tr4 ∧ o4 = Returned (inl tt) ∧
  sA2 = installed ccA ta sid sA ∧
  ensures calm sB (pause (in_channel ccB) (kB2 (Some f3))) (λ tr5 o5 sB3,
  ∃ tb, effects tr5 = [] ∧ o5 = Returned (inl tt) ∧ sB3 = installed ccB tb sid sB ∧
  ts_peer ta tb ∧ ts_peer tb ta))))).
Proof.
  intros HfitA HfitB. apply wp_ensures, responder_wp. intros kb b tr1 kB Hkb Hb Htr1 HkB.
  split; [done|]. exists kB, kb. do 3 (split; [done|]).
  apply wp_ensures, initiator_wp. intros ka a Hka Ha.
  destruct (identity_payload ka) as (pa & Hpa & Hva). destruct (identity_payload kb) as (pb & Hpb & Hvb).
  destruct (xx_handshake ka kb a b pa pb handshake_buf_len Ha Hb eq_refl (HfitA _ _ Hka Hpa) (HfitB _ _ Hkb Hpb)) as
    (a1 & a2 & a3 & b1 & b2 & b3 & m1 & m2 & m3 & ta & tb & Hw1 & Hr1 & Hw2 & Hr2 & Hpub_b & Hw3 & Hr3 &
     Hpub_a & Hta & Htb & Hab & Hba & Hm).
  do 3 (apply List.Forall_cons_iff in Hm; destruct Hm as [[? ?] Hm]).
  eexists a1, a2, a3, m1, m2, m3, pa, pb, _, true, ta. do 9 (split; [by eauto using read_shake_frame|]).
  intros tr2 kA Htr2 HkA. split; [done|].
  exists (noise_frame m1), kA, ka. do 3 (split; [done|]). split; [intros k [-> | ->]; eauto|].
  specialize (HkB b1 b2 b3 m1 m2 m3 [] pa pb _ true tb (read_shake_frame m1 _ _ _ ltac:(done) Hr1) Hpb Hw2
    ltac:(done) (read_shake_frame m3 _ _ _ ltac:(done) Hr3) Hpub_a Hva Htb).
  apply wp_ensures. eapply wp_mono; [|exact HkB].
  intros tr3 o3 sB2 (-> & kB2 & Htr3 & Ho3 & HkB2). split; [done|]. exists (noise_frame m2), kB2.
  do 2 (split; [done|]). apply wp_ensures. eapply wp_mono; [|exact HkA].
  intros tr4 o4 sA2 (Htr4 & Ho4 & HsA). exists (noise_frame m3), ta. do 3 (split; [done|]).
  apply wp_ensures. eapply wp_mono; [|exact HkB2].
  intros tr5 o5 sB3 (Htr5 & Ho5 & HsB). by exists tb.
Qed.

End HandshakeProperties.

Section HandshakeWitnesses.
Local Existing Instance toy.

Definition toy_authentic (i : Keypair) (k : u8) : Prop := k = toy_static i.

Lemma toy_noise_env : conforms (noise_env toy_authentic toy_built) (toy_env no_script).
Proof.
  intros n s. destruct (toy_env_calm no_script n s) as [Hs Hc]. split; [exact Hs|]. intros c. specialize (Hc c).
  destruct c; try exact Hc; simpl.
  - by eexists.
  - eexists. split; [done|]. by intros k' <-.
Qed.

Lemma toy_payloads_fit node : payloads_fit toy_authentic node.
Proof. intros k p Hk [= <-]. simpl. lia. Qed.

Lemma handshake_agrees_witness :
  let cc := mkCircuitConn "sid" (toy_stream "p" "1") 7 None in
  conforms (noise_env toy_authentic toy_built) (toy_env no_script) ∧
  ∃ kB, out (run (toy_env no_script) (pause 7 (process_handshake cc false "sid" toy_node)) 0 empty_shared) =
          Returned (inr kB) ∧
  ensures (noise_env toy_authentic toy_built) empty_shared
    (pause 7 (process_handshake cc true "sid" toy_node))
    (λ tr o sA1, sA1 = empty_shared ∧ ∃ f1, sends_frame (toy_stream "p" "1") "sid" f1 tr).
Proof.
  intros cc. split; [exact toy_noise_env|].
  destruct (@handshake_agrees toy toy_codec_laws toy_bytes_laws toy_noise_identity_laws toy_authentic
    toy_built toy_peer toy_noise_xx_laws toy_node toy_node cc cc "sid" empty_shared empty_shared
    (toy_payloads_fit toy_node) (toy_payloads_fit toy_node) (toy_env no_script) 0 toy_noise_env)
    as (_ & kB & kb & _ & Ho & _ & Hrun).
  exists kB. split; [exact Ho|]. intros e n He. destruct (Hrun e n He) as (Hs & f1 & kA & ka & Hf & _).
  split; [exact Hs|]. exists f1. exact Hf.
Defined.

End HandshakeWitnesses.
