(* ===== verification/System.v ===== *)
(** * A node as a system of tasks

    All the tasks of a node run on a thread pool and interleave at every action
    on the shared state.  [sys_step] is that semantics: one action of any task,
    or the arrival of a swarm event or of a call of the SDK, which start a new
    program.  The invariant [wf K] of the shared state holds in every
    reachable state, because every program keeps it at each of its actions.  [K],
    the [news], is what the node has been given and what its user wants: in an
    environment that may send it anything, [anything]; in [Network], what the
    other nodes have sent. *)

From S2P Require Import Prelude Proto External State Io Packing Concrete Utils Connection Account Node.
From S2P Require Import RelayEvents Typing Proxy Publish Commands RelayBehaviour Behaviour Requests Host Client Delivery Chat.

Section System.
Context {EXT : Ext}.

(** ** The program of a task *)

Definition circuit_order := gmap string CircuitConn → list (string * CircuitConn).

Definition task_program (order : circuit_order) (fuel : nat) (t : task) : io unit :=
  match t with
  | TaskRelayHandler w node sid => relay_event_handler fuel w node sid
  | TaskHandshake cc initiate sid node => process_handshake cc initiate sid node
  | TaskWriteRelay w r => write_relay_arc w r;; mret tt
  | TaskSendNodeRequest r => call (SendNodeRequest r);; mret tt
  | TaskInSend w res => call (InSend w res) ≫= unwrap_ok
  | TaskStartPoll w => start_poll fuel w
  | TaskProxyRequests node => process_proxy_request fuel node
  | TaskCmdRequests node => process_cmd_request fuel node
  | TaskPublishRequests node => process_publish_request fuel node
  | TaskNewStreams node => process_new_stream fuel node
  | TaskNewSessions node => process_new_session order fuel
  | TaskClientLoop => whitenoise_client_event_loop fuel relay_new
  | TaskServerLoop => whitenoise_server_event_loop fuel relay_new
  end.

(** ** What starts from outside *)

Inductive stimulus :=
| OnWhitenoise (e : WhitenoiseEvent)
| OnServer (e : WhitenoiseServerEvent)
| OnClient (e : WhitenoiseClientEvent)
| OnSubstream (peer : PeerId) (e : RelayHandlerOutEvent unit) (r : RelayState)
| ApiPeers (c : WhiteNoiseClient) (cnt : Z)
| ApiRegister (c : WhiteNoiseClient) (peer : PeerId)
| ApiDial (c : WhiteNoiseClient) (remote : string)
| ApiSend (c : WhiteNoiseClient) (sid : string) (data : bytes)
| ApiRead (cc : CircuitConn) (buf : bytes)
| ApiDisconnect (c : WhiteNoiseClient) (sid : string).

Definition stimulus_program (x : stimulus) : io unit :=
  match x with
  | OnWhitenoise e => whitenoise_inject_event e
  | OnServer e => server_inject_event e
  | OnClient e => client_inject_event e
  | OnSubstream peer e r => relay_inject_event peer e r ≫= poll_relay
  | ApiPeers c cnt => client_get_main_net_peers c cnt;; mret tt
  | ApiRegister c peer => client_register c peer;; mret tt
  | ApiDial c remote => client_dial c remote;; mret tt
  | ApiSend c sid data => client_send_message c sid data
  | ApiRead cc buf => circuit_read cc buf;; mret tt
  | ApiDisconnect c sid => client_disconnect_circuit c sid
  end.

(** ** Interleaving *)

(** A state of the system: the shared state and the rest of every program. *)
Definition sys := (Shared * list (io unit))%type.

Definition spawned (order : circuit_order) (fuel : nat) (c : cmd) : list (io unit) :=
  match c with
  | Spawn t => [task_program order fuel t]
  | _ => []
  end.

Inductive sys_step : sys → sys → Prop :=
| step_atomic s l r X (f : Shared → Shared * X) k :
    sys_step (s, l ++ Atomic f k :: r) ((f s).1, l ++ k (f s).2 :: r)
| step_call s l r c k (a : reply c) order fuel :
    sys_step (s, l ++ Call c k :: r) (s, l ++ k a :: r ++ spawned order fuel c)
| step_stimulus s pool x :
    sys_step (s, pool) (s, pool ++ [stimulus_program x]).

Inductive reachable (start : sys) : sys → Prop :=
| reach_refl : reachable start start
| reach_step c c' : reachable start c → sys_step c c' → reachable start c'.

(** The same with the commands that were answered on the way, in order. *)
Inductive sys_run : sys → list cmd → sys → Prop :=
| run_done c : sys_run c [] c
| run_atomic s l r X (f : Shared → Shared * X) k tr c :
    sys_run ((f s).1, l ++ k (f s).2 :: r) tr c → sys_run (s, l ++ Atomic f k :: r) tr c
| run_call s l r c k (a : reply c) order fuel tr c' :
    sys_run (s, l ++ k a :: r ++ spawned order fuel c) tr c' →
    sys_run (s, l ++ Call c k :: r) (c :: tr) c'
| run_stimulus s pool x tr c :
    sys_run (s, pool ++ [stimulus_program x]) tr c → sys_run (s, pool) tr c.

(** What a node is started by: the server's command or function, the chat
    program, or the initialisation of the SDK in another client, on the empty
    state. *)
Inductive boot : sys → Prop :=
| boot_server bootstrap port key_type keys :
    boot (empty_shared, [start_server bootstrap port key_type keys;; mret tt])
| boot_server_main matches : boot (empty_shared, [server_main matches])
| boot_chat_main fuel matches : boot (empty_shared, [chat_main fuel matches])
| boot_client bootstrap key_type keys :
    boot (empty_shared, [client_init bootstrap key_type keys;; mret tt]).

(** ** What a node is told *)

(** What a node is known to be told: by its own programs, the requests they
    [wanted] of the event loop and the frames they have given to be [sent] on a
    stream; from outside, the frames that have [arrived] on a stream, the requests
    and commands of its peers, acknowledgements and gossip. *)
Record news := mkNews {
  wanted : NodeRequest → Prop;
  sent : WrappedStream → bytes → Prop;
  arrived : WrappedStream → bytes → Prop;
  asked : PeerId → Request → Prop;
  ordered : PeerId → Command → Prop;
  acked : Ack → Prop;
  told : bytes → Prop
}.

(** A request to register under a WhiteNoise id, which has come from a peer. *)
Definition registers (q : Request) (id : string) : Prop :=
  req_reqtype q = reqtype_i32 RqNewProxy ∧
  ∃ x : NewProxy, pb_decode (req_data q) = Some x ∧ np_white_noise_id x = id.

(** ** The invariant *)

(** It is about the state of a node that has the news [K]: the clients of its
    table have asked to be there. *)
Record wf (K : news) (s : Shared) : Prop := mkWf {
  wf_session : map_Forall (λ sid x, session_id x = sid ∧ is_Some (early_stream (pair_stream x)))
                 (session_map s);
  wf_circuit : map_Forall (λ sid cc, cc_id cc = sid) (circuit_map s);
  wf_probe : map_Forall (λ sid p, probe_id p = sid) (probe_map s);
  wf_client : map_Forall (λ h ci, from_whitenoise_to_hash (whitenoise_id ci) = Some h ∧
                            ∃ q, asked K (peer_id ci) q ∧ registers q (whitenoise_id ci))
                (client_wn_map s);
  wf_bus_fresh : map_Forall (λ _ h, h < next_handle s) (event_bus s);
  wf_bus_inj : ∀ k1 k2 h, event_bus s !! k1 = Some h → event_bus s !! k2 = Some h → k1 = k2
}.

(** The replies that fit it: a stream's task is given what was sent and what has
    arrived, its reader what has arrived, the event loop what was wanted, and the
    other tasks what came from outside. *)
Definition fits (K : news) (c : cmd) : reply c → Prop :=
  match c return reply c → Prop with
  | SelectStream w _ => λ r,
      match r with
      | inl (Some (WdData d)) => sent K w d
      | inr (Ok d) => arrived K w d
      | _ => True
      end
  | InRecv w => λ r, match r with Some (Ok d) => arrived K w d | _ => True end
  | SelectSwarm => λ r, match r with inr (Some x) => wanted K x | _ => True end
  | RecvProxy => λ r, match r with
                      | Some npr => ∀ q, proxy_request npr = Some q → asked K (npr_peer npr) q
                      | None => True
                      end
  | RecvCmd => λ r, match r with
                    | Some ncr => ∀ q, cmd_request ncr = Some q → ordered K (ncr_peer ncr) q
                    | None => True
                    end
  | RecvGossip => λ r, match r with Some d => told K d | None => True end
  | AwaitAck _ => λ r, match r with Some a => acked K a | None => True end
  | _ => λ _, True
  end.

(** The obligation on a command: a handshake is spawned on the connection of its
    own session; a relay message is sent, or given to a task that sends it, with
    the data of its type, and requests, commands and gossip are typed as well; only
    what was wanted is asked of the swarm and only what was sent is written to a
    substream; and only what came from outside is passed to the tasks that wait
    for it. *)
Definition cmd_ok (K : news) (c : cmd) : Prop :=
  match c with
  | Spawn (TaskHandshake cc _ sid _) => cc_id cc = sid
  | Spawn (TaskWriteRelay _ r) => writes_type r
  | OutSend _ (WdData d) => writes_frame d
  | SubWrite w d => sent K w d
  | InSend w (Ok d) | Spawn (TaskInSend w (Ok d)) => arrived K w d
  | SendNodeRequest r | Spawn (TaskSendNodeRequest r) => node_request_ok r
  | SwarmCall (ProxySendRequest p q) =>
      ∃ npr, wanted K (NrProxyRequest npr) ∧ npr_peer npr = p ∧ proxy_request npr = Some q
  | SwarmCall (CmdSendRequest p q) =>
      ∃ ncr, wanted K (NrCmdRequest ncr) ∧ ncr_peer ncr = p ∧ cmd_request ncr = Some q
  | SwarmCall (AckSendRequest p a) =>
      ∃ nar, wanted K (NrAckRequest nar) ∧ nar_peer nar = p ∧ ack_request nar = Some a
  | SwarmCall (GossipPublish _ d) => ∃ tx, wanted K (NrPublishData d tx)
  | SendProxy npr => ∀ q, proxy_request npr = Some q → asked K (npr_peer npr) q
  | SendCmd ncr => ∀ q, cmd_request ncr = Some q → ordered K (ncr_peer ncr) q
  | SendGossip d => told K d
  | SendAckTo _ a => acked K a
  | _ => True
  end.

(** The events a node with these news may see. *)
Definition stimulus_ok (K : news) (x : stimulus) : Prop :=
  match x with
  | OnWhitenoise (WbProxy (RrMessage p (RrRequest q))) => asked K p q
  | OnWhitenoise (WbCmd (RrMessage p (RrRequest q))) => ordered K p q
  | OnWhitenoise (WbAck (RrMessage _ (RrRequest a))) => acked K a
  | OnServer (SvGossip (GsMessage d)) => told K d
  | _ => True
  end.

End System.

(** * Lemmas: every program keeps the invariant *)

Section SystemLemmas.
Context {EXT : Ext}.

Context (K : news).

Local Abbreviation keeps := (preserves (wf K) (fits K) (cmd_ok K)).

(** ** Updates that keep [wf] *)

Lemma wf_empty : wf K empty_shared.
Proof. split; try apply map_Forall_empty. intros k1 k2 h. simpl. by rewrite lookup_empty. Qed.

Lemma wf_insert_session sid x s :
  session_id x = sid → is_Some (early_stream (pair_stream x)) → wf K s →
  wf K (set_session_map <[sid := x]> s).
Proof. intros Hid He []. split; try done. simpl. by apply map_Forall_insert_2. Qed.

Lemma wf_insert_circuit sid cc s : cc_id cc = sid → wf K s → wf K (set_circuit_map <[sid := cc]> s).
Proof. intros Hid []. split; try done. simpl. by apply map_Forall_insert_2. Qed.

Lemma wf_insert_probe sid p s : probe_id p = sid → wf K s → wf K (set_probe_map <[sid := p]> s).
Proof. intros Hid []. split; try done. simpl. by apply map_Forall_insert_2. Qed.

Lemma wf_insert_client h ci s :
  from_whitenoise_to_hash (whitenoise_id ci) = Some h →
  (∃ q, asked K (peer_id ci) q ∧ registers q (whitenoise_id ci)) → wf K s → wf K (set_client_wn <[h := ci]> s).
Proof. intros Hid Hq []. split; try done. simpl. by apply map_Forall_insert_2. Qed.

Lemma wf_delete_session sid s : wf K s → wf K (set_session_map (delete sid) s).
Proof. intros []. split; try done. simpl. by apply map_Forall_delete. Qed.

Lemma wf_delete_circuit sid s : wf K s → wf K (set_circuit_map (delete sid) s).
Proof. intros []. split; try done. simpl. by apply map_Forall_delete. Qed.

Lemma wf_delete_probe sid s : wf K s → wf K (set_probe_map (delete sid) s).
Proof. intros []. split; try done. simpl. by apply map_Forall_delete. Qed.

Lemma wf_delete_client h s : wf K s → wf K (set_client_wn (delete h) s).
Proof. intros []. split; try done. simpl. by apply map_Forall_delete. Qed.

Lemma wf_delete_bus k s : wf K s → wf K (set_event_bus (delete k) s).
Proof.
  intros []. split; try done; simpl; [by apply map_Forall_delete|].
  intros k1 k2 h [_ H1]%lookup_delete_Some [_ H2]%lookup_delete_Some. eauto.
Qed.

Lemma wf_bump s : wf K s → wf K (bump_handle s).
Proof. intros []. split; try done. simpl. eapply map_Forall_impl; [done|]. simpl. lia. Qed.

Lemma wf_register k s : wf K s → wf K (set_event_bus <[k := next_handle s]> (bump_handle s)).
Proof.
  intros [Hs Hc Hp Hcl Hf Hi]. split; try done; simpl.
  - apply map_Forall_insert_2; [lia|]. eapply map_Forall_impl; [done|]. simpl. lia.
  - intros k1 k2 h [[<- <-]|[_ H1]]%lookup_insert_Some [[<- E]|[_ H2]]%lookup_insert_Some;
      [done| | |by eapply Hi].
    + apply Hf in H2. lia.
    + apply Hf in H1. lia.
Qed.

Lemma wf_relay_in f s : wf K s → wf K (set_relay_in f s).
Proof. by intros []. Qed.
Lemma wf_relay_out f s : wf K s → wf K (set_relay_out f s).
Proof. by intros []. Qed.
Lemma wf_circuit_task f s : wf K s → wf K (set_circuit_task f s).
Proof. by intros []. Qed.
Lemma wf_client_peer f s : wf K s → wf K (set_client_peer f s).
Proof. by intros []. Qed.
Lemma wf_transports f s : wf K s → wf K (set_transports f s).
Proof. by intros []. Qed.

(** ** Programs that keep it *)

Hint Resolve wf_insert_session wf_insert_circuit wf_insert_probe wf_insert_client wf_delete_session
  wf_delete_circuit wf_delete_probe wf_delete_client wf_delete_bus wf_bump wf_register wf_relay_in
  wf_relay_out wf_circuit_task wf_client_peer wf_transports : keeps.

Lemma keeps_write_relay w r : writes_type r → keeps (write_relay_arc w r).
Proof.
  intros Hr. cbn. do 4 (split; [done|intros ? _]). split; [by apply writes_sealed|]. by intros [].
Qed.
Hint Resolve keeps_write_relay : keeps.

Lemma keeps_write_payload w buf len sid : keeps (write_payload_arc w buf len sid).
Proof. unfold write_payload_arc. keeps_auto. Qed.
Hint Resolve keeps_write_payload : keeps.

Lemma keeps_ws_close w : keeps (ws_close w).
Proof. unfold ws_close. keeps_auto. Qed.
Hint Resolve keeps_ws_close : keeps.

Lemma keeps_forward session cur r : writes_type r → keeps (forward_relay session cur r).
Proof. intros Hr. unfold forward_relay. keeps_auto. Qed.
Hint Resolve keeps_forward : keeps.

Lemma keeps_twoway session r : writes_type r → keeps (send_relay_twoway session r).
Proof. intros Hr. unfold send_relay_twoway, spawn_write. keeps_auto. Qed.
Hint Resolve keeps_twoway : keeps.

Lemma keeps_close sid : keeps (handle_close_session sid).
Proof. unfold handle_close_session, close_opt. keeps_auto. Qed.
Hint Resolve keeps_close : keeps.

Lemma keeps_write_wake w : keeps (write_relay_wake_arc w).
Proof. unfold write_relay_wake_arc. keeps_auto. Qed.
Hint Resolve keeps_write_wake : keeps.

Lemma keeps_write_session w sid role : keeps (write_set_session_with_role_arc w sid role).
Proof. unfold write_set_session_with_role_arc. keeps_auto. Qed.
Hint Resolve keeps_write_session : keeps.

Lemma keeps_write_disconnect w sid : keeps (write_disconnect_arc w sid).
Proof.
  unfold write_disconnect_arc. apply preserves_bind; [|done].
  apply keeps_write_relay, (writes_disconnect_relay sid).
Qed.
Hint Resolve keeps_write_disconnect : keeps.

(** Facts about one entry, from the invariant at the moment it was read. *)
Lemma wf_lookup_session s sid x :
  wf K s → session_map s !! sid = Some x → session_id x = sid ∧ is_Some (early_stream (pair_stream x)).
Proof. intros Hwf Hx. exact (wf_session K s Hwf sid x Hx). Qed.

Lemma wf_lookup_circuit s sid cc : wf K s → circuit_map s !! sid = Some cc → cc_id cc = sid.
Proof. intros Hwf Hx. exact (wf_circuit K s Hwf sid cc Hx). Qed.

Lemma wf_later_session s sid x w s' :
  wf K s → session_map s !! sid = Some x → wf K s' → wf K (set_session_map <[sid := with_later_stream x w]> s').
Proof. intros Hwf Hx Hwf'. destruct (wf_lookup_session s sid x Hwf Hx). by apply wf_insert_session. Qed.
Hint Resolve wf_later_session : keeps.

Lemma keeps_scan peer n : keeps (scan_out_streams peer n).
Proof. induction n; cbn [scan_out_streams]; keeps_auto. Qed.
Hint Resolve keeps_scan : keeps.

Lemma keeps_new_relay_stream peer : keeps (new_relay_stream peer).
Proof. unfold new_relay_stream, wait_for_out_peer_relay_stream, wait_round. keeps_auto. Qed.
Hint Resolve keeps_new_relay_stream : keeps.

Lemma keeps_bus_register key : keeps (event_bus_register key).
Proof. unfold event_bus_register. intros s Hs. split; [|done]. by apply wf_register. Qed.
Hint Resolve keeps_bus_register : keeps.

Lemma keeps_new_channel : keeps new_channel.
Proof. intros s Hs. split; [|done]. by apply wf_bump. Qed.
Hint Resolve keeps_new_channel : keeps.

Lemma keeps_send_node_request r : node_request_ok r → keeps (send_node_request r).
Proof. intros Hr. apply preserves_bind; [by apply preserves_call|]. intros a. apply preserves_unwrap_ok. Qed.
Hint Resolve keeps_send_node_request : keeps.

Lemma keeps_send_and_wait key r : node_request_ok r → keeps (external_send_node_request_and_wait key r).
Proof. intros Hr. unfold external_send_node_request_and_wait. keeps_auto. Qed.
Hint Resolve keeps_send_and_wait : keeps.

Lemma keeps_new_session self peer sid my other : keeps (new_session_to_peer self peer sid my other).
Proof.
  unfold new_session_to_peer. keeps_auto.
Qed.
Hint Resolve keeps_new_session : keeps.

Lemma keeps_probe sid w r : relay_type r = relaytype_i32 RtProbe → keeps (handle_relay_probe sid w r).
Proof.
  intros Hty. unfold handle_relay_probe. destruct (pb_decode (relay_data r)) as [p|] eqn:Hp; [|exact I].
  assert (writes_type r) by (by eapply writes_typed, typed_probe). keeps_auto.
Qed.
Hint Resolve keeps_probe : keeps.

Lemma keeps_success node r w : relay_type r = relaytype_i32 RtSuccess → keeps (handle_success node r w).
Proof.
  intros Hty. unfold handle_success. destruct (pb_decode (relay_data r)) as [m|] eqn:Hm; [|exact I].
  assert (writes_type r) by (by eapply writes_typed, typed_success).
  keeps_auto; simpl; eauto using wf_lookup_circuit.
Qed.
Hint Resolve keeps_success : keeps.

Lemma keeps_relay_msg r w : relay_type r = relaytype_i32 RtData → keeps (handle_relay_msg r w).
Proof.
  intros Hty. unfold handle_relay_msg. destruct (pb_decode (relay_data r)) as [m|] eqn:Hm; [|exact I].
  assert (writes_type r) by (by eapply writes_typed, typed_data). keeps_auto.
Qed.
Hint Resolve keeps_relay_msg : keeps.

Lemma keeps_set_session m w id : keeps (handle_set_session m w id).
Proof. unfold handle_set_session, send_ack. keeps_auto. Qed.
Hint Resolve keeps_set_session : keeps.

Lemma keeps_add_circuit sid w : keeps (add_circuit_conn sid w).
Proof. unfold add_circuit_conn. keeps_auto. Qed.
Hint Resolve keeps_add_circuit : keeps.

Lemma keeps_dispatch w node sid r : keeps (relay_dispatch w node sid r).
Proof. unfold relay_dispatch. keeps_auto. Qed.
Hint Resolve keeps_dispatch : keeps.

Lemma keeps_relay_handler fuel w node sid : keeps (relay_event_handler fuel w node sid).
Proof. unfold relay_event_handler, relay_event_step, relay_read_error, read_from_negotiated_arc, ws_read.
  keeps_auto. Qed.
Hint Resolve keeps_relay_handler : keeps.

Lemma keeps_install cc t sid : cc_id cc = sid → keeps (install_transport cc t sid).
Proof. intros Hid. unfold install_transport. keeps_auto. Qed.
Hint Resolve keeps_install : keeps.

Lemma keeps_handshake cc i sid node : cc_id cc = sid → keeps (process_handshake cc i sid node).
Proof. intros Hid. unfold process_handshake, process_handshake_initiator, process_handshake_responder,
    write_handshake_payload_arc, circuit_recv. keeps_auto. Qed.
Hint Resolve keeps_handshake : keeps.

Lemma keeps_pick node infos inv other dest n : ∀ i cur, keeps (pick_peer node infos inv other dest n i cur).
Proof. induction n; intros; cbn [pick_peer]; keeps_auto. Qed.
Hint Resolve keeps_pick : keeps.

Lemma keeps_try node infos other dest sid my r n : ∀ inv cur,
  keeps (try_peers node infos other dest sid my r n inv cur).
Proof. induction n; intros; cbn [try_peers]; keeps_auto. Qed.
Hint Resolve keeps_try : keeps.

Lemma keeps_main_nets id p num : keeps (request_main_nets id p num).
Proof. unfold request_main_nets. keeps_auto. Qed.
Hint Resolve keeps_main_nets : keeps.

Lemma keeps_new_circuit node r p : keeps (handle_new_circuit node r p).
Proof. unfold handle_new_circuit, circuit_to_client, circuit_to_sink, circuit_negotiation. keeps_auto. Qed.
Hint Resolve keeps_new_circuit : keeps.

Lemma keeps_unregister p : keeps (unregister_peer p).
Proof. unfold unregister_peer. keeps_auto. Qed.
Hint Resolve keeps_unregister : keeps.

Lemma keeps_new_proxy r p :
  asked K p r → req_reqtype r = reqtype_i32 RqNewProxy → keeps (handle_new_proxy r p).
Proof.
  intros Ha Hty. unfold handle_new_proxy. keeps_auto. apply wf_insert_client; [done| |done].
  exists r. split; [done|]. split; [done|]. eauto.
Qed.
Hint Resolve keeps_new_proxy : keeps.

Lemma keeps_proxy_request node npr :
  (∀ q, proxy_request npr = Some q → asked K (npr_peer npr) q) → keeps (handle_proxy_request node npr).
Proof.
  intros Ha. unfold handle_proxy_request, handle_decrypt_gossip, handle_neg_plaintext, handle_main_net_peers, send_ack.
  keeps_auto.
Qed.
Hint Resolve keeps_proxy_request : keeps.

Lemma keeps_cmd_request node ncr : keeps (handle_cmd_request node ncr).
Proof. unfold handle_cmd_request, handle_session_expend, send_ack. keeps_auto. Qed.
Hint Resolve keeps_cmd_request : keeps.

Lemma keeps_gossip node d : keeps (handle_gossip node d).
Proof. unfold handle_gossip, access_circuit, extend_session. keeps_auto. Qed.
Hint Resolve keeps_gossip : keeps.

Lemma keeps_add_addresses peer addrs : keeps (add_addresses peer addrs).
Proof. induction addrs; cbn [add_addresses]; keeps_auto. Qed.
Hint Resolve keeps_add_addresses : keeps.

(** A send whose obligation is met. *)
Lemma keeps_send {A} (c : cmd) (k : reply c → io A) : cmd_ok K c → (∀ r, keeps (k r)) → keeps (call c ≫= k).
Proof. intros Hc Hk. apply preserves_call_bind; auto. Qed.

Lemma keeps_serve relay r : wanted K r → keeps (serve_common relay r).
Proof.
  intros Hr. destruct r as [npr|ncr|nar|p|p addrs|id p n tx|d tx]; cbn [serve_common];
    [destruct (proxy_request npr) eqn:E|destruct (cmd_request ncr) eqn:E|destruct (ack_request nar) eqn:E|..];
    try exact I; try (keeps_auto; fail); (apply (keeps_send (SwarmCall _)); [by eexists|intros ?; exact I]).
Qed.
Hint Resolve keeps_serve : keeps.

Lemma keeps_client_serve relay r : wanted K r → keeps (client_serve relay r).
Proof. apply keeps_serve. Qed.
Hint Resolve keeps_client_serve : keeps.

Lemma keeps_server_serve relay r : wanted K r → keeps (server_serve relay r).
Proof.
  intros Hr. unfold server_serve. destruct r; try (by apply keeps_serve); [keeps_auto|].
  apply preserves_bind; [|intros ?; keeps_auto].
  apply keeps_send; [by eexists|by intros []].
Qed.
Hint Resolve keeps_server_serve : keeps.

Lemma keeps_event_loop serve fuel relay :
  (∀ r x, wanted K x → keeps (serve r x)) → keeps (loop (event_loop_step serve) fuel relay).
Proof.
  intros Hs. apply preserves_loop. intros relay'. apply preserves_call_bind; [exact I|].
  intros [?|[x|]] Hr; keeps_auto.
Qed.
Hint Resolve keeps_event_loop : keeps.

Lemma keeps_wait_stream fuel : keeps (wait_for_relay_stream fuel).
Proof. unfold wait_for_relay_stream. keeps_auto. Qed.
Hint Resolve keeps_wait_stream : keeps.

Lemma keeps_add_peers peers : keeps (add_peers peers).
Proof. induction peers; cbn [add_peers]; keeps_auto. Qed.
Hint Resolve keeps_add_peers : keeps.

Lemma keeps_get_main_nets cnt p a : keeps (get_main_nets cnt p a).
Proof. unfold get_main_nets. keeps_auto. Qed.
Hint Resolve keeps_get_main_nets : keeps.

Lemma keeps_register node p : keeps (register_proxy node p).
Proof. unfold register_proxy. keeps_auto. Qed.
Hint Resolve keeps_register : keeps.

Lemma keeps_dial node remote : keeps (dial node remote).
Proof. unfold dial, generate_session_id, new_circuit. keeps_auto. Qed.
Hint Resolve keeps_dial : keeps.

Lemma keeps_circuit_write cc p n : keeps (circuit_write cc p n).
Proof. unfold circuit_write, transport_write. keeps_auto. Qed.
Hint Resolve keeps_circuit_write : keeps.

Lemma keeps_circuit_read cc buf : keeps (circuit_read cc buf).
Proof. unfold circuit_read, circuit_take, transport_read. keeps_auto. Qed.
Hint Resolve keeps_circuit_read : keeps.

Lemma keeps_send_message sid m : keeps (send_message sid m).
Proof. unfold send_message. keeps_auto. Qed.
Hint Resolve keeps_send_message : keeps.

Lemma keeps_kad_add peer addrs : keeps (kad_add_addresses peer addrs).
Proof. induction addrs; cbn [kad_add_addresses]; keeps_auto. Qed.
Hint Resolve keeps_kad_add : keeps.

(** The task of a stream: what it is given to send it writes, and what arrives it
    passes on. *)
Lemma keeps_start_poll fuel w : keeps (start_poll fuel w).
Proof.
  apply preserves_loop. intros _. apply preserves_call_bind; [exact I|].
  intros [[[|d]|]|[[|b d]|e]] Hr; keeps_auto.
  by apply preserves_call.
Qed.
Hint Resolve keeps_start_poll : keeps.

Lemma keeps_in_send w res : cmd_ok K (InSend w res) → keeps (call (InSend w res) ≫= unwrap_ok).
Proof. intros Hok. apply preserves_bind; [by apply preserves_call|]. by intros []. Qed.
Hint Resolve keeps_in_send : keeps.

(** The proxy task: what its peers have asked. *)
Lemma keeps_proxy_task fuel node : keeps (process_proxy_request fuel node).
Proof.
  apply preserves_loop. intros _. apply preserves_call_bind; [exact I|]. intros [npr|] Hr; keeps_auto.
Qed.
Hint Resolve keeps_proxy_task : keeps.

(** The programs of the tasks and of the stimuli. *)
Lemma keeps_task order fuel t : cmd_ok K (Spawn t) → keeps (task_program order fuel t).
Proof.
  intros Hok. destruct t; cbn [task_program]; cbn in Hok; try (by eauto with keeps);
    unfold process_cmd_request,
      process_publish_request, process_new_stream, process_new_session, new_session_step,
      whitenoise_client_event_loop, whitenoise_server_event_loop; keeps_auto.
Qed.

Lemma keeps_inject_relay e : keeps (inject_relay_event e).
Proof. destruct e; cbn [inject_relay_event]; keeps_auto. by apply preserves_call. Qed.
Hint Resolve keeps_inject_relay : keeps.

Lemma keeps_poll_relay relay : keeps (poll_relay relay).
Proof. unfold poll_relay. destruct (relay_poll relay) as [[[e|p] r]|]; keeps_auto. Qed.
Hint Resolve keeps_poll_relay : keeps.

Lemma keeps_relay_inject {Sub} peer (e : RelayHandlerOutEvent Sub) r : keeps (relay_inject_event peer e r).
Proof. unfold relay_inject_event, from_neg_to_wraped. keeps_auto. Qed.
Hint Resolve keeps_relay_inject : keeps.

Lemma keeps_whitenoise_event e : stimulus_ok K (OnWhitenoise e) → keeps (whitenoise_inject_event e).
Proof.
  destruct e as [[| |p [q|q]|]|[| |p [q|q]|]|[| |p [a|a]|]|e]; intros Hok; try exact I;
    unfold whitenoise_inject_event, inject_proxy_event, inject_cmd_event, inject_ack_event.
  - apply keeps_send; [by intros ? [= <-]|by intros []].
  - apply keeps_send; [by intros ? [= <-]|by intros []].
  - apply preserves_atomic. intros s Hs. split; [by apply wf_delete_bus|]. cbn [snd].
    destruct (event_bus s !! _); [|exact I]. apply keeps_send; [done|by intros []].
  - apply keeps_inject_relay.
Qed.
Hint Resolve keeps_whitenoise_event : keeps.

Lemma keeps_server_event e : stimulus_ok K (OnServer e) → keeps (server_inject_event e).
Proof.
  destruct e as [e|[d| |]|[]|[]]; intros Hok; try exact I;
    unfold server_inject_event, inject_gossip_event, inject_identify_event; [|keeps_auto].
  apply keeps_send; [exact Hok|by intros []].
Qed.
Hint Resolve keeps_server_event : keeps.

Lemma keeps_stimulus x : stimulus_ok K x → keeps (stimulus_program x).
Proof.
  intros Hok. destruct x; cbn [stimulus_program]; unfold client_inject_event, inject_inner_event;
    cbn [client_get_main_net_peers client_register client_dial client_send_message
         client_disconnect_circuit WhiteNoiseClient_client]; keeps_auto.
Qed.

Lemma keeps_account path kt : keeps (default_account_keypair path kt).
Proof. unfold default_account_keypair. keeps_auto. Qed.
Hint Resolve keeps_account : keeps.

Lemma keeps_start port bootstrap mode keys kt : keeps (start port bootstrap mode keys kt).
Proof.
  unfold start, start_node, start_with, start_swarm, listen_on, new_gossipsub, add_bootstrap, node_keypair. keeps_auto.
Qed.
Hint Resolve keeps_start : keeps.

Lemma keeps_start_server bootstrap port kt keys : keeps (start_server bootstrap port kt keys).
Proof. unfold start_server. keeps_auto. Qed.
Hint Resolve keeps_start_server : keeps.

Lemma keeps_client_init bootstrap kt keys : keeps (client_init bootstrap kt keys).
Proof. unfold client_init. keeps_auto. Qed.
Hint Resolve keeps_client_init : keeps.

Lemma keeps_circuit_take h frame buf : keeps (circuit_take h frame buf).
Proof. unfold circuit_take, transport_read. keeps_auto. Qed.
Hint Resolve keeps_circuit_take : keeps.

(** The programs of the chat client, on the interface of the SDK. *)
Lemma keeps_chat_loop fuel (client : WhiteNoiseClient) sid nick cc : keeps (chat_loop fuel client sid nick cc).
Proof.
  unfold chat_loop, chat_step, send_line, print_message. cbn [client_send_message WhiteNoiseClient_client].
  keeps_auto.
Qed.
Hint Resolve keeps_chat_loop : keeps.

Lemma keeps_start_client fuel bootstrap nick remote kt : keeps (start_client fuel bootstrap nick remote kt).
Proof.
  unfold start_client, caller, answer, wait_step.
  cbn [client_get_main_net_peers client_register client_dial client_get_circuit
       client_notify_next_session WhiteNoiseClient_client]. keeps_auto.
Qed.
Hint Resolve keeps_start_client : keeps.

Lemma boot_keeps c : boot c → wf K c.1 ∧ Forall keeps c.2.
Proof.
  destruct 1; (split; [apply wf_empty|]); repeat constructor; unfold server_main, chat_main; keeps_auto.
Qed.

Lemma keeps_spawned order fuel c : cmd_ok K c → Forall keeps (spawned order fuel c).
Proof. intros Hok. destruct c; simpl; repeat constructor. by apply keeps_task. Qed.

End SystemLemmas.

(** ** The system in an unknown environment *)

Section OpenSystem.
Context {EXT : Ext}.

(** Nothing is known: any frame, request or acknowledgement may come. *)
Definition anything : news :=
  mkNews (λ _, True) (λ _ _, True) (λ _ _, True) (λ _ _, True) (λ _ _, True) (λ _, True) (λ _, True).

Lemma any_fits c r : fits anything c r.
Proof. destruct c; simpl; try done; repeat case_match; done. Qed.

Lemma any_stimulus x : stimulus_ok anything x.
Proof. destruct x; simpl; repeat case_match; done. Qed.

Local Abbreviation keeps := (preserves (wf anything) (fits anything) (cmd_ok anything)).

(** Rule induction: one step keeps the invariant and that of the programs. *)
Lemma sys_step_keeps c c' :
  sys_step c c' → wf anything c.1 ∧ Forall keeps c.2 → wf anything c'.1 ∧ Forall keeps c'.2.
Proof.
  intros Hstep. destruct Hstep as [s l r X f k|s l r c k a order fuel|s pool x];
    simpl; intros [Hwf Hpool].
  - destruct (proj1 (Forall_app _ _ _) Hpool) as [Hl Hpr]. inversion Hpr as [|? ? Hp Hr]; subst.
    destruct (Hp s Hwf) as [Hwf' Hk]. split; [done|].
    apply Forall_app. by split; [|constructor].
  - destruct (proj1 (Forall_app _ _ _) Hpool) as [Hl Hpr]. inversion Hpr as [|? ? Hp Hr]; subst.
    destruct Hp as [Hok Hk]. split; [done|].
    apply Forall_app. split; [done|]. constructor; [apply Hk, any_fits|].
    apply Forall_app. split; [done|]. by apply keeps_spawned.
  - split; [done|]. apply Forall_app. split; [done|]. repeat constructor. apply keeps_stimulus, any_stimulus.
Qed.

Lemma reachable_keeps start c : boot start → reachable start c → wf anything c.1 ∧ Forall keeps c.2.
Proof.
  intros Hboot. induction 1 as [|c c' _ IH Hstep]; [by apply boot_keeps|by eapply sys_step_keeps].
Qed.

Lemma reachable_trans a b c : reachable a b → reachable b c → reachable a c.
Proof. intros Hab. induction 1 as [|c c' _ IH Hstep]; [done|]. by eapply reach_step. Qed.

Lemma sys_step_reachable a b c : sys_step a b → reachable b c → reachable a c.
Proof. intros Hab. apply reachable_trans. eapply reach_step; [apply reach_refl|done]. Qed.

Lemma sys_run_reachable a tr c : sys_run a tr c → reachable a c.
Proof.
  induction 1 as [c|s l r X f k tr c _ IH|s l r c k a order fuel tr c' _ IH|s pool x tr c _ IH].
  - apply reach_refl.
  - eapply sys_step_reachable; [apply step_atomic|done].
  - eapply sys_step_reachable; [apply step_call|done].
  - eapply sys_step_reachable; [apply step_stimulus|done].
Qed.

Lemma sys_run_trans a tr1 b tr2 c : sys_run a tr1 b → sys_run b tr2 c → sys_run a (tr1 ++ tr2) c.
Proof. induction 1; simpl; [done|..]; intros; [apply run_atomic|eapply run_call|eapply run_stimulus]; eauto. Qed.

(** A program of the pool run for some steps, with the replies of a script. *)
Fixpoint drive (order : circuit_order) (fuel : nat) (f : script) (n : nat) (s : Shared) (p : io unit)
    (r : list (io unit)) : Shared * io unit * list (io unit) :=
  match n, p with
  | S n, Atomic g k => drive order fuel f n (g s).1 (k (g s).2) r
  | S n, Call c k =>
      match f c with
      | Some a => drive order fuel f n s (k a) (r ++ spawned order fuel c)
      | None => (s, p, r)
      end
  | _, _ => (s, p, r)
  end.

Lemma drive_reachable order fuel f n start l : ∀ s p r,
  reachable start (s, l ++ p :: r) →
  let '(s', p', r') := drive order fuel f n s p r in reachable start (s', l ++ p' :: r').
Proof.
  induction n as [|n IH]; intros s p r Hreach; [done|].
  destruct p as [a| | |X g k|c k]; try done; cbn [drive].
  - apply IH. eapply reach_step; [exact Hreach|]. apply step_atomic.
  - destruct (f c) as [a|]; [|done]. apply IH. eapply reach_step; [exact Hreach|]. apply step_call.
Qed.

End OpenSystem.

(** * Properties *)

Section SystemProperties.
Context {EXT : Ext}.

(** C1: in every state a node can reach from start-up, whatever its peers, its
    user and its scheduler do, each map is consistent with its keys: a session
    and a circuit carry the id they are filed under, a session has its early
    stream (the first [unwrap] of [forward_relay] cannot fail), a registered
    client's WhiteNoise id hashes to its key, and no two commands await their
    acknowledgement on the same channel. *)
Theorem reachable_wf (start c : sys) : boot start → reachable start c → wf anything c.1.
Proof.
  intros Hboot Hreach. by apply (reachable_keeps start).
Qed.

(** C2: type safety of the wire.  Whatever a node has received, from whomever,
    every message any of its tasks is about to put on a stream is well typed: it
    decodes, to a relay message whose data decodes to a message of the type it
    says. *)
Theorem reachable_typed `{!CodecLaws} (start : sys) (s : Shared) (l r : list (io unit))
    (w : WrappedStream) (d : bytes) (k : bool → io unit) :
  boot start → reachable start (s, l ++ Call (OutSend w (WdData d)) k :: r) → typed_frame d.
Proof.
  intros Hboot Hreach. destruct (reachable_keeps _ _ Hboot Hreach) as [_ Hkeeps].
  destruct (proj1 (Forall_app _ _ _) Hkeeps) as [_ Hcall]. inversion Hcall as [|? ? Hp Hr]; subst.
  destruct Hp as [Hd _].
  by apply writes_typed_frame.
Qed.

(** C30: but the frames of a stream are not read in order.  Each is handed to the
    reader by a task of its own, and the tasks may run in either order: of two
    frames that come one after the other, the second can be delivered first, in
    a run of the node itself. *)
Theorem frames_may_reorder (w : WrappedStream) (x y : bytes) (fuel : nat) (s : Shared) :
  x ≠ [] → y ≠ [] →
  let start : sys := (s, [start_poll (S (S fuel)) w]) in
  ∀ delivered, delivered = [Ok x; Ok y] ∨ delivered = [Ok y; Ok x] →
  ∃ c, reachable start c ∧
    sys_run start ([SelectStream w READ_MAX; Spawn (TaskInSend w (Ok x)); SelectStream w READ_MAX; Spawn (TaskInSend w (Ok y))] ++
                   (InSend w <$> delivered)) c.
Proof.
  intros Hx Hy start delivered Hd.
  set (p1 := task_program map_to_list 0 (TaskInSend w (Ok x))).
  set (p2 := task_program map_to_list 0 (TaskInSend w (Ok y))).
  set (rest := loop (λ _ : unit, start_poll_step w) fuel tt).
  cut (sys_run start ([SelectStream w READ_MAX; Spawn (TaskInSend w (Ok x)); SelectStream w READ_MAX; Spawn (TaskInSend w (Ok y))] ++
                      (InSend w <$> delivered)) (s, [rest; Ret tt; Ret tt])).
  { intros Hrun. eexists. split; [|exact Hrun]. by eapply sys_run_reachable. }
  destruct x as [|x0 x]; [done|]. destruct y as [|y0 y]; [done|].
  apply (run_call s [] [] (SelectStream w READ_MAX) _ (inr (Ok (x0 :: x))) map_to_list 0).
  apply (run_call s [] [] (Spawn (TaskInSend w (Ok (x0 :: x)))) _ tt map_to_list 0).
  apply (run_call s [] [p1] (SelectStream w READ_MAX) _ (inr (Ok (y0 :: y))) map_to_list 0).
  apply (run_call s [] [p1] (Spawn (TaskInSend w (Ok (y0 :: y)))) _ tt map_to_list 0).
  destruct Hd as [-> | ->].
  - apply (run_call s [rest] [p2] (InSend w (Ok (x0 :: x))) _ true map_to_list 0).
    apply (run_call s [rest; Ret tt] [] (InSend w (Ok (y0 :: y))) _ true map_to_list 0). apply run_done.
  - apply (run_call s [rest; p1] [] (InSend w (Ok (y0 :: y))) _ true map_to_list 0).
    apply (run_call s [rest] [Ret tt] (InSend w (Ok (x0 :: x))) _ true map_to_list 0). apply run_done.
Qed.

End SystemProperties.

Section SystemWitnesses.
Local Existing Instance toy.

(** A server on which an inbound stream was queued. *)
Lemma reachable_wf_witness :
  let start : sys := (empty_shared, [start_server None (Some "3331"%string) "ed25519" (Some toy_keys);; mret tt]) in
  let c : sys := (set_relay_in (λ q, q ++ [toy_stream "p" "u"]) empty_shared, start.2 ++ [Ret tt]) in
  boot start ∧ reachable start c ∧ wf anything c.1.
Proof.
  intros start c. assert (Hboot : boot start) by apply boot_server. split; [exact Hboot|].
  assert (Hc : reachable start c).
  { eapply reach_step.
    - eapply reach_step; [apply reach_refl|].
      apply (step_stimulus _ _ (OnWhitenoise (WbRelay (EvRelayInbound (toy_stream "p" "u"))))).
    - apply (step_atomic empty_shared start.2 [] unit
               (λ s, (set_relay_in (λ q, q ++ [toy_stream "p" "u"]) s, tt)) Ret). }
  split; [exact Hc|]. exact (reachable_wf start c Hboot Hc).
Defined.

(** A client that dials: its first message is the wake-up of the stream. *)
Lemma reachable_typed_witness :
  let w := toy_stream "proxy" "u" in
  let start : sys := (empty_shared, [client_init "b" ED25519 (Some toy_keys);; mret tt]) in
  ∃ s l d k r, boot start ∧ reachable start (s, l ++ Call (OutSend w (WdData d)) k :: r) ∧ typed_frame d.
Proof.
  intros w start.
  set (dialling := stimulus_program (ApiDial (mkWhiteNoiseClient toy_node "b" "b"%string) "0CC")).
  set (s1 := set_relay_out (λ q, q ++ [w]) empty_shared).
  assert (Hstart : reachable start (s1, (start.2 ++ [Ret tt]) ++ dialling :: [])).
  { eapply reach_step; [eapply reach_step; [eapply reach_step; [apply reach_refl|]|]|].
    - apply (step_stimulus _ _ (OnWhitenoise (WbRelay (EvRelayOutbound w)))).
    - apply (step_atomic empty_shared start.2 [] unit (λ s, (set_relay_out (λ q, q ++ [w]) s, tt)) Ret).
    - apply (step_stimulus _ _ (ApiDial (mkWhiteNoiseClient toy_node "b" "b"%string) "0CC")). }
  set (f := toy_answer no_script 0 empty_shared).
  pose proof (drive_reachable map_to_list 0 f 14 _ _ _ _ _ Hstart) as Hreach.
  assert (Hp : ∃ d k, (drive map_to_list 0 f 14 s1 dialling []).1.2 = Call (OutSend w (WdData d)) k)
    by (do 2 eexists; reflexivity).
  destruct Hp as (d & k & Hp).
  destruct (drive map_to_list 0 f 14 s1 dialling []) as [[s' p'] r']. simpl in Hp. subst p'.
  exists s', (start.2 ++ [Ret tt]), d, k, r'.
  assert (Hboot : boot start) by apply boot_client. split; [exact Hboot|]. split; [exact Hreach|].
  exact (@reachable_typed toy toy_codec_laws start s' (start.2 ++ [Ret tt]) r' w d k Hboot Hreach).
Defined.

Lemma frames_may_reorder_witness :
  let w := toy_stream "p" "u" in
  [x01] ≠ [] ∧
  ∃ c, reachable (empty_shared, [start_poll 2 w]) c ∧
    sys_run (empty_shared, [start_poll 2 w])
      [SelectStream w READ_MAX; Spawn (TaskInSend w (Ok [x01])); SelectStream w READ_MAX; Spawn (TaskInSend w (Ok [x02]));
       InSend w (Ok [x02]); InSend w (Ok [x01])] c.
Proof.
  intros w. split; [discriminate|].
  apply (frames_may_reorder (EXT := toy) w [x01] [x02] 0 empty_shared) with (delivered := [Ok [x02]; Ok [x01]]);
    [discriminate..|by right].
Defined.

End SystemWitnesses.
