(* ===== verification/Network.v ===== *)
(** * A network of nodes

    [System] runs one node in an unknown environment.  Here the nodes are run
    together: what one task sends on a channel another receives, in order and
    once; what the task of a stream writes to its substream comes out at the other
    end of the stream; requests, commands, acknowledgements and gossip go from the
    swarm that sends them to the swarm they name.  Only the user, the libp2p
    behaviours without messages and the choices of the executor are left open.

    Every node of such a network is a node of [System]; and, since every node runs
    the program, a node is only given what another one has sent it
    ([frames_authentic], [requests_authentic]). *)

From S2P Require Import Prelude Proto External State Io Concrete Utils Connection Account Node.
From S2P Require Import RelayEvents Typing Proxy Publish Commands RelayBehaviour Behaviour Requests Host Client.
From S2P Require Import Delivery Chat System.

Section Network.
Context {EXT : Ext}.

(** ** Channels *)

(** What is on its way inside a node: the requests to its event loop, those of
    its peers to its tasks, the answers on oneshot channels, the messages of a
    circuit, and of a stream what is to be sent, what has come in over its
    substream and what its task has passed on. *)
Inductive packet :=
| PkRequest (r : NodeRequest)
| PkProxy (r : NodeProxyRequest)
| PkCmd (r : NodeCmdRequest)
| PkGossip (d : bytes)
| PkSession (sid : string)
| PkAck (tx : nat) (a : Ack)
| PkPeers (tx : nat) (l : list NodeInfo)
| PkBool (tx : nat) (b : bool)
| PkCircuit (ch : nat) (d : bytes)
| PkOut (w : WrappedStream) (d : WrapedData)
| PkFrame (w : WrappedStream) (d : bytes)
| PkIn (w : WrappedStream) (res : result bytes ReadOneError).

(** The channel of each. *)
Inductive chan :=
| ChRequest | ChProxy | ChCmd | ChGossip | ChSession
| ChAck (tx : nat) | ChPeers (tx : nat) | ChBool (tx : nat) | ChCircuit (ch : nat)
| ChOut (w : WrappedStream) | ChFrame (w : WrappedStream) | ChIn (w : WrappedStream).

#[export] Instance chan_eq_dec : EqDecision chan.
Proof. solve_decision. Defined.

Definition chan_of (pk : packet) : chan :=
  match pk with
  | PkRequest _ => ChRequest
  | PkProxy _ => ChProxy
  | PkCmd _ => ChCmd
  | PkGossip _ => ChGossip
  | PkSession _ => ChSession
  | PkAck tx _ => ChAck tx
  | PkPeers tx _ => ChPeers tx
  | PkBool tx _ => ChBool tx
  | PkCircuit ch _ => ChCircuit ch
  | PkOut w _ => ChOut w
  | PkFrame w _ => ChFrame w
  | PkIn w _ => ChIn w
  end.

(** The oldest packet of a channel, and the others. *)
Fixpoint take_first (ch : chan) (q : list packet) : option (packet * list packet) :=
  match q with
  | [] => None
  | pk :: q =>
      if decide (chan_of pk = ch) then Some (pk, q)
      else '(x, q) ← take_first ch q; Some (x, pk :: q)
  end.

(** Is the send done? *)
Definition accepted (c : cmd) : reply c → bool :=
  match c return reply c → bool with
  | SendNodeRequest _ | SendAckTo _ _ | OutSend _ _ | InSend _ _ | CircuitSend _ _
  | SendProxy _ | SendCmd _ | SendGossip _ | SendSession _ | SubWrite _ _ | SwarmCall _ => λ b, b
  | _ => λ _, true
  end.

(** The packet of a send. *)
Definition packet_of (c : cmd) : option packet :=
  match c with
  | SendNodeRequest r => Some (PkRequest r)
  | SendAckTo tx a => Some (PkAck tx a)
  | OutSend w d => Some (PkOut w d)
  | InSend w res => Some (PkIn w res)
  | CircuitSend ch d => Some (PkCircuit ch d)
  | SendProxy r => Some (PkProxy r)
  | SendCmd r => Some (PkCmd r)
  | SendGossip d => Some (PkGossip d)
  | SendSession sid => Some (PkSession sid)
  | SwarmCall (ReplyPeers tx l) => Some (PkPeers tx l)
  | SwarmCall (ReplyBool tx b) => Some (PkBool tx b)
  | _ => None
  end.

(** The packet a reply takes. *)
Definition takes (c : cmd) : reply c → option packet :=
  match c return reply c → option packet with
  | AwaitAck rx => fmap (PkAck rx)
  | AwaitPeers rx => fmap (PkPeers rx)
  | AwaitBool rx => fmap (PkBool rx)
  | InRecv w => fmap (PkIn w)
  | CircuitRecv ch => fmap (PkCircuit ch)
  | RecvProxy => fmap PkProxy
  | RecvCmd => fmap PkCmd
  | RecvGossip => fmap PkGossip
  | RecvSession => fmap PkSession
  | SelectStream w _ => λ a,
      match a with
      | inl (Some d) => Some (PkOut w d)
      | inr (Ok d) => Some (PkFrame w d)
      | _ => None
      end
  | SelectSwarm => λ a, match a with inr (Some r) => Some (PkRequest r) | _ => None end
  | SelectStdin (Some ch) => λ a, match a with inr (Some d) => Some (PkCircuit ch d) | _ => None end
  | _ => λ _, None
  end.

(** ** Nodes *)

(** A node: its tasks and their state, the packets inside it, the peers its event
    loop has been asked to dial, and (for the statements) the commands its tasks
    have issued. *)
Record host := mkHost {
  tasks : sys;
  flight : list packet;
  dials : list PeerId;
  log : list cmd
}.

(** The swarm a node has built, which gives it its peer id. *)
Fixpoint swarm_of (l : list cmd) : option SwarmConfig :=
  match l with
  | [] => None
  | BuildSwarm c :: _ => Some c
  | _ :: l => swarm_of l
  end.

Definition host_peer (h : host) : option PeerId := local_peer <$> swarm_of (log h).

Definition boot_host (c : sys) : host := mkHost c [] [] [].

Definition set_tasks (c : sys) (h : host) : host := mkHost c (flight h) (dials h) (log h).
Definition push_packet (pk : packet) (h : host) : host :=
  mkHost (tasks h) (flight h ++ [pk]) (dials h) (log h).
Definition start_program (p : io unit) (h : host) : host :=
  set_tasks ((tasks h).1, (tasks h).2 ++ [p]) h.

Fixpoint host_at (hs : list host) (i : nat) : option host :=
  match hs, i with
  | [], _ => None
  | h :: _, O => Some h
  | _ :: hs, S i => host_at hs i
  end.

Fixpoint alter_host (f : host → host) (i : nat) (hs : list host) : list host :=
  match hs, i with
  | [], _ => []
  | h :: hs, O => f h :: hs
  | h :: hs, S i => h :: alter_host f i hs
  end.

Definition put_host (i : nat) (h : host) : list host → list host := alter_host (λ _, h) i.

Fixpoint boot_hosts (cs : list sys) : list host :=
  match cs with
  | [] => []
  | c :: cs => boot_host c :: boot_hosts cs
  end.

Definition dialled (c : cmd) : reply c → list PeerId :=
  match c return reply c → list PeerId with
  | SelectSwarm => λ a, match a with inr (Some (NrNewStreamRequest p)) => [p] | _ => [] end
  | _ => λ _, []
  end.

(** The node after a command: [c'] are its tasks then, [rest] the packets that
    are left. *)
Definition answered (h : host) (c : cmd) (a : reply c) (c' : sys) (rest : list packet) : host :=
  mkHost c' (rest ++ if accepted c a then option_list (packet_of c) else [])
    (dials h ++ dialled c a) (log h ++ [c]).

(** A stream's task is given no frame that is longer than it reads. *)
Definition within_limit (c : cmd) : reply c → Prop :=
  match c return reply c → Prop with
  | SelectStream _ max => λ a, match a with inr (Ok d) => length d ≤ max | _ => True end
  | _ => λ _, True
  end.

Definition taken (h : host) (c : cmd) (a : reply c) (rest : list packet) : Prop :=
  match takes c a with
  | Some pk => take_first (chan_of pk) (flight h) = Some (pk, rest)
  | None => rest = flight h
  end.

(** ** The network *)

(** A stream: its two ends. *)
Record link := mkLink {
  link_host : nat;
  link_stream : WrappedStream;
  peer_host : nat;
  peer_stream : WrappedStream
}.

(** What swarms send to each other by request and response. *)
Inductive letter :=
| LProxy (from to : PeerId) (q : Request)
| LCommand (from to : PeerId) (q : Command)
| LAck (from to : PeerId) (a : Ack).

Record net := mkNet {
  hosts : list host;
  links : list link;
  mail : list letter;
  topic : list (string * bytes)
}.

Definition other_end (i : nat) (w : WrappedStream) (l : link) : option (nat * WrappedStream) :=
  if decide (link_host l = i ∧ link_stream l = w) then Some (peer_host l, peer_stream l)
  else if decide (peer_host l = i ∧ peer_stream l = w) then Some (link_host l, link_stream l)
  else None.

Fixpoint find_end (i : nat) (w : WrappedStream) (ls : list link) : option (nat * WrappedStream) :=
  match ls with
  | [] => None
  | l :: ls => match other_end i w l with Some e => Some e | None => find_end i w ls end
  end.

Definition letters (me : option PeerId) (c : cmd) : list letter :=
  match me, c with
  | Some me, SwarmCall (ProxySendRequest to q) => [LProxy me to q]
  | Some me, SwarmCall (CmdSendRequest to q) => [LCommand me to q]
  | Some me, SwarmCall (AckSendRequest to a) => [LAck me to a]
  | _, _ => []
  end.

Definition posts (c : cmd) : list (string * bytes) :=
  match c with
  | SwarmCall (GossipPublish t d) => [(t, d)]
  | _ => []
  end.

(** What a substream is given comes out at its other end. *)
Definition carry (i : nat) (c : cmd) (ls : list link) (hs : list host) : list host :=
  match c with
  | SubWrite w d =>
      match find_end i w ls with
      | Some (j, v) => alter_host (push_packet (PkFrame v d)) j hs
      | None => hs
      end
  | _ => hs
  end.

(** The network after a command of the node [i], which is [h] then. *)
Definition after_command (N : net) (i : nat) (h : host) (c : cmd) (a : reply c) : net :=
  let hs := put_host i h (hosts N) in
  if accepted c a
  then mkNet (carry i c (links N) hs) (links N) (mail N ++ letters (host_peer h) c) (topic N ++ posts c)
  else mkNet hs (links N) (mail N) (topic N).

Definition set_host (N : net) (i : nat) (h : host) : net :=
  mkNet (put_host i h (hosts N)) (links N) (mail N) (topic N).

(** The program of an event whose uuid is chosen. *)
Definition with_uuid (id : string) (p : io unit) : io unit :=
  match p with
  | Call c k =>
      match c return (reply c → io unit) → io unit with
      | NewUuid => λ k, k id
      | c => λ k, Call c k
      end k
  | p => p
  end.

Definition opened (peer : PeerId) (e : RelayHandlerOutEvent unit) (id : string) : io unit :=
  with_uuid id (stimulus_program (OnSubstream peer e relay_new)).

Definition open_end (e : RelayHandlerOutEvent unit) (w : WrappedStream) (h : host) : host :=
  mkHost ((tasks h).1, (tasks h).2 ++ [opened (remote_peer_id w) e (stream_id w)]) (flight h) (dials h)
    (log h ++ [NewUuid]).

Definition set_dials (ds : list PeerId) (h : host) : host := mkHost (tasks h) (flight h) ds (log h).

(** The network after the node [i] has opened the stream [w] to the node [j],
    which calls it [v]. *)
Definition after_open (N : net) (i j : nat) (ds : list PeerId) (w v : WrappedStream) : net :=
  let hi h := open_end (HRelayOutbound tt) w (set_dials ds h) in
  let hj := open_end (HRelayInbound tt) v in
  mkNet (alter_host hj j (alter_host hi i (hosts N))) (links N ++ [mkLink i w j v]) (mail N) (topic N).

Definition letter_to (x : letter) : PeerId :=
  match x with LProxy _ to _ | LCommand _ to _ | LAck _ to _ => to end.

Definition letter_event (x : letter) : WhitenoiseEvent :=
  match x with
  | LProxy from _ q => WbProxy (RrMessage from (RrRequest q))
  | LCommand from _ q => WbCmd (RrMessage from (RrRequest q))
  | LAck from _ a => WbAck (RrMessage from (RrRequest a))
  end.

(** The topic a node follows.  A client's swarm is subscribed as well, but does
    nothing with what comes in (whitenoise_behaviour.rs, inject_event of
    WhitenoiseClientBehaviour). *)
Definition subscribed (h : host) (t : string) : Prop :=
  ∃ c, swarm_of (log h) = Some c ∧ swarm_mode c = RunServer ∧ subscribed_topic (gossipsub_config c) = t.

(** What can happen to a node without a message of another: the calls of the
    SDK, and the events of the swarm that carry none. *)
Definition ambient (x : stimulus) : Prop :=
  match x with
  | OnWhitenoise (WbProxy (RrMessage _ (RrRequest _)))
  | OnWhitenoise (WbCmd (RrMessage _ (RrRequest _)))
  | OnWhitenoise (WbAck (RrMessage _ (RrRequest _)))
  | OnWhitenoise (WbRelay (EvRelayInbound _)) | OnWhitenoise (WbRelay (EvRelayOutbound _))
  | OnServer (SvGossip (GsMessage _)) | OnSubstream _ _ _ => False
  | _ => True
  end.

Inductive net_step : net → net → Prop :=
| net_atomic N i h s l r X (f : Shared → Shared * X) k :
    host_at (hosts N) i = Some h → tasks h = (s, l ++ Atomic f k :: r) →
    net_step N (set_host N i (set_tasks ((f s).1, l ++ k (f s).2 :: r) h))
| net_call N i h s l r c k (a : reply c) rest order fuel :
    host_at (hosts N) i = Some h → tasks h = (s, l ++ Call c k :: r) → taken h c a rest → within_limit c a →
    net_step N (after_command N i (answered h c a (s, l ++ k a :: r ++ spawned order fuel c) rest) c a)
| net_open N i j hi hj ds w v :
    host_at (hosts N) i = Some hi → host_at (hosts N) j = Some hj → i ≠ j →
    dials hi = remote_peer_id w :: ds → host_peer hj = Some (remote_peer_id w) →
    host_peer hi = Some (remote_peer_id v) →
    find_end i w (links N) = None → find_end j v (links N) = None →
    net_step N (after_open N i j ds w v)
| net_dial_fails N i h p ds :
    host_at (hosts N) i = Some h → dials h = p :: ds →
    net_step N (set_host N i (set_dials ds h))
| net_mail N i h m1 x m2 :
    mail N = m1 ++ x :: m2 → host_at (hosts N) i = Some h → host_peer h = Some (letter_to x) →
    net_step N (mkNet (put_host i (start_program (stimulus_program (OnWhitenoise (letter_event x))) h) (hosts N))
                  (links N) (m1 ++ m2) (topic N))
| net_gossip N i h t d :
    (t, d) ∈ topic N → host_at (hosts N) i = Some h → subscribed h t →
    net_step N (set_host N i (start_program (stimulus_program (OnServer (SvGossip (GsMessage d)))) h))
| net_ambient N i h x :
    host_at (hosts N) i = Some h → ambient x →
    net_step N (set_host N i (start_program (stimulus_program x) h)).

(** A network starts with nodes that have been started, and nothing else. *)
Inductive net_boot : net → Prop :=
| net_booted cs : Forall boot cs → net_boot (mkNet (boot_hosts cs) [] [] []).

Inductive net_reachable (start : net) : net → Prop :=
| net_refl : net_reachable start start
| net_later N N' : net_reachable start N → net_step N N' → net_reachable start N'.

End Network.
