(* ===== verification/Authenticity.v ===== *)
(** * Authenticity in a network of nodes

    What holds in every reachable state of [Network]: each of its nodes is a node
    of [System]; what a node is given was sent by another; and what it is given, it
    can deal with.  The proof is by an invariant of the network: the programs of a
    node keep their obligations whatever more becomes known ([tame]), what is on its
    way is known ([packet_ok]), and what is known stays known ([grows]). *)

From S2P Require Import Prelude Proto External State Io Concrete Utils Connection Account Node.
From S2P Require Import RelayEvents Typing Proxy Publish Commands RelayBehaviour Behaviour Requests Host Client.
From S2P Require Import Delivery Chat System Network.

(** * Lemmas *)

Section AuthenticityLemmas.
Context {EXT : Ext}.

Lemma host_at_alter f i hs j h' :
  host_at (alter_host f i hs) j = Some h' →
  (i = j ∧ ∃ h, host_at hs i = Some h ∧ h' = f h) ∨ (i ≠ j ∧ host_at hs j = Some h').
Proof.
  revert i j. induction hs as [|x hs IH]; intros [|i] [|j] Hh; simplify_eq/=; eauto 6.
  destruct (IH _ _ Hh) as [[-> H]|[Hne H]]; auto.
Qed.

Lemma host_at_alter_eq f i hs h : host_at hs i = Some h → host_at (alter_host f i hs) i = Some (f h).
Proof. revert i. induction hs as [|x hs IH]; intros [|i] Hh; simplify_eq/=; auto. Qed.

Lemma host_at_alter_ne f i j hs : i ≠ j → host_at (alter_host f i hs) j = host_at hs j.
Proof. revert i j. induction hs as [|x hs IH]; intros [|i] [|j] Hij; simpl; auto; done. Qed.

Lemma host_at_boot cs i h : host_at (boot_hosts cs) i = Some h → ∃ c, c ∈ cs ∧ h = boot_host c.
Proof.
  revert i. induction cs as [|c cs IH]; intros [|i] Hh; simplify_eq/=.
  - exists c. split; [apply list_elem_of_here|done].
  - destruct (IH _ Hh) as (c' & Hc & ->). exists c'. split; [by apply list_elem_of_further|done].
Qed.

Lemma swarm_of_app l l' c : swarm_of l = Some c → swarm_of (l ++ l') = Some c.
Proof. induction l as [|x l IH]; [done|]. destruct x; simpl; try done; apply IH. Qed.

(** ** Facts that stay *)

Definition said (N : net) (i : nat) (c : cmd) : Prop := ∃ h, host_at (hosts N) i = Some h ∧ c ∈ log h.
Definition peer_at (N : net) (i : nat) (p : PeerId) : Prop :=
  ∃ h, host_at (hosts N) i = Some h ∧ host_peer h = Some p.
Definition linked (N : net) (i : nat) (w : WrappedStream) (j : nat) (v : WrappedStream) : Prop :=
  mkLink i w j v ∈ links N ∨ mkLink j v i w ∈ links N.

Definition grows (N N' : net) : Prop :=
  (∀ i h, host_at (hosts N) i = Some h → ∃ h' l, host_at (hosts N') i = Some h' ∧ log h' = log h ++ l) ∧
  ∃ l, links N' = links N ++ l.

#[export] Instance grows_preorder : PreOrder grows.
Proof.
  split.
  - intros N. split; [|exists []; by rewrite app_nil_r].
    intros i h Hh. exists h, []. by rewrite app_nil_r.
  - intros A B C [H1 [l1 E1]] [H2 [l2 E2]]. split.
    + intros i h Hh. destruct (H1 _ _ Hh) as (h' & l & Hh' & El).
      destruct (H2 _ _ Hh') as (h'' & l' & Hh'' & El'). exists h'', (l ++ l'). by rewrite El', El, app_assoc.
    + exists (l1 ++ l2). by rewrite E2, E1, app_assoc.
Qed.

#[export] Instance said_grows : Proper (grows ==> eq ==> eq ==> impl) said.
Proof.
  intros N N' [Hg _] i _ <- c _ <- (h & Hh & Hc). destruct (Hg _ _ Hh) as (h' & l & Hh' & El).
  exists h'. split; [done|]. rewrite El. apply elem_of_app. by left.
Qed.

#[export] Instance peer_at_grows : Proper (grows ==> eq ==> eq ==> impl) peer_at.
Proof.
  intros N N' [Hg _] i _ <- p _ <- (h & Hh & Hp). destruct (Hg _ _ Hh) as (h' & l & Hh' & El).
  exists h'. split; [done|]. unfold host_peer in *. destruct (swarm_of (log h)) eqn:Hs; [|done].
  by rewrite El, (swarm_of_app _ l _ Hs).
Qed.

#[export] Instance linked_grows : Proper (grows ==> eq ==> eq ==> eq ==> eq ==> impl) linked.
Proof.
  intros N N' [_ [l El]] i _ <- w _ <- j _ <- v _ <-. unfold linked. rewrite El.
  intros [H|H]; [left|right]; apply elem_of_app; by left.
Qed.

(** ** What a node is told *)

(** What the node [i] of a network may be given: what its own tasks have asked
    and sent, and from outside only what another node has sent it. *)
Definition knows (N : net) (i : nat) : news := {|
  wanted := λ r, said N i (SendNodeRequest r);
  sent := λ w d, said N i (OutSend w (WdData d));
  arrived := λ v d, ∃ j w, linked N j w i v ∧ said N j (OutSend w (WdData d));
  asked := λ p q, ∃ j me, peer_at N j p ∧ peer_at N i me ∧ said N j (SwarmCall (ProxySendRequest me q));
  ordered := λ p q, ∃ j me, peer_at N j p ∧ peer_at N i me ∧ said N j (SwarmCall (CmdSendRequest me q));
  acked := λ a, ∃ j me, peer_at N i me ∧ said N j (SwarmCall (AckSendRequest me a));
  told := λ d, ∃ j t, said N j (SwarmCall (GossipPublish t d))
|}.

Record news_le (K K' : news) : Prop := mkNewsLe {
  le_wanted : ∀ r, wanted K r → wanted K' r;
  le_sent : ∀ w d, sent K w d → sent K' w d;
  le_arrived : ∀ w d, arrived K w d → arrived K' w d;
  le_asked : ∀ p q, asked K p q → asked K' p q;
  le_ordered : ∀ p q, ordered K p q → ordered K' p q;
  le_acked : ∀ a, acked K a → acked K' a;
  le_told : ∀ d, told K d → told K' d
}.

#[export] Instance news_le_preorder : PreOrder news_le.
Proof.
  split; [by intros K|]. intros A B C [] []. split; auto.
Qed.

#[export] Instance knows_grows : Proper (grows ==> eq ==> news_le) knows.
Proof.
  intros N N' Hg i _ <-. split; simpl.
  - intros r. by rewrite Hg.
  - intros w d. by rewrite Hg.
  - intros v d (j & w & Hl & Hs). exists j, w. by rewrite Hg in Hl, Hs.
  - intros p q (j & me & Hp & Hme & Hs). exists j, me. by rewrite Hg in Hp, Hme, Hs.
  - intros p q (j & me & Hp & Hme & Hs). exists j, me. by rewrite Hg in Hp, Hme, Hs.
  - intros a (j & me & Hme & Hs). exists j, me. by rewrite Hg in Hme, Hs.
  - intros d (j & t & Hs). exists j, t. by rewrite Hg in Hs.
Qed.

(** News that grow: more fits, and more is allowed. *)
Lemma fits_le K K' c a : news_le K K' → fits K c a → fits K' c a.
Proof.
  intros []. destruct c; simpl; try done.
  - destruct a as [x|]; auto.
  - destruct a as [[d|]|]; auto.
  - destruct a; auto.
  - destruct a; auto.
  - destruct a; auto.
  - destruct a as [[[|d]|]|[d|]]; auto.
  - destruct a as [|[r|]]; auto.
Qed.

Lemma cmd_ok_le K K' c : news_le K K' → cmd_ok K c → cmd_ok K' c.
Proof.
  intros []. destruct c; simpl; auto.
  - destruct res; auto.
  - destruct a; try done; naive_solver.
  - destruct t as [| | | |w [d|e]| | | | | | | |]; auto.
Qed.

(** ** The invariant of the network *)

(** A program that keeps the invariant of its node whatever else becomes known. *)
Definition tame (K : news) (p : io unit) : Prop :=
  ∀ K', news_le K K' → preserves (wf K') (fits K') (cmd_ok K') p.

Definition packet_ok (K : news) (pk : packet) : Prop :=
  match pk with
  | PkRequest r => wanted K r
  | PkProxy npr => ∀ q, proxy_request npr = Some q → asked K (npr_peer npr) q
  | PkCmd ncr => ∀ q, cmd_request ncr = Some q → ordered K (ncr_peer ncr) q
  | PkGossip d => told K d
  | PkAck _ a => acked K a
  | PkOut w (WdData d) => sent K w d
  | PkFrame w d | PkIn w (Ok d) => arrived K w d
  | _ => True
  end.

Record host_ok (K : news) (h : host) : Prop := mkHostOk {
  ok_state : wf K (tasks h).1;
  ok_programs : Forall (tame K) (tasks h).2;
  ok_flight : Forall (packet_ok K) (flight h);
  ok_log : Forall (cmd_ok K) (log h)
}.

Definition letter_ok (N : net) (x : letter) : Prop :=
  match x with
  | LProxy from to q => ∃ j, peer_at N j from ∧ said N j (SwarmCall (ProxySendRequest to q))
  | LCommand from to q => ∃ j, peer_at N j from ∧ said N j (SwarmCall (CmdSendRequest to q))
  | LAck from to a => ∃ j, peer_at N j from ∧ said N j (SwarmCall (AckSendRequest to a))
  end.

Definition post_ok (N : net) (x : string * bytes) : Prop :=
  ∃ j, said N j (SwarmCall (GossipPublish x.1 x.2)).

Record net_ok (N : net) : Prop := mkNetOk {
  ok_hosts : ∀ i h, host_at (hosts N) i = Some h → host_ok (knows N i) h;
  ok_mail : Forall (letter_ok N) (mail N);
  ok_topic : Forall (post_ok N) (topic N)
}.

Lemma wf_le K K' s : news_le K K' → wf K s → wf K' s.
Proof.
  intros Hle []. split; try done. eapply map_Forall_impl; [done|]. intros h ci (Hid & q & Hq & Hr). simpl.
  split; [done|]. exists q. split; [by apply (le_asked _ _ Hle)|done].
Qed.

Lemma tame_le K K' p : news_le K K' → tame K p → tame K' p.
Proof. intros Hle Hp K'' Hle'. apply Hp. by etrans. Qed.

Lemma packet_ok_le K K' pk : news_le K K' → packet_ok K pk → packet_ok K' pk.
Proof. intros []. destruct pk as [| | | | | | | | |w [|d]|w d|w [d|e]]; simpl; auto. Qed.

Lemma host_ok_le K K' h : news_le K K' → host_ok K h → host_ok K' h.
Proof.
  intros Hle [Hw Hp Hf Hl]. split.
  - by eapply wf_le.
  - eapply Forall_impl; [|exact Hp]. intros p. by apply tame_le.
  - eapply Forall_impl; [|exact Hf]. intros pk. by apply packet_ok_le.
  - eapply Forall_impl; [|exact Hl]. intros c. by apply cmd_ok_le.
Qed.

Lemma letter_ok_grows N N' x : grows N N' → letter_ok N x → letter_ok N' x.
Proof. intros Hg. destruct x; intros (j & Hp & Hs); exists j; by rewrite Hg in Hp, Hs. Qed.

Lemma post_ok_grows N N' x : grows N N' → post_ok N x → post_ok N' x.
Proof. intros Hg [j Hs]. exists j. by rewrite Hg in Hs. Qed.

(** The step of a program. *)
Lemma tame_atomic K X (f : Shared → Shared * X) k s :
  tame K (Atomic f k) → wf K s → wf K (f s).1 ∧ tame K (k (f s).2).
Proof.
  intros Hp Hs. split; [by apply (Hp K)|]. intros K' Hle. apply (Hp K' Hle). by eapply wf_le.
Qed.

Lemma tame_call K c k a : tame K (Call c k) → fits K c a → cmd_ok K c ∧ tame K (k a).
Proof.
  intros Hp Ha. split; [by apply (Hp K)|]. intros K' Hle. apply (Hp K' Hle). by eapply fits_le.
Qed.

Lemma tame_spawned K order fuel c : cmd_ok K c → Forall (tame K) (spawned order fuel c).
Proof.
  intros Hc. assert (H : ∀ K', news_le K K' → Forall (preserves (wf K') (fits K') (cmd_ok K')) (spawned order fuel c)).
  { intros K' Hle. apply keeps_spawned. by eapply cmd_ok_le. }
  destruct c; simpl in *; constructor; [|constructor].
  intros K' Hle. specialize (H K' Hle). by inversion H.
Qed.

Lemma stimulus_ok_le K K' x : news_le K K' → stimulus_ok K x → stimulus_ok K' x.
Proof.
  intros []. destruct x as [[[| |p [q|q]|]|[| |p [q|q]|]|[| |p [a|a]|]|e]|[e|[d| |]|e|e]|e| | | | | | |];
    simpl; auto.
Qed.

Lemma tame_stimulus K x : stimulus_ok K x → tame K (stimulus_program x).
Proof. intros Hx K' Hle. apply keeps_stimulus. by eapply stimulus_ok_le. Qed.

(** Channels keep what is on them. *)
Lemma take_first_elem ch q pk rest :
  take_first ch q = Some (pk, rest) → pk ∈ q ∧ ∀ x, x ∈ rest → x ∈ q.
Proof.
  revert pk rest. induction q as [|y q IH]; intros pk rest Hq; simpl in *; [done|].
  case_decide; simplify_eq.
  - split; [apply list_elem_of_here|]. intros x. apply list_elem_of_further.
  - destruct (take_first ch q) as [[z q']|] eqn:Hz; simplify_eq/=. destruct (IH _ _ eq_refl) as [Hin Hrest].
    split; [by apply list_elem_of_further|]. intros x [->|Hx]%elem_of_cons; [apply list_elem_of_here|].
    by apply list_elem_of_further, Hrest.
Qed.

Lemma taken_ok K h c a rest :
  Forall (packet_ok K) (flight h) → taken h c a rest → fits K c a ∧ Forall (packet_ok K) rest.
Proof.
  intros Hf Ht. unfold taken in Ht.
  assert (Hok : (∀ pk, takes c a = Some pk → packet_ok K pk) ∧ Forall (packet_ok K) rest).
  { destruct (takes c a) as [pk|]; [|by subst]. apply take_first_elem in Ht as [Hin Hrest].
    rewrite Forall_forall in *.
    setoid_rewrite list_elem_of_In in Hrest. apply list_elem_of_In in Hin.
    split; [intros ? [= <-]; auto|]. intros x Hx. auto. }
  destruct Hok as [Htakes Hrest]. split; [|done]. clear Hf Ht.
  destruct c; simpl in *; try done.
  1, 3-5: destruct a; try done; by apply (Htakes _ eq_refl).
  - destruct a as [[d|]|]; try done; by apply (Htakes _ eq_refl).
  - destruct a as [[[|d]|]|[d|]]; try done; by apply (Htakes _ eq_refl).
  - destruct a as [|[r|]]; try done; by apply (Htakes _ eq_refl).
Qed.

(** What a node adds to its channels is what it has said. *)
Lemma packet_of_ok N i c pk :
  said N i c → cmd_ok (knows N i) c → packet_of c = Some pk → packet_ok (knows N i) pk.
Proof.
  intros Hs Hc Hpk. destruct c; simplify_eq/=; try done.
  - by destruct d.
  - by destruct a; simplify_eq/=.
Qed.

(** A change of one node, which may add streams, letters and posts. *)
Lemma net_ok_alter N N' f i :
  net_ok N → hosts N' = alter_host f i (hosts N) → (∃ l, links N' = links N ++ l) →
  (∀ h, host_at (hosts N) i = Some h → ∃ l, log (f h) = log h ++ l) →
  (grows N N' → ∀ h, host_at (hosts N) i = Some h → host_ok (knows N' i) h → host_ok (knows N' i) (f h)) →
  (grows N N' → Forall (letter_ok N') (mail N) → Forall (letter_ok N') (mail N')) →
  (grows N N' → Forall (post_ok N') (topic N) → Forall (post_ok N') (topic N')) →
  net_ok N' ∧ grows N N'.
Proof.
  intros [Hok Hmail Htopic] Eh El Hlog Hnew Hm Ht. assert (Hg : grows N N').
  { split; [|done]. intros j h Hh. rewrite Eh. destruct (decide (i = j)) as [->|Hne].
    - destruct (Hlog h Hh) as [l Hl]. exists (f h), l. split; [|done]. by apply host_at_alter_eq.
    - exists h, []. rewrite host_at_alter_ne by done. by rewrite app_nil_r. }
  split; [|done]. split.
  - intros j h'. rewrite Eh. intros [[-> (h & Hh & ->)]|[_ Hh]]%host_at_alter.
    + apply Hnew; [done..|]. eapply host_ok_le; [by apply knows_grows|]. by apply Hok.
    + eapply host_ok_le; [by apply knows_grows|]. by apply Hok.
  - apply (Hm Hg). eapply Forall_impl; [|exact Hmail]. intros x. by apply letter_ok_grows.
  - apply (Ht Hg). eapply Forall_impl; [|exact Htopic]. intros x. by apply post_ok_grows.
Qed.

(** The start of a program, and another change of the tasks. *)
Lemma host_ok_tasks K h c :
  host_ok K h → wf K c.1 → Forall (tame K) c.2 → host_ok K (set_tasks c h).
Proof. intros [] Hc Hp. by split. Qed.

Lemma host_ok_start K h p : host_ok K h → tame K p → host_ok K (start_program p h).
Proof.
  intros Hh Hp. apply host_ok_tasks; [done|apply Hh|]. simpl. apply Forall_app.
  split; [apply Hh|]. by repeat constructor.
Qed.

Lemma net_ok_start N i h p :
  net_ok N → host_at (hosts N) i = Some h → tame (knows N i) p →
  net_ok (set_host N i (start_program p h)) ∧ grows N (set_host N i (start_program p h)).
Proof.
  intros Hok Hh Hp. apply (net_ok_alter N _ (λ _, start_program p h) i); try done.
  - exists []. by rewrite app_nil_r.
  - intros h' Hh'. simplify_eq. exists []. by rewrite app_nil_r.
  - intros Hg h' Hh' Hok'. simplify_eq. apply host_ok_start; [done|].
    eapply tame_le; [by apply knows_grows|done].
Qed.

(** A program of a node, in its pool. *)
Lemma pool_at K s l (p : io unit) r :
  Forall (tame K) (s : Shared, l ++ p :: r).2 → Forall (tame K) l ∧ tame K p ∧ Forall (tame K) r.
Proof.
  simpl. intros [Hl Hpr]%Forall_app. inversion Hpr; subst. done.
Qed.

Lemma pool_put K l (p : io unit) r :
  Forall (tame K) l → tame K p → Forall (tame K) r → Forall (tame K) (l ++ p :: r).
Proof. intros Hl Hp Hr. apply Forall_app. by repeat constructor. Qed.

(** The node after a command. *)
Lemma host_ok_answered N' i h s l r c k (a : reply c) rest order fuel :
  let h' := answered h c a (s, l ++ k a :: r ++ spawned order fuel c) rest in
  tasks h = (s, l ++ Call c k :: r) → taken h c a rest →
  host_ok (knows N' i) h → said N' i c → host_ok (knows N' i) h' ∧ cmd_ok (knows N' i) c.
Proof.
  intros h' Et Ht [Hs Hp Hf Hl] Hsaid. rewrite Et in Hs, Hp.
  apply pool_at in Hp as (Hpl & Hpc & Hpr). destruct (taken_ok _ _ _ _ _ Hf Ht) as [Hfit Hrest].
  destruct (tame_call _ _ _ _ Hpc Hfit) as [Hc Hk]. split; [|done]. split; simpl.
  - done.
  - apply pool_put; [done..|]. apply Forall_app. split; [done|]. by apply tame_spawned.
  - apply Forall_app. split; [done|]. destruct (accepted c a); [|constructor].
    destruct (packet_of c) eqn:Hpk; repeat constructor. by eapply packet_of_ok.
  - apply Forall_app. by repeat constructor.
Qed.

Lemma letters_ok N i h c :
  host_at (hosts N) i = Some h → c ∈ log h → Forall (letter_ok N) (letters (host_peer h) c).
Proof.
  intros Hh Hc. unfold letters. destruct (host_peer h) as [me|] eqn:Hme; [|constructor].
  assert (peer_at N i me) by by exists h. assert (said N i c) by by exists h.
  destruct c; try by constructor. destruct a; repeat constructor; by exists i.
Qed.

Lemma posts_ok N i c : said N i c → Forall (post_ok N) (posts c).
Proof. intros Hc. destruct c; try by constructor. destruct a; repeat constructor. by exists i. Qed.

Lemma net_ok_answered N i h s l r c k (a : reply c) rest order fuel (ok : bool) :
  let h' := answered h c a (s, l ++ k a :: r ++ spawned order fuel c) rest in
  let N' := mkNet (put_host i h' (hosts N)) (links N)
              (mail N ++ if ok then letters (host_peer h') c else [])
              (topic N ++ if ok then posts c else []) in
  net_ok N → host_at (hosts N) i = Some h → tasks h = (s, l ++ Call c k :: r) → taken h c a rest →
  net_ok N' ∧ grows N N' ∧ cmd_ok (knows N' i) c.
Proof.
  intros h' N' Hok Hh Et Ht.
  assert (Hh' : host_at (hosts N') i = Some h') by exact (host_at_alter_eq (λ _, h') i (hosts N) h Hh).
  assert (Hc : c ∈ log h') by (apply elem_of_app; right; apply list_elem_of_here).
  assert (Hsaid : said N' i c) by by exists h'.
  assert (Hnew : host_ok (knows N' i) h → host_ok (knows N' i) h' ∧ cmd_ok (knows N' i) c)
    by (intros ?; by eapply host_ok_answered).
  assert (H : net_ok N' ∧ grows N N').
  { apply (net_ok_alter N N' (λ _, h') i); try done.
    - exists []. by rewrite app_nil_r.
    - intros h0 Hh0. simplify_eq. by exists [c].
    - intros _ h0 Hh0 Hok0. simplify_eq. by apply Hnew.
    - intros _ Hm. apply Forall_app. split; [done|]. destruct ok; [|constructor]. by eapply letters_ok.
    - intros _ Hm. apply Forall_app. split; [done|]. destruct ok; [|constructor]. by eapply posts_ok. }
  destruct H as [Hok' Hg]. split_and!; [done..|]. apply Hnew.
  eapply host_ok_le; [by apply knows_grows|]. by apply Hok.
Qed.

(** The end of a stream is linked to the other. *)
Lemma find_end_linked ls i w j v :
  find_end i w ls = Some (j, v) → mkLink i w j v ∈ ls ∨ mkLink j v i w ∈ ls.
Proof.
  induction ls as [|[i1 w1 j1 v1] ls IH]; [done|]. simpl. unfold other_end. simpl. intros H.
  destruct (decide (i1 = i ∧ w1 = w)) as [[-> ->]|_]; simplify_eq.
  { left. apply list_elem_of_here. }
  destruct (decide (j1 = i ∧ v1 = w)) as [[-> ->]|_]; simplify_eq.
  { right. apply list_elem_of_here. }
  destruct (IH H); [left|right]; by apply list_elem_of_further.
Qed.

Lemma net_ok_push N j v i w d :
  net_ok N → linked N i w j v → said N i (OutSend w (WdData d)) →
  let N' := mkNet (alter_host (push_packet (PkFrame v d)) j (hosts N)) (links N) (mail N) (topic N) in
  net_ok N' ∧ grows N N'.
Proof.
  intros Hok Hl Hs N'. apply (net_ok_alter N N' (push_packet (PkFrame v d)) j); try done.
  - exists []. by rewrite app_nil_r.
  - intros h Hh. exists []. by rewrite app_nil_r.
  - intros Hg h Hh [Hst Hp Hf Hlog]. split; [done..| |done]. simpl. apply Forall_app. split; [done|].
    repeat constructor. exists i, w. by rewrite Hg in Hl, Hs.
Qed.

Lemma net_ok_command N i h s l r c k (a : reply c) rest order fuel :
  let N' := after_command N i (answered h c a (s, l ++ k a :: r ++ spawned order fuel c) rest) c a in
  net_ok N → host_at (hosts N) i = Some h → tasks h = (s, l ++ Call c k :: r) → taken h c a rest →
  net_ok N' ∧ grows N N'.
Proof.
  intros N' Hok Hh Et Ht. set (h' := answered h c a (s, l ++ k a :: r ++ spawned order fuel c) rest) in N'.
  destruct (net_ok_answered N i h s l r c k a rest order fuel (accepted c a) Hok Hh Et Ht) as (Hok1 & Hg1 & Hc).
  subst N'. unfold after_command. fold h' in Hok1, Hg1, Hc. destruct (accepted c a).
  2: { by rewrite !app_nil_r in Hok1, Hg1. }
  destruct c; try done. cbn [carry]. destruct (find_end i w (links N)) as [[j v]|] eqn:Hend; [|done].
  destruct (net_ok_push _ j v i w data Hok1) as [Hok2 Hg2].
  - by apply find_end_linked.
  - exact Hc.
  - split; [exact Hok2|]. etrans; [exact Hg1|exact Hg2].
Qed.

Lemma tame_opened K p e id : tame K (opened p e id).
Proof.
  assert (H : tame K (stimulus_program (OnSubstream p e relay_new))) by by apply tame_stimulus.
  destruct e; by apply (tame_call K NewUuid _ id) in H as [_ H].
Qed.

Lemma host_ok_open K e w h : host_ok K h → host_ok K (open_end e w h).
Proof.
  intros [Hs Hp Hf Hl]. split; simpl; [done| |done|]; apply Forall_app; (split; [done|]).
  - repeat constructor. apply tame_opened.
  - by repeat constructor.
Qed.

Lemma net_ok_open N i j ds w v :
  net_ok N → net_ok (after_open N i j ds w v) ∧ grows N (after_open N i j ds w v).
Proof.
  intros Hok. set (hi := λ h, open_end (HRelayOutbound tt) w (set_dials ds h)).
  set (N1 := mkNet (alter_host hi i (hosts N)) (links N ++ [mkLink i w j v]) (mail N) (topic N)).
  destruct (net_ok_alter N N1 hi i) as [Hok1 Hg1]; try done.
  - by eexists.
  - intros h _. by exists [NewUuid].
  - intros _ h _ []. apply host_ok_open. by split.
  - destruct (net_ok_alter N1 (after_open N i j ds w v) (open_end (HRelayInbound tt) v) j)
      as [Hok2 Hg2]; try done.
    + exists []. by rewrite app_nil_r.
    + intros h _. by exists [NewUuid].
    + intros _ h _. apply host_ok_open.
    + split; [exact Hok2|]. etrans; [exact Hg1|exact Hg2].
Qed.

Lemma letter_known N i h x :
  letter_ok N x → host_at (hosts N) i = Some h → host_peer h = Some (letter_to x) →
  stimulus_ok (knows N i) (OnWhitenoise (letter_event x)).
Proof.
  intros Hx Hh Hp. assert (peer_at N i (letter_to x)) by by exists h.
  destruct x; destruct Hx as (j & Hj & Hs); simpl in *; eauto 6.
Qed.

Lemma ambient_known K x : ambient x → stimulus_ok K x.
Proof. destruct x; simpl; try done; repeat case_match; done. Qed.

Lemma net_step_ok N N' : net_step N N' → net_ok N → net_ok N' ∧ grows N N'.
Proof.
  destruct 1 as [N i h s l r X f k Hh Et|N i h s l r c k a rest order fuel Hh Et Ht|
    N i j hi hj ds w v Hi Hj Hne _ _ _ _ _|N i h p ds Hh Hd|N i h m1 x m2 Em Hh Hp|N i h t d Ht Hh Hsub|
    N i h x Hh Hx]; intros Hok.
  - apply (net_ok_alter N _ (λ _, set_tasks ((f s).1, l ++ k (f s).2 :: r) h) i); try done.
    + exists []. by rewrite app_nil_r.
    + intros h' Hh'. simplify_eq. exists []. by rewrite app_nil_r.
    + intros _ h' Hh' Hok'. simplify_eq. pose proof Hok' as [Hs Hpool _ _]. rewrite Et in Hs, Hpool.
      apply pool_at in Hpool as (Hl & Hp & Hr). destruct (tame_atomic _ _ _ _ s Hp Hs) as [Hs' Hk].
      apply host_ok_tasks; [done..|]. by apply pool_put.
  - by eapply net_ok_command.
  - by apply net_ok_open.
  - apply (net_ok_alter N _ (λ _, set_dials ds h) i); try done.
    + exists []. by rewrite app_nil_r.
    + intros h' Hh'. simplify_eq. exists []. by rewrite app_nil_r.
    + intros _ h' Hh' []. simplify_eq. by split.
  - assert (Hx : letter_ok N x).
    { pose proof (ok_mail _ Hok) as Hm. rewrite Em in Hm. apply Forall_app in Hm as [_ Hm]. by inversion Hm. }
    destruct (net_ok_start N i h _ Hok Hh (tame_stimulus _ _ (letter_known _ _ _ _ Hx Hh Hp))) as [Hok1 Hg1].
    destruct Hok1 as [H1 H2 H3]. split; [|exact Hg1]. split; [exact H1| |exact H3].
    simpl in H2 |- *. rewrite Em in H2. apply Forall_app in H2 as [Ha Hb]. apply Forall_app.
    split; [exact Ha|]. by inversion Hb.
  - apply net_ok_start; [done..|]. apply tame_stimulus. simpl.
    pose proof (ok_topic _ Hok) as Hm. rewrite Forall_forall in Hm. apply list_elem_of_In in Ht.
    destruct (Hm _ Ht) as [j Hj]. by exists j, t.
  - apply net_ok_start; [done..|]. by apply tame_stimulus, ambient_known.
Qed.

Lemma net_boot_ok N : net_boot N → net_ok N.
Proof.
  destruct 1 as [cs Hcs]. split; simpl; [|constructor..].
  intros i h (c & Hc & ->)%host_at_boot. rewrite Forall_forall in Hcs. apply list_elem_of_In in Hc.
  specialize (Hcs _ Hc). split; simpl; [| |constructor..].
  - by apply (boot_keeps (knows (mkNet (boot_hosts cs) [] [] []) i)).
  - assert (H : ∀ K, Forall (preserves (wf K) (fits K) (cmd_ok K)) c.2) by (intros K; by apply boot_keeps).
    rewrite Forall_forall. intros p Hp K _. specialize (H K). rewrite Forall_forall in H. by apply H.
Qed.

Lemma net_reachable_ok start N : net_boot start → net_reachable start N → net_ok N.
Proof.
  intros Hboot. induction 1 as [|N N' _ IH Hstep]; [by apply net_boot_ok|]. by eapply net_step_ok.
Qed.

(** ** A node of a network is a node *)

(** The tasks of a node have run, with the commands it has logged. *)
Definition runs (h h' : host) : Prop := ∃ tr, sys_run (tasks h) tr (tasks h') ∧ log h' = log h ++ tr.

#[export] Instance runs_preorder : PreOrder runs.
Proof.
  split.
  - intros h. exists []. split; [apply run_done|by rewrite app_nil_r].
  - intros a b c (tr & Hr & El) (tr' & Hr' & El'). exists (tr ++ tr').
    split; [by eapply sys_run_trans|]. by rewrite El', El, app_assoc.
Qed.

Definition all_run (hs hs' : list host) : Prop :=
  ∀ i h', host_at hs' i = Some h' → ∃ h, host_at hs i = Some h ∧ runs h h'.

#[export] Instance all_run_preorder : PreOrder all_run.
Proof.
  split; [intros hs i h; by exists h|].
  intros x y z H1 H2 i h Hh. destruct (H2 i h Hh) as (h1 & Hh1 & Hr1). destruct (H1 i h1 Hh1) as (h2 & Hh2 & Hr2).
  exists h2. split; [done|]. by etrans.
Qed.

Lemma all_run_alter f i hs :
  (∀ h, host_at hs i = Some h → runs h (f h)) → all_run hs (alter_host f i hs).
Proof.
  intros Hf j h'. intros [[<- (h & Hh & ->)]|[_ Hh]]%host_at_alter; [by exists h; auto|by exists h'].
Qed.

Lemma runs_start h x : runs h (start_program (stimulus_program x) h).
Proof.
  destruct h as [[s pool] fl ds lg]. exists []. split; [|by rewrite app_nil_r]. apply (run_stimulus s pool x), run_done.
Qed.

Lemma runs_open e w h : runs h (open_end e w h).
Proof.
  destruct h as [[s pool] fl ds lg]. exists [NewUuid]. split; [|done].
  apply (run_stimulus s pool (OnSubstream (remote_peer_id w) e relay_new)).
  destruct e; apply (run_call s pool [] NewUuid _ (stream_id w) map_to_list 0), run_done.
Qed.

Lemma carry_runs i c ls hs : all_run hs (carry i c ls hs).
Proof.
  destruct c; try done. simpl. destruct (find_end i w ls) as [[j v]|]; [|done].
  apply all_run_alter. intros h _. exists []. split; [apply run_done|by rewrite app_nil_r].
Qed.

Lemma net_step_runs N N' : net_step N N' → all_run (hosts N) (hosts N').
Proof.
  destruct 1 as [N i h s l r X f k Hh Et|N i h s l r c k a rest order fuel Hh Et Ht|
    N i j hi hj ds w v Hi Hj Hne _ _ _ _ _|N i h p ds Hh Hd|N i h m1 x m2 Em Hh Hp|N i h t d Ht Hh Hsub|
    N i h x Hh Hx].
  - apply all_run_alter. intros h' Hh'. simplify_eq. exists []. rewrite Et. split; [|by rewrite app_nil_r].
    apply run_atomic, run_done.
  - assert (Hrun : all_run (hosts N)
      (put_host i (answered h c a (s, l ++ k a :: r ++ spawned order fuel c) rest) (hosts N))).
    { apply all_run_alter. intros h' Hh'. simplify_eq. exists [c]. split; [|done]. rewrite Et.
      eapply run_call, run_done. }
    unfold after_command. destruct (accepted c a); [|exact Hrun]. etrans; [exact Hrun|]. apply carry_runs.
  - simpl. etrans; apply all_run_alter; intros h _; [|apply runs_open].
    etrans; [|apply runs_open]. exists []. split; [apply run_done|by rewrite app_nil_r].
  - apply all_run_alter. intros h' Hh'. simplify_eq. exists []. split; [apply run_done|by rewrite app_nil_r].
  - apply all_run_alter. intros h' Hh'. simplify_eq. apply runs_start.
  - apply all_run_alter. intros h' Hh'. simplify_eq. apply runs_start.
  - apply all_run_alter. intros h' Hh'. simplify_eq. apply runs_start.
Qed.

Lemma net_reachable_runs start N : net_reachable start N → all_run (hosts start) (hosts N).
Proof.
  induction 1 as [|N N' _ IH Hstep]; [done|]. etrans; [exact IH|]. by apply net_step_runs.
Qed.

(** What a node has said meets its obligation. *)
Lemma said_ok N i c : net_ok N → said N i c → cmd_ok (knows N i) c.
Proof.
  intros Hok (h & Hh & Hc). pose proof (ok_log _ _ (ok_hosts _ Hok i h Hh)) as Hlog.
  rewrite Forall_forall in Hlog. by apply Hlog, list_elem_of_In.
Qed.

Lemma flight_ok N i h pk :
  net_ok N → host_at (hosts N) i = Some h → pk ∈ flight h → packet_ok (knows N i) pk.
Proof.
  intros Hok Hh Hpk. pose proof (ok_flight _ _ (ok_hosts _ Hok i h Hh)) as Hf.
  rewrite Forall_forall in Hf. by apply Hf, list_elem_of_In.
Qed.

(** Frames, requests, commands and gossip: typed, and whose they are. *)
Lemma arrived_origin `{!CodecLaws} N i v d :
  net_ok N → arrived (knows N i) v d →
  typed_frame d ∧ ∃ j w, linked N i v j w ∧ said N j (OutSend w (WdData d)).
Proof.
  intros Hok (j & w & Hl & Hs). split; [by apply writes_typed_frame, (said_ok N j _ Hok Hs)|].
  exists j, w. split; [by destruct Hl; [right|left]|done].
Qed.

Lemma asked_origin `{!CodecLaws, !Base58Laws} N i p q :
  net_ok N → asked (knows N i) p q →
  request_typed q ∧ ∃ j npr, peer_at N j p ∧ said N j (SendNodeRequest (NrProxyRequest npr)) ∧
    peer_at N i (npr_peer npr) ∧ proxy_request npr = Some q.
Proof.
  intros Hok (j & me & Hp & Hme & Hs). destruct (said_ok N j _ Hok Hs) as (npr & Hw & <- & Hq).
  split; [|by exists j, npr]. apply writes_request_typed. apply (said_ok N j _ Hok) in Hw. simpl in Hw.
  by rewrite Hq in Hw.
Qed.

Lemma ordered_origin `{!CodecLaws} N i p q :
  net_ok N → ordered (knows N i) p q →
  command_typed q ∧ ∃ j ncr, peer_at N j p ∧ said N j (SendNodeRequest (NrCmdRequest ncr)) ∧
    peer_at N i (ncr_peer ncr) ∧ cmd_request ncr = Some q.
Proof.
  intros Hok (j & me & Hp & Hme & Hs). destruct (said_ok N j _ Hok Hs) as (ncr & Hw & <- & Hq).
  split; [|by exists j, ncr]. apply writes_command_typed. apply (said_ok N j _ Hok) in Hw. simpl in Hw.
  by rewrite Hq in Hw.
Qed.

Lemma acked_origin N i a :
  net_ok N → acked (knows N i) a →
  ∃ j nar, said N j (SendNodeRequest (NrAckRequest nar)) ∧ peer_at N i (nar_peer nar) ∧ ack_request nar = Some a.
Proof.
  intros Hok (j & me & Hme & Hs). destruct (said_ok N j _ Hok Hs) as (nar & Hw & <- & Ha). by exists j, nar.
Qed.

Lemma told_origin `{!CodecLaws} N i d :
  net_ok N → told (knows N i) d →
  gossip_typed d ∧ ∃ j tx, said N j (SendNodeRequest (NrPublishData d tx)).
Proof.
  intros Hok (j & t & Hs). destruct (said_ok N j _ Hok Hs) as (tx & Hw). split; [|by exists j, tx].
  apply writes_gossip_typed. by apply (said_ok N j _ Hok) in Hw.
Qed.

(** The event loops serve what the tasks of a node ask; all they wait for is an
    answer of the swarm. *)
Definition served {A} (o : outcome A) : Prop := (∃ a, o = Returned a) ∨ o = Blocked.

Definition may_fail (r : NodeRequest) : Prop :=
  match r with NrPublishData _ _ | NrGetMainNetsRequest _ _ _ _ => True | _ => False end.

Lemma served_call {A} c (p : io A) s :
  (∀ s', wp any_env p s' (λ _ o _, served o)) → wp any_env (call c;; p) s (λ _ o _, served o).
Proof. intros Hp. apply any_call; [by right|]. intros r s'. apply Hp. Qed.

Lemma add_addresses_served {A} peer addrs (p : io A) s :
  (∀ s', wp any_env p s' (λ _ o _, served o)) →
  wp any_env (add_addresses peer addrs;; p) s (λ _ o _, served o).
Proof.
  intros Hp. revert s. induction addrs as [|x addrs IH]; intros s; [apply Hp|].
  apply any_call; [by right|]. intros r s'. apply any_call; [by right|]. intros r' s''. apply IH.
Qed.

Lemma serve_common_served relay r s :
  node_request_ok r → wp any_env (serve_common relay r) s (λ _ o _, served o).
Proof.
  intros Hr. assert (Hret : ∀ relay' s', wp any_env (mret relay') s' (λ _ o _, served (A := RelayState) o))
    by (intros relay' s'; left; by eexists).
  destruct r as [npr|ncr|nar|p|p addrs|id p num tx|d tx]; cbn [serve_common]; simpl in Hr; auto.
  - destruct (proxy_request npr); [|done]. by apply served_call.
  - destruct (cmd_request ncr); [|done]. by apply served_call.
  - destruct (ack_request nar); [|done]. by apply served_call.
  - by apply add_addresses_served.
Qed.

Lemma serve_returns relay r s :
  node_request_ok r →
  ensures any_env s (client_serve relay r) (λ _ o _, served o) ∧
  ensures any_env s (server_serve relay r) (λ _ o _, served o ∨ o = Panicked ∧ may_fail r).
Proof.
  intros Hr. split; apply wp_ensures; [by apply serve_common_served|].
  assert (Hcommon : wp any_env (serve_common relay r) s (λ _ o _, served o ∨ o = Panicked ∧ may_fail r)).
  { eapply wp_mono; [|by apply serve_common_served]. by left. }
  destruct r; try exact Hcommon; cbn [server_serve].
  - apply any_call; [by left; right|]. intros kb s1. apply any_call; [by left; right|]. intros [] s2.
    + left. left. by eexists.
    + by right.
  - apply any_call; [by left; right|]. intros [] s1; [|by right].
    apply any_call; [by left; right|]. intros [] s2; [|by right]. left. left. by eexists.
Qed.

End AuthenticityLemmas.

(** * Properties *)

Section AuthenticityProperties.
Context {EXT : Ext}.

(** A node of a network is a node of [System]: its tasks have run from a start-up
    with the commands it has issued. *)
Lemma network_refines (start N : net) (i : nat) (h : host) :
  net_boot start → net_reachable start N → host_at (hosts N) i = Some h →
  (∃ c, boot c ∧ sys_run c (log h) (tasks h)) ∧ wf (knows N i) (tasks h).1.
Proof.
  intros Hboot Hreach Hh. split.
  - destruct (net_reachable_runs _ _ Hreach i h Hh) as (h0 & Hh0 & tr & Hrun & El).
    destruct Hboot as [cs Hcs]. apply host_at_boot in Hh0 as (c & Hc & ->). exists c.
    rewrite Forall_forall in Hcs. split; [by apply Hcs, list_elem_of_In|]. by rewrite El.
  - apply (ok_hosts _ (net_reachable_ok _ _ Hboot Hreach) i h Hh).
Qed.

(** C3: authenticity of streams.  In a network in which every node runs the
    program, a frame that is on its way to the reader of a stream was sent by the
    node at the other end of that stream, with the same bytes, and is a well-typed
    relay message. *)
Theorem frames_authentic `{!CodecLaws} (start N : net) (i : nat) (h : host) (v : WrappedStream) (d : bytes) :
  net_boot start → net_reachable start N → host_at (hosts N) i = Some h →
  PkIn v (Ok d) ∈ flight h ∨ PkFrame v d ∈ flight h →
  typed_frame d ∧ ∃ j w, linked N i v j w ∧ said N j (OutSend w (WdData d)).
Proof.
  intros Hboot Hreach Hh Hin. pose proof (net_reachable_ok _ _ Hboot Hreach) as Hok.
  apply arrived_origin; [done|]. by destruct Hin as [Hin|Hin]; apply (flight_ok N i h _ Hok Hh) in Hin.
Qed.

(** C4: authenticity of messages.  What the tasks of a node are given as a request
    or a command of a peer, some task of that peer has asked its event loop to
    send to this node, and it is well typed; an acknowledgement was sent to this
    node by one that had it to send; and gossip was published by a node, as an
    encrypted negotiation. *)
Theorem requests_authentic `{!CodecLaws, !Base58Laws} (start N : net) (i : nat) (h : host) (pk : packet) :
  net_boot start → net_reachable start N → host_at (hosts N) i = Some h → pk ∈ flight h →
  match pk with
  | PkProxy npr => ∀ q, proxy_request npr = Some q →
      request_typed q ∧ ∃ j r, peer_at N j (npr_peer npr) ∧ said N j (SendNodeRequest (NrProxyRequest r)) ∧
        peer_at N i (npr_peer r) ∧ proxy_request r = Some q
  | PkCmd ncr => ∀ q, cmd_request ncr = Some q →
      command_typed q ∧ ∃ j r, peer_at N j (ncr_peer ncr) ∧ said N j (SendNodeRequest (NrCmdRequest r)) ∧
        peer_at N i (ncr_peer r) ∧ cmd_request r = Some q
  | PkAck _ a => ∃ j r, said N j (SendNodeRequest (NrAckRequest r)) ∧ peer_at N i (nar_peer r) ∧
      ack_request r = Some a
  | PkGossip d => gossip_typed d ∧ ∃ j tx, said N j (SendNodeRequest (NrPublishData d tx))
  | _ => True
  end.
Proof.
  intros Hboot Hreach Hh Hpk. pose proof (net_reachable_ok _ _ Hboot Hreach) as Hok.
  pose proof (flight_ok N i h pk Hok Hh Hpk) as Hpok. destruct pk; try done; simpl in Hpok.
  - intros q Hq. by apply asked_origin, Hpok.
  - intros q Hq. by apply ordered_origin, Hpok.
  - by apply (told_origin N i).
  - by apply acked_origin.
Qed.

(** C5: the clients of a node have asked to be.  Whoever is in the client table of
    a node is there under the hash of a WhiteNoise id that he has asked, by a
    request to this node, to be registered with. *)
Theorem clients_registered `{!CodecLaws, !Base58Laws} (start N : net) (i : nat) (h : host) (hash : string)
    (ci : ClientInfo) :
  net_boot start → net_reachable start N → host_at (hosts N) i = Some h →
  client_wn_map (tasks h).1 !! hash = Some ci →
  from_whitenoise_to_hash (whitenoise_id ci) = Some hash ∧
  ∃ q j r, registers q (whitenoise_id ci) ∧ peer_at N j (peer_id ci) ∧
    said N j (SendNodeRequest (NrProxyRequest r)) ∧ peer_at N i (npr_peer r) ∧ proxy_request r = Some q.
Proof.
  intros Hboot Hreach Hh Hci. pose proof (net_reachable_ok _ _ Hboot Hreach) as Hok.
  destruct (wf_client _ _ (ok_state _ _ (ok_hosts _ Hok i h Hh)) hash ci Hci) as (Hid & q & Hq & Hr).
  split; [done|]. destruct (asked_origin N i _ q Hok Hq) as (_ & j & r & Hrest). by exists q, j, r.
Qed.

(** C6: the handler of a stream and what the network brings it.  Every frame that is
    on its way to a reader is a relay message.  The handler, alone and with its
    channels open, deals with it: it goes on, with its session set if it was set or
    the message sets it, or ends on a disconnect.  It panics on two messages, and on
    no other, both of which come before what they should follow: a probe before any
    [SetSessionId] of its stream, and a success at an end of the circuit before the
    circuit is made. *)
Theorem frames_handled `{!CodecLaws} (start N : net) (i : nat) (h : host) (w : WrappedStream) (d : bytes) :
  net_boot start → net_reachable start N → host_at (hosts N) i = Some h → PkIn w (Ok d) ∈ flight h →
  ∃ r, pb_decode d = Some r ∧ ∀ node sid_opt s,
    ensures calm s (relay_dispatch w node sid_opt r) (λ _ o _,
      (out_of_order sid_opt r s → o = Panicked) ∧
      (¬ out_of_order sid_opt r s → handled sid_opt (relay_type r) o)).
Proof.
  intros Hboot Hreach Hh Hpk. pose proof (net_reachable_ok _ _ Hboot Hreach) as Hok.
  pose proof (flight_ok N i h _ Hok Hh Hpk) as Hpok.
  destruct (arrived_origin N i w d Hok Hpok) as [(r & Hd & Hr) _]. exists r. split; [done|].
  intros node sid_opt s e n He. split; intros Ho;
    [by apply (out_of_order_panics w node sid_opt r s Ho e n)|by apply (in_order_handled w node sid_opt r s Hr Ho e n)].
Qed.

(** C7: the event loops and what the tasks ask of them.  A request that is on its way
    to the event loop of a node has the message the loop unwraps; whatever else
    happens meanwhile, and whatever the swarm answers, the loop of a client does not
    panic on it, and that of a server only on a publication or a list of peers,
    when the swarm refuses the publication or the asker has gone. *)
Theorem requests_served (start N : net) (i : nat) (h : host) (r : NodeRequest) (relay : RelayState) (s : Shared) :
  net_boot start → net_reachable start N → host_at (hosts N) i = Some h → PkRequest r ∈ flight h →
  ensures any_env s (client_serve relay r) (λ _ o _, served o) ∧
  ensures any_env s (server_serve relay r) (λ _ o _, served o ∨ o = Panicked ∧ may_fail r).
Proof.
  intros Hboot Hreach Hh Hpk. pose proof (net_reachable_ok _ _ Hboot Hreach) as Hok.
  pose proof (flight_ok N i h _ Hok Hh Hpk) as Hpok. apply serve_returns. exact (said_ok N i _ Hok Hpok).
Qed.

End AuthenticityProperties.
