(* ===== verification/Scheduler.v ===== *)
(** * Running a network

    An executable scheduler for the networks of [Network]: what it does is a
    sequence of their steps ([schedule_reachable]), so that a network can be run by
    evaluation.  A program runs until it waits for something that has not come;
    what does not come from another task is answered by the script of its node. *)

From S2P Require Import Prelude Proto External State Io Packing Concrete Utils Connection Account Node.
From S2P Require Import RelayEvents Typing Proxy Publish Commands RelayBehaviour Behaviour Requests Host Client.
From S2P Require Import Delivery Chat System Network.

Section Scheduler.
Context {EXT : Ext}.

(** ** Replies *)

(** What a receive is given, from the packets of the node. *)
Definition receive (q : list packet) (c : cmd) : option (reply c * list packet) :=
  match c return option (reply c * list packet) with
  | AwaitAck rx =>
      match take_first (ChAck rx) q with Some (PkAck _ a, q) => Some (Some a, q) | _ => None end
  | AwaitPeers rx =>
      match take_first (ChPeers rx) q with Some (PkPeers _ l, q) => Some (Some l, q) | _ => None end
  | AwaitBool rx =>
      match take_first (ChBool rx) q with Some (PkBool _ b, q) => Some (Some b, q) | _ => None end
  | InRecv w =>
      match take_first (ChIn w) q with Some (PkIn _ res, q) => Some (Some res, q) | _ => None end
  | CircuitRecv ch =>
      match take_first (ChCircuit ch) q with Some (PkCircuit _ d, q) => Some (Some d, q) | _ => None end
  | RecvProxy =>
      match take_first ChProxy q with Some (PkProxy r, q) => Some (Some r, q) | _ => None end
  | RecvCmd =>
      match take_first ChCmd q with Some (PkCmd r, q) => Some (Some r, q) | _ => None end
  | RecvGossip =>
      match take_first ChGossip q with Some (PkGossip d, q) => Some (Some d, q) | _ => None end
  | RecvSession =>
      match take_first ChSession q with Some (PkSession sid, q) => Some (Some sid, q) | _ => None end
  | SelectStream w max =>
      match take_first (ChOut w) q with
      | Some (PkOut _ d, q) => Some (inl (Some d), q)
      | _ => match take_first (ChFrame w) q with
             | Some (PkFrame _ d, q') =>
                 match read_frame max d with
                 | Ok d => Some (inr (Ok d), q')
                 | Err e => Some (inr (Err e), q)
                 end
             | _ => None
             end
      end
  | SelectSwarm =>
      match take_first ChRequest q with Some (PkRequest r, q) => Some (inr (Some r), q) | _ => None end
  | SelectStdin (Some ch) =>
      match take_first (ChCircuit ch) q with
      | Some (PkCircuit _ d, q) => Some (inr (Some d), q)
      | _ => None
      end
  | _ => None
  end.

Definition receives (c : cmd) : bool :=
  match c with
  | AwaitAck _ | AwaitPeers _ | AwaitBool _ | InRecv _ | CircuitRecv _ | RecvProxy | RecvCmd
  | RecvGossip | RecvSession | SelectStream _ _ | SelectSwarm | SelectStdin _ => true
  | _ => false
  end.

Definition reply_of (f : script) (q : list packet) (c : cmd) : option (reply c * list packet) :=
  if receives c then receive q c else (λ a, (a, q)) <$> f c.

(** ** One step of a program *)

Fixpoint split_pool (j : nat) (pool : list (io unit)) : option (list (io unit) * io unit * list (io unit)) :=
  match pool, j with
  | [], _ => None
  | p :: r, O => Some ([], p, r)
  | p :: r, S j =>
      match split_pool j r with
      | Some (l, q, r) => Some (p :: l, q, r)
      | None => None
      end
  end.

(** The network after a step of the program [j] of the node [i], with a reply. *)
Definition step_with (answer : list packet → ∀ c : cmd, option (reply c * list packet))
    (order : circuit_order) (fuel i j : nat) (N : net) : option net :=
  match host_at (hosts N) i with
  | None => None
  | Some h =>
      match split_pool j (tasks h).2 with
      | Some (l, Atomic f k, r) =>
          let x := f (tasks h).1 in Some (set_host N i (set_tasks (x.1, l ++ k x.2 :: r) h))
      | Some (l, Call c k, r) =>
          match answer (flight h) c with
          | Some (a, rest) =>
              Some (after_command N i
                (answered h c a ((tasks h).1, l ++ k a :: r ++ spawned order fuel c) rest) c a)
          | None => None
          end
      | _ => None
      end
  end.

(** ** Schedules *)

(** What a schedule may ask: the programs of a node to run, up to so many steps
    each; a line to be typed at a program; letters to be delivered; the first dial
    of a node to succeed; gossip to be delivered; an event to happen. *)
Inductive order :=
| Turn (i : nat) (n : nat)
| TypeLine (i j : nat) (line : string)
| Deliver
| OpenDial (i : nat)
| Spread (i : nat) (k : nat)
| Happen (i : nat) (x : stimulus).

Context (f : nat → script) (iteration : circuit_order) (fuel : nat).

Fixpoint run_program (n i j : nat) (N : net) : net :=
  match n with
  | O => N
  | S n =>
      match step_with (reply_of (f i)) iteration fuel i j N with
      | Some N' => run_program n i j N'
      | None => N
      end
  end.

(** The programs [j], [j + 1], .. of a node, [k] of them. *)
Fixpoint run_programs (n i k j : nat) (N : net) : net :=
  match k with
  | O => N
  | S k => run_programs n i k (S j) (run_program n i j N)
  end.

Definition pool_size (i : nat) (N : net) : nat :=
  match host_at (hosts N) i with
  | Some h => length (tasks h).2
  | None => 0
  end.

Definition typed_line (line : string) (q : list packet) (c : cmd) : option (reply c * list packet) :=
  match c return option (reply c * list packet) with
  | SelectStdin _ => Some (inl line, q)
  | _ => None
  end.

(** The node with a peer id. *)
Fixpoint find_peer (p : PeerId) (i : nat) (hs : list host) : option (nat * host) :=
  match hs with
  | [] => None
  | h :: hs =>
      if decide (host_peer h = Some p) then Some (i, h) else find_peer p (S i) hs
  end.

Fixpoint deliver (n : nat) (N : net) : net :=
  match n, mail N with
  | S n, x :: m =>
      match find_peer (letter_to x) 0 (hosts N) with
      | Some (i, h) =>
          deliver n (mkNet (put_host i (start_program (stimulus_program (OnWhitenoise (letter_event x))) h)
                              (hosts N)) (links N) m (topic N))
      | None => N
      end
  | _, _ => N
  end.

(** A stream is named by the number of streams before it. *)
Definition fresh_id (N : net) : string := of_bytes (varint (S (length (links N))) (length (links N))).

Definition open_dial (i : nat) (N : net) : option net :=
  match host_at (hosts N) i with
  | Some hi =>
      match dials hi, host_peer hi with
      | p :: ds, Some q =>
          match find_peer p 0 (hosts N) with
          | Some (j, _) =>
              let w := mkWrappedStream p (fresh_id N) in
              let v := mkWrappedStream q (fresh_id N) in
              if decide (i ≠ j ∧ find_end i w (links N) = None ∧ find_end j v (links N) = None)
              then Some (after_open N i j ds w v)
              else None
          | None => None
          end
      | _, _ => None
      end
  | None => None
  end.

Definition is_subscribed (h : host) (t : string) : bool :=
  match swarm_of (log h) with
  | Some c =>
      match swarm_mode c with
      | RunServer => bool_decide (subscribed_topic (gossipsub_config c) = t)
      | RunClient => false
      end
  | None => false
  end.

Definition spread (i k : nat) (N : net) : option net :=
  match host_at (hosts N) i, topic N !! k with
  | Some h, Some (t, d) =>
      if is_subscribed h t
      then Some (set_host N i (start_program (stimulus_program (OnServer (SvGossip (GsMessage d)))) h))
      else None
  | _, _ => None
  end.

Definition is_ambient (x : stimulus) : bool :=
  match x with
  | ApiPeers _ _ | ApiRegister _ _ | ApiDial _ _ | ApiSend _ _ _ | ApiRead _ _ | ApiDisconnect _ _ => true
  | _ => false
  end.

Definition happen (i : nat) (x : stimulus) (N : net) : option net :=
  match host_at (hosts N) i with
  | Some h => if is_ambient x then Some (set_host N i (start_program (stimulus_program x) h)) else None
  | None => None
  end.

Definition obey (o : order) (N : net) : net :=
  match o with
  | Turn i n => run_programs n i (pool_size i N) 0 N
  | TypeLine i j line => default N (step_with (typed_line line) iteration fuel i j N)
  | Deliver => deliver (length (mail N)) N
  | OpenDial i => default N (open_dial i N)
  | Spread i k => default N (spread i k N)
  | Happen i x => default N (happen i x N)
  end.

Fixpoint schedule (os : list order) (N : net) : net :=
  match os with
  | [] => N
  | o :: os => schedule os (obey o N)
  end.

End Scheduler.

(** * Lemmas: a schedule is a run of the network *)

Section SchedulerLemmas.
Context {EXT : Ext}.

Lemma take_first_chan ch q pk rest : take_first ch q = Some (pk, rest) → chan_of pk = ch.
Proof.
  revert pk rest. induction q as [|x q IH]; intros pk rest; simpl; [done|]. case_decide; [by intros [= <- <-]|].
  destruct (take_first ch q) as [[y q']|]; [|done]. intros [= <- <-]. by eapply IH.
Qed.

(** The packet a receive has taken. *)
Lemma take_taken h c (a : reply c) ch pk rest :
  take_first ch (flight h) = Some (pk, rest) → (chan_of pk = ch → takes c a = Some pk) → taken h c a rest.
Proof.
  intros Ht Hpk. pose proof (take_first_chan _ _ _ _ Ht) as Hch. unfold taken. rewrite (Hpk Hch).
  by rewrite Hch.
Qed.

Lemma receive_taken h c a rest :
  receive (flight h) c = Some (a, rest) → taken h c a rest ∧ within_limit c a.
Proof.
  destruct c; try done; try (destruct ch as [ch|]; [|done]); cbn [receive]; unfold read_frame; intros Hr;
    repeat match type of Hr with
           | match take_first ?ch ?q with _ => _ end = _ =>
               let E := fresh "E" in destruct (take_first ch q) as [[[] ?]|] eqn:E
           end; try case_decide; simplify_eq; (split; [|done]); try reflexivity;
    try (eapply take_taken; [eassumption|]; simpl; intros [= ->]; done);
    try (eapply take_taken; [eassumption|]; done).
Qed.

Lemma reply_of_taken f h c a rest :
  reply_of f (flight h) c = Some (a, rest) → taken h c a rest ∧ within_limit c a.
Proof.
  unfold reply_of. destruct (receives c) eqn:Hc; [apply receive_taken|].
  intros Ha. assert (Hrest : rest = flight h).
  { destruct (f c); simpl in Ha; by simplify_eq. }
  unfold taken. by destruct c.
Qed.

Lemma typed_line_taken line h c a rest :
  typed_line line (flight h) c = Some (a, rest) → taken h c a rest ∧ within_limit c a.
Proof. destruct c; try done. simpl. intros [= <- <-]. by destruct ch. Qed.

Lemma split_pool_eq j pool l p r : split_pool j pool = Some (l, p, r) → pool = l ++ p :: r.
Proof.
  revert j l. induction pool as [|x pool IH]; intros [|j] l; simpl; try done; [by intros [= <- <- <-]|].
  destruct (split_pool j pool) as [[[l' q] r']|] eqn:E; [|done]. intros [= <- -> ->]. by rewrite (IH _ _ E).
Qed.

Lemma step_with_sound answer order fuel i j N N' :
  (∀ h c a rest, answer (flight h) c = Some (a, rest) → taken h c a rest ∧ within_limit c a) →
  step_with answer order fuel i j N = Some N' → net_step N N'.
Proof.
  intros Ha. unfold step_with. destruct (host_at (hosts N) i) as [h|] eqn:Hh; [|done].
  destruct (split_pool j (tasks h).2) as [[[l p] r]|] eqn:Hp; [|done]. apply split_pool_eq in Hp.
  assert (Et : tasks h = ((tasks h).1, l ++ p :: r)) by (rewrite <- Hp; by destruct (tasks h)).
  destruct p as [| | |X g k|c k]; try done.
  - intros [= <-]. by eapply net_atomic.
  - destruct (answer (flight h) c) as [[a rest]|] eqn:Hr; [|done]. intros [= <-].
    apply Ha in Hr as [Ht Hl]. by eapply net_call.
Qed.

Lemma net_reachable_trans A B C : net_reachable A B → net_reachable B C → net_reachable A C.
Proof. intros HA. induction 1 as [|N N' _ IH Hs]; [done|]. by eapply net_later. Qed.

Lemma net_reachable_one N N' : net_step N N' → net_reachable N N'.
Proof. intros Hs. eapply net_later; [apply net_refl|done]. Qed.

Lemma default_reachable N (o : option net) :
  (∀ N', o = Some N' → net_step N N') → net_reachable N (default N o).
Proof. intros Ho. destruct o; [by apply net_reachable_one, Ho|apply net_refl]. Qed.

Lemma find_peer_at p hs : ∀ k j h,
  find_peer p k hs = Some (j, h) → k ≤ j ∧ host_at hs (j - k) = Some h ∧ host_peer h = Some p.
Proof.
  induction hs as [|x hs IH]; intros k j h; simpl; [done|]. case_decide as Hp.
  - intros [= <- <-]. by rewrite Nat.sub_diag.
  - intros (Hle & Hh & Hpeer)%IH. split_and!; [lia| |done]. by replace (j - k) with (S (j - S k)) by lia.
Qed.

Lemma find_peer_0 p hs j h : find_peer p 0 hs = Some (j, h) → host_at hs j = Some h ∧ host_peer h = Some p.
Proof. intros (_ & Hh & Hp)%find_peer_at. by rewrite Nat.sub_0_r in Hh. Qed.

Context (f : nat → script) (iteration : circuit_order) (fuel : nat).

Lemma run_program_reachable n i j N : net_reachable N (run_program f iteration fuel n i j N).
Proof.
  revert N. induction n as [|n IH]; intros N; simpl; [apply net_refl|].
  destruct (step_with _ _ _ _ _ _) as [N'|] eqn:Hs; [|apply net_refl].
  eapply net_reachable_trans; [|apply IH]. eapply net_reachable_one, step_with_sound; [|done].
  intros ????. apply reply_of_taken.
Qed.

Lemma run_programs_reachable n i k : ∀ j N, net_reachable N (run_programs f iteration fuel n i k j N).
Proof.
  induction k as [|k IH]; intros j N; simpl; [apply net_refl|].
  eapply net_reachable_trans; [apply run_program_reachable|apply IH].
Qed.

Lemma deliver_reachable n : ∀ N, net_reachable N (deliver n N).
Proof.
  induction n as [|n IH]; intros N; simpl; [apply net_refl|].
  destruct (mail N) as [|x m] eqn:Hm; [apply net_refl|].
  destruct (find_peer _ _ _) as [[i h]|] eqn:Hi; [|apply net_refl]. apply find_peer_0 in Hi as [Hh Hp].
  eapply net_reachable_trans; [|apply IH]. by apply net_reachable_one, (net_mail N i h []).
Qed.

Lemma open_dial_step i N N' : open_dial i N = Some N' → net_step N N'.
Proof.
  unfold open_dial. destruct (host_at _ i) as [hi|] eqn:Hi; [|done].
  destruct (dials hi) as [|p ds] eqn:Hd; [done|]. destruct (host_peer hi) as [q|] eqn:Hq; [|done].
  destruct (find_peer _ _ _) as [[j hj]|] eqn:Hj; [|done]. apply find_peer_0 in Hj as [Hj Hp].
  case_decide as Hc; [|done]. destruct Hc as (Hne & Hw & Hv). intros [= <-]. by eapply net_open.
Qed.

Lemma spread_step i k N N' : spread i k N = Some N' → net_step N N'.
Proof.
  unfold spread. destruct (host_at _ i) as [h|] eqn:Hh; [|done].
  destruct (topic N !! k) as [[t d]|] eqn:Hk; [|done]. destruct (is_subscribed h t) eqn:Hs; [|done].
  intros [= <-]. apply (net_gossip N i h t d); [by eapply list_elem_of_lookup_2|done|].
  unfold is_subscribed in Hs. destruct (swarm_of (log h)) as [c|] eqn:Hc; [|done].
  destruct (swarm_mode c) eqn:Hmode; [done|]. apply bool_decide_eq_true in Hs. by exists c.
Qed.

Lemma happen_step i x N N' : happen i x N = Some N' → net_step N N'.
Proof.
  unfold happen. destruct (host_at _ i) as [h|] eqn:Hh; [|done]. destruct (is_ambient x) eqn:Hx; [|done].
  intros [= <-]. apply net_ambient; [done|]. by destruct x.
Qed.

Lemma schedule_reachable os : ∀ N, net_reachable N (schedule f iteration fuel os N).
Proof.
  induction os as [|o os IH]; intros N; simpl; [apply net_refl|].
  eapply net_reachable_trans; [|apply IH]. destruct o; simpl.
  - apply run_programs_reachable.
  - apply default_reachable. intros N'. apply step_with_sound. intros ????. apply typed_line_taken.
  - apply deliver_reachable.
  - apply default_reachable, open_dial_step.
  - apply default_reachable, spread_step.
  - apply default_reachable, happen_step.
Qed.

End SchedulerLemmas.
