(* ===== verification/Simulation.v ===== *)
(** * A network that runs

    Three servers and two chat clients, on the concrete instance [toy] of the
    third-party interfaces, from the command lines to the terminals: the nodes
    start, the clients ask the bootstrap node for peers and register with a proxy
    each, the one with a WhiteNoise id to call dials it, the network builds the
    circuit, the clients shake hands over it and talk.  Everything is the program's
    own definitions; the schedule is a list of turns. *)

From S2P Require Import Prelude Proto External State Io Packing Concrete Utils Connection Account Node.
From S2P Require Import RelayEvents Typing Proxy Publish Commands RelayBehaviour Behaviour Requests Host Client.
From S2P Require Import Delivery Chat System Network Authenticity Scheduler.

Section Simulation.
Local Existing Instance toy.

(** ** The nodes: 0 is the bootstrap node, 1 and 2 are servers, 3 and 4 clients *)

Definition sim_key (i : nat) : bytes := [Z_u8 (Z.of_nat (65 + i))].
Definition sim_peer (i : nat) : string := of_bytes (sim_key i).

Definition sim_bootstrap : string := String.append "/ip4/1/tcp/1/p2p/" (to_base58 (sim_peer 0)).

(** The routing table of a server: the others. *)
Definition sim_entry (i : nat) : KadEntry := mkKadEntry (sim_peer i) true ["/ip4/1/tcp/1"%string].

Definition sim_kbuckets (i : nat) : list (list KadEntry) :=
  [sim_entry <$> List.filter (λ j, negb (j =? i)) [0; 1; 2]].

(** The key pair of a node, its random choices (node 4 takes another proxy than
    node 3), and its disk, which is empty; the rest is that of [toy_answer]. *)
Definition sim_script (i : nat) : script := λ c,
  match c return option (reply c) with
  | GenerateEd25519 => Some (sim_key i)
  | NewNoiseKeys _ => Some (Some (Z_u8 (Z.of_nat (65 + i))))
  | BuildNoise _ initiator => Some (Some (mkToyHs initiator (Z_u8 (Z.of_nat (65 + i))) None))
  | KadBuckets => Some (sim_kbuckets i)
  | RandomUsize => Some (if i =? 4 then 1%Z else 0%Z)
  | c => toy_answer no_script 0 empty_shared c
  end.

Definition sim_fuel : nat := Z.to_nat 3000.

Definition sim_server (bootstrap : option string) : sys :=
  (empty_shared, [server_main (Some (mkStartArgs (Some "3331"%string) bootstrap None))]).

Definition sim_client (nick : string) (remote : option string) : sys :=
  (empty_shared, [chat_main sim_fuel (Some (mkChatArgs (Some sim_bootstrap) remote (Some nick) None))]).

(** Alice calls Bob by his WhiteNoise id. *)
Definition sim_bob_id : option string := from_keypair_to_whitenoise_id (Ed25519 (sim_key 4)).

Definition sim_nodes : list sys :=
  [sim_server None; sim_server (Some sim_bootstrap); sim_server (Some sim_bootstrap);
   sim_client "alice" sim_bob_id; sim_client "bob" None].

Definition sim_net : net := mkNet (boot_hosts sim_nodes) [] [] [].

(** ** The schedule *)

Definition sim_round (nodes : list nat) : list order :=
  ((λ i, Turn i 12) <$> nodes) ++ (OpenDial <$> nodes) ++ [Deliver].

Fixpoint sim_rounds (n : nat) (nodes : list nat) : list order :=
  match n with
  | O => []
  | S n => sim_round nodes ++ sim_rounds n nodes
  end.

(** Bob is there before Alice. *)
Definition sim_bob_first : list order := sim_rounds 8 [0; 1; 2; 4].

(** The negotiation reaches the access node, node 2, by gossip. *)
Definition sim_conversation : list order :=
  sim_bob_first ++ sim_rounds 44 [0; 1; 2; 3; 4] ++ [Spread 2 0] ++ sim_rounds 60 [0; 1; 2; 3; 4] ++
  [TypeLine 3 0 "hello"] ++ sim_rounds 10 [0; 1; 2; 3; 4] ++
  [TypeLine 4 0 "hi"] ++ sim_rounds 14 [0; 1; 2; 3; 4].

Definition sim_run (os : list order) : net := schedule sim_script map_to_list sim_fuel os sim_net.

(** What a node has printed, in order. *)
Definition printed (N : net) (i : nat) : list (string * bytes) :=
  match host_at (hosts N) i with
  | Some h => omap (λ c, match c with PrintMessage from d => Some (from, d) | _ => None end) (log h)
  | None => []
  end.

(** The first packet of a kind on its way in a node. *)
Definition find_packet (test : packet → bool) (N : net) (i : nat) : option packet :=
  match host_at (hosts N) i with
  | Some h => List.find test (flight h)
  | None => None
  end.

(** Has a task of the network panicked? *)
Definition panicked (p : io unit) : bool := match p with Panic => true | _ => false end.

Fixpoint none_panicked (hs : list host) : bool :=
  match hs with
  | [] => true
  | h :: hs => negb (existsb panicked (tasks h).2) && none_panicked hs
  end.

(** ** Lemmas *)

Lemma sim_boot : net_boot sim_net.
Proof.
  constructor. unfold sim_nodes.
  repeat (apply List.Forall_cons; [first [apply boot_server_main | apply boot_chat_main]|]).
  apply List.Forall_nil.
Qed.

Lemma sim_reachable os : net_reachable sim_net (sim_run os).
Proof. apply schedule_reachable. Qed.

Lemma find_packet_elem test N i pk :
  find_packet test N i = Some pk → ∃ h, host_at (hosts N) i = Some h ∧ pk ∈ flight h ∧ test pk = true.
Proof.
  unfold find_packet. destruct (host_at (hosts N) i) as [h|]; [|done]. intros Hf. exists h.
  apply find_some in Hf as [Hin Ht]. by rewrite list_elem_of_In.
Qed.

(** The runs are evaluated once each. *)
Lemma conversation_result :
  let N := sim_run sim_conversation in
  printed N 3 = [("bob"%string, as_bytes "hi")] ∧ printed N 4 = [("alice"%string, as_bytes "hello")] ∧
  none_panicked (hosts N) = true.
Proof. vm_compute. split_and!; reflexivity. Qed.

Definition is_frame (pk : packet) : bool := match pk with PkIn _ (Ok _) => true | _ => false end.
Definition is_registration (pk : packet) : bool :=
  match pk with
  | PkProxy (mkNodeProxyRequest _ (Some q) None) => (req_reqtype q =? reqtype_i32 RqNewProxy)%Z
  | _ => false
  end.

(** The first frames of Alice's stream, at her proxy. *)
Definition sim_opening : list order := sim_bob_first ++ sim_rounds 19 [0; 1; 2; 3; 4].

Lemma opening_frame :
  match find_packet is_frame (sim_run sim_opening) 1 with Some _ => true | None => false end = true.
Proof. vm_compute. reflexivity. Qed.

(** A request on its way to Bob's event loop. *)
Definition is_request (pk : packet) : bool := match pk with PkRequest _ => true | _ => false end.

Definition sim_asking : list order := [Turn 4 100].

Lemma asking_request :
  match find_packet is_request (sim_run sim_asking) 4 with Some _ => true | None => false end = true.
Proof. vm_compute. reflexivity. Qed.

(** Bob is a client of node 2 then. *)
Definition sim_bob_hash : string := default ""%string (sim_bob_id ≫= from_whitenoise_to_hash).

Definition sim_client_at (N : net) (i : nat) (hash : string) : option ClientInfo :=
  match host_at (hosts N) i with
  | Some h => client_wn_map (tasks h).1 !! hash
  | None => None
  end.

Lemma sim_client_elem N i hash :
  match sim_client_at N i hash with Some _ => true | None => false end = true →
  ∃ h ci, host_at (hosts N) i = Some h ∧ client_wn_map (tasks h).1 !! hash = Some ci.
Proof.
  unfold sim_client_at. destruct (host_at (hosts N) i) as [h|]; [|done].
  destruct (client_wn_map (tasks h).1 !! hash) as [ci|] eqn:Hci; [|done]. by exists h, ci.
Qed.

Lemma bob_registered :
  match sim_client_at (sim_run sim_opening) 2 sim_bob_hash with Some _ => true | None => false end = true.
Proof. vm_compute. reflexivity. Qed.

(** Bob's registration, at his. *)
Definition sim_registration : list order := sim_rounds 8 [0; 1; 2; 4] ++ sim_rounds 1 [0; 1; 2; 3; 4].

Lemma registration_request :
  match find_packet is_registration (sim_run sim_registration) 2 with Some _ => true | None => false end = true.
Proof. vm_compute. reflexivity. Qed.

End Simulation.

(** * Properties *)

Section SimulationProperties.
Local Existing Instance toy.

(** The program works, in this network at least.  From the start-up of five nodes there is a run of
    their network, in which nothing happens but what their tasks do, their messages
    to each other and the typing of a line by each user, that ends with each user's
    line printed once by the other's terminal under his name, and no task
    panicked. *)
Example chat_network_talks :
  net_boot sim_net ∧ ∃ N, net_reachable sim_net N ∧
    printed N 3 = [("bob"%string, as_bytes "hi")] ∧ printed N 4 = [("alice"%string, as_bytes "hello")] ∧
    none_panicked (hosts N) = true.
Proof.
  split; [apply sim_boot|]. exists (sim_run sim_conversation).
  split; [apply sim_reachable|apply conversation_result].
Qed.

End SimulationProperties.

Section SimulationWitnesses.
Local Existing Instance toy.

Lemma frames_authentic_witness :
  let N := sim_run sim_opening in
  net_boot sim_net ∧ net_reachable sim_net N ∧
  ∃ h v d, host_at (hosts N) 1 = Some h ∧ PkIn v (Ok d) ∈ flight h ∧
    typed_frame d ∧ ∃ j w, linked N 1 v j w ∧ said N j (OutSend w (WdData d)).
Proof.
  intros N. split; [apply sim_boot|]. split; [apply sim_reachable|].
  pose proof opening_frame as Hf. destruct (find_packet is_frame (sim_run sim_opening) 1) as [pk|] eqn:Hpk; [|done].
  apply find_packet_elem in Hpk as (h & Hh & Hin & Ht).
  destruct pk as [| | | | | | | | | | |v [d|e]]; try discriminate Ht.
  exists h, v, d. split; [exact Hh|]. split; [exact Hin|].
  exact (@frames_authentic toy toy_codec_laws sim_net N 1 h v d sim_boot (sim_reachable sim_opening) Hh
           (or_introl Hin)).
Defined.

Lemma requests_authentic_witness :
  let N := sim_run sim_registration in
  net_boot sim_net ∧ net_reachable sim_net N ∧
  ∃ h npr q, host_at (hosts N) 2 = Some h ∧ PkProxy npr ∈ flight h ∧ proxy_request npr = Some q ∧
    request_typed q ∧ ∃ j, peer_at N j (npr_peer npr).
Proof.
  intros N. split; [apply sim_boot|]. split; [apply sim_reachable|].
  pose proof registration_request as Hf.
  destruct (find_packet is_registration (sim_run sim_registration) 2) as [pk|] eqn:Hpk; [|done].
  apply find_packet_elem in Hpk as (h & Hh & Hin & Ht).
  destruct pk as [|[p [q|] [op|]]| | | | | | | | | |]; try discriminate Ht.
  exists h, (mkNodeProxyRequest p (Some q) None), q. split; [exact Hh|]. split; [exact Hin|]. split; [done|].
  destruct (@requests_authentic toy toy_codec_laws toy_base58_laws sim_net N 2 h _ sim_boot
    (sim_reachable sim_registration) Hh Hin q eq_refl) as (Hq & j & r & Hp & _).
  split; [exact Hq|]. exists j. exact Hp.
Defined.

Lemma clients_registered_witness :
  let N := sim_run sim_opening in
  net_boot sim_net ∧ net_reachable sim_net N ∧
  ∃ h hash ci, host_at (hosts N) 2 = Some h ∧ client_wn_map (tasks h).1 !! hash = Some ci ∧
    from_whitenoise_to_hash (whitenoise_id ci) = Some hash ∧
    ∃ q j, registers q (whitenoise_id ci) ∧ peer_at N j (peer_id ci).
Proof.
  intros N. split; [apply sim_boot|]. split; [apply sim_reachable|].
  destruct (sim_client_elem (sim_run sim_opening) 2 sim_bob_hash bob_registered) as (h & ci & Hh & Hci).
  exists h, sim_bob_hash, ci. split; [exact Hh|]. split; [exact Hci|].
  destruct (@clients_registered toy toy_codec_laws toy_base58_laws sim_net N 2 h sim_bob_hash ci sim_boot
    (sim_reachable sim_opening) Hh Hci) as (Hid & q & j & r & Hq & Hp & _).
  split; [exact Hid|]. exists q, j. split; [exact Hq|exact Hp].
Defined.

Lemma frames_handled_witness :
  let N := sim_run sim_opening in
  net_boot sim_net ∧ net_reachable sim_net N ∧
  ∃ h v d, host_at (hosts N) 1 = Some h ∧ PkIn v (Ok d) ∈ flight h ∧ ∃ r : Relay, pb_decode d = Some r.
Proof.
  intros N. split; [apply sim_boot|]. split; [apply sim_reachable|].
  pose proof opening_frame as Hf. destruct (find_packet is_frame (sim_run sim_opening) 1) as [pk|] eqn:Hpk; [|done].
  apply find_packet_elem in Hpk as (h & Hh & Hin & Ht).
  destruct pk as [| | | | | | | | | | |v [d|e]]; try discriminate Ht.
  exists h, v, d. split; [exact Hh|]. split; [exact Hin|].
  destruct (@frames_handled toy toy_codec_laws sim_net N 1 h v d sim_boot
    (sim_reachable sim_opening) Hh Hin) as (r & Hr & _).
  exists r. exact Hr.
Defined.

(** A request of Bob's registration, on its way to his event loop. *)
Lemma requests_served_witness :
  let N := sim_run sim_asking in
  net_boot sim_net ∧ net_reachable sim_net N ∧
  ∃ h r, host_at (hosts N) 4 = Some h ∧ PkRequest r ∈ flight h ∧
    ensures any_env empty_shared (client_serve relay_new r) (λ _ o _, served o).
Proof.
  intros N. split; [apply sim_boot|]. split; [apply sim_reachable|].
  pose proof asking_request as Hf. destruct (find_packet is_request (sim_run sim_asking) 4) as [pk|] eqn:Hpk; [|done].
  apply find_packet_elem in Hpk as (h & Hh & Hin & Ht).
  destruct pk as [r| | | | | | | | | | |]; try discriminate Ht.
  exists h, r. split; [exact Hh|]. split; [exact Hin|].
  exact (proj1 (@requests_served toy sim_net N 4 h r relay_new empty_shared sim_boot
    (sim_reachable sim_asking) Hh Hin)).
Defined.

End SimulationWitnesses.
