(* ===== verification/Opening.v ===== *)
(** * Opening a session between two nodes

    The two sides of [new_session_to_peer] (src/network/node.rs): the messages
    the opening node writes, the relay event handler of the node that reads them
    (src/network/relay_event_handler.rs), the acknowledgement it asks its event
    loop to send, and the injection of that acknowledgement at the opening node
    (src/network/whitenoise_behaviour.rs), which finds the waiting task, unless
    it comes before the task waits. *)

From S2P Require Import Prelude Proto External State Io Packing Concrete Utils Connection Node RelayEvents Behaviour.
From S2P Require Import System.

Section OpeningLemmas.
Context {EXT : Ext}.

(** The relay event handler on the bytes of one message. *)
Lemma relay_step_wp d m v node sid_opt s Q :
  pb_decode d = Some m →
  wp calm (relay_dispatch v node sid_opt m) s (λ tr, Q (InRecv v :: tr)) →
  wp (calm_with (reads d)) (relay_event_step v node sid_opt) s Q.
Proof.
  intros Hd Hk. unfold relay_event_step, read_from_negotiated_arc, ws_read.
  wp_step. wp_norm. rewrite Hd. wp_norm. by apply wp_calm_with.
Qed.

(** The answering client's circuit connection on the stream. *)
Definition with_circuit_conn (sid : string) (v : WrappedStream) (s : Shared) : Shared :=
  match circuit_map s !! sid with
  | Some _ => s
  | None => set_circuit_map <[sid := fresh_circuit_conn sid v (next_handle s)]> (bump_handle s)
  end.

Definition with_role_conn (role : SessionRole) (sid : string) (v : WrappedStream) (s : Shared) : Shared :=
  match role with AnswerRole => with_circuit_conn sid v s | _ => s end.

Lemma with_role_conn_sessions role sid v s : session_map (with_role_conn role sid v s) = session_map s.
Proof. destruct role; try done. unfold with_role_conn, with_circuit_conn. by destruct (circuit_map s !! sid). Qed.

Lemma with_role_conn_answer sid v s : is_Some (circuit_map (with_role_conn AnswerRole sid v s) !! sid).
Proof.
  simpl. unfold with_circuit_conn. destruct (circuit_map s !! sid) eqn:Hc; [by rewrite Hc|].
  simpl. rewrite lookup_insert_eq. eauto.
Qed.

(** A [SetSessionId] message for a session the node does not have. *)
Lemma set_session_dispatch_wp `{!CodecLaws} v node sid role confusion s Q :
  let id := sealed_id (set_session_relay sid (role_i32 role)) confusion in
  session_map s !! sid = None →
  Q [SendNodeRequest (ack_request_to (remote_peer_id v) id true [])] (Returned (inl (Some sid)))
    (set_session_map <[sid := mkSession sid (mkPairStream (Some v) None) (role_i32 role)]>
       (with_role_conn role sid v s)) →
  wp calm (relay_dispatch v node None (sealed (set_session_relay sid (role_i32 role)) confusion)) s Q.
Proof.
  intros id Hsid HQ. unfold relay_dispatch.
  change (relay_type (sealed _ _)) with (relaytype_i32 RtSetSessionId).
  repeat rewrite decide_False by done. rewrite decide_True by done.
  change (relay_data (sealed _ _)) with (pb_encode (mkSetSessionIdMsg sid (role_i32 role))).
  rewrite pb_decode_encode. wp_norm. cbn [ssid_session_id ssid_role].
  rewrite <- (with_role_conn_sessions role sid v) in Hsid.
  assert (Hset : wp calm
    (handle_set_session (mkSetSessionIdMsg sid (role_i32 role)) v id;; mret (inl (Some sid)))
    (with_role_conn role sid v s) Q).
  { unfold handle_set_session, send_ack. cbn [ssid_session_id ssid_role]. wp_step.
    rewrite Hsid. by wp_steps. }
  destruct role; try (rewrite decide_False by done; wp_norm; exact Hset).
  rewrite decide_True by done. unfold add_circuit_conn. wp_step. exact Hset.
Qed.

(** ** Steps of one program, when no other runs *)

Inductive steps {A} : Shared * io A → list cmd → Shared * io A → Prop :=
| steps_done c : steps c [] c
| steps_atomic s X (f : Shared → Shared * X) k tr c :
    steps ((f s).1, k (f s).2) tr c → steps (s, Atomic f k) tr c
| steps_call s c k (a : reply c) tr c' : steps (s, k a) tr c' → steps (s, Call c k) (c :: tr) c'.

Lemma steps_bind {A B} (k : A → io B) x tr y :
  steps x tr y → steps (x.1, x.2 ≫= k) tr (y.1, y.2 ≫= k).
Proof. induction 1; by econstructor. Qed.

Lemma steps_trans {A} (x y z : Shared * io A) tr1 tr2 :
  steps x tr1 y → steps y tr2 z → steps x (tr1 ++ tr2) z.
Proof. induction 1; simpl; [done|..]; intros; econstructor; eauto. Qed.

Lemma steps_seq {A B} s (p : io A) (k : A → io B) tr1 s1 a tr2 c :
  steps (s, p) tr1 (s1, mret a) → steps (s1, k a) tr2 c → steps (s, p ≫= k) (tr1 ++ tr2) c.
Proof. intros H1%(steps_bind k) H2. eapply steps_trans; [exact H1|exact H2]. Qed.

Fixpoint all_spawned (order : circuit_order) (fuel : nat) (tr : list cmd) : list (io unit) :=
  match tr with
  | [] => []
  | c :: tr => spawned order fuel c ++ all_spawned order fuel tr
  end.

(** They are a run of the system, which has the programs they spawn. *)
Lemma steps_run (x y : Shared * io unit) tr l order fuel :
  steps x tr y →
  ∀ r, sys_run (x.1, l ++ x.2 :: r) tr (y.1, l ++ y.2 :: r ++ all_spawned order fuel tr).
Proof.
  induction 1 as [c|s X f k tr c _ IH|s c k a tr c' _ IH]; intros r; simpl.
  - rewrite app_nil_r. apply run_done.
  - apply run_atomic, IH.
  - eapply run_call. rewrite app_assoc. apply IH.
Qed.

(** A write, with an empty padding and no delay. *)
Lemma steps_write w relay s :
  steps (s, write_relay_arc w relay) (write_cmds w relay [] 0) (s, mret (sealed_id relay [])).
Proof.
  apply (steps_call s (GenRange _) _ 0%Z), (steps_call s (FillBytes 0) _ []).
  apply (steps_call s (GenRange _) _ 0%Z), (steps_call s (Sleep 0) _ tt).
  apply (steps_call s (OutSend _ _) _ true), steps_done.
Qed.

(** The arrival of an acknowledgement, with and without a waiter. *)
Lemma steps_ack peer (x : Ack) s :
  let arrival := stimulus_program (OnWhitenoise (WbAck (RrMessage peer (RrRequest x)))) in
  steps (s, arrival)
    (match event_bus s !! ack_command_id x with Some rx => [SendAckTo rx x] | None => [] end)
    (set_event_bus (delete (ack_command_id x)) s, mret tt).
Proof.
  apply steps_atomic. cbn beta. cbn [fst snd].
  destruct (event_bus s !! _) as [rx|]; [|apply steps_done]. apply (steps_call _ (SendAckTo rx x) _ true), steps_done.
Qed.

(** The wait for a stream that is there. *)
Lemma steps_wait w q s :
  relay_out_streams s = w :: q →
  steps (s, wait_for_out_peer_relay_stream (remote_peer_id w)) []
    (set_relay_out (λ _, q) s, mret (Some w)).
Proof.
  intros Hq. unfold wait_for_out_peer_relay_stream. rewrite loop_S.
  eapply (steps_seq s _ _ [] (set_relay_out (λ _, q) s) (inr (Some w)) []); [|apply steps_done].
  unfold wait_round. rewrite decide_False by lia. apply steps_atomic. cbn [fst snd]. rewrite Hq.
  cbn [length scan_out_streams]. apply steps_atomic. cbn beta. rewrite Hq. cbn [fst snd].
  rewrite decide_True by done. apply steps_done.
Qed.

(** The opening of a session up to the registration of its waiter. *)
Lemma steps_opening node sid my other w q s :
  relay_out_streams s = w :: q →
  let m := set_session_relay sid (role_i32 other) in
  ∃ k : nat → option Ack → io (option WrappedStream),
    steps (s, new_session_to_peer node (remote_peer_id w) sid my other)
      (Spawn (TaskSendNodeRequest (NrNewStreamRequest (remote_peer_id w))) ::
       write_cmds w wake_relay [] 0 ++ write_cmds w m [] 0)
      (set_relay_out (λ _, q) s,
       rx ← event_bus_register (sealed_id m []); Call (AwaitAck rx) (k rx)).
Proof.
  intros Hq m. set (s1 := set_relay_out (λ _, q) s). eexists.
  apply (steps_seq s _ _ [Spawn _] s1 (Some w)).
  { apply (steps_call s (Spawn _) _ tt), steps_wait, Hq. }
  cbn beta iota. apply (steps_seq s1 _ _ (write_cmds w wake_relay [] 0) s1 tt).
  { rewrite <- (app_nil_r (write_cmds w wake_relay [] 0)).
    apply (steps_seq s1 _ _ _ s1 (sealed_id wake_relay [])); [apply steps_write|apply steps_done]. }
  rewrite <- (app_nil_r (write_cmds w m [] 0)).
  apply (steps_seq s1 _ _ _ s1 (sealed_id m [])); [apply steps_write|]. apply steps_done.
Qed.

End OpeningLemmas.

(** * Properties *)

Section OpeningProperties.
Context {EXT : Ext}.

(** C11: opening a session to a peer, on both sides.  The opening node writes a
    wake-up and a request on the stream it took and waits on a fresh channel.
    The peer ignores the wake-up; on the request it makes the session, with the
    stream it came on and the role it was given (and a circuit connection when
    that is the answerer's), and sends one positive acknowledgement; and that
    acknowledgement, injected at the opening node, is given to exactly the
    channel the opening task waits on. *)
Theorem session_opens `{!CodecLaws} (nodeA nodeB : Node) (peerA peerB : PeerId) (sid : string)
    (my other : SessionRole) (i : nat) (w v : WrappedStream) (sA sB : Shared) :
  list_find (λ w, remote_peer_id w = peerB) (relay_out_streams sA) = Some (i, w) →
  remote_peer_id v = peerA →
  session_map sB !! sid = None →
  ensures calm sA (new_session_to_peer nodeA peerB sid my other) (λ trA oA sA', ∃ d0 d rx,
    effects trA =
      [Spawn (TaskSendNodeRequest (NrNewStreamRequest peerB));
       OutSend w (WdData d0); OutSend w (WdData d); AwaitAck rx] ++
      match oA with Returned _ => [Spawn (TaskRelayHandler w nodeA (Some sid))] | _ => [] end ∧
    ensures (calm_with (reads d0)) sB (relay_event_step v nodeB None)
      (λ _ o s, o = Returned (inl None) ∧ s = sB) ∧
    ensures (calm_with (reads d)) sB (relay_event_step v nodeB None) (λ trB oB sB',
      oB = Returned (inl (Some sid)) ∧
      session_map sB' = <[sid := mkSession sid (mkPairStream (Some v) None) (role_i32 other)]>
                          (session_map sB) ∧
      (other = AnswerRole → is_Some (circuit_map sB' !! sid)) ∧
      ∃ a, trB = [InRecv v; SendNodeRequest (NrAckRequest (mkNodeAckRequest peerA (Some a)))] ∧
        ack_result a = true ∧
        ensures calm sA' (inject_ack_event (RrMessage peerB (RrRequest a)))
          (λ tr o _, o = Returned tt ∧ tr = [SendAckTo rx a]))).
Proof.
  intros Hw Hv Hsid. apply wp_ensures. eapply new_session_to_peer_some_wp; [exact Hw|].
  intros conf1 conf2 us1 us2 key cmds Hc1 Hc2.
  set (d0 := pb_encode (sealed wake_relay conf1)).
  set (d := pb_encode (sealed (set_session_relay sid (role_i32 other)) conf2)).
  assert (Hcommon : ∀ sA', event_bus sA' = <[key := next_handle sA]> (event_bus sA) →
    ensures (calm_with (reads d0)) sB (relay_event_step v nodeB None)
      (λ _ o s, o = Returned (inl None) ∧ s = sB) ∧
    ensures (calm_with (reads d)) sB (relay_event_step v nodeB None) (λ trB oB sB',
      oB = Returned (inl (Some sid)) ∧
      session_map sB' = <[sid := mkSession sid (mkPairStream (Some v) None) (role_i32 other)]>
                          (session_map sB) ∧
      (other = AnswerRole → is_Some (circuit_map sB' !! sid)) ∧
      ∃ a, trB = [InRecv v; SendNodeRequest (NrAckRequest (mkNodeAckRequest peerA (Some a)))] ∧
        ack_result a = true ∧
        ensures calm sA' (inject_ack_event (RrMessage peerB (RrRequest a)))
          (λ tr o _, o = Returned tt ∧ tr = [SendAckTo (next_handle sA) a]))).
  { intros sA' Hbus. split; apply wp_ensures.
    - eapply relay_step_wp; [apply pb_decode_encode|]. unfold relay_dispatch.
      change (relay_type (sealed wake_relay conf1)) with (relaytype_i32 RtWake).
      rewrite decide_True by done. by wp_step.
    - eapply relay_step_wp; [apply pb_decode_encode|]. apply set_session_dispatch_wp; [done|].
      split; [done|]. simpl. rewrite with_role_conn_sessions. split; [done|].
      split; [intros ->; apply with_role_conn_answer|].
      exists (mkAck key true []). rewrite Hv. split; [done|]. split; [done|]. apply wp_ensures.
      apply (inject_ack_wp peerB). intros tr ->. split; [done|]. simpl.
      by rewrite Hbus, lookup_insert_eq. }
  assert (Heff : effects cmds = [Spawn (TaskSendNodeRequest (NrNewStreamRequest peerB));
    OutSend w (WdData d0); OutSend w (WdData d); AwaitAck (next_handle sA)]).
  { unfold cmds, opening_cmds. done. }
  split_and!; exists d0, d, (next_handle sA).
  - rewrite app_nil_r. split; [exact Heff|]. by apply Hcommon.
  - rewrite app_nil_r. split; [exact Heff|]. by apply Hcommon.
  - rewrite effects_app, Heff. split; [done|]. by apply Hcommon.
Qed.

(** C28: but the acknowledgement can be lost.  The opening node registers the
    channel it will wait on after it has sent the request, so, from the moment it
    has sent it, two runs are possible: the acknowledgement of that request comes
    after the registration and is given to the channel, or it comes before, when
    nobody waits for it, and is dropped: the task then waits for an
    acknowledgement that has already come. *)
Theorem ack_can_be_lost `{!CodecLaws} (node : Node) (sid : string) (my other : SessionRole)
    (w : WrappedStream) (q : list WrappedStream) (s : Shared) :
  relay_out_streams s = w :: q → event_bus s = ∅ →
  let peer := remote_peer_id w in
  let start : sys := (s, [new_session_to_peer node peer sid my other;; mret tt]) in
  ∃ tr d m p pool s1 rx k,
    sys_run start (tr ++ [OutSend w (WdData d)]) (s1, p :: pool) ∧
    pb_decode d = Some m ∧ relay_type m = relaytype_i32 RtSetSessionId ∧
    let ack := mkAck (relay_id m) true [] in
    let arrival := stimulus_program (OnWhitenoise (WbAck (RrMessage peer (RrRequest ack)))) in
    let waiting : io unit := Call (AwaitAck rx) k in
    (∃ s2, sys_run (s1, p :: pool ++ [arrival]) [SendAckTo rx ack] (s2, waiting :: pool ++ [Ret tt])) ∧
    (∃ s2, sys_run (s1, p :: pool ++ [arrival]) [] (s2, waiting :: pool ++ [Ret tt]) ∧
       event_bus s2 !! relay_id m = Some rx).
Proof.
  intros Hq Hbus peer start.
  set (m0 := set_session_relay sid (role_i32 other)). set (m := sealed m0 []).
  set (dial := task_program map_to_list 0 (TaskSendNodeRequest (NrNewStreamRequest peer))).
  set (s1 := set_relay_out (λ _, q) s).
  destruct (steps_opening node sid my other w q s Hq) as [k Hk].
  apply (steps_bind (λ _, mret tt)) in Hk.
  exists (Spawn (TaskSendNodeRequest (NrNewStreamRequest peer)) :: write_cmds w wake_relay [] 0 ++
          [GenRange (confusion_bound m0); FillBytes 0; GenRange JITTER_MAX_MICROS; Sleep 0]).
  eexists (pb_encode m), m, _, [dial], s1, (next_handle s), (λ a, k (next_handle s) a ≫= λ _, mret tt).
  split; [exact (steps_run _ _ _ [] map_to_list 0 Hk [])|].
  split; [apply pb_decode_encode|]. split; [done|]. intros ack arrival waiting.
  split.
  - set (s2 := set_event_bus <[relay_id m := next_handle s]> (bump_handle s1)).
    pose proof (steps_run _ _ _ [waiting; dial] map_to_list 0 (steps_ack peer ack s2) []) as Harrival.
    cbn [fst snd] in Harrival. unfold s2 in Harrival at 2. revert Harrival. simpl.
    rewrite lookup_insert_eq. intros Harrival.
    eexists. apply (run_atomic s1 [] [dial; arrival]). exact Harrival.
  - set (p := (rx ← event_bus_register (sealed_id m0 []); Call (AwaitAck rx) (k rx)) ≫= λ _, mret tt : io unit).
    pose proof (steps_run _ _ _ [p; dial] map_to_list 0 (steps_ack peer ack s1) []) as Harrival.
    revert Harrival. simpl. rewrite Hbus, lookup_empty. intros Harrival.
    eexists. split.
    + eapply (sys_run_trans _ [] _ [] _); [exact Harrival|]. apply (run_atomic _ [] [dial; mret tt]), run_done.
    + simpl. by rewrite lookup_insert_eq.
Qed.

End OpeningProperties.

Section OpeningWitnesses.
Local Existing Instance toy.

Lemma session_opens_witness :
  let w := toy_stream "b" "1" in
  let v := toy_stream "a" "2" in
  let sA := set_relay_out (λ _, [w]) empty_shared in
  list_find (λ w, remote_peer_id w = "b"%string) (relay_out_streams sA) = Some (0, w) ∧
  ensures calm sA (new_session_to_peer toy_node "b"%string "sid" EntryRole AnswerRole) (λ trA _ _,
    ∃ d, OutSend w (WdData d) ∈ effects trA ∧
    ensures (calm_with (reads d)) empty_shared (relay_event_step v toy_node None) (λ _ oB _,
      oB = Returned (inl (Some "sid"%string)))).
Proof.
  intros w v sA. split; [reflexivity|]. intros e n He.
  destruct (@session_opens toy toy_codec_laws toy_node toy_node "a"%string "b"%string "sid"%string
    EntryRole AnswerRole 0 w v sA empty_shared eq_refl eq_refl eq_refl e n He)
    as (d0 & d & rx & Heff & _ & Hset).
  exists d. split.
  - rewrite Heff. apply list_elem_of_further, list_elem_of_further, list_elem_of_here.
  - intros e' n' He'. exact (proj1 (Hset e' n' He')).
Defined.

Lemma ack_can_be_lost_witness :
  let w := toy_stream "b" "1" in
  let s := set_relay_out (λ _, [w]) empty_shared in
  relay_out_streams s = [w] ∧ event_bus s = ∅ ∧
  ∃ tr d c, sys_run (s, [new_session_to_peer toy_node "b"%string "sid" EntryRole SinkRole;; mret tt])
    (tr ++ [OutSend w (WdData d)]) c.
Proof.
  intros w s. split; [reflexivity|]. split; [reflexivity|].
  destruct (@ack_can_be_lost toy toy_codec_laws toy_node "sid" EntryRole SinkRole w [] s eq_refl eq_refl)
    as (tr & d & m & p & pool & s1 & rx & k & Hrun & _).
  exists tr, d, (s1, p :: pool). exact Hrun.
Defined.

End OpeningWitnesses.
