(* ===== verification/Circuit.v ===== *)
(** * Completing a circuit

    The probes of the entry and access nodes meet at the sink, which announces
    success along both branches, and the success starts the handshake at the two
    clients (src/network/relay_event_handler.rs, handle_relay_probe and
    handle_success; src/network/utils.rs, new_relay_probe); and how two probes
    that arrive together miss each other. *)

From S2P Require Import Prelude Proto External State Io Packing Concrete Utils Connection Node RelayEvents Behaviour Opening.

Section Circuit.
Context {EXT : Ext}.

(** The bytes [d] are a message with the type and data of [r], whatever its id
    and confusion: what every node on the way keeps of a message. *)
Definition conveys (d : bytes) (r : Relay) : Prop :=
  ∃ m, pb_decode d = Some m ∧ relay_type m = relay_type r ∧ relay_data m = relay_data r.

Lemma conveys_sealed `{!CodecLaws} r confusion : conveys (pb_encode (sealed r confusion)) r.
Proof. exists (sealed r confusion). by rewrite pb_decode_encode. Qed.

(** A probe of its session at the sink. *)
Lemma probe_sink_wp `{!CodecLaws} r w sid s x Q :
  relay_data r = relay_data (new_relay_probe sid) →
  session_map s !! sid = Some x → session_role x = role_i32 SinkRole →
  match probe_map s !! sid with
  | None => Q [] (Returned tt) (set_probe_map <[sid := mkProbe sid (probe_rand sid)]> s)
  | Some q => rand q = probe_rand sid ∧
              Q (twoway_cmds x (new_relay_circuit_success sid)) (Returned tt) s
  end →
  wp calm (handle_relay_probe sid w r) s Q.
Proof.
  intros Hdata Hx Hrole HQ. unfold handle_relay_probe. rewrite Hdata.
  change (relay_data (new_relay_probe sid)) with (pb_encode (mkProbeSignal sid (probe_rand sid))).
  rewrite pb_decode_encode. wp_norm. wp_step. rewrite Hx.
  rewrite (proj2 (role_is_true x SinkRole)) by done. wp_step.
  destruct (probe_map s !! sid) as [q|] eqn:Hq.
  - destruct HQ as [Hrand HQ]. rewrite bool_decide_true by eauto. wp_step. rewrite Hq. wp_norm.
    rewrite decide_True by done. by apply send_relay_twoway_wp.
  - rewrite bool_decide_false by (intros [? ?]; done). by wp_steps.
Qed.

(** The same through the handler of its stream. *)
Lemma probe_step_wp `{!CodecLaws} d w node sid s x Q :
  conveys d (new_relay_probe sid) →
  session_map s !! sid = Some x → session_role x = role_i32 SinkRole →
  match probe_map s !! sid with
  | None => Q [InRecv w] (Returned (inl (Some sid)))
              (set_probe_map <[sid := mkProbe sid (probe_rand sid)]> s)
  | Some q => rand q = probe_rand sid ∧
              Q (InRecv w :: twoway_cmds x (new_relay_circuit_success sid))
                (Returned (inl (Some sid))) s
  end →
  wp (calm_with (reads d)) (relay_event_step w node (Some sid)) s Q.
Proof.
  intros (m & Hd & Hty & Hdata) Hx Hrole HQ. eapply relay_step_wp; [exact Hd|].
  unfold relay_dispatch. rewrite Hty. repeat rewrite decide_False by done.
  rewrite decide_True by done. wp_norm. wp_use probe_sink_wp; [done..|].
  destruct (probe_map s !! sid) as [q|].
  - destruct HQ as [Hrand HQ]. split; [done|]. cbn [after]. wp_step. by rewrite app_nil_r.
  - cbn [after]. by wp_step.
Qed.

(** A success message at an end of the circuit. *)
Lemma success_step_wp `{!CodecLaws} d w node sid s x cc Q :
  conveys d (new_relay_circuit_success sid) →
  session_map s !! sid = Some x →
  session_role x = role_i32 AnswerRole ∨ session_role x = role_i32 CallerRole →
  circuit_map s !! sid = Some cc →
  Q [InRecv w; Spawn (TaskHandshake cc (role_is x CallerRole) sid node)]
    (Returned (inl (Some sid))) s →
  wp (calm_with (reads d)) (relay_event_step w node (Some sid)) s Q.
Proof.
  intros (m & Hd & Hty & Hdata) Hx Hrole Hcc HQ. eapply relay_step_wp; [exact Hd|].
  unfold relay_dispatch. rewrite Hty. repeat rewrite decide_False by done.
  rewrite decide_True by done. wp_norm. unfold handle_success. rewrite Hdata.
  change (relay_data (new_relay_circuit_success sid)) with (pb_encode (mkCircuitSuccess sid)).
  rewrite pb_decode_encode. wp_step. cbn [csucc_session_id]. rewrite Hx.
  assert (Hor : role_is x AnswerRole = true ∨ role_is x CallerRole = true)
    by (rewrite !role_is_true; done).
  destruct (role_is x CallerRole) eqn:Hcall.
  - wp_step. rewrite Hcc. by wp_steps.
  - destruct Hor as [->|]; [|done]. wp_step. rewrite Hcc. by wp_steps.
Qed.

(** [e] with the run of [p] as interference before action [k]. *)
Definition racing {A} (k : nat) (p : io A) (e : env) : env :=
  mkEnv (λ n s, if decide (n = k) then final (run e p 0 s) else s) (answer e).

End Circuit.

(** * Properties *)

Section CircuitProperties.
Context {EXT : Ext}.

(** How a circuit completes.  The probes the entry and the access node
    make of the same session agree, so that, in whatever form they arrive, the
    sink keeps the first and on the second sends success on every stream of the
    session; and that success message, in whatever form it arrives at an end of
    the circuit, starts the handshake there, as initiator at the caller and as
    responder at the answerer. *)
Theorem circuit_completes `{!CodecLaws} (sid : string) (d1 d2 : bytes) (w1 w2 : WrappedStream)
    (sink : Node) (s : Shared) (x : Session) :
  conveys d1 (new_relay_probe sid) → conveys d2 (new_relay_probe sid) →
  session_map s !! sid = Some x → session_role x = role_i32 SinkRole →
  probe_map s !! sid = None →
  ensures (calm_with (reads d1)) s (relay_event_step w1 sink (Some sid)) (λ tr1 o1 s1,
    o1 = Returned (inl (Some sid)) ∧ tr1 = [InRecv w1] ∧
    ensures (calm_with (reads d2)) s1 (relay_event_step w2 sink (Some sid)) (λ tr2 o2 s2,
      o2 = Returned (inl (Some sid)) ∧
      tr2 = InRecv w2 :: twoway_cmds x (new_relay_circuit_success sid) ∧
      session_map s2 = session_map s)) ∧
  (∀ d w node sc y cc,
    conveys d (new_relay_circuit_success sid) →
    session_map sc !! sid = Some y → circuit_map sc !! sid = Some cc →
    session_role y = role_i32 AnswerRole ∨ session_role y = role_i32 CallerRole →
    ensures (calm_with (reads d)) sc (relay_event_step w node (Some sid)) (λ tr o s', s' = sc ∧
      o = Returned (inl (Some sid)) ∧
      tr = [InRecv w; Spawn (TaskHandshake cc
              (bool_decide (session_role y = role_i32 CallerRole)) sid node)])).
Proof.
  intros Hd1 Hd2 Hx Hrole Hprobe. split.
  - apply wp_ensures. eapply probe_step_wp; [done..|]. rewrite Hprobe. split; [done|]. split; [done|].
    apply wp_ensures. eapply probe_step_wp; [done|exact Hx|done|]. simpl. by rewrite lookup_insert_eq.
  - intros d w node sc y cc Hd Hy Hcc Hend. apply wp_ensures. by eapply success_step_wp.
Qed.

(** C29: but the sink looks for the stored probe and stores its own under two
    acquisitions of the lock: when the other stream's handler runs between them,
    both take their probe for the first, neither announces anything, and the
    circuit never completes; one after the other, the second announces
    success. *)
Theorem probe_race `{!CodecLaws} (sid : string) (w1 w2 : WrappedStream) (s : Shared) (x : Session)
    (e : env) :
  session_map s !! sid = Some x → session_role x = role_i32 SinkRole →
  probe_map s !! sid = None → conforms calm e →
  let handler w := handle_relay_probe sid w (new_relay_probe sid) in
  let first := run e (handler w1) 0 s in
  let second := run e (handler w2) 0 (final first) in
  let raced := run (racing 2 (handler w1) e) (handler w2) 0 s in
  (out first = Returned tt ∧ trace first = []) ∧
  (out second = Returned tt ∧ trace second = twoway_cmds x (new_relay_circuit_success sid)) ∧
  (out raced = Returned tt ∧ trace raced = [] ∧ final raced = final first).
Proof.
  intros Hx Hrole Hprobe He handler first second raced.
  set (stored := set_probe_map <[sid := mkProbe sid (probe_rand sid)]> s).
  assert (Hfirst : out first = Returned tt ∧ trace first = [] ∧ final first = stored).
  { apply (wp_run calm e (handler w1) 0 s (λ tr o s', o = Returned tt ∧ tr = [] ∧ s' = stored)); [done|].
    eapply probe_sink_wp; [done..|]. by rewrite Hprobe. }
  destruct Hfirst as (Ho1 & Ht1 & Hf1). split; [done|]. split.
  - unfold second. rewrite Hf1.
    apply (wp_run calm e (handler w2) 0 stored (λ tr o _, o = Returned tt ∧ tr = _)); [done|].
    eapply probe_sink_wp; [done|exact Hx|done|]. simpl. by rewrite lookup_insert_eq.
  - unfold raced. remember (racing 2 (handler w1) e) as rc eqn:Hrc.
    assert (H0 : interfere rc 0 s = s) by (by subst rc). assert (H1 : interfere rc 1 s = s) by (by subst rc).
    assert (H2 : interfere rc 2 s = stored) by (by subst rc).
    clear Hrc. unfold handler, handle_relay_probe.
    change (relay_data (new_relay_probe sid)) with (pb_encode (mkProbeSignal sid (probe_rand sid))).
    rewrite pb_decode_encode. wp_cbn. rewrite run_atomic, H0. cbn [fst snd]. rewrite Hx.
    rewrite (proj2 (role_is_true x SinkRole)) by done. rewrite run_atomic, H1. cbn [fst snd].
    rewrite Hprobe, bool_decide_false by (by intros [? ?]). rewrite run_atomic, H2. cbn [fst snd].
    split; [done|]. split; [done|]. rewrite Hf1. unfold stored, set_probe_map, run. cbn.
    by rewrite insert_insert_eq.
Qed.

End CircuitProperties.

Section CircuitWitnesses.
Local Existing Instance toy.

Definition toy_sink_state : Shared :=
  set_session_map <["sid"%string := toy_session SinkRole]> empty_shared.

Lemma circuit_completes_witness :
  let d1 := pb_encode (sealed (new_relay_probe "sid") [x01]) in
  let d2 := pb_encode (sealed (new_relay_probe "sid") []) in
  conveys d1 (new_relay_probe "sid") ∧
  ensures (calm_with (reads d1)) toy_sink_state
    (relay_event_step (toy_stream "e" "1") toy_node (Some "sid"%string)) (λ _ _ s1,
    ensures (calm_with (reads d2)) s1
      (relay_event_step (toy_stream "l" "2") toy_node (Some "sid"%string)) (λ tr2 _ _,
      tr2 = [InRecv (toy_stream "l" "2");
             Spawn (TaskWriteRelay (toy_stream "e" "1") (new_relay_circuit_success "sid"));
             Spawn (TaskWriteRelay (toy_stream "l" "2") (new_relay_circuit_success "sid"))])).
Proof.
  intros d1 d2. pose proof (@conveys_sealed toy toy_codec_laws (new_relay_probe "sid")) as Hc.
  split; [apply Hc|]. intros e n He.
  destruct (proj1 (@circuit_completes toy toy_codec_laws "sid" d1 d2 (toy_stream "e" "1")
    (toy_stream "l" "2") toy_node toy_sink_state (toy_session SinkRole) (Hc _) (Hc _)
    eq_refl eq_refl eq_refl) e n He) as (_ & _ & Hsecond).
  intros e2 n2 He2. exact (proj1 (proj2 (Hsecond e2 n2 He2))).
Defined.

Lemma probe_race_witness :
  conforms calm (toy_env no_script) ∧
  let handler w := handle_relay_probe "sid" w (new_relay_probe "sid") in
  trace (run (racing 2 (handler (toy_stream "e" "1")) (toy_env no_script))
           (handler (toy_stream "l" "2")) 0 toy_sink_state) = [].
Proof.
  split; [apply toy_env_calm|].
  exact (proj1 (proj2 (proj2 (proj2 (@probe_race toy toy_codec_laws "sid" (toy_stream "e" "1")
    (toy_stream "l" "2") toy_sink_state (toy_session SinkRole) (toy_env no_script)
    eq_refl eq_refl eq_refl (toy_env_calm no_script)))))).
Defined.

End CircuitWitnesses.
