(* ===== verification/Construction.v ===== *)
(** * The construction of a circuit

    What the entry node does with a request for a circuit
    (src/network/proxy_event_handler.rs, handle_new_circuit) and the access node
    with the negotiation that follows it on the gossip topic
    (src/network/publish_event_handler.rs): whatever the network answers, the
    messages that complete a circuit are sent last, and only once the session
    has both of its streams. *)

From S2P Require Import Prelude Proto External State Io Packing Concrete Utils Connection Account Node.
From S2P Require Import RelayEvents Proxy Publish.

Section Construction.
Context {EXT : Ext}.

(** No relay message is handed to a task for writing: neither a probe nor a
    success. *)
Definition quiet_cmd (c : cmd) : bool :=
  match c with Spawn (TaskWriteRelay _ _) => false | _ => true end.

Definition quiet (tr : list cmd) : Prop := Forall (λ c, quiet_cmd c = true) tr.

Lemma quiet_app tr1 tr2 : quiet tr1 → quiet tr2 → quiet (tr1 ++ tr2).
Proof. intros. by apply Forall_app. Qed.

Lemma quiet_repeat c n : quiet_cmd c = true → quiet (repeat c n).
Proof. intros Hc. by induction n; constructor. Qed.

Lemma quiet_opening peer w sid other conf1 conf2 us1 us2 rx :
  quiet (opening_cmds peer w sid other conf1 conf2 us1 us2 rx).
Proof. repeat constructor. Qed.

Lemma quiet_close o : quiet (close_cmds o).
Proof. destruct o as [[? [[] []] ?]|]; repeat constructor. Qed.

(** A waited-for request whose answer is scripted. *)
Lemma send_and_wait_script_wp (f : script) key r (a : Ack) s Q :
  f (AwaitAck (next_handle s)) = Some (Some a) →
  Q [SendNodeRequest r; AwaitAck (next_handle s)] (Returned a)
    (set_event_bus <[key := next_handle s]> (bump_handle s)) →
  wp (calm_with f) (external_send_node_request_and_wait key r) s Q.
Proof.
  intros Hf HQ. unfold external_send_node_request_and_wait, event_bus_register. wp_step. wp_step. wp_norm.
  apply calm_with_call; [intros _ Hn; congruence|]. intros o _ Ho. rewrite (Ho _ Hf). by wp_steps.
Qed.

(** No acknowledgement comes on the channel under the script. *)
Definition unanswered (f : script) (rx : nat) : Prop := ∀ a : Ack, f (AwaitAck rx) ≠ Some (Some a).

(** Any other: the answer is the script's, if it has one. *)
Lemma send_and_wait_with_wp (f : script) key r s Q :
  let s' := set_event_bus <[key := next_handle s]> (bump_handle s) in
  let tr := [SendNodeRequest r; AwaitAck (next_handle s)] in
  (∀ o, o = Blocked ∨ o = Panicked → unanswered f (next_handle s) → Q tr o s') →
  (∀ a, (∀ b, f (AwaitAck (next_handle s)) = Some (Some b) → a = b) → Q tr (Returned a) s') →
  wp (calm_with f) (external_send_node_request_and_wait key r) s Q.
Proof.
  intros s' tr Hfail HQ. unfold external_send_node_request_and_wait, event_bus_register.
  wp_step. wp_step. wp_norm. apply calm_with_call; [|intros [a|] _ Hf; wp_norm; wp_ret].
  - intros _ Hn. apply Hfail; [auto|]. intros a Ha. congruence.
  - apply HQ. intros b Hb. specialize (Hf _ Hb). congruence.
  - apply Hfail; [auto|]. intros a Ha. specialize (Hf _ Ha). congruence.
Qed.

(** ** The search for the next node *)

Lemma pick_peer_any_wp node infos invalid other dest n : ∀ index cur s Q,
  (∀ tr p, quiet tr → Q tr (Returned p) s) → (∀ tr, quiet tr → Q tr Panicked s) →
  wp calm (pick_peer node infos invalid other dest n index cur) s Q.
Proof.
  induction n as [|n IH]; intros index cur s Q HR HP; cbn [pick_peer].
  { wp_step. apply HR. constructor. }
  wp_unwrap as info; [|by apply HP; constructor].
  assert (Hrest : ∀ boot Q', (∀ tr p, quiet tr → Q' tr (Returned p) s) →
    (∀ tr, quiet tr → Q' tr Panicked s) →
    wp calm (if bool_decide (invalid !! ni_id info = None) && bool_decide (ni_id info ≠ get_id node) &&
         bool_decide (ni_id info ≠ other) && bool_decide (ni_id info ≠ to_base58 boot) then
        remote_hash ← gets (λ s, client_peer_map s !! ni_id info);
        differs ← match remote_hash with
                  | None => mret true
                  | Some h => hh ← unwrap (from_whitenoise_to_hash h); mret (bool_decide (hh ≠ dest))
                  end;
        if differs : bool then unwrap (peer_id_of_string (ni_id info))
        else pick_peer node infos invalid other dest n
               (usize_add index 1 mod Z.of_nat (length infos))%Z cur
      else pick_peer node infos invalid other dest n
             (usize_add index 1 mod Z.of_nat (length infos))%Z cur) s Q').
  { clear Q HR HP. intros boot Q HR HP. destruct (_ && _); [|by apply IH].
    wp_step. destruct (client_peer_map s !! _) as [h|]; wp_norm.
    - wp_unwrap as hh; [|by apply HP; constructor]. destruct (bool_decide _); [|by apply IH].
      wp_unwrap as p; [wp_ret; apply HR|apply HP]; constructor.
    - wp_unwrap as p; [wp_ret; apply HR|apply HP]; constructor. }
  destruct (boot_peer_id node) as [boot|]; wp_norm; [by apply Hrest|].
  wp_step. apply Hrest; intros; [apply HR|apply HP]; by constructor.
Qed.

(** Three tries: a peer's stream joins the session, or nothing changed. *)
Lemma try_peers_wp node infos other dest sid my role tries : ∀ invalid cur s Q,
  (∀ tr, quiet tr → Q tr (Returned None) s) →
  (∀ tr i w key, quiet tr → relay_out_streams s !! i = Some w →
     Q tr (Returned (Some (remote_peer_id w))) (join_session sid (role_i32 my) w (awaiting i key s))) →
  (∀ tr s' o, quiet tr → o = Panicked ∨ o = Blocked → Q tr o s') →
  wp calm (try_peers node infos other dest sid my role tries invalid cur) s Q.
Proof.
  induction tries as [|tries IH]; intros invalid cur s Q HN HS HP; cbn [try_peers].
  { wp_step. apply HN. constructor. }
  wp_step. wp_use pick_peer_any_wp; intros tr1; [intros p|]; intros Htr1; cbn [after];
    [|apply HP; [by constructor|tauto]].
  wp_norm. destruct (list_find (λ w, remote_peer_id w = p) (relay_out_streams s)) as [[i w]|] eqn:Hfind.
  - wp_use (new_session_to_peer_some_wp _ _ _ _ _ i w); [exact Hfind|].
    intros conf1 conf2 us1 us2 key cmds _ _. cbn [after].
    pose proof (quiet_opening p w sid role conf1 conf2 us1 us2 (next_handle s)) as Hq.
    apply list_find_Some in Hfind as (Hi & <- & _). split_and!.
    + apply HP; [|tauto]. constructor; [done|]. by apply quiet_app.
    + apply HP; [|tauto]. constructor; [done|]. by apply quiet_app.
    + wp_step. eapply HS; [|exact Hi]. constructor; [done|]. apply quiet_app; [done|].
      rewrite app_nil_r. apply quiet_app; [done|]. repeat constructor.
  - wp_use new_session_to_peer_none_wp; [exact Hfind|]. cbn [after].
    assert (Hq : ∀ tr, quiet tr → quiet (RandomUsize :: tr1 ++
      (Spawn (TaskSendNodeRequest (NrNewStreamRequest p)) :: repeat (Sleep 50000) 100) ++ tr)).
    { intros tr Htr. constructor; [done|]. apply quiet_app; [done|]. apply quiet_app; [|done].
      constructor; [done|]. by apply quiet_repeat. }
    apply IH; intros; [apply HN|eapply HS|apply HP]; eauto.
Qed.

(** ** The exchanges with the caller and with the relay *)

(** The negotiation that names [join] as the meeting point, and the request to
    the caller for its encryption. *)
Definition negotiation (join : PeerId) (nc : NewCircuit) : Negotiate :=
  mkNegotiate (to_base58 join) (nc_session_id nc) (nc_to nc) [].

Definition negotiation_question (node : Node) (join : PeerId) (nc : NewCircuit) : Request :=
  identified_request (get_id node) (reqtype_i32 RqNegPlainText)
    (pb_encode (mkNegPlaintext (nc_session_id nc) (pb_encode (negotiation join nc)))).

Definition negotiation_request (node : Node) (remote join : PeerId) (nc : NewCircuit) : NodeRequest :=
  NrProxyRequest (mkNodeProxyRequest remote (Some (negotiation_question node join nc)) None).

(** What the entry node does with the caller's answer. *)
Lemma circuit_negotiation_wp (f : script) node remote nc join s Q :
  let sid := nc_session_id nc in
  (∀ tr o s', quiet tr → o = Blocked ∨ o = Panicked →
     unanswered f (next_handle s) ∨ f (AwaitBool (S (next_handle s))) ≠ Some (Some true) → Q tr o s') →
  (∀ a s', (∀ b, f (AwaitAck (next_handle s)) = Some (Some b) → a = b) →
     event_bus s' !! req_req_id (negotiation_question node join nc) = Some (next_handle s) →
     session_map s' = session_map s →
     let tr := [SendNodeRequest (negotiation_request node remote join nc); AwaitAck (next_handle s);
                SendNodeRequest (NrPublishData (pb_encode (mkEncryptedNeg (nc_to nc) (ack_data a)))
                                               (S (next_handle s)));
                AwaitBool (S (next_handle s))] in
     match session_map s !! sid with
     | Some x => Q (tr ++ twoway_cmds x (new_relay_probe sid)) (Returned true) s'
     | None => Q tr (Returned false) s'
     end) →
  wp (calm_with f) (circuit_negotiation node remote nc join) s Q.
Proof.
  intros sid Hfail HQ. unfold circuit_negotiation, new_channel. fold sid.
  apply wp_bind_2, send_and_wait_with_wp; cbn [after].
  { intros o [-> | ->] Hun; cbn [after]; (apply Hfail; [by repeat constructor|auto|by left]). }
  intros a Ha. wp_norm. wp_step. wp_step. wp_norm. apply calm_with_call.
  { intros _ Hn. apply Hfail; [by repeat constructor|auto|]. right. intros Ht. simpl in Hn. congruence. }
  intros r _ Hr. wp_unwrap as published.
  2: { apply Hfail; [by repeat constructor|auto|]. right. intros Hn. by specialize (Hr _ Hn). }
  wp_step.
  match goal with |- wp _ _ ?s1 _ => specialize (HQ a s1 Ha) end. revert HQ. st_simpl. intros HQ.
  specialize (HQ (lookup_insert_eq _ _ _) eq_refl).
  destruct (session_map s !! sid) as [x|]; [|wp_step; exact HQ].
  wp_lift send_relay_twoway_wp. cbn [after]. wp_step. rewrite app_nil_r. exact HQ.
Qed.

(** The request to the relay to reach the sink of the negotiation. *)
Definition extension_command (node : Node) (n : Negotiate) : Command :=
  identified_command (get_id node) (cmdtype_i32 CtSessionExPend)
    (pb_encode (mkSessionExpend (neg_session_id n) (neg_join n))).

Definition extension_request (node : Node) (relay : PeerId) (n : Negotiate) : NodeRequest :=
  NrCmdRequest (mkNodeCmdRequest relay (Some (extension_command node n))).

(** What the access node does with the relay's answer. *)
Lemma extend_session_wp (f : script) node relay n s Q :
  let sid := neg_session_id n in
  let pre := [SendNodeRequest (extension_request node relay n); AwaitAck (next_handle s)] in
  let s' := set_event_bus <[command_command_id (extension_command node n) := next_handle s]>
              (bump_handle s) in
  (∀ o, o = Blocked ∨ o = Panicked → unanswered f (next_handle s) → Q pre o s') →
  (∀ a, (∀ b, f (AwaitAck (next_handle s)) = Some (Some b) → a = b) →
     if ack_result a then
       Q (pre ++ match session_map s !! sid with
                 | Some x => twoway_cmds x (new_relay_probe sid)
                 | None => []
                 end) (Returned tt) s'
     else Q (pre ++ close_cmds (session_map s !! sid)) (Returned tt) (closed sid s')) →
  wp (calm_with f) (extend_session node relay n) s Q.
Proof.
  intros sid pre s' Hfail HQ. unfold extend_session. fold sid.
  apply wp_bind_2, send_and_wait_with_wp; cbn [after].
  { intros o [-> | ->] Hun; cbn [after]; by apply Hfail; [auto|]. }
  intros a Ha. wp_norm. specialize (HQ a Ha). destruct (ack_result a); cbn [negb].
  - wp_step. change (session_map (set_event_bus _ _)) with (session_map s).
    destruct (session_map s !! sid) as [x|]; [|by wp_step]. by wp_lift send_relay_twoway_wp.
  - by wp_lift handle_close_session_wp.
Qed.

End Construction.

(** * Properties *)

Section ConstructionProperties.
Context {EXT : Ext}.

(** What an accepted circuit leaves at the entry node: the caller's session has
    the stream [w] as its later one, and the last commands are those of [nc]'s
    kind of circuit. *)
Definition circuit_accepted (node : Node) (remote : PeerId) (nc : NewCircuit) (s s' : Shared)
    (tr : list cmd) : Prop :=
  let sid := nc_session_id nc in
  is_Some (client_wn_map s !! nc_from nc) ∧
  ∃ x w tr0, session_map s !! sid = Some x ∧ ready x = false ∧ w ∈ relay_out_streams s ∧
    session_map s' = <[sid := with_later_stream x w]> (session_map s) ∧ quiet tr0 ∧
    match client_wn_map s !! nc_to nc with
    | Some ci => remote_peer_id w = peer_id ci ∧
        tr = tr0 ++ twoway_cmds (with_later_stream x w) (new_relay_circuit_success sid)
    | None => ∃ cypher rx1 rx2,
        tr = tr0 ++ [SendNodeRequest (negotiation_request node remote (remote_peer_id w) nc);
                     AwaitAck rx1;
                     SendNodeRequest (NrPublishData (pb_encode (mkEncryptedNeg (nc_to nc) cypher)) rx2);
                     AwaitBool rx2] ++
             twoway_cmds (with_later_stream x w) (new_relay_probe sid)
    end.

(** What a request for a circuit leaves, whatever its outcome. *)
Definition circuit_outcome (node : Node) (r : Request) (remote : PeerId) (s : Shared)
    (tr : list cmd) (o : outcome bool) (s' : Shared) : Prop :=
  match o with
  | Returned true => ∃ nc, pb_decode (req_data r) = Some nc ∧ circuit_accepted node remote nc s s' tr
  | Returned false => quiet tr ∧
      (session_map s' = session_map s ∨
       ∃ nc : NewCircuit, pb_decode (req_data r) = Some nc ∧
         session_map s' = delete (nc_session_id nc) (session_map s))
  | Panicked | Blocked => quiet tr
  | Running => False
  end.

Lemma circuit_to_client_wp node r remote nc ci x s :
  pb_decode (req_data r) = Some nc → is_Some (client_wn_map s !! nc_from nc) →
  session_map s !! nc_session_id nc = Some x → ready x = false →
  client_wn_map s !! nc_to nc = Some ci →
  wp calm (circuit_to_client node nc ci) s (circuit_outcome node r remote s).
Proof.
  intros Hnc Hfrom Hx Hready Hto. unfold circuit_to_client. set (sid := nc_session_id nc) in *.
  destruct (list_find (λ w, remote_peer_id w = peer_id ci) (relay_out_streams s)) as [[i w]|] eqn:Hfind.
  - wp_use (new_session_to_peer_some_wp _ _ _ _ _ i w); [exact Hfind|].
    intros conf1 conf2 us1 us2 key cmds _ _. cbn [after].
    pose proof (quiet_opening (peer_id ci) w sid AnswerRole conf1 conf2 us1 us2 (next_handle s)) as Hq.
    apply list_find_Some in Hfind as (Hi & Hpeer & _).
    split; [exact Hq|]. split; [exact Hq|]. wp_step.
    unfold join_session, joined_session, awaiting. st_simpl. rewrite lookup_insert_eq, Hx.
    wp_use send_relay_twoway_wp. cbn [after]. wp_step. exists nc. split; [done|].
    split; [done|]. exists x, w, (cmds ++ [Spawn (TaskRelayHandler w node (Some sid))]).
    split; [done|]. split; [done|]. split; [by eapply list_elem_of_lookup_2|].
    split; [done|]. split; [apply quiet_app; [done|repeat constructor]|].
    rewrite Hto, app_nil_r. done.
  - wp_use new_session_to_peer_none_wp; [exact Hfind|]. cbn [after]. wp_step. rewrite app_nil_r.
    split; [|by left]. constructor; [done|]. by apply quiet_repeat.
Qed.

Lemma circuit_to_sink_wp node r remote nc x s :
  pb_decode (req_data r) = Some nc → is_Some (client_wn_map s !! nc_from nc) →
  session_map s !! nc_session_id nc = Some x → ready x = false →
  client_wn_map s !! nc_to nc = None →
  wp calm (circuit_to_sink node r remote nc) s (circuit_outcome node r remote s).
Proof.
  intros Hnc Hfrom Hx Hready Hto. unfold circuit_to_sink, request_main_nets, new_channel.
  wp_step. wp_step. wp_step; [by repeat constructor|].
  destruct r0 as [infos|]; [|wp_step; split; [by repeat constructor|by left]].
  wp_step. wp_use try_peers_wp; cbn [after].
  - intros tr Htr. wp_norm. wp_use handle_close_session_wp. cbn [after]. wp_step.
    split; [|right; exists nc; split; [done|reflexivity]].
    repeat (constructor; [done|]). apply quiet_app; [done|]. rewrite app_nil_r. apply quiet_close.
  - intros tr i w key Htr Hi. wp_norm.
    assert (Hq : ∀ tr', quiet tr' → quiet (SendNodeRequest (NrGetMainNetsRequest (req_req_id r)
      remote 100 (next_handle s)) :: AwaitPeers (next_handle s) :: RandomPeerId :: tr ++ tr')).
    { intros tr' Htr'. repeat (constructor; [done|]). by apply quiet_app. }
    apply wp_calm_none, circuit_negotiation_wp.
    { intros tr1 o s1 Htr1 [-> | ->] _; by apply Hq. }
    intros a s1 _ _ Hs1 tr1. revert Hs1. unfold join_session, joined_session, awaiting. st_simpl.
    rewrite lookup_insert_eq, Hx. intros Hs1. exists nc. split; [done|]. split; [done|].
    eexists x, w, _. split; [done|]. split; [done|]. split; [by eapply list_elem_of_lookup_2|].
    split; [done|]. rewrite Hto. split; [apply (Hq [])|]; [constructor|].
    exists (ack_data a). eexists _, _. by rewrite !app_nil_r.
  - intros tr s1 o Htr [-> | ->]; cbn [after]; by repeat (constructor; [done|]).
Qed.

(** C13: a request for a circuit at the entry node, whatever the other nodes
    answer.  It is accepted only when the caller is registered and has a session
    that is still missing a stream; that session then has its second stream, to
    the answerer's client itself if that is registered here too, and to the sink
    otherwise; and, as the last thing, success is sent on both streams in the
    first case, and in the second, after the caller has encrypted the negotiation
    that names the sink and it was published, the probe.  When it is refused, no
    such message is sent and no session changes, but for the one of the request,
    which may be closed. *)
Theorem handle_new_circuit_spec (node : Node) (r : Request) (remote : PeerId) (s : Shared) :
  ensures calm s (handle_new_circuit node r remote) (circuit_outcome node r remote s).
Proof.
  apply wp_ensures. unfold handle_new_circuit.
  destruct (pb_decode (req_data r)) as [nc|] eqn:Hnc; [|wp_step; split; [constructor|by left]]. wp_step.
  destruct (client_wn_map s !! nc_from nc) as [from|] eqn:Hfrom.
  2: { rewrite bool_decide_true by done. wp_step. split; [constructor|by left]. }
  rewrite bool_decide_false by done. wp_step.
  destruct (session_map s !! nc_session_id nc) as [x|] eqn:Hx;
    cbn [fmap option_fmap option_map from_option negb id]; [|wp_step; split; [constructor|by left]].
  destruct (ready x) eqn:Hready; cbn [negb]; [wp_step; split; [constructor|by left]|].
  wp_step. destruct (client_wn_map s !! nc_to nc) as [ci|] eqn:Hto.
  - by eapply circuit_to_client_wp.
  - by eapply circuit_to_sink_wp.
Qed.

(** The request to the answering client for the decryption of a negotiation. *)
Definition decryption_question (node : Node) (en : EncryptedNeg) : Request :=
  identified_request (get_id node) (reqtype_i32 RqDecryptGossip)
    (pb_encode (mkDecrypt (eneg_des en) (eneg_cypher en))).

Definition decryption_request (node : Node) (ci : ClientInfo) (en : EncryptedNeg) : NodeRequest :=
  NrProxyRequest (mkNodeProxyRequest (peer_id ci) (Some (decryption_question node en)) None).

(** What the access node has done when it completes its part of a circuit: the
    answering client's stream [w] joined the session, and, unless this node is
    the sink, so did the stream to a relay, which accepted to reach the sink. *)
Definition access_done (f : script) (node : Node) (ci : ClientInfo) (n : Negotiate) (s s' : Shared)
    (tr : list cmd) : Prop :=
  let sid := neg_session_id n in
  ∃ w tr0, w ∈ relay_out_streams s ∧ remote_peer_id w = peer_id ci ∧ quiet tr0 ∧
    let y := joined_session (session_map s !! sid) sid (role_i32 AccessRole) w in
    if decide (neg_join n = get_id node) then
      session_map s' = <[sid := y]> (session_map s) ∧
      tr = tr0 ++ twoway_cmds y (new_relay_circuit_success sid)
    else ∃ w2 rx, w2 ∈ relay_out_streams s ∧
      session_map s' = <[sid := with_later_stream y w2]> (session_map s) ∧
      (∀ b, f (AwaitAck rx) = Some (Some b) → ack_result b = true) ∧
      tr = tr0 ++ [SendNodeRequest (extension_request node (remote_peer_id w2) n); AwaitAck rx] ++
           twoway_cmds (with_later_stream y w2) (new_relay_probe sid).

Lemma list_elem_of_rotated {A} (l : list A) i x : x ∈ drop (S i) l ++ take i l → x ∈ l.
Proof.
  intros [Hin|Hin]%elem_of_app.
  - eapply elem_of_submseteq; [exact Hin|]. apply sublist_submseteq, sublist_drop.
  - eapply elem_of_submseteq; [exact Hin|]. apply sublist_submseteq, sublist_take.
Qed.

(** Its part after the answering client's stream has joined. *)
Lemma access_circuit_wp (f : script) node des n w i key s Q :
  let sid := neg_session_id n in
  let y := joined_session (session_map s !! sid) sid (role_i32 AccessRole) w in
  let s1 := join_session sid (role_i32 AccessRole) w (awaiting i key s) in
  (∀ tr o s', quiet tr → o ≠ Running → Q tr o s') →
  (neg_join n = get_id node →
     Q (twoway_cmds y (new_relay_circuit_success sid)) (Returned tt) s1) →
  (neg_join n ≠ get_id node → ∀ tr0 w2 rx s',
     quiet tr0 → w2 ∈ relay_out_streams s →
     session_map s' = <[sid := with_later_stream y w2]> (session_map s) →
     (∀ b, f (AwaitAck rx) = Some (Some b) → ack_result b = true) →
     Q (tr0 ++ [SendNodeRequest (extension_request node (remote_peer_id w2) n); AwaitAck rx] ++
        twoway_cmds (with_later_stream y w2) (new_relay_probe sid)) (Returned tt) s') →
  wp (calm_with f) (access_circuit node des n) s1 Q.
Proof.
  intros sid y s1 HQ Hsink Hrelay.
  assert (Hs1 : session_map s1 !! sid = Some y).
  { unfold s1, join_session, awaiting. st_simpl. by rewrite lookup_insert_eq. }
  unfold access_circuit. fold sid. case_decide as Hjoin.
  - wp_step. rewrite Hs1. wp_lift send_relay_twoway_wp. by apply Hsink.
  - unfold request_main_nets, new_channel. wp_step. wp_step. wp_step.
    wp_norm. apply calm_with_call; [by intros; apply HQ; repeat constructor|]. intros r0 _ _.
    destruct r0 as [infos|]; [|wp_step; by apply HQ; repeat constructor].
    wp_step. wp_lift try_peers_wp; cbn [after].
    + intros tr Htr. wp_norm. wp_lift handle_close_session_wp. apply HQ; [|done].
      repeat (constructor; [done|]). apply quiet_app; [done|apply quiet_close].
    + intros tr i2 w2 key2 Htr Hi2. wp_norm.
      apply extend_session_wp.
      * intros o Ho _. apply HQ; [|by destruct Ho as [-> | ->]]. repeat (constructor; [done|]).
        apply quiet_app; [done|by repeat constructor].
      * intros a Hf. destruct (ack_result a) eqn:Ha.
        -- unfold join_session, joined_session, awaiting. st_simpl.
           rewrite lookup_insert_eq. change (session_map (bump_handle s1)) with (session_map s1).
           rewrite Hs1. refine (Hrelay Hjoin (_ :: _ :: _ :: _ :: tr) w2 _ _ _ _ _ _).
           ++ by repeat (constructor; [done|]).
           ++ eapply list_elem_of_rotated, list_elem_of_lookup_2, Hi2.
           ++ unfold s1, join_session, awaiting. st_simpl. by rewrite insert_insert_eq.
           ++ intros b Hb. by rewrite <- (Hf b Hb).
        -- apply HQ; [|done]. repeat (constructor; [done|]). apply quiet_app; [done|].
           repeat (constructor; [done|]). apply quiet_close.
    + intros tr s2 o Htr Ho. destruct Ho as [-> | ->]; cbn [after]; apply HQ; try done;
        by repeat (constructor; [done|]).
Qed.

(** Its part from the decrypted negotiation on. *)
Lemma access_session_wp (f : script) node ci des n s Q :
  (∀ tr o s', quiet tr → o ≠ Running → Q tr o s') →
  (∀ tr s', access_done f node ci n s s' tr → Q tr (Returned tt) s') →
  wp (calm_with f) (wraped_stream_opt ← new_session_to_peer node (peer_id ci) (neg_session_id n)
             AccessRole AnswerRole;
           match wraped_stream_opt with
           | None => handle_close_session (neg_session_id n)
           | Some _ => access_circuit node des n
           end) s Q.
Proof.
  intros Hquiet Hdone.
  destruct (list_find (λ w, remote_peer_id w = peer_id ci) (relay_out_streams s)) as [[i w]|] eqn:Hfind.
  - wp_lift (new_session_to_peer_some_wp _ _ _ _ _ i w); [exact Hfind|].
    intros conf1 conf2 us1 us2 key cmds _ _. cbn [after].
    pose proof (quiet_opening (peer_id ci) w (neg_session_id n) AnswerRole conf1 conf2 us1 us2
                  (next_handle s)) as Hq.
    apply list_find_Some in Hfind as (Hi & Hpeer & _). apply list_elem_of_lookup_2 in Hi.
    split; [by apply Hquiet|]. split; [by apply Hquiet|].
    set (pre := cmds ++ [Spawn (TaskRelayHandler w node (Some (neg_session_id n)))]).
    assert (Hpre : quiet pre) by (apply quiet_app; [done|by repeat constructor]).
    apply access_circuit_wp.
    + intros tr o s' Htr Ho. apply Hquiet; [|done]. by apply quiet_app.
    + intros Hjoin. apply Hdone. exists w, pre. split_and!; [done..|]. by rewrite decide_True.
    + intros Hjoin tr0 w2 rx s' Htr0 Hw2 Hs' Hb. apply Hdone. exists w, (pre ++ tr0).
      split; [done|]. split; [done|]. split; [by apply quiet_app|].
      rewrite decide_False by done. exists w2, rx. split_and!; [done..|]. by rewrite <- app_assoc.
  - wp_lift new_session_to_peer_none_wp; [exact Hfind|]. cbn [after].
    wp_lift handle_close_session_wp. apply Hquiet; [|done]. constructor; [done|].
    apply quiet_app; [by apply quiet_repeat|apply quiet_close].
Qed.

Lemma access_done_app (f : script) pre node ci n s s' tr :
  quiet pre → access_done f node ci n s s' tr → access_done f node ci n s s' (pre ++ tr).
Proof.
  intros Hpre (w & tr0 & Hw & Hpeer & Htr0 & Hend). exists w, (pre ++ tr0).
  split; [done|]. split; [done|]. split; [by apply quiet_app|]. revert Hend. cbv zeta. case_decide.
  - intros [Hs ->]. split; [done|]. by rewrite app_assoc.
  - intros (w2 & rx & Hw2 & Hs & Hb & ->). exists w2, rx. split_and!; [done..|]. by rewrite <- app_assoc.
Qed.

(** The first half of the handler: the client decrypts the negotiation. *)
Lemma handle_gossip_wp (f : script) node data en ci a n s Q :
  pb_decode data = Some en → client_wn_map s !! eneg_des en = Some ci →
  f (AwaitAck (next_handle s)) = Some (Some a) → ack_result a = true →
  pb_decode (ack_data a) = Some n →
  (wp (calm_with f)
     (wraped_stream_opt ← new_session_to_peer node (peer_id ci) (neg_session_id n) AccessRole AnswerRole;
      match wraped_stream_opt with
      | None => handle_close_session (neg_session_id n)
      | Some _ => access_circuit node (eneg_des en) n
      end)
     (set_event_bus <[req_req_id (decryption_question node en) := next_handle s]> (bump_handle s))
     (λ tr, Q (SendNodeRequest (decryption_request node ci en) :: AwaitAck (next_handle s) :: tr))) →
  wp (calm_with f) (handle_gossip node data) s Q.
Proof.
  intros Hen Hci Hf Ha Hn HQ. unfold handle_gossip. rewrite Hen. wp_norm. wp_step. rewrite Hci.
  rewrite bool_decide_true by eauto. wp_step. rewrite Hci. wp_norm.
  apply wp_bind_2. apply send_and_wait_script_wp with (a := a); [exact Hf|]. cbn [after].
  rewrite Ha. cbn [negb]. rewrite Hn. wp_norm. apply HQ.
Qed.

(** C14: the access node and a negotiation for one of its clients that the client
    could decrypt, whatever the other nodes answer after that.  It never sends a
    probe or a success before its part of the circuit is there, and when it
    sends one, as the last thing, the client's stream is in the session and:
    either it is the sink itself, and success goes to every stream of the
    session, or a relay, whose stream is the later one, has accepted to reach
    the sink, and the probe goes to both. *)
Theorem handle_gossip_spec (f : script) (node : Node) (data : bytes) (en : EncryptedNeg)
    (ci : ClientInfo) (a : Ack) (n : Negotiate) (s : Shared) :
  pb_decode data = Some en → client_wn_map s !! eneg_des en = Some ci →
  f (AwaitAck (next_handle s)) = Some (Some a) → ack_result a = true →
  pb_decode (ack_data a) = Some n →
  ensures (calm_with f) s (handle_gossip node data) (λ tr o s',
    o ≠ Running ∧
    (∃ tr', tr = SendNodeRequest (decryption_request node ci en) :: AwaitAck (next_handle s) :: tr') ∧
    (quiet tr ∨ o = Returned tt ∧ access_done f node ci n s s' tr)).
Proof.
  intros Hen Hci Hf Ha Hn. apply wp_ensures. eapply handle_gossip_wp; [done..|].
  apply access_session_wp.
  - intros tr o s' Htr Ho. split; [done|]. split; [eauto|]. left. by repeat constructor.
  - intros tr s' Hdone. split; [done|]. split; [eauto|]. right. split; [done|].
    by apply (access_done_app f [_; _]); [repeat constructor|].
Qed.

(** When this node is the sink, has a stream to the client, and the
    client acknowledges, the circuit is completed. *)
Theorem gossip_completes_at_sink (f : script) (node : Node) (data : bytes) (en : EncryptedNeg)
    (ci : ClientInfo) (a b : Ack) (n : Negotiate) (i : nat) (w : WrappedStream) (s : Shared) :
  pb_decode data = Some en → client_wn_map s !! eneg_des en = Some ci →
  f (AwaitAck (next_handle s)) = Some (Some a) → ack_result a = true →
  pb_decode (ack_data a) = Some n → neg_join n = get_id node →
  list_find (λ w, remote_peer_id w = peer_id ci) (relay_out_streams s) = Some (i, w) →
  f (AwaitAck (S (next_handle s))) = Some (Some b) →
  ensures (calm_with f) s (handle_gossip node data) (λ tr o s', o = Returned tt ∧
    let sid := neg_session_id n in
    let y := joined_session (session_map s !! sid) sid (role_i32 AccessRole) w in
    session_map s' = <[sid := y]> (session_map s) ∧
    ∃ tr0, tr = tr0 ++ twoway_cmds y (new_relay_circuit_success sid)).
Proof.
  intros Hen Hci Hf Ha Hn Hjoin Hfind Hg. apply wp_ensures. eapply handle_gossip_wp; [done..|].
  apply wp_bind_2. eapply new_session_acked_wp; [exact Hg|exact Hfind|].
  intros conf1 conf2 us1 us2 key2 cmds. cbn [after]. unfold access_circuit.
  rewrite decide_True by done. wp_step. unfold join_session, joined_session, awaiting. st_simpl.
  rewrite lookup_insert_eq. apply wp_calm_with, send_relay_twoway_wp. split; [done|]. split; [done|].
  by eexists (_ :: _ :: cmds ++ [_]).
Qed.

End ConstructionProperties.

Section ConstructionWitnesses.
Local Existing Instance toy.

Definition toy_neg : Negotiate := mkNegotiate (get_id toy_node) "sid" "dest" [].
Definition toy_client : ClientInfo := mkClientInfo "0wn" ("c"%string : PeerId) 1 3600.

(** The node is the sink of the session and has a stream to its client. *)
Definition toy_access_state : Shared :=
  set_relay_out (λ _, [toy_stream "c" "3"])
    (set_client_wn <["dest"%string := toy_client]>
       (set_session_map <["sid"%string := mkSession "sid"
          (mkPairStream (Some (toy_stream "e" "1")) None) (role_i32 SinkRole)]> empty_shared)).

Definition toy_gossip : bytes := pb_encode (mkEncryptedNeg "dest" [x01]).
Definition toy_decrypted : Ack := mkAck "id" true (pb_encode toy_neg).

Lemma handle_gossip_spec_witness :
  acks toy_decrypted (AwaitAck (next_handle toy_access_state)) = Some (Some toy_decrypted) ∧
  ensures (calm_with (acks toy_decrypted)) toy_access_state (handle_gossip toy_node toy_gossip)
    (λ _ o _, o ≠ Running).
Proof.
  split; [reflexivity|]. intros e n He.
  exact (proj1 (handle_gossip_spec (acks toy_decrypted) toy_node toy_gossip
    (mkEncryptedNeg "dest" [x01]) toy_client toy_decrypted toy_neg toy_access_state
    (toy_codec_roundtrip EncryptedNeg _) eq_refl eq_refl eq_refl
    (toy_codec_roundtrip Negotiate toy_neg) e n He)).
Defined.

Lemma gossip_completes_at_sink_witness :
  let w := toy_stream "c" "3" in
  let y := mkSession "sid" (mkPairStream (Some (toy_stream "e" "1")) (Some w)) (role_i32 SinkRole) in
  neg_join toy_neg = get_id toy_node ∧
  ensures (calm_with (acks toy_decrypted)) toy_access_state (handle_gossip toy_node toy_gossip)
    (λ tr o s', o = Returned tt ∧
       ∃ tr0, tr = tr0 ++ [Spawn (TaskWriteRelay (toy_stream "e" "1") (new_relay_circuit_success "sid"));
                           Spawn (TaskWriteRelay w (new_relay_circuit_success "sid"))]).
Proof.
  intros w y. split; [reflexivity|]. intros e n He.
  destruct (gossip_completes_at_sink (acks toy_decrypted) toy_node toy_gossip
    (mkEncryptedNeg "dest" [x01]) toy_client toy_decrypted toy_decrypted toy_neg 0 w toy_access_state
    (toy_codec_roundtrip EncryptedNeg _) eq_refl eq_refl eq_refl
    (toy_codec_roundtrip Negotiate toy_neg) eq_refl eq_refl eq_refl e n He) as (Ho & _ & tr0 & Htr).
  split; [exact Ho|]. exists tr0. exact Htr.
Defined.

End ConstructionWitnesses.
