(* ===== verification/Negotiation.v ===== *)
(** * The agreement of the nodes of a circuit

    The messages with which the nodes of a circuit come to the same session and
    the same sink, each followed from the task that makes it to the task that
    acts on it: the negotiation, from the entry node through the caller, the
    gossip topic and the answering client to the access node
    (src/network/proxy_event_handler.rs, publish_event_handler.rs), and the
    extension of the session from the access node through its relay to the sink
    (publish_event_handler.rs, cmd_event_handler.rs). *)

From S2P Require Import Prelude Proto External State Io Packing Concrete Utils Connection Account Node.
From S2P Require Import RelayEvents Proxy Publish Commands RelayBehaviour Behaviour Exchange System.
From S2P Require Import Construction.

Section Negotiation.
Context {EXT : Ext}.

(** A publication on its way: the event loop of the publishing server, and the
    behaviour of a server that gets it from the topic. *)
Definition gossip_travels (data : bytes) (rx : nat) : Prop :=
  (∀ relay s, ensures calm s (server_serve relay (NrPublishData data rx))
     (λ tr o _, o = Returned relay ∧
        tr = [SwarmCall (GossipPublish "noise_topic" data); SwarmCall (ReplyBool rx true)])) ∧
  (∀ s, ensures calm s (server_inject_event (SvGossip (GsMessage data)))
     (λ tr o s', o = Returned tt ∧ s' = s ∧ tr = [SendGossip data])).

Lemma gossip_travels_always data rx : gossip_travels data rx.
Proof.
  split; intros; apply wp_ensures.
  - unfold server_serve. by wp_steps.
  - cbn [server_inject_event inject_gossip_event]. by wp_steps.
Qed.

(** The state of a task that waits for the acknowledgement of the command [key]. *)
Definition asking (key : string) (s : Shared) : Shared :=
  set_event_bus <[key := next_handle s]> (bump_handle s).

Lemma asked_ack_travels a b (x : Ack) key s :
  ack_command_id x = key → ack_travels a b x (next_handle s) (asking key s).
Proof. intros <-. apply ack_travels_registered, lookup_insert_eq. Qed.

(** The replies of a caller that acknowledges with [x], and of an event loop
    that publishes. *)
Definition publishes (x : Ack) : script :=
  λ c, match c return option (reply c) with
       | AwaitAck _ => Some (Some x)
       | AwaitBool _ => Some (Some true)
       | _ => None
       end.

(** The proxy task on the two requests of a negotiation. *)
Lemma neg_plaintext_request node (e : PeerId) entry join nc :
  handle_proxy_request node (mkNodeProxyRequest e (Some (negotiation_question entry join nc)) None) =
    handle_neg_plaintext (negotiation_question entry join nc) e.
Proof. reflexivity. Qed.

Lemma decrypt_request node (a : PeerId) access en :
  handle_proxy_request node (mkNodeProxyRequest a (Some (decryption_question access en)) None) =
    handle_decrypt_gossip node (decryption_question access en) a.
Proof. reflexivity. Qed.

(** The second half of a negotiation, from its publication [en]: the access node
    [a] asks its client, whose task acknowledges to the channel the access node
    waits on; with that acknowledgement, the access node completes its part of
    the circuit of [n], or sends no signal. *)
Definition answered (access answerer : Node) (a : PeerId) (ci : ClientInfo) (en : EncryptedNeg)
    (n : Negotiate) (sA sD : Shared) : Prop :=
  let question := decryption_question access en in
  request_travels a (peer_id ci) question ∧
  ensures calm sD (handle_proxy_request answerer (mkNodeProxyRequest a (Some question) None)) (λ trD oD _,
    oD = Returned tt ∧ ∃ x, trD = [SendNodeRequest (NrAckRequest (mkNodeAckRequest a (Some x)))] ∧
    ack_travels a (peer_id ci) x (next_handle sA) (asking (req_req_id question) sA) ∧
  ∀ f : script, f (AwaitAck (next_handle sA)) = Some (Some x) →
  ensures (calm_with f) sA (handle_gossip access (pb_encode en)) (λ trA oA sA',
    (∃ tr, trA = SendNodeRequest (NrProxyRequest (mkNodeProxyRequest (peer_id ci) (Some question) None)) ::
                 AwaitAck (next_handle sA) :: tr) ∧ oA ≠ Running ∧
    (quiet trA ∨ oA = Returned tt ∧ access_done f access ci n sA sA' trA))).

Lemma answered_decrypts `{!CodecLaws} access answerer a ci en n sA sD :
  decrypts_to (keypair answerer) (eneg_cypher en) (pb_encode n) →
  client_wn_map sA !! eneg_des en = Some ci → answered access answerer a ci en n sA sD.
Proof.
  intros Hdec Hci. unfold answered. split; [apply request_travels_always|].
  apply wp_ensures. rewrite decrypt_request.
  eapply decrypt_gossip_wp; [exact Hdec|apply pb_decode_encode|apply pb_decode_encode|].
  split; [done|]. eexists. split; [reflexivity|]. split; [by apply asked_ack_travels|].
  intros f Hf. apply wp_ensures.
  eapply handle_gossip_wp; [apply pb_decode_encode|exact Hci|exact Hf|done|apply pb_decode_encode|].
  apply access_session_wp.
  - intros tr o s' Htr Ho. split; [eauto|]. split; [done|]. left. by repeat constructor.
  - intros tr s' Hdone. split; [eauto|]. split; [done|]. right. split; [done|].
    by apply (access_done_app f [_; _]); [repeat constructor|].
Qed.

(** The access node's end of an extension, with the relay's acknowledgement. *)
Definition extended (access : Node) (a r : PeerId) (n : Negotiate) (x : Ack) (s : Shared) : Prop :=
  let sid := neg_session_id n in
  ensures (calm_with (acks x)) s (extend_session access r n) (λ tr o s', o = Returned tt ∧
    ack_travels a r x (next_handle s) s' ∧ ∃ tail,
    tr = [SendNodeRequest (extension_request access r n); AwaitAck (next_handle s)] ++ tail ∧
    if ack_result x
    then session_map s' = session_map s ∧
         ∀ y, session_map s !! sid = Some y → tail = twoway_cmds y (new_relay_probe sid)
    else session_map s' !! sid = None ∧ tail = close_cmds (session_map s !! sid)).

Lemma extended_acked access a r n x s :
  ack_command_id x = command_command_id (extension_command access n) → extended access a r n x s.
Proof.
  intros Hx. apply wp_ensures, extend_session_wp; [by intros o _ Hun; destruct (Hun x)|].
  intros b Hb. rewrite (Hb x eq_refl). destruct (ack_result x).
  - split; [done|]. split; [apply ack_travels_registered; rewrite Hx; apply lookup_insert_eq|].
    eexists. split; [reflexivity|]. split; [done|]. intros y Hy. by rewrite Hy.
  - split; [done|]. split; [apply ack_travels_registered; rewrite Hx; apply lookup_insert_eq|].
    eexists. split; [reflexivity|]. split; [apply lookup_delete_eq|done].
Qed.

End Negotiation.

(** * Properties *)

Section NegotiationProperties.
Context {EXT : Ext} `{!CodecLaws, !Base58Laws, !EciesLaws, !EdEciesLaws}.

(** C18: the negotiation, from the entry to the access node.  The entry node,
    which has chosen the sink [join], asks the caller to encrypt the negotiation
    that names it; the caller, which dialled the identity [wn], does; the entry
    node publishes what the caller acknowledged and sends its probe; the access
    node of the answering client, given that publication, asks the client for
    the decryption, which the client, if it has the identity that was dialled,
    acknowledges; and the access node then either completes its part of the
    circuit for the very session and sink of the entry node's negotiation, or
    sends no signal at all.  Every acknowledgement finds the task that waits for
    it. *)
Theorem negotiation_agrees (k : Keypair) (wn : string) (composit : bytes)
    (entry caller access answerer : Node) (e c a join : PeerId) (nc : NewCircuit) (ci : ClientInfo)
    (sE sC sA sD : Shared) :
  from_keypair_to_whitenoise_id k = Some wn → composit_bytes wn = Some composit → keypair answerer = k →
  circuit_task sC !! nc_session_id nc = Some composit → client_wn_map sA !! nc_to nc = Some ci →
  let question := negotiation_question entry join nc in
  request_travels e c question ∧
  ensures calm sC (handle_proxy_request caller (mkNodeProxyRequest e (Some question) None)) (λ trC oC _,
    oC = Returned tt ∧ ∃ x, trC = [Csprng; SendNodeRequest (NrAckRequest (mkNodeAckRequest e (Some x)))] ∧
  ensures (calm_with (publishes x)) sE (circuit_negotiation entry c nc join) (λ trE oE sE',
    ack_travels e c x (next_handle sE) sE' ∧
    ∃ en rx probe, trE = [SendNodeRequest (NrProxyRequest (mkNodeProxyRequest c (Some question) None));
                          AwaitAck (next_handle sE);
                          SendNodeRequest (NrPublishData (pb_encode en) rx); AwaitBool rx] ++ probe ∧
    (∀ y, session_map sE !! nc_session_id nc = Some y → oE = Returned true ∧
       probe = twoway_cmds y (new_relay_probe (nc_session_id nc))) ∧
    gossip_travels (pb_encode en) rx ∧ answered access answerer a ci en (negotiation join nc) sA sD)).
Proof.
  intros Hid Hcomp <- Htask Hci question. split; [apply request_travels_always|].
  apply wp_ensures. unfold question. rewrite neg_plaintext_request.
  set (plain := mkNegPlaintext (nc_session_id nc) (pb_encode (negotiation join nc))).
  eapply (neg_plaintext_wp _ _ _ _ _ plain); [exact Hid|exact Hcomp|exact Htask|apply pb_decode_encode|].
  intros cypher Hdec. split; [done|]. eexists. split; [reflexivity|]. set (x := mkAck _ _ _).
  apply wp_ensures, circuit_negotiation_wp; [by intros tr o s' _ _ [Hun|Hn]; [destruct (Hun x)|destruct Hn]|].
  intros b sE' Hb Hbus _. rewrite (Hb x eq_refl). cbn [ack_data x].
  assert (Htravels : ack_travels e c x (next_handle sE) sE') by by apply ack_travels_registered.
  destruct (session_map sE !! nc_session_id nc) as [y|]; (split; [exact Htravels|]);
    exists (mkEncryptedNeg (nc_to nc) cypher), (S (next_handle sE)); eexists; (split; [reflexivity|]);
    (split; [by intros y' Hy'; simplify_eq|]); (split; [apply gossip_travels_always|]);
    by apply answered_decrypts.
Qed.

(** C23: the extension of a session to the sink.  The command of the access node
    reaches the relay's command task.  When that is done it has acknowledged, to
    the channel the access node waits on: positively if its session now has both
    of its streams, and otherwise the session is gone.  With the acknowledgement
    the access node sends its probe on both of its streams if it is positive, and
    closes its own session otherwise; so the two nodes keep the session together
    or give it up together. *)
Theorem extension_agrees (access relay : Node) (a r : PeerId) (n : Negotiate) (sA sR : Shared) :
  wf anything sR →
  let sid := neg_session_id n in
  let c := extension_command access n in
  command_travels a r c ∧
  ensures calm sR (handle_cmd_request relay (mkNodeCmdRequest a (Some c))) (λ tr o s', o = Returned tt →
    ∃ x, SendNodeRequest (NrAckRequest (mkNodeAckRequest a (Some x))) ∈ tr ∧
    (if ack_result x then ∃ y, session_map s' !! sid = Some y ∧ ready y = true
     else session_map s' !! sid = None) ∧
    extended access a r n x sA).
Proof.
  intros Hwf sid c. split; [apply command_travels_always|].
  change (handle_cmd_request relay _) with (handle_session_expend relay c a).
  eapply ensures_mono; [apply handle_session_expend_spec, pb_decode_encode|].
  cbn [expend_session_id expend_peer_id]. fold sid. intros tr o s' Hspec ->.
  assert (Hext : ∀ res data, extended access a r n (mkAck (command_command_id c) res data) sA)
    by (intros; by apply extended_acked).
  destruct (session_map sR !! sid) as [x|] eqn:Hx.
  2: { destruct Hspec as (_ & -> & ->). eexists. split; [by left|]. split; [apply lookup_delete_eq|done]. }
  destruct (ready x) eqn:Hready.
  { destruct Hspec as (_ & -> & ->). eexists. split; [by left|]. split; [by exists x|done]. }
  destruct (peer_id_of_string (neg_join n)) as [sink|]; [|by destruct Hspec].
  destruct (list_find _ _) as [[i w]|].
  - destruct Hspec as (d0 & d & key & -> & Htr). eexists. split.
    { apply effects_elem. rewrite Htr. apply elem_of_app. right. right. by left. }
    split; [|apply Hext]. exists (with_later_stream x w). cbn [ack_result]. split; [apply lookup_insert_eq|].
    destruct (wf_session _ _ Hwf _ _ Hx) as [_ Hearly]. unfold ready. simpl.
    by rewrite !bool_decide_true.
  - destruct Hspec as (_ & -> & Htr). eexists. split.
    { apply effects_elem. rewrite Htr. right. apply elem_of_app. right. by left. }
    split; [apply lookup_delete_eq|apply Hext].
Qed.

End NegotiationProperties.

Section NegotiationWitnesses.
Local Existing Instance toy.

Definition toy_circuit : NewCircuit := mkNewCircuit "from" "dest" "sid".

(** The caller has dialled the identity of [toy_node]; the answerer is a client
    of the access node. *)
Definition toy_caller_state : Shared := set_circuit_task <["sid"%string := [x30; x01]]> empty_shared.

Lemma negotiation_agrees_witness :
  let question := negotiation_question toy_server "join"%string toy_circuit in
  from_keypair_to_whitenoise_id toy_keys = Some (String.append "0" (toy_base [x01])) ∧
  circuit_task toy_caller_state !! nc_session_id toy_circuit = Some [x30; x01] ∧
  ensures calm toy_caller_state
    (handle_proxy_request toy_node (mkNodeProxyRequest "entry"%string (Some question) None)) (λ tr o _,
    o = Returned tt ∧ ∃ x,
    tr = [Csprng; SendNodeRequest (NrAckRequest (mkNodeAckRequest "entry"%string (Some x)))]).
Proof.
  intros question. split; [reflexivity|]. split; [reflexivity|]. intros e n He.
  destruct (@negotiation_agrees toy toy_codec_laws toy_base58_laws toy_ecies_laws toy_ed_ecies_laws toy_keys
    (String.append "0" (toy_base [x01])) [x30; x01] toy_server toy_node toy_server toy_node "entry"%string
    "caller"%string "access"%string "join"%string toy_circuit toy_client empty_shared toy_caller_state
    toy_access_state empty_shared eq_refl eq_refl eq_refl eq_refl eq_refl) as (_ & Hcaller).
  destruct (Hcaller e n He) as (Ho & x & Htr & _). split; [exact Ho|]. exists x. exact Htr.
Defined.

(** The relay is the entry node, whose session has both of its streams. *)
Definition toy_relay_state : Shared :=
  set_session_map <["sid"%string := mkSession "sid"
    (mkPairStream (Some (toy_stream "e" "1")) (Some (toy_stream "j" "2"))) (role_i32 EntryRole)]> empty_shared.

Lemma extension_agrees_witness :
  let c := extension_command toy_node toy_neg in
  wf anything toy_relay_state ∧
  ensures calm toy_relay_state (handle_cmd_request toy_server (mkNodeCmdRequest "a"%string (Some c)))
    (λ tr o s', o = Returned tt →
       ∃ x, SendNodeRequest (NrAckRequest (mkNodeAckRequest "a"%string (Some x))) ∈ tr).
Proof.
  intros c.
  assert (Hwf : wf anything toy_relay_state) by (apply wf_insert_session; [reflexivity|by eexists|apply wf_empty]).
  split; [exact Hwf|]. intros e n He Ho.
  destruct (@extension_agrees toy toy_codec_laws toy_node toy_server "a"%string "r"%string toy_neg empty_shared
    toy_relay_state Hwf) as (_ & Hrelay).
  destruct (Hrelay e n He Ho) as (x & Hin & _). exists x. exact Hin.
Defined.

End NegotiationWitnesses.
