(* ===== verification/Signals.v ===== *)
(** * The signals of a circuit on their way

    Probes and success messages through the nodes between the ends of a circuit:
    [travels] of [Delivery] for the two signals, and the completion of a circuit
    from the probes the entry and the access node write to the handshakes at the
    caller and the answerer (src/network/relay_event_handler.rs,
    handle_relay_probe and handle_success; src/network/utils.rs, forward_relay
    and send_relay_twoway). *)

From S2P Require Import Prelude Proto External State Io Packing Concrete Utils Connection Node RelayEvents.
From S2P Require Import RelayBehaviour Behaviour Opening Delivery Circuit.

Section Signals.
Context {EXT : Ext}.

(** The node passes the signals of the session on: it has it with both streams
    and is neither an end of the circuit nor its sink. *)
Definition passes (sid : string) (h : hop) : Prop :=
  ∃ x, session_map (hop_state h) !! sid = Some x ∧ ready x = true ∧
       session_role x ≠ role_i32 AnswerRole ∧ session_role x ≠ role_i32 CallerRole ∧
       session_role x ≠ role_i32 SinkRole ∧
       other_stream x (stream_id (hop_in h)) = Some (hop_out h).

(** The two signals of a session. *)
Inductive signal (sid : string) : Relay → Prop :=
| signal_probe : signal sid (new_relay_probe sid)
| signal_success : signal sid (new_relay_circuit_success sid).

(** Their types, and their lengths when the session id is not too long for a frame. *)
Lemma signal_type sid r : signal sid r → ∃ t, relay_type r = relaytype_i32 t ∧ t ≠ RtSetSessionId.
Proof. intros []; by eexists. Qed.

Lemma signal_length `{!SizeLaws} sid r :
  signal sid r → length (as_bytes sid) ≤ 3563 → length (relay_data r) ≤ 3617.
Proof.
  intros [] Hsid.
  - destruct (probe_length (mkProbeSignal sid (probe_rand sid))) as [_ Hhigh]. cbn [probe_session_id probe_data] in Hhigh.
    change (relay_data _) with (pb_encode (mkProbeSignal sid (probe_rand sid))).
    assert (length (probe_rand sid) = 32) by (unfold probe_rand, sha2_256; by rewrite length_drop, multihash_length).
    lia.
  - destruct (success_length (mkCircuitSuccess sid)) as [_ Hhigh]. cbn [csucc_session_id] in Hhigh.
    change (relay_data _) with (pb_encode (mkCircuitSuccess sid)). lia.
Qed.

(** Nodes that pass the signals of the session on do so. *)
Lemma passes_forward `{!CodecLaws} sid r path :
  signal sid r → Forall (passes sid) path →
  Forall (λ h, ∀ d, frame_of r d →
    ensures (calm_with (reads d)) (hop_state h) (hop_step sid h) (forwards sid r h)) path.
Proof.
  intros Hr. apply Forall_impl.
  intros h (x & Hx & Hready & Hans & Hcall & Hsink & Hother) d (m & Hd & Hty & Hdata & Hnext)%frame_decoded.
  apply wp_ensures. unfold hop_step. eapply relay_step_wp; [exact Hd|].
  unfold relay_dispatch. rewrite Hty. destruct Hr.
  - repeat rewrite decide_False by done. rewrite decide_True by done. wp_norm. apply wp_bind_2.
    unfold handle_relay_probe. rewrite Hdata.
    change (relay_data (new_relay_probe sid)) with (pb_encode (mkProbeSignal sid (probe_rand sid))).
    rewrite pb_decode_encode. wp_norm. wp_step. rewrite Hx, (proj2 (role_is_false _ _)), Hready by done.
    eapply forwards_wp; [done..|]. intros tr (d' & Hd' & Htr). cbn [after]. wp_step.
    split; [done|]. split; [done|]. exists d'. split; [done|]. rewrite app_nil_r. simpl. by rewrite Htr.
  - repeat rewrite decide_False by done. rewrite decide_True by done. wp_norm. apply wp_bind_2.
    unfold handle_success. rewrite Hdata.
    change (relay_data (new_relay_circuit_success sid)) with (pb_encode (mkCircuitSuccess sid)).
    rewrite pb_decode_encode. cbn [csucc_session_id]. wp_step. rewrite Hx, !(proj2 (role_is_false _ _)), Hready by done.
    eapply forwards_wp; [done..|]. intros tr (d' & Hd' & Htr). cbn [after]. wp_step.
    split; [done|]. split; [done|]. exists d'. split; [done|]. rewrite app_nil_r. simpl. by rewrite Htr.
Qed.

Lemma frame_conveys `{!CodecLaws} r d : frame_of r d → conveys d r.
Proof. intros (m & Hd & Hty & Hdata & _)%frame_decoded. by exists m. Qed.

Lemma travels_conveys `{!CodecLaws, !SizeLaws} sid v w path d d' r :
  signal sid r → Forall (passes sid) path → frame_of r d → travels sid v w path d d' → conveys d' r.
Proof.
  intros Hr Hpath Hd Ht. destruct (signal_type _ _ Hr) as (t & Hty & Hset).
  destruct (travels_frame sid r t Hty Hset path (passes_forward _ _ _ Hr Hpath) _ _ _ _ Hd Ht) as [Hd' _].
  by apply frame_conveys.
Qed.

(** A signal written on a stream. *)
Lemma write_signal_ensures w r s :
  ensures calm s (write_relay_arc w r) (λ tr o s', s' = s ∧
    ∃ d, effects tr = [OutSend w (WdData d)] ∧ frame_of r d).
Proof.
  apply wp_ensures, write_relay_arc_wp. intros confusion us Hc _. split; [done|]. eexists.
  split; [apply effects_write_cmds|by apply frame_sealed].
Qed.

End Signals.

(** * Properties *)

Section SignalsProperties.
Context {EXT : Ext} `{!CodecLaws, !SizeLaws}.

(** C10: the completion of a circuit, from end to end.  The probes the entry and
    the access node write, whatever way they take to the sink through nodes of
    the session, and in whatever form they come, make the sink announce success on
    its streams; and the success it writes on each of them, whatever way it takes
    through nodes of the session, makes the end of the circuit it reaches start
    the handshake, as initiator at the caller and as responder at the answerer.
    A path of such nodes does deliver a signal, unless the session id is too long
    for the frames a poll task reads. *)
Theorem circuit_established (sid : string) (we wa w1 w2 : WrappedStream) (sink : Node)
    (sE sA s : Shared) (x : Session) :
  session_map s !! sid = Some x → session_role x = role_i32 SinkRole → probe_map s !! sid = None →
  ensures calm sE (write_relay_arc we (new_relay_probe sid)) (λ trE _ _, ∃ dE,
    effects trE = [OutSend we (WdData dE)] ∧
  ensures calm sA (write_relay_arc wa (new_relay_probe sid)) (λ trA _ _, ∃ dA,
    effects trA = [OutSend wa (WdData dA)] ∧
  ∀ pathE pathA d1 d2, Forall (passes sid) pathE → Forall (passes sid) pathA →
    travels sid w1 we pathE dE d1 → travels sid w2 wa pathA dA d2 →
  ensures (calm_with (reads d1)) s (relay_event_step w1 sink (Some sid)) (λ _ _ s1,
  ensures (calm_with (reads d2)) s1 (relay_event_step w2 sink (Some sid)) (λ tr2 _ s2,
    tr2 = InRecv w2 :: twoway_cmds x (new_relay_circuit_success sid) ∧
  ∀ w, ensures calm s2 (write_relay_arc w (new_relay_circuit_success sid)) (λ trS _ _, ∃ dS,
    effects trS = [OutSend w (WdData dS)] ∧
  ∀ path d v node sc y cc, Forall (passes sid) path → travels sid v w path dS d →
    session_map sc !! sid = Some y → circuit_map sc !! sid = Some cc →
    session_role y = role_i32 AnswerRole ∨ session_role y = role_i32 CallerRole →
    ensures (calm_with (reads d)) sc (relay_event_step v node (Some sid)) (λ tr o s', s' = sc ∧
      o = Returned (inl (Some sid)) ∧
      tr = [InRecv v; Spawn (TaskHandshake cc
              (bool_decide (session_role y = role_i32 CallerRole)) sid node)])))))) ∧
  (∀ path v w d r e, signal sid r → Forall (passes sid) path → frame_of r d → conforms calm e →
     length (as_bytes sid) ≤ 3563 → ∃ d', travels sid v w path d d').
Proof.
  intros Hx Hrole Hprobe. split.
  - intros e1 n1 He1. destruct (write_signal_ensures we (new_relay_probe sid) sE e1 n1 He1) as (_ & dE & HtrE & HdE).
    exists dE. split; [exact HtrE|]. intros e2 n2 He2.
    destruct (write_signal_ensures wa (new_relay_probe sid) sA e2 n2 He2) as (_ & dA & HtrA & HdA).
    exists dA. split; [exact HtrA|]. intros pathE pathA d1 d2 HpE HpA HtE HtA.
    pose proof (travels_conveys _ _ _ _ _ _ _ (signal_probe sid) HpE HdE HtE) as Hd1.
    pose proof (travels_conveys _ _ _ _ _ _ _ (signal_probe sid) HpA HdA HtA) as Hd2.
    apply wp_ensures. eapply probe_step_wp; [done..|]. rewrite Hprobe.
    apply wp_ensures. eapply probe_step_wp; [done|exact Hx|done|]. simpl. rewrite lookup_insert_eq.
    split; [done|]. split; [done|]. intros w e3 n3 He3.
    destruct (write_signal_ensures w (new_relay_circuit_success sid) (set_probe_map
      <[sid := mkProbe sid (probe_rand sid)]> s) e3 n3 He3) as (_ & dS & HtrS & HdS).
    exists dS. split; [exact HtrS|]. intros path d v node sc y cc Hp Ht Hy Hcc Hend.
    pose proof (travels_conveys _ _ _ _ _ _ _ (signal_success sid) Hp HdS Ht) as Hd.
    apply wp_ensures. by eapply success_step_wp.
  - intros path v w d r e Hr Hpath Hd He Hsid. destruct (signal_type _ _ Hr) as (t & Hty & Hset).
    eapply (travels_small sid r t); try done; [by apply passes_forward|by eapply signal_length].
Qed.

End SignalsProperties.

Section SignalsWitnesses.
Local Existing Instance toy.

Lemma circuit_established_witness :
  session_map toy_sink_state !! "sid"%string = Some (toy_session SinkRole) ∧
  ∃ d', travels "sid" (toy_stream "b" "3") (toy_stream "a" "0") [toy_hop] (pb_encode (sealed (new_relay_probe "sid") [])) d'.
Proof.
  split; [reflexivity|].
  refine (proj2 (@circuit_established toy toy_codec_laws toy_size_laws "sid" (toy_stream "e" "1") (toy_stream "a" "1")
    (toy_stream "e" "1") (toy_stream "l" "2") toy_node empty_shared empty_shared toy_sink_state
    (toy_session SinkRole) eq_refl eq_refl eq_refl) [toy_hop] _ _ _ _ (toy_env no_script)
    (signal_probe (EXT := toy) "sid") _ (frame_sealed (new_relay_probe "sid") [] _) (toy_env_calm no_script) _).
  - repeat constructor. exists (toy_session RelayRole). by split_and!.
  - reflexivity.
  - apply (bool_decide_unpack _). vm_compute. exact I.
Defined.

End SignalsWitnesses.
